(* ===== verification/_CoqProject ===== *)
-Q . S2P
Prelude.v
Ring.v
Kernel.v
Port.v
Spinlock.v
Smp.v
Sched.v
Bio.v
Cache.v
Log.v
LogCrash.v
StringC.v
Fs.v
FsLayout.v
FsBlock.v
FsFile.v
FsRw.v
FsCrash.v
FsDir.v
FsLink.v
FsInode.v
Mkfs.v
Console.v
Kalloc.v
Mp.v
Vm.v
VmMap.v
File.v
Proc.v
Tty.v
FsDemo.v
Irqchip.v
Kbd.v
Ide.v
Rtc.v
Time.v
Syscall.v
Exec.v
Sysfile.v
Trap.v
Segment.v
Life.v
Typing.v
TypingFs.v
TypingVm.v
TypingSys.v
TypingTrap.v
Ulib.v
Sh.v
Usys.v
Printf.v
Grep.v
Stdio.v
Cmds.v
Base64.v
Umalloc.v
ShRun.v
