(* ===== verification/Prelude.v ===== *)
(** * A verification of the Qwin-OS base system

    ** The program

    src/ holds a small Unix for 32-bit PCs. The kernel (src/kernel) runs
    processes with their own address spaces on one or more processors; its
    file system keeps files on a disk held in memory, every change of which
    goes through a redo log. Interrupts feed a terminal, a keyboard and a
    serial line. src/mkfs makes the disk image. src/userspace holds the C
    library, the shell and the commands.

    A trap enters the kernel ([trap]); a system call fetches its arguments
    through the page table of the process (syscall.c), and works on files
    (sysfile.c on file.c, pipe.c, fs.c, log.c, bio.c), processes (proc.c, exec.c)
    or memory (vm.c, kalloc.c). Shared tables are protected by spin locks; a
    process that has to wait calls [sleep], which hands the processor to the
    scheduler.

    ** How it is modelled

    The kernel's global variables and tables are the fields of one record,
    [Kernel.kst]. A C function is a function of the monad [M] below over that
    record; [K A] is [M kst A]. Pointers into a table are indices, pages of
    memory are bytes by address, integers are [Z] with the wrap-around of
    their width written out. A control path ends in one of the outcomes
    [Ok], [Panic] (with the message), [Switched] (it has called [swtch]),
    [Fault] (it follows a null or wild pointer), [Hang] (it spins for ever)
    and [NoFuel]. [wp m Q s] is total correctness: [m] returns from [s], with
    [Q]. [Sched.switches] is its counterpart for paths that end in the
    scheduler.

    User programs are trees of system calls ([Usys.prog]) whose answers are
    given by a trace.

    ** The files

    - [Prelude]: integers, the monad and its rules, flags, lists. [Ring]: ring
      buffers with free-running counters. [Kernel]: the data of
      kernel/include. [Port]: device accesses, with a history; what devices
      answer is the class [Ports].
    - [Spinlock] (spinlock.c), [Smp] (the same code, one memory access at a
      time, on several processors), [Sched] (sleep, wakeup and kill of proc.c).
    - [Bio] and [Cache] (bio.c, memdisk.c), [Log] and [LogCrash] (log.c).
    - [StringC] (string.c).
    - [Fs] (fs.c, device.c); [FsLayout], [FsBlock], [FsFile], [FsRw],
      [FsCrash], [FsDir], [FsLink], [FsInode] and [FsDemo] (its theorems);
      [Mkfs] (mkfs/mkfs.c).
    - [Console] and [Tty] (tty.c), [Kbd] (kbd.c, uart.c), [Irqchip] (picirq.c,
      ioapic.c, lapic.c, timer.c), [Ide] (ata.c), [Rtc] (rtc.c).
    - [Kalloc] (kalloc.c), [Mp] (mp.c), [Vm] and [VmMap] (vm.c), [Segment]
      ([seginit], [tvinit], [idtinit], vectors.pl).
    - [File] (file.c, pipe.c, null.c, zero.c), [Proc] and [Life] (proc.c), [Syscall]
      (syscall.c, sysproc.c, sysuser.c), [Exec] (exec.c), [Sysfile]
      (sysfile.c), [Trap] (trap.c and the table of system calls).
    - [Typing], [TypingFs], [TypingVm], [TypingSys], [TypingTrap]: the types of
      all kernel functions.
    - [Ulib], [Usys], [Printf], [Stdio], [Umalloc], [Time] (userspace/libc);
      [Sh] and [ShRun] (sh.c); [Grep], [Base64], [Cmds] (the commands).

    Each definition has the name of the C function it models; a loop is a
    definition of its own, named after the function.

    ** What is shown

    - Storage. A transaction is atomic across a crash at any disk write, and
      recovery may itself be interrupted ([LogCrash]). A write of a file in a
      transaction changes that file and no other, wholly or not at all across
      a crash ([FsCrash]); what is written is read back ([FsRw]); blocks are
      taken and given back one by one ([FsBlock]). [namei] finds the inode that
      the directories on the disk give for a path, and loses no reference
      ([FsDir]); [dirlink] adds a name and moves no other ([FsLink]); an inode
      that is changed and updated is found so when it is read again
      ([FsInode]). The image that mkfs writes is such a disk, with the files it
      was given ([Mkfs]). Its bitmap leaves the log free behind the data blocks:
      the theorems about writes ask that the free blocks found first, as many
      as the file lacks, are data blocks, and [Mkfs] shows that of its images
      for all data blocks that no file has.
    - Processes. The scheduler is fair; [exit] leaves a zombie, wakes the
      parent and hands the children to init; [wait] sleeps where [exit] finds
      it ([Life]). A pipe is a queue, and a writer that finds it full sleeps
      with the reader woken ([File]).
    - Memory. The page allocator is a stack of pages ([Kalloc]); [mappages]
      extends the translation of the hardware on its range only ([VmMap]);
      [malloc] and [free] keep a tiling of the heap ([Umalloc]).
    - Protection. With the tables the kernel installs, user code enters by the
      system call gate only ([Segment]); the argument functions let through
      exactly what lies in the process ([Syscall]), but for negative sizes.
    - Types. Whatever processes ask for and devices send, a control path that
      returns or gives up the processor leaves tables with their lengths, bytes
      and words in their ranges, and pointers into their tables
      ([TypingTrap]).
    - Locks. Under every interleaving of the accesses of any number of
      processors the code of spinlock.c implements the atomic acquire and
      release that the other files use ([Smp]).
    - Devices. The terminal is a line editor, whichever device sends the keys
      ([Tty], [Kbd]); the clock and the dates of user space are inverse to each
      other, up to the 32 bits of a time stamp, and agree with the calendar
      ([Rtc], [Time]); the processor tables
      of the BIOS are read as they are ([Mp]); numbers and the screen
      ([Console]).
    - Programs. The shell's parser accepts exactly its grammar ([Sh]), and a
      line starts the programs it names with the descriptors it gives them
      ([ShRun]); grep decides the language of a pattern ([Grep]); base64, wc,
      printf with atob, and the scan of the password file ([Base64], [Cmds],
      [Printf], [Stdio]).

    Theorems that show a fault of the code say so in their comment.

    ** Fuel and bounds

    Loops whose end the code does not state in a counter take fuel, and end in
    [NoFuel] when it is used up; since [wp] excludes [NoFuel], a theorem stated
    with [wp] shows that the fuel in the definition, or any amount from a
    stated bound on, is enough. Where a definition fixes the fuel it is a
    bound of the code itself: the size of a table or of the address space in
    pages ([Vm], [Kalloc], [Bio]), the length of a string or line ([Sh],
    [Stdio], [Grep]), the 32 digits of a word ([Console], [Printf]). [sleep] in
    a loop ends the control path, so that waiting loops need fuel for one more
    pass only. Programs that read input take the number of reads as fuel, and
    their theorems hold from the length of the input on. Where a loop has no
    end ([Mp.mpinit], [Base64]) the theorem says so for every amount.

    ** Parameters

    What is not code of src/ is an argument: the devices ([Ports],
    [CharSource], [SerialLine]), the addresses the linker assigns ([Layout]),
    the functions behind the device table, for the file system ([DevOps],
    given by [Tty.dev_ops]), the first program's code, the files of the host,
    the answers of the kernel to user programs, and the values of variables
    the code reads uninitialised.

    ** Not modelled

    - main.c and bootx.c: the order of the initialisers, and the start of the
      other processors; the initialisers themselves are modelled.
    - The assembly files: boot.S, entryother.S, initcode.S, swtch.S and
      trapasm.S. Their effect is the outcome [Switched] and the trap frame
      given to [trap].
    - panic.c, which prints and stops (the outcome [Panic]); [getcallerpcs],
      which reads the stack for it; acpi.c, which no build compiles.
    - Interleaving of processors outside [Smp]: a control path of the kernel
      runs to its next switch; other paths come before or after it. What a path
      does when it gets the processor back after [sleep] or [yield] is not
      joined to what it did before; the loops around [sleep] test their
      condition again, which is what the second part would start with.
    - The video controller's own registers: the cursor position is a field of
      the state ([k_pos]) instead of two ports.
    - The kernel below the shell: [ShRun.launch] gives the answers of a kernel
      in which [fork] and [pipe] do not run out of memory or slots; it is not
      derived from [Proc] and [Sysfile].
    - Memory of user programs outside [Umalloc]: [malloc] is taken to succeed,
      and [freeEnvironment] and [freeVarval] of the shell,
      which only give memory back, are left out.
    - Headers without code, the build files and the linker script. *)

From stdpp Require Import prelude gmap strings.

#[global] Open Scope Z_scope.

(** ** Machine integers

    A C integer of width [w] is a [Z] in the range of its type; the
    wrap-around of the arithmetic is written out with these functions. *)

Definition u8 (x : Z) : Z := x `mod` 2 ^ 8.
Definition u16 (x : Z) : Z := x `mod` 2 ^ 16.
Definition u32 (x : Z) : Z := x `mod` 2 ^ 32.

(** The low [w] bits read as a two's complement integer. *)
Definition sgn (w : Z) (x : Z) : Z :=
  let y := x `mod` 2 ^ w in if y <? 2 ^ (w - 1) then y else y - 2 ^ w.
Definition s8 (x : Z) : Z := sgn 8 x.
Definition s16 (x : Z) : Z := sgn 16 x.
Definition s32 (x : Z) : Z := sgn 32 x.

(** Truth value of a C integer, and the C value of a comparison. *)
Definition cbool (x : Z) : bool := negb (x =? 0).
Definition of_bool (b : bool) : Z := if b then 1 else 0.

Lemma u32_range x : 0 <= u32 x < 2 ^ 32.
Proof. unfold u32. apply Z.mod_pos_bound. lia. Qed.

Lemma u32_small x : 0 <= x < 2 ^ 32 -> u32 x = x.
Proof. intros. unfold u32. by apply Z.mod_small. Qed.

Lemma u32_idem x : u32 (u32 x) = u32 x.
Proof. apply u32_small, u32_range. Qed.

Lemma sgn_small w x : 0 < w -> 0 <= x < 2 ^ (w - 1) -> sgn w x = x.
Proof.
  intros Hw Hx. unfold sgn.
  assert (2 ^ w = 2 * 2 ^ (w - 1)).
  { rewrite <- Z.pow_succ_r by lia. f_equal. lia. }
  rewrite Z.mod_small by lia. destruct (Z.ltb_spec x (2 ^ (w - 1))); lia.
Qed.

Lemma sgn_range w x : 0 < w -> - 2 ^ (w - 1) <= sgn w x < 2 ^ (w - 1).
Proof.
  intros Hw. unfold sgn.
  assert (2 ^ w = 2 * 2 ^ (w - 1)).
  { rewrite <- Z.pow_succ_r by lia. f_equal. lia. }
  assert (0 < 2 ^ (w - 1)) by (apply Z.pow_pos_nonneg; lia).
  pose proof (Z.mod_pos_bound x (2 ^ w)).
  destruct (Z.ltb_spec (x `mod` 2 ^ w) (2 ^ (w - 1))); lia.
Qed.

Lemma sgn_mod w x : 0 < w -> sgn w (x `mod` 2 ^ w) = sgn w x.
Proof. intros. unfold sgn. rewrite Z.mod_mod; [done|]. apply Z.pow_nonzero; lia. Qed.

(** A value in the signed range survives the trip through its bits. *)
Lemma sgn_id w x : 0 < w -> - 2 ^ (w - 1) <= x < 2 ^ (w - 1) -> sgn w x = x.
Proof.
  intros Hw Hx. destruct (Z.le_gt_cases 0 x) as [|Hneg].
  { apply sgn_small; lia. }
  unfold sgn.
  assert (2 ^ w = 2 * 2 ^ (w - 1)).
  { rewrite <- Z.pow_succ_r by lia. f_equal. lia. }
  assert (x `mod` 2 ^ w = x + 2 ^ w) as ->.
  { rewrite <- (Z.mod_small (x + 2 ^ w) (2 ^ w)) by lia.
    rewrite <- Zplus_mod_idemp_r, Z_mod_same_full. f_equal. lia. }
  destruct (Z.ltb_spec (x + 2 ^ w) (2 ^ (w - 1))); lia.
Qed.

(** ** Lists of bytes *)

Notation bytes := (list Z).

Definition is_byte (b : Z) : Prop := 0 <= b < 256.

(** [n] bytes of [l] from offset [o]. *)
Definition slice {A} (l : list A) (o n : nat) : list A := take n (drop o l).

(** [l] with the bytes from offset [o] on overwritten by [bs]:
    [memmove(l + o, bs, length bs)]. *)
Definition splice {A} (l : list A) (o : nat) (bs : list A) : list A :=
  take o l ++ bs ++ drop (o + length bs) l.

(** A block or page filled with one byte value: [memset]. *)
Definition fill (n : nat) (c : Z) : bytes := replicate n (u8 c).

(** Little-endian encoding of integers in memory (x86). *)
Fixpoint le_bytes (n : nat) (x : Z) : bytes :=
  match n with
  | O => []
  | S n => x `mod` 256 :: le_bytes n (x / 256)
  end.

Fixpoint le_val (l : bytes) : Z :=
  match l with
  | [] => 0
  | b :: l => b + 256 * le_val l
  end.

Definition get16 (l : bytes) (o : nat) : Z := le_val (slice l o 2).
Definition get32 (l : bytes) (o : nat) : Z := le_val (slice l o 4).
Definition put16 (l : bytes) (o : nat) (v : Z) : bytes := splice l o (le_bytes 2 v).
Definition put32 (l : bytes) (o : nat) (v : Z) : bytes := splice l o (le_bytes 4 v).

(** The rewrite database of list lengths. *)
Create HintDb len.

Lemma length_slice {A} (l : list A) o n :
  (o + n <= length l)%nat -> length (slice l o n) = n.
Proof. intros. unfold slice. rewrite length_take, length_drop. lia. Qed.

Lemma length_splice {A} (l : list A) o bs :
  (o + length bs <= length l)%nat -> length (splice l o bs) = length l.
Proof.
  intros. unfold splice. rewrite !length_app, length_take, length_drop. lia.
Qed.

Lemma length_le_bytes n x : length (le_bytes n x) = n.
Proof. revert x. induction n; intros; simpl; auto. Qed.

#[export] Hint Rewrite @length_app @length_take @length_drop @length_replicate
  @length_insert @length_fmap @length_le_bytes : len.
#[export] Hint Rewrite @length_splice @length_slice using (autorewrite with len; lia) : len.

Ltac len := autorewrite with len; simpl; try lia.

Lemma slice_app_l {A} (l k : list A) o n :
  (o + n <= length l)%nat -> slice (l ++ k) o n = slice l o n.
Proof.
  intros. unfold slice. rewrite drop_app_le by lia. rewrite take_app_le; [done|].
  rewrite length_drop. lia.
Qed.

Lemma slice_app_r {A} (l k : list A) o n :
  (length l <= o)%nat -> slice (l ++ k) o n = slice k (o - length l) n.
Proof. intros. unfold slice. by rewrite drop_app_ge by lia. Qed.

Lemma slice_full {A} (l : list A) : slice l 0 (length l) = l.
Proof. unfold slice. rewrite drop_0. apply take_ge. done. Qed.

(** Reading back what was written. *)
Lemma slice_splice_same {A} (l : list A) o bs :
  (o + length bs <= length l)%nat -> slice (splice l o bs) o (length bs) = bs.
Proof.
  intros. unfold splice. rewrite slice_app_r by len.
  rewrite slice_app_l by len.
  replace (o - length (take o l))%nat with O by len. apply slice_full.
Qed.

(** Reading a range disjoint from the one written. *)
Lemma slice_splice_other {A} (l : list A) o bs o' n :
  (o + length bs <= length l)%nat ->
  (o' + n <= o \/ o + length bs <= o')%nat ->
  slice (splice l o bs) o' n = slice l o' n.
Proof.
  intros Hl [Hlt|Hge]; unfold splice.
  - rewrite slice_app_l by len. unfold slice.
    rewrite <- (take_drop o l) at 2. rewrite drop_app_le by len.
    rewrite take_app_le by len. done.
  - rewrite app_assoc, slice_app_r by len.
    unfold slice. rewrite drop_drop. f_equal. f_equal. len.
Qed.

Lemma lookup_splice_other {A} (l : list A) o bs i :
  (o + length bs <= length l)%nat ->
  (i < o \/ o + length bs <= i)%nat ->
  splice l o bs !! i = l !! i.
Proof.
  intros Hl [Hlt|Hge]; unfold splice.
  - rewrite lookup_app_l by len. by rewrite lookup_take_lt by lia.
  - rewrite app_assoc, lookup_app_r by len. rewrite lookup_drop. f_equal. len.
Qed.

Lemma lookup_splice_in {A} (l : list A) o bs i :
  (o <= length l)%nat -> (o <= i < o + length bs)%nat ->
  splice l o bs !! i = bs !! (i - o)%nat.
Proof.
  intros. unfold splice. rewrite lookup_app_r by len. rewrite lookup_app_l by len.
  f_equal. len.
Qed.

Lemma le_val_bytes n x : le_val (le_bytes n x) = x `mod` 256 ^ Z.of_nat n.
Proof.
  revert x. induction n as [|n IH]; intros x.
  { by rewrite Z.mod_1_r. }
  simpl le_bytes. simpl le_val. rewrite IH.
  rewrite Nat2Z.inj_succ, Z.pow_succ_r by lia.
  rewrite Z.rem_mul_r; [lia|lia|]. apply Z.pow_pos_nonneg; lia.
Qed.

Lemma le_bytes_val l : Forall is_byte l -> le_bytes (length l) (le_val l) = l.
Proof.
  induction 1 as [|b l Hb Hl IH]; [done|]. unfold is_byte in Hb. simpl.
  f_equal.
  - rewrite Z.mul_comm, Z_mod_plus_full. by apply Z.mod_small.
  - rewrite Z.mul_comm, Z.div_add by lia. rewrite Z.div_small by lia. by rewrite Z.add_0_l.
Qed.

Lemma le_bytes_is_byte n x : Forall is_byte (le_bytes n x).
Proof.
  revert x. induction n; intros; simpl; constructor; auto.
  unfold is_byte. apply Z.mod_pos_bound. lia.
Qed.

Lemma le_val_range l : Forall is_byte l -> 0 <= le_val l < 256 ^ Z.of_nat (length l).
Proof.
  induction 1 as [|b l Hb Hl IH]; [done|]. unfold is_byte in Hb.
  simpl length. rewrite Nat2Z.inj_succ, Z.pow_succ_r by lia. simpl. lia.
Qed.

Lemma get32_put32 l o v :
  (o + 4 <= length l)%nat -> get32 (put32 l o v) o = u32 v.
Proof.
  intros. unfold get32, put32.
  pose proof (slice_splice_same l o (le_bytes 4 v)) as HS.
  rewrite length_le_bytes in HS. rewrite HS by lia. apply le_val_bytes.
Qed.

Lemma get32_put32_ne l o o' v :
  (o + 4 <= length l)%nat -> (o' + 4 <= o \/ o + 4 <= o')%nat ->
  get32 (put32 l o v) o' = get32 l o'.
Proof.
  intros. unfold get32, put32. rewrite slice_splice_other; [done| |]; rewrite length_le_bytes; lia.
Qed.

Lemma length_put32 l o v : (o + 4 <= length l)%nat -> length (put32 l o v) = length l.
Proof. intros. unfold put32. apply length_splice. by rewrite length_le_bytes. Qed.
#[export] Hint Rewrite length_put32 using (autorewrite with len; lia) : len.

(** Total indexing, as in C where an index is used unchecked (the model uses
    it only for indices that the code keeps in range). *)
Notation "l .[ i ]" := (l !!! Z.to_nat i) (at level 2, left associativity, format "l .[ i ]").

(** The bytes of a string literal, without the terminating NUL. *)
Definition ascii_code (c : Ascii.ascii) : Z := Z.of_nat (Ascii.nat_of_ascii c).
Definition str (s : string) : bytes := ascii_code <$> String.list_ascii_of_string s.

(** ** Kernel control paths

    A kernel function is a function from the state to an outcome. A control
    path ends by returning, by a [panic], by handing the CPU to the scheduler
    ([swtch] in [sched]), by an access outside an object (undefined in C), by
    spinning on a lock another CPU holds, or by exhausting the fuel of a loop
    whose termination is a theorem. *)

Inductive outcome (St A : Type) : Type :=
| Ok (a : A) (s : St)
| Panic (msg : string)
| Switched (s : St)
| Fault
| Hang
| NoFuel.
Arguments Ok {_ _} a s.
Arguments Panic {_ _} msg.
Arguments Switched {_ _} s.
Arguments Fault {_ _}.
Arguments Hang {_ _}.
Arguments NoFuel {_ _}.

Definition M (St A : Type) : Type := St -> outcome St A.

Section monad.
Context {St : Type}.

Definition ret {A} (a : A) : M St A := fun s => Ok a s.
Definition panic {A} (msg : string) : M St A := fun _ => Panic msg.
Definition fault {A} : M St A := fun _ => Fault.
Definition gets {A} (f : St -> A) : M St A := fun s => Ok (f s) s.
Definition modify (f : St -> St) : M St unit := fun s => Ok tt (f s).

Definition bind {A B} (m : M St A) (k : A -> M St B) : M St B := fun s =>
  match m s with
  | Ok a s' => k a s'
  | Panic msg => Panic msg
  | Switched s' => Switched s'
  | Fault => Fault
  | Hang => Hang
  | NoFuel => NoFuel
  end.

(** Total correctness: the control path returns, and [Q] holds of the
    result and the final state. *)
Definition wp {A} (m : M St A) (Q : A -> St -> Prop) (s : St) : Prop :=
  match m s with
  | Ok a s' => Q a s'
  | _ => False
  end.
End monad.

Declare Scope kernel_scope.
Delimit Scope kernel_scope with kernel.
Notation "x <- m ;; k" := (bind m (fun x => k))
  (at level 100, m at next level, right associativity) : kernel_scope.
Notation "' p <- m ;; k" := (bind m (fun x => match x with p => k end))
  (at level 100, p pattern, m at next level, right associativity) : kernel_scope.
Notation "m ;; k" := (bind m (fun _ => k))
  (at level 100, right associativity) : kernel_scope.
Notation "'when' c 'do' m" := (if c then m else ret tt)
  (at level 99, c at level 60, m at level 60) : kernel_scope.
#[global] Open Scope kernel_scope.

Section wp_rules.
Context {St : Type}.
Implicit Types s : St.

Lemma wp_ret {A} (a : A) Q s : Q a s -> wp (ret a) Q s.
Proof. done. Qed.

Lemma wp_gets {A} (f : St -> A) Q s : Q (f s) s -> wp (gets f) Q s.
Proof. done. Qed.

Lemma wp_modify f Q s : Q tt (f s) -> wp (modify f) Q s.
Proof. done. Qed.

Lemma wp_bind {A B} (m : M St A) (k : A -> M St B) Q s :
  wp m (fun a => wp (k a) Q) s -> wp (bind m k) Q s.
Proof. unfold wp, bind. destruct (m s); done. Qed.

(** Two steps taken as one. *)
Lemma wp_bind2 {A B C} (m : M St A) (k : M St B) (k' : B -> M St C) Q s :
  wp (bind m (fun _ => k)) (fun b => wp (k' b) Q) s ->
  wp (bind m (fun _ => bind k k')) Q s.
Proof. unfold wp, bind. destruct (m s); [|done..]. by destruct (k s0). Qed.

(** A step and the next as one control path. *)
Lemma wp_bind2' {A B C} (m : M St A) (k : A -> M St B) (k' : B -> M St C) Q s :
  wp (bind m k) (fun b => wp (k' b) Q) s -> wp (bind m (fun a => bind (k a) k')) Q s.
Proof. unfold wp, bind. destruct (m s) as [a s'| | | | |]; [|done..]. by destruct (k a s'). Qed.

Lemma wp_mono {A} (m : M St A) (P Q : A -> St -> Prop) s :
  wp m P s -> (forall a s', P a s' -> Q a s') -> wp m Q s.
Proof. unfold wp. destruct (m s); naive_solver. Qed.

Lemma wp_Ok {A} (m : M St A) Q s :
  wp m Q s <-> exists a s', m s = Ok a s' /\ Q a s'.
Proof. unfold wp. destruct (m s); naive_solver. Qed.

Lemma wp_and {A} (m : M St A) P Q s :
  wp m P s -> wp m Q s -> wp m (fun a s' => P a s' /\ Q a s') s.
Proof. unfold wp. by destruct (m s). Qed.

(** The state a control path that returns leaves. *)
Definition final {A} (m : M St A) s : St := match m s with Ok _ s' => s' | _ => s end.

Lemma wp_final {A} (m : M St A) P s : wp m (fun _ s' => P s') s -> P (final m s).
Proof. unfold wp, final. by destruct (m s). Qed.
End wp_rules.

(** [kstep] runs the administrative steps of a control path. *)
Ltac kstep1 :=
  lazymatch goal with
  | |- wp (bind _ _) _ _ => apply wp_bind
  | |- wp (ret _) _ _ => apply wp_ret
  | |- wp (gets _) _ _ => apply wp_gets
  | |- wp (modify _) _ _ => apply wp_modify
  end.
Ltac kstep := repeat (kstep1; cbv beta).

(** ** Flag words

    [fl & m], [fl |= m] and [fl &= ~m] for a mask [m]. *)

Definition has (fl m : Z) : bool := negb (Z.land fl m =? 0).
Definition setf (fl m : Z) : Z := Z.lor fl m.
Definition clrf (fl m : Z) : Z := Z.land fl (Z.lnot m).

(** For a one-bit mask the test is a bit test, so that updates of other bits
    do not interfere. *)
Lemma has_testbit fl k : 0 <= k -> has fl (2 ^ k) = Z.testbit fl k.
Proof.
  intros Hk. unfold has. destruct (Z.testbit fl k) eqn:E.
  - apply negb_true_iff, Z.eqb_neq. intros H0.
    assert (Z.testbit (Z.land fl (2 ^ k)) k = true) as Ht.
    { by rewrite Z.land_spec, E, Z.pow2_bits_true. }
    rewrite H0, Z.testbit_0_l in Ht. done.
  - apply negb_false_iff, Z.eqb_eq. apply Z.bits_inj'. intros n Hn.
    rewrite Z.land_spec, Z.testbit_0_l. destruct (decide (n = k)) as [->|Hne].
    + by rewrite E.
    + rewrite Z.pow2_bits_false by done. apply andb_false_r.
Qed.

Lemma setf_testbit fl k n : 0 <= k -> 0 <= n ->
  Z.testbit (setf fl (2 ^ k)) n = Z.testbit fl n || (n =? k).
Proof.
  intros. unfold setf. rewrite Z.lor_spec, Z.pow2_bits_eqb by done.
  by rewrite (Z.eqb_sym k n).
Qed.

Lemma clrf_testbit fl k n : 0 <= k -> 0 <= n ->
  Z.testbit (clrf fl (2 ^ k)) n = Z.testbit fl n && negb (n =? k).
Proof.
  intros. unfold clrf. rewrite Z.land_spec, Z.lnot_spec, Z.pow2_bits_eqb by done.
  by rewrite (Z.eqb_sym k n).
Qed.

(** ** Tables: total lookup and update by index *)

Lemma lookup_total_alter_eq `{Inhabited A} (f : A -> A) (l : list A) i :
  (i < length l)%nat -> alter f i l !!! i = f (l !!! i).
Proof.
  intros Hi. destruct (lookup_lt_is_Some_2 l i Hi) as [x Hx].
  rewrite !list_lookup_total_alt, list_lookup_alter_eq, Hx. done.
Qed.

Lemma lookup_total_alter_ne `{Inhabited A} (f : A -> A) (l : list A) i j :
  i <> j -> alter f i l !!! j = l !!! j.
Proof. intros. by rewrite !list_lookup_total_alt, list_lookup_alter_ne. Qed.

#[export] Hint Rewrite @length_alter : len.

(** Function update. *)
Definition fupd {A B} `{EqDecision A} (f : A -> B) (k : A) (v : B) : A -> B :=
  fun x => if decide (x = k) then v else f x.

Lemma fupd_eq {A B} `{EqDecision A} (f : A -> B) k v : fupd f k v k = v.
Proof. unfold fupd. by rewrite decide_True. Qed.

Lemma fupd_ne {A B} `{EqDecision A} (f : A -> B) k v x : x <> k -> fupd f k v x = f x.
Proof. intros. unfold fupd. by rewrite decide_False. Qed.

Lemma lookup_total_alter `{Inhabited A} (f : A -> A) (l : list A) i j :
  (i < length l)%nat -> alter f i l !!! j = if decide (j = i) then f (l !!! i) else l !!! j.
Proof.
  intros. case_decide; subst.
  - by apply lookup_total_alter_eq.
  - by apply lookup_total_alter_ne.
Qed.

Lemma list_filter_iff' {A} (P Q : A -> Prop) `{!forall x, Decision (P x), !forall x, Decision (Q x)} (l : list A) :
  (forall x, x ∈ l -> P x <-> Q x) -> filter P l = filter Q l.
Proof.
  induction l as [|x l IH]; intros HPQ; [done|]. rewrite !filter_cons. rewrite IH by set_solver.
  pose proof (HPQ x ltac:(set_solver)). repeat case_decide; naive_solver.
Qed.

Lemma filter_none {A} (P : A -> Prop) `{!forall x, Decision (P x)} l : Forall (fun x => ~ P x) l -> filter P l = [].
Proof. induction 1; [done|]. by rewrite filter_cons_False. Qed.
Lemma filter_all {A} (P : A -> Prop) `{!forall x, Decision (P x)} l : Forall P l -> filter P l = l.
Proof. induction 1; [done|]. rewrite filter_cons_True by done. by f_equal. Qed.

Lemma filter_ne_notin `{EqDecision A} (x : A) (l : list A) :
  x ∉ l -> filter (fun y => y <> x) l = l.
Proof.
  induction l as [|y l IH]; [done|]. rewrite not_elem_of_cons. intros [Hne Hl].
  rewrite filter_cons_True by done. by rewrite IH.
Qed.

Lemma list_alter_alter {A} (f g : A -> A) (l : list A) i :
  alter f i (alter g i l) = alter (fun x => f (g x)) i l.
Proof. revert i. induction l as [|x l IH]; intros [|i]; [done..|]. cbn. f_equal. apply IH. Qed.

Lemma list_alter_ext' {A} (f g : A -> A) (l : list A) i :
  (forall x, f x = g x) -> alter f i l = alter g i l.
Proof. intros H. revert i. induction l as [|x l IH]; intros [|i]; cbn; f_equal; auto. Qed.

(** Two updates of an entry agree when they agree on the entry. *)
Lemma list_alter_at `{Inhabited A} (f g : A -> A) (l : list A) i :
  f (l !!! i) = g (l !!! i) -> alter f i l = alter g i l.
Proof.
  revert i. induction l as [|x l IH]; intros [|i] Hi; [done..| |]; cbn in *; [congruence|].
  f_equal. by apply IH.
Qed.

Lemma find_ext_in {A} (f g : A -> bool) (l : list A) :
  (forall x, x ∈ l -> f x = g x) -> List.find f l = List.find g l.
Proof.
  induction l as [|x l IH]; intros H; [done|]. cbn. rewrite (H x) by set_solver.
  destruct (g x); [done|]. apply IH. intros y Hy. apply H. set_solver.
Qed.
