(* ===== verification/Ring.v ===== *)
(** * Ring buffers with free-running counters

    Pipes and the terminal keep bytes in an array of [m] slots, indexed by
    32-bit counters that are reduced modulo [m] at each access and otherwise
    run on, wrapping around at 2^32. [ring_view buf m from n] are the [n]
    bytes from the counter value [from] on. *)

From stdpp Require Import prelude.
From S2P Require Import Prelude.

Definition ring_slot (m k : Z) : nat := Z.to_nat (k mod m).
Definition ring_view (buf : bytes) (m from : Z) (n : nat) : bytes :=
  (fun k => buf !!! ring_slot m (from + Z.of_nat k)) <$> seq 0 n.

#[global] Arguments ring_view : simpl never.

(** The distance of two counters. *)
Definition ring_count (from to : Z) : nat := Z.to_nat (u32 (to - from)).

Lemma length_ring_view buf m from n : length (ring_view buf m from n) = n.
Proof. unfold ring_view. by rewrite length_fmap, length_seq. Qed.
#[export] Hint Rewrite length_ring_view : len.

Section ring.
Context (m : Z) (Hm : 0 < m) (Hdiv : (m | 2 ^ 32)).

Lemma u32_mod_ring x : u32 x mod m = x mod m.
Proof.
  destruct Hdiv as [q Hq]. unfold u32. rewrite Hq.
  assert (0 < q) by nia. rewrite Z.mul_comm, Z.rem_mul_r by lia.
  rewrite Z.mul_comm, Z_mod_plus_full. by apply Z.mod_mod; lia.
Qed.

Lemma ring_slot_u32 x k : ring_slot m (u32 x + k) = ring_slot m (x + k).
Proof.
  unfold ring_slot. by rewrite <- Zplus_mod_idemp_l, u32_mod_ring, Zplus_mod_idemp_l.
Qed.

Lemma ring_view_u32 buf x n : ring_view buf m (u32 x) n = ring_view buf m x n.
Proof. apply list_fmap_ext. intros i k _. by rewrite ring_slot_u32. Qed.

Lemma ring_slot_lt k : (ring_slot m k < Z.to_nat m)%nat.
Proof. unfold ring_slot. pose proof (Z.mod_pos_bound k m). lia. Qed.

Lemma mod_add_inj x j k : 0 <= j < m -> 0 <= k < m -> (x + j) mod m = (x + k) mod m -> j = k.
Proof.
  intros Hj Hk H. rewrite <- (Z.mod_small j m), <- (Z.mod_small k m) by lia.
  replace j with (x + j - x) by lia. replace k with (x + k - x) by lia.
  by rewrite <- Zminus_mod_idemp_l, H, Zminus_mod_idemp_l.
Qed.

(** Slots at different distances below [m] from a counter differ. *)
Lemma ring_slot_ne x j k : 0 <= j < m -> 0 <= k < m -> j <> k ->
  ring_slot m (x + j) <> ring_slot m (x + k).
Proof.
  intros Hj Hk Hne E. unfold ring_slot in E.
  apply Z2Nat.inj in E; [|apply Z.mod_pos_bound; done..]. by apply mod_add_inj in E.
Qed.

Lemma ring_view_app buf from n1 n2 :
  ring_view buf m from (n1 + n2) =
  ring_view buf m from n1 ++ ring_view buf m (from + Z.of_nat n1) n2.
Proof.
  unfold ring_view. rewrite seq_app, fmap_app. f_equal. cbn.
  rewrite <- (Nat.add_0_r n1) at 1. rewrite <- fmap_add_seq, <- list_fmap_compose.
  apply list_fmap_ext. intros i k _. cbn. do 2 f_equal. lia.
Qed.

Lemma ring_view_1 buf from : ring_view buf m from 1 = [buf !!! ring_slot m from].
Proof. unfold ring_view. cbn. by rewrite Z.add_0_r. Qed.

(** Writing a slot that is [j] places on from [from]. *)
Lemma ring_view_insert_ne buf from n j c :
  Z.of_nat n <= j < m ->
  ring_view (<[ring_slot m (from + j) := c]> buf) m from n = ring_view buf m from n.
Proof.
  intros Hj. apply list_fmap_ext. intros i k Hk. apply lookup_seq in Hk as [-> Hk].
  apply list_lookup_total_insert_ne. apply ring_slot_ne; lia.
Qed.

Lemma ring_view_snoc buf from n c :
  length buf = Z.to_nat m -> Z.of_nat n < m ->
  ring_view (<[ring_slot m (from + Z.of_nat n) := c]> buf) m from (S n) =
  ring_view buf m from n ++ [c].
Proof.
  intros Hl Hn. replace (S n) with (n + 1)%nat by lia.
  rewrite ring_view_app, ring_view_1, ring_view_insert_ne by lia. do 2 f_equal.
  apply list_lookup_total_insert_eq. rewrite Hl. apply ring_slot_lt.
Qed.

Lemma ring_view_cons buf from n :
  ring_view buf m from (S n) = buf !!! ring_slot m from :: ring_view buf m (from + 1) n.
Proof. replace (S n) with (1 + n)%nat by lia. by rewrite ring_view_app, ring_view_1. Qed.
End ring.

(** ** Distances *)

Lemma ring_count_succ from to : Z.of_nat (ring_count from to) + 1 < 2 ^ 32 ->
  ring_count from (u32 (to + 1)) = S (ring_count from to).
Proof.
  unfold ring_count, u32. intros Hc. rewrite Zminus_mod_idemp_l.
  replace (to + 1 - from) with (to - from + 1) by lia. rewrite <- Zplus_mod_idemp_l.
  pose proof (Z.mod_pos_bound (to - from) (2 ^ 32)).
  set (d := (to - from) mod _) in *. rewrite (Z.mod_small (d + 1)) by lia. lia.
Qed.

Lemma ring_count_pred from to : ring_count from to <> O ->
  ring_count from to = S (ring_count from (u32 (to - 1))).
Proof.
  unfold ring_count, u32. intros Hc. rewrite Zminus_mod_idemp_l.
  replace (to - 1 - from) with (to - from - 1) by lia.
  rewrite <- (Zminus_mod_idemp_l (to - from) 1).
  pose proof (Z.mod_pos_bound (to - from) (2 ^ 32)).
  set (d := (to - from) mod _) in *. rewrite (Z.mod_small (d - 1)) by lia. lia.
Qed.

Lemma ring_count_skip from to : ring_count from to <> O ->
  ring_count from to = S (ring_count (u32 (from + 1)) to).
Proof.
  unfold ring_count, u32. intros Hc. rewrite Zminus_mod_idemp_r, Z.sub_add_distr.
  rewrite <- (Zminus_mod_idemp_l (to - from) 1).
  pose proof (Z.mod_pos_bound (to - from) (2 ^ 32)).
  set (d := (to - from) mod _) in *. rewrite (Z.mod_small (d - 1)) by lia. lia.
Qed.

Lemma ring_count_0 from to : 0 <= from < 2 ^ 32 -> 0 <= to < 2 ^ 32 ->
  ring_count from to = O <-> from = to.
Proof.
  unfold ring_count, u32. intros Hf Ht. split; [|intros ->; by rewrite Z.sub_diag].
  intros H. pose proof (Z.mod_pos_bound (to - from) (2 ^ 32)).
  assert ((to - from) mod 2 ^ 32 = 0) as E by lia.
  apply Z.mod_divide in E as [k Hk]; [|lia]. assert (k = 0) as -> by lia. lia.
Qed.

(** The counter at distance [ring_count from to]. *)
Lemma ring_count_add from to : 0 <= to < 2 ^ 32 -> u32 (from + Z.of_nat (ring_count from to)) = to.
Proof.
  intros Ht. unfold ring_count. rewrite Z2Nat.id by apply u32_range. unfold u32.
  rewrite Zplus_mod_idemp_r, Zplus_minus. by apply Z.mod_small.
Qed.

(** Three counters in order. *)
Lemma ring_count_split a b c : Z.of_nat (ring_count a b) + Z.of_nat (ring_count b c) < 2 ^ 32 ->
  ring_count a c = (ring_count a b + ring_count b c)%nat.
Proof.
  unfold ring_count. intros H. rewrite !Z2Nat.id in H by apply u32_range.
  rewrite <- Z2Nat.inj_add by apply u32_range. f_equal.
  rewrite <- (u32_small (u32 (b - a) + _)) by (pose proof (u32_range (b - a)); pose proof (u32_range (c - b)); lia).
  unfold u32. rewrite <- Zplus_mod. f_equal. lia.
Qed.
