(* ===== verification/Kernel.v ===== *)
(** * The kernel's data

    The parameters of kernel/include/param.h, the structures of the other
    headers, and the state the kernel's files share: one record with a field
    per global variable or table. *)

From stdpp Require Import prelude gmap strings.
From S2P Require Import Prelude.

(** ** Parameters *)

Definition NPROC : nat := 64.
Definition KSTACKSIZE : Z := 4096.
Definition NOFILE : nat := 16.
Definition NFILE : nat := 100.
Definition NBUF : nat := 10.
Definition NINODE : nat := 50.
Definition NDEV : Z := 10.
Definition ROOTDEV : Z := 1.
Definition LOGSIZE : nat := 10.

Definition T_DIR : Z := 1.
Definition T_FILE : Z := 2.
Definition T_DEV : Z := 3.

Definition ROOTINO : Z := 1.
Definition BSIZE : Z := 512.
Definition NDIRECT : Z := 12.
Definition NINDIRECT : Z := BSIZE / 4.
Definition MAXFILE : Z := NDIRECT + NINDIRECT.
Definition DIRSIZ : nat := 14.

(** Pointers into the tables are indices; the null pointer is [None]. *)

(** ** Locks and sleep channels

    A lock or a channel is identified by its address in C; distinct addresses
    are distinct constructors here. *)

Inductive lockid :=
| LBcache | LLog | LIcache | LFtable | LPtable | LKmem | LTicks | LCons | LInput
| LIde | LPipe (p : Z).

#[export] Instance lockid_eq_dec : EqDecision lockid.
Proof. solve_decision. Defined.

#[export] Instance lockid_countable : Countable lockid.
Proof.
  refine (inj_countable'
    (fun l => match l with
              | LBcache => inl 0%nat | LLog => inl 1%nat | LIcache => inl 2%nat
              | LFtable => inl 3%nat | LPtable => inl 4%nat | LKmem => inl 5%nat
              | LTicks => inl 6%nat | LCons => inl 7%nat | LInput => inl 8%nat
              | LIde => inl 9%nat
              | LPipe p => inr p end)
    (fun x => match x with
              | inl 0%nat => LBcache | inl 1%nat => LLog | inl 2%nat => LIcache
              | inl 3%nat => LFtable | inl 4%nat => LPtable | inl 5%nat => LKmem
              | inl 6%nat => LTicks | inl 7%nat => LCons | inl 8%nat => LInput
              | inl _ => LIde
              | inr p => LPipe p end) _).
  by intros [].
Defined.

Inductive chan :=
| CBuf (i : nat) | CInode (i : nat) | CLog | CPipeRead (p : Z) | CPipeWrite (p : Z)
| CProc (i : nat) | CTicks | CInput.

#[export] Instance chan_eq_dec : EqDecision chan.
Proof. solve_decision. Defined.

(** ** CPUs and processes *)

(** The CPU that runs the control path: the fields of [struct cpu] the code
    uses, and the interrupt flag of its eflags register. *)
Record cpu := Cpu {
  c_id : nat;
  c_ncli : Z;
  c_intena : bool;
  c_if : bool;
  c_proc : option nat
}.

Inductive procstate := UNUSED | EMBRYO | SLEEPING | RUNNABLE | RUNNING | ZOMBIE.

#[export] Instance procstate_eq_dec : EqDecision procstate.
Proof. solve_decision. Defined.

Record trapframe := Trapframe {
  tf_edi : Z; tf_esi : Z; tf_ebp : Z; tf_oesp : Z;
  tf_ebx : Z; tf_edx : Z; tf_ecx : Z; tf_eax : Z;
  tf_gs : Z; tf_fs : Z; tf_es : Z; tf_ds : Z;
  tf_trapno : Z; tf_err : Z; tf_eip : Z; tf_cs : Z;
  tf_eflags : Z; tf_esp : Z; tf_ss : Z
}.

Record proc := Proc {
  p_sz : Z;
  p_pgdir : Z;
  p_kstack : Z;
  p_state : procstate;
  p_pid : Z;
  p_parent : option nat;
  p_tf : trapframe;
  p_chan : option chan;
  p_killed : Z;
  p_ofile : list (option nat);
  p_cwd : option nat;
  p_name : bytes;
  p_uid : Z
}.

(** ** Buffers, the log, inodes, files and pipes *)

Record buf := Buf {
  b_flags : Z;
  b_dev : Z;
  b_sector : Z;
  b_prev : nat;
  b_next : nat;
  b_data : bytes
}.

Definition B_BUSY : Z := 2 ^ 0.
Definition B_VALID : Z := 2 ^ 1.
Definition B_DIRTY : Z := 2 ^ 2.

(** [struct log] with its in-memory header [lh]. *)
Record log := Log {
  lg_start : Z;
  lg_size : Z;
  lg_busy : Z;
  lg_dev : Z;
  lh_n : Z;
  lh_sector : list Z
}.

Record superblock := Superblock {
  sb_size : Z; sb_nblocks : Z; sb_ninodes : Z; sb_nlog : Z
}.

(** [struct dinode], the inode on disk. *)
Record dinode := Dinode {
  d_type : Z; d_major : Z; d_minor : Z; d_nlink : Z; d_size : Z; d_addrs : list Z
}.

(** [struct inode], the cached copy. *)
Record inode := Inode {
  i_dev : Z; i_inum : Z; i_ref : Z; i_flags : Z; i_uid : Z;
  i_type : Z; i_major : Z; i_minor : Z; i_nlink : Z; i_size : Z; i_addrs : list Z
}.

Definition I_BUSY : Z := 2 ^ 0.
Definition I_VALID : Z := 2 ^ 1.

Record dirent := Dirent { de_inum : Z; de_name : bytes }.

Inductive ftype := FD_NONE | FD_PIPE | FD_INODE.

#[export] Instance ftype_eq_dec : EqDecision ftype.
Proof. solve_decision. Defined.

Record file := File {
  f_type : ftype;
  f_ref : Z;
  f_readable : Z;
  f_writable : Z;
  f_pipe : Z;
  f_ip : option nat;
  f_off : Z
}.

Definition PIPESIZE : Z := 512.

Record pipe := Pipe {
  pi_data : bytes;
  pi_nread : Z;
  pi_nwrite : Z;
  pi_readopen : Z;
  pi_writeopen : Z
}.

(** The functions a device's table entry may point to. *)
Inductive devfn := DTty | DNull | DZero.

Record device := Device {
  dv_enabled : Z;
  dv_read : option devfn;
  dv_write : option devfn
}.

(** The line-editing buffer of the console ([input] in tty.c). *)
Record input := Input {
  in_buf : bytes;
  in_r : Z;
  in_w : Z;
  in_e : Z
}.

(** The page allocator's variables ([kmem] in kalloc.c). *)
Record kmem := Kmem {
  km_use_lock : Z;
  km_freelist : Z
}.

(** An access to a device: port input and output, a write to a device
    register in memory, and the load of the interrupt table register. *)
Inductive ioev :=
| Inb (p : Z) | Outb (p v : Z) | Outw (p v : Z)
| Insl (p : Z) (n : nat) | Outsl (p : Z) (bs : bytes)
| MmioR (a : Z) | MmioW (a v : Z) | Lidt (base limit : Z).

(** Variables of the device drivers. *)
Record hw := Hw {
  hw_irqmask : Z;                  (* irqmask in picirq.c *)
  hw_ismp : Z;                     (* ismp *)
  hw_ncpu : Z;                     (* ncpu *)
  hw_apicids : list Z;             (* cpus[n].apicid *)
  hw_ioapicid : Z;                 (* ioapicid *)
  hw_lapic : Z;                    (* lapic, an address *)
  hw_shift : Z;                    (* shift in kbdgetc *)
  hw_leds : Z;                     (* led_status *)
  hw_idequeue : list nat;          (* idequeue, linked by qnext *)
  hw_havedisk1 : Z                 (* havedisk1 *)
}.

(** ** The state *)

Record kst := Kst {
  k_cpu : cpu;
  k_locks : gmap lockid nat;       (* the locks that are held, and by which CPU *)
  k_procs : list proc;             (* ptable.proc *)
  k_initproc : option nat;
  k_nextpid : Z;
  k_disk : list bytes;             (* memdisk, by sector *)
  k_disksize : Z;
  k_hist : list (Z * bytes);       (* history variable: the sectors written, in order *)
  k_bc : list buf;                 (* bcache.buf and, at index NBUF, bcache.head *)
  k_log : log;
  k_icache : list inode;
  k_ftable : list file;
  k_pipes : gmap Z pipe;
  k_kmem : kmem;
  k_pm : gmap Z bytes;             (* memory pages by kernel address *)
  k_devs : list device;
  k_input : input;
  k_ticks : Z;
  k_current : option nat;          (* current_proc *)
  k_first : Z;                     (* first, in forkret *)
  k_kpgdir : Z;                    (* kpgdir *)
  k_cr3 : Z;                       (* the register %cr3 of this CPU *)
  k_locking : Z;                   (* cons.locking *)
  k_panicked : Z;                  (* panicked *)
  k_uart : Z;                      (* uart *)
  k_crt : gmap Z Z;                (* video memory, by cell *)
  k_pos : Z;                       (* the cursor position of the video hardware *)
  k_hostname : bytes;              (* hostname *)
  k_hostname_len : Z;              (* hostname_len *)
  k_tss : Z * Z;                   (* ss0 and esp0 of this CPU's task state *)
  k_hw : hw;
  k_io : list ioev                 (* history variable: the accesses to devices, in order *)
}.

(** [setfield eta proj f r] is the record [r] with [f] applied to the field
    [proj], from the eta-expansion of the record type. *)
Ltac setfield eta proj f r :=
  let e := constr:(eta r) in
  let e := eval cbv beta delta [eta] in e in
  match e with
  | context C [proj r] => let e' := context C [f (proj r)] in exact e'
  end.

Definition kst_eta (s : kst) : kst :=
  Kst (k_cpu s) (k_locks s) (k_procs s) (k_initproc s) (k_nextpid s) (k_disk s)
    (k_disksize s) (k_hist s) (k_bc s) (k_log s) (k_icache s) (k_ftable s) (k_pipes s)
    (k_kmem s) (k_pm s) (k_devs s) (k_input s) (k_ticks s)
    (k_current s) (k_first s) (k_kpgdir s) (k_cr3 s) (k_locking s) (k_panicked s) (k_uart s)
    (k_crt s) (k_pos s) (k_hostname s) (k_hostname_len s)
    (k_tss s) (k_hw s) (k_io s).

Definition set_cpu (f : cpu -> cpu) (s : kst) : kst := ltac:(setfield kst_eta k_cpu f s).
Definition set_locks (f : gmap lockid nat -> gmap lockid nat) (s : kst) : kst :=
  ltac:(setfield kst_eta k_locks f s).
Definition set_procs (f : list proc -> list proc) (s : kst) : kst :=
  ltac:(setfield kst_eta k_procs f s).
Definition set_initproc (f : option nat -> option nat) (s : kst) : kst :=
  ltac:(setfield kst_eta k_initproc f s).
Definition set_nextpid (f : Z -> Z) (s : kst) : kst := ltac:(setfield kst_eta k_nextpid f s).
Definition set_disk (f : list bytes -> list bytes) (s : kst) : kst :=
  ltac:(setfield kst_eta k_disk f s).
Definition set_disksize (f : Z -> Z) (s : kst) : kst := ltac:(setfield kst_eta k_disksize f s).
Definition set_hist (f : list (Z * bytes) -> list (Z * bytes)) (s : kst) : kst :=
  ltac:(setfield kst_eta k_hist f s).
Definition set_bc (f : list buf -> list buf) (s : kst) : kst := ltac:(setfield kst_eta k_bc f s).
Definition set_log (f : log -> log) (s : kst) : kst := ltac:(setfield kst_eta k_log f s).
Definition set_icache (f : list inode -> list inode) (s : kst) : kst :=
  ltac:(setfield kst_eta k_icache f s).
Definition set_ftable (f : list file -> list file) (s : kst) : kst :=
  ltac:(setfield kst_eta k_ftable f s).
Definition set_pipes (f : gmap Z pipe -> gmap Z pipe) (s : kst) : kst :=
  ltac:(setfield kst_eta k_pipes f s).
Definition set_kmem (f : kmem -> kmem) (s : kst) : kst := ltac:(setfield kst_eta k_kmem f s).
Definition set_pm (f : gmap Z bytes -> gmap Z bytes) (s : kst) : kst :=
  ltac:(setfield kst_eta k_pm f s).
Definition set_devs (f : list device -> list device) (s : kst) : kst :=
  ltac:(setfield kst_eta k_devs f s).
Definition set_input (f : input -> input) (s : kst) : kst := ltac:(setfield kst_eta k_input f s).
Definition set_ticks (f : Z -> Z) (s : kst) : kst := ltac:(setfield kst_eta k_ticks f s).
Definition set_current (f : option nat -> option nat) (s : kst) : kst := ltac:(setfield kst_eta k_current f s).
Definition set_first (f : Z -> Z) (s : kst) : kst := ltac:(setfield kst_eta k_first f s).
Definition set_kpgdir (f : Z -> Z) (s : kst) : kst := ltac:(setfield kst_eta k_kpgdir f s).
Definition set_cr3 (f : Z -> Z) (s : kst) : kst := ltac:(setfield kst_eta k_cr3 f s).
Definition set_locking (f : Z -> Z) (s : kst) : kst := ltac:(setfield kst_eta k_locking f s).
Definition set_panicked (f : Z -> Z) (s : kst) : kst := ltac:(setfield kst_eta k_panicked f s).
Definition set_uart (f : Z -> Z) (s : kst) : kst := ltac:(setfield kst_eta k_uart f s).
Definition set_crt (f : gmap Z Z -> gmap Z Z) (s : kst) : kst := ltac:(setfield kst_eta k_crt f s).
Definition set_pos (f : Z -> Z) (s : kst) : kst := ltac:(setfield kst_eta k_pos f s).
Definition set_hostname (f : bytes -> bytes) (s : kst) : kst := ltac:(setfield kst_eta k_hostname f s).
Definition set_hostname_len (f : Z -> Z) (s : kst) : kst := ltac:(setfield kst_eta k_hostname_len f s).
Definition set_tss (f : Z * Z -> Z * Z) (s : kst) : kst := ltac:(setfield kst_eta k_tss f s).
Definition set_hw (f : hw -> hw) (s : kst) : kst := ltac:(setfield kst_eta k_hw f s).
Definition set_io (f : list ioev -> list ioev) (s : kst) : kst := ltac:(setfield kst_eta k_io f s).

(** A kernel function. *)
Notation K := (M kst).

(** ** Frames

    [keeps L s s'] says that only the fields of [L] differ. *)

Inductive kfield :=
| FCpu | FLocks | FProcs | FInitproc | FNextpid | FDisk | FDisksize | FHist | FBc | FLog
| FIcache | FFtable | FPipes | FKmem | FPm | FDevs | FInput | FTicks | FCurrent
| FFirst | FKpgdir | FCr3 | FLocking | FPanicked | FUart | FCrt | FPos | FHostname
| FHostnameLen | FTss | FHw | FIo.

#[export] Instance kfield_eq_dec : EqDecision kfield.
Proof. solve_decision. Defined.

Definition same_field (f : kfield) (s s' : kst) : Prop :=
  match f with
  | FCpu => k_cpu s' = k_cpu s | FLocks => k_locks s' = k_locks s
  | FProcs => k_procs s' = k_procs s | FInitproc => k_initproc s' = k_initproc s
  | FNextpid => k_nextpid s' = k_nextpid s | FDisk => k_disk s' = k_disk s
  | FDisksize => k_disksize s' = k_disksize s | FHist => k_hist s' = k_hist s
  | FBc => k_bc s' = k_bc s | FLog => k_log s' = k_log s
  | FIcache => k_icache s' = k_icache s | FFtable => k_ftable s' = k_ftable s
  | FPipes => k_pipes s' = k_pipes s | FKmem => k_kmem s' = k_kmem s
  | FPm => k_pm s' = k_pm s | FDevs => k_devs s' = k_devs s
  | FInput => k_input s' = k_input s | FTicks => k_ticks s' = k_ticks s
  | FCurrent => k_current s' = k_current s
  | FFirst => k_first s' = k_first s | FKpgdir => k_kpgdir s' = k_kpgdir s
  | FCr3 => k_cr3 s' = k_cr3 s | FLocking => k_locking s' = k_locking s
  | FPanicked => k_panicked s' = k_panicked s | FUart => k_uart s' = k_uart s
  | FCrt => k_crt s' = k_crt s | FPos => k_pos s' = k_pos s
  | FHostname => k_hostname s' = k_hostname s
  | FHostnameLen => k_hostname_len s' = k_hostname_len s
  | FTss => k_tss s' = k_tss s
  | FHw => k_hw s' = k_hw s
  | FIo => k_io s' = k_io s
  end.

Definition has_field (L : list kfield) (f : kfield) : bool := bool_decide (f ∈ L).

Definition keeps (L : list kfield) (s s' : kst) : Prop :=
  forall f, has_field L f = false -> same_field f s s'.

#[export] Instance keeps_preorder L : PreOrder (keeps L).
Proof.
  split.
  - intros s f _. by destruct f.
  - intros s1 s2 s3 H1 H2 f Hf. specialize (H1 f Hf). specialize (H2 f Hf).
    destruct f; cbn in *; congruence.
Qed.

Lemma keeps_mono L L' s s' : keeps L s s' -> L ⊆ L' -> keeps L' s s'.
Proof.
  intros H HL f Hf. apply H. unfold has_field in *. apply bool_decide_eq_false in Hf.
  apply bool_decide_eq_false. set_solver.
Qed.

(** A frame of an update that is written out. *)
Ltac keeps_tac := intros [] Hf__; solve [reflexivity | discriminate Hf__].

(** [s'] may be related to [s] by a sequence of frames and updates. *)
Ltac keeps_step H := etransitivity; [exact H | try solve [keeps_tac]].

(** The initial values; all interrupts but the slave's are masked. *)
Definition hw0 : hw := Hw 0xFFFB 0 0 [] 0 0 0 0 [] 0.

(** The state at reset: the global variables are zero (their section is
    cleared by the loader). *)
Definition kst0 : kst :=
  Kst (Cpu 0 0 false true None) ∅ [] None 0 [] 0 [] [] (Log 0 0 0 0 0 []) [] [] ∅ (Kmem 0 0) ∅
    [] (Input [] 0 0 0) 0 None 0 0 0 0 0 0 ∅ 0 [] 0 (0, 0) hw0 [].
