(* ===== verification/Port.v ===== *)
(** * Device accesses

    The instructions of include/x86.h that reach devices. What a device
    answers is not code of the system: the class [Ports] gives the answer as a
    function of the accesses made so far, so that a device with registers
    selected by earlier writes (the clock, the interrupt controllers) can be
    expressed. *)

From stdpp Require Import prelude gmap strings.
From S2P Require Import Prelude Kernel.

#[export] Instance ioev_eq_dec : EqDecision ioev.
Proof. solve_decision. Defined.

Class Ports := {
  port_in : list ioev -> Z -> Z;   (* the byte read from a port *)
  port_ins : list ioev -> Z -> nat -> bytes;   (* a block read from a port *)
  mmio_in : list ioev -> Z -> Z    (* the word read from a device register *)
}.

Definition io (e : ioev) : K unit := modify (set_io (fun l => l ++ [e])).

Definition outb (port data : Z) : K unit := io (Outb port (u8 data)).
Definition outw (port data : Z) : K unit := io (Outw port (u16 data)).
Definition outsl (port : Z) (bs : bytes) : K unit := io (Outsl port bs).
Definition lidt (base limit : Z) : K unit := io (Lidt base limit).

Section ports.
Context `{PO : Ports}.

Definition inb (port : Z) : K Z :=
  v <- gets (fun s => port_in (k_io s) port) ;;
  io (Inb port) ;;
  ret (u8 v).
(** [insl], of [n] words: the block as bytes. *)
Definition insl (port : Z) (n : nat) : K bytes :=
  l <- gets (fun s => port_ins (k_io s) port n) ;;
  io (Insl port n) ;;
  ret l.
Definition mmio_read (a : Z) : K Z :=
  v <- gets (fun s => mmio_in (k_io s) a) ;;
  io (MmioR a) ;;
  ret (u32 v).
End ports.
Definition mmio_write (a v : Z) : K unit := io (MmioW a (u32 v)).

(** How many bytes have been read from a port. *)
Definition port_reads (p : Z) (l : list ioev) : nat := length (filter (fun e => e = Inb p) l).
#[global] Arguments port_reads : simpl never.

Lemma port_reads_app p l l' : port_reads p (l ++ l') = (port_reads p l + port_reads p l')%nat.
Proof. unfold port_reads. by rewrite filter_app, length_app. Qed.

Lemma port_reads_one p e : port_reads p [e] = if decide (e = Inb p) then 1%nat else 0%nat.
Proof. unfold port_reads. rewrite filter_cons. by case_decide. Qed.

Lemma port_reads_none p l : Forall (fun e => e <> Inb p) l -> port_reads p l = 0%nat.
Proof. intros H. unfold port_reads. by rewrite filter_none. Qed.

(** Updates of the drivers' variables. *)
Definition hw_eta (h : hw) : hw :=
  Hw (hw_irqmask h) (hw_ismp h) (hw_ncpu h) (hw_apicids h) (hw_ioapicid h) (hw_lapic h)
    (hw_shift h) (hw_leds h) (hw_idequeue h) (hw_havedisk1 h).
Definition set_irqmask (f : Z -> Z) (h : hw) : hw := ltac:(setfield hw_eta hw_irqmask f h).
Definition set_shift (f : Z -> Z) (h : hw) : hw := ltac:(setfield hw_eta hw_shift f h).
Definition set_leds (f : Z -> Z) (h : hw) : hw := ltac:(setfield hw_eta hw_leds f h).
Definition set_idequeue (f : list nat -> list nat) (h : hw) : hw :=
  ltac:(setfield hw_eta hw_idequeue f h).
Definition set_havedisk1 (f : Z -> Z) (h : hw) : hw := ltac:(setfield hw_eta hw_havedisk1 f h).
