(* ===== verification/Spinlock.v ===== *)
(** * Spin locks (kernel/spinlock.c)

    [pushcli], [popcli], [holding], [acquire] and [release] as steps of one
    control path, with the rules the other components use. Smp.v has the same
    code at the granularity of its memory accesses, run by several CPUs. *)

From stdpp Require Import prelude gmap strings.
From S2P Require Import Prelude Kernel.

Definition cpu_eta (c : cpu) : cpu :=
  Cpu (c_id c) (c_ncli c) (c_intena c) (c_if c) (c_proc c).
Definition set_ncli (f : Z -> Z) (c : cpu) : cpu := ltac:(setfield cpu_eta c_ncli f c).
Definition set_intena (f : bool -> bool) (c : cpu) : cpu := ltac:(setfield cpu_eta c_intena f c).
Definition set_if (f : bool -> bool) (c : cpu) : cpu := ltac:(setfield cpu_eta c_if f c).
Definition set_cproc (f : option nat -> option nat) (c : cpu) : cpu :=
  ltac:(setfield cpu_eta c_proc f c).

(** [cli()] and [sti()]: the interrupt flag of this CPU. *)
Definition cli : K unit := modify (set_cpu (set_if (fun _ => false))).
Definition sti : K unit := modify (set_cpu (set_if (fun _ => true))).

Definition pushcli : K unit :=
  eflags <- gets (fun s => c_if (k_cpu s)) ;;
  cli ;;
  ncli <- gets (fun s => c_ncli (k_cpu s)) ;;
  modify (set_cpu (set_ncli (fun n => n + 1))) ;;
  when (ncli =? 0) do modify (set_cpu (set_intena (fun _ => eflags))).

Definition popcli : K unit :=
  eflags <- gets (fun s => c_if (k_cpu s)) ;;
  if (eflags : bool) then panic "popcli - interruptible" else
  modify (set_cpu (set_ncli (fun n => n - 1))) ;;
  ncli <- gets (fun s => c_ncli (k_cpu s)) ;;
  if ncli <? 0 then panic "popcli" else
  intena <- gets (fun s => c_intena (k_cpu s)) ;;
  when ((ncli =? 0) && intena) do sti.

(** [lock->locked && lock->cpu == cpu] *)
Definition holding (lk : lockid) : K bool :=
  gets (fun s => bool_decide (k_locks s !! lk = Some (c_id (k_cpu s)))).

Definition initlock (lk : lockid) : K unit := modify (set_locks (delete lk)).

(** The loop on [xchg] ends at once when the lock is free; when another CPU
    holds it this control path spins. *)
Definition acquire (lk : lockid) : K unit :=
  pushcli ;;
  h <- holding lk ;;
  if (h : bool) then panic "acquire" else
  owner <- gets (fun s => k_locks s !! lk) ;;
  match owner with
  | Some _ => fun _ => Hang
  | None => modify (fun s => set_locks (<[lk := c_id (k_cpu s)]>) s)
  end.

Definition release (lk : lockid) : K unit :=
  h <- holding lk ;;
  if negb h then panic "release" else
  modify (set_locks (delete lk)) ;;
  popcli.

(** ** Rules *)

(** The states [acquire] and [release] lead to. *)
Definition acquired (lk : lockid) (s : kst) : kst :=
  set_locks (<[lk := c_id (k_cpu s)]>)
    (set_cpu (fun c => Cpu (c_id c) (c_ncli c + 1)
                         (if c_ncli c =? 0 then c_if c else c_intena c) false (c_proc c)) s).

Definition released (lk : lockid) (s : kst) : kst :=
  set_locks (delete lk)
    (set_cpu (fun c => Cpu (c_id c) (c_ncli c - 1) (c_intena c)
                         ((c_ncli c =? 1) && c_intena c) (c_proc c)) s).

(** Interrupts are off whenever this CPU is inside a [pushcli]. *)
Definition cpu_ok (s : kst) : Prop :=
  0 <= c_ncli (k_cpu s) /\ (0 < c_ncli (k_cpu s) -> c_if (k_cpu s) = false).

Lemma wp_acquire lk Q s :
  k_locks s !! lk = None -> Q tt (acquired lk s) -> wp (acquire lk) Q s.
Proof.
  intros Hfree HQ.
  enough (acquire lk s = Ok tt (acquired lk s)) as Heq by (unfold wp; by rewrite Heq).
  unfold acquire, pushcli, holding, cli, bind, gets, modify, ret, acquired,
    set_locks, set_cpu. cbn.
  destruct (c_ncli (k_cpu s) =? 0); cbn;
    rewrite bool_decide_false by (rewrite Hfree; done); cbn; by rewrite Hfree.
Qed.

Lemma wp_release lk Q s :
  k_locks s !! lk = Some (c_id (k_cpu s)) ->
  c_if (k_cpu s) = false -> 0 < c_ncli (k_cpu s) ->
  Q tt (released lk s) -> wp (release lk) Q s.
Proof.
  intros Hheld Hif Hncli HQ.
  unfold release, holding. kstep. rewrite bool_decide_true by done. cbn [negb].
  kstep. unfold popcli. kstep. cbn. rewrite Hif. kstep. cbn.
  destruct (Z.ltb_spec (c_ncli (k_cpu s) - 1) 0); [lia|]. kstep. cbn.
  unfold released, set_cpu, set_locks, set_ncli in *. cbn in *.
  replace (c_ncli (k_cpu s) =? 1) with (c_ncli (k_cpu s) - 1 =? 0) in HQ by lia.
  destruct (_ && _); [|by rewrite Hif]. unfold sti. by kstep.
Qed.

(** What a control path that returns its locks leaves of its context: the
    CPU, its nesting depth and interrupt flag, the process, and the set of
    locks held. *)
Record ctx (s s' : kst) : Prop := {
  ctx_id : c_id (k_cpu s') = c_id (k_cpu s);
  ctx_ncli : c_ncli (k_cpu s') = c_ncli (k_cpu s);
  ctx_if : c_if (k_cpu s') = c_if (k_cpu s);
  ctx_proc : c_proc (k_cpu s') = c_proc (k_cpu s);
  ctx_intena : 0 < c_ncli (k_cpu s) -> c_intena (k_cpu s') = c_intena (k_cpu s);
  ctx_locks : k_locks s' = k_locks s
}.

#[export] Instance ctx_preorder : PreOrder ctx.
Proof.
  split.
  - intros s. by constructor.
  - intros s1 s2 s3 [] []. constructor; intros; etrans; eauto with lia.
Qed.

Lemma ctx_cpu_ok s s' : ctx s s' -> cpu_ok s -> cpu_ok s'.
Proof. intros [] []. split; rewrite ?ctx_ncli0, ?ctx_if0; auto. Qed.

Lemma cpu_ok_acquired lk s : cpu_ok s -> cpu_ok (acquired lk s).
Proof. intros []. split; cbn; [lia|done]. Qed.

(** Same CPU and locks: the case of a step that touches neither. *)
Lemma ctx_same s s' : k_cpu s' = k_cpu s -> k_locks s' = k_locks s -> ctx s s'.
Proof. intros H1 H2. constructor; by rewrite ?H1, ?H2. Qed.

Create HintDb kernel.
#[export] Hint Resolve cpu_ok_acquired ctx_cpu_ok ctx_same : kernel.

(** The end of a critical section. *)
Lemma wp_release_ctx lk Q s s2 :
  cpu_ok s -> k_locks s !! lk = None -> ctx (acquired lk s) s2 ->
  (ctx s (released lk s2) -> Q tt (released lk s2)) ->
  wp (release lk) Q s2.
Proof.
  intros [Hn Hi] Hfree [Hid Hncli Hif Hproc Hintena Hlocks] HQ.
  cbn in Hid, Hncli, Hif, Hproc, Hintena, Hlocks.
  apply wp_release.
  - by rewrite Hlocks, lookup_insert_eq, Hid.
  - done.
  - lia.
  - apply HQ. constructor; cbn; rewrite ?Hlocks; try congruence; try lia.
    + rewrite Hncli. destruct (Z.eqb_spec (c_ncli (k_cpu s) + 1) 1) as [E|E]; cbn.
      * rewrite Hintena by lia. by destruct (Z.eqb_spec (c_ncli (k_cpu s)) 0); [|lia].
      * symmetry. apply Hi. lia.
    + intros. rewrite Hintena by lia. by destruct (Z.eqb_spec (c_ncli (k_cpu s)) 0); [lia|].
    + by rewrite delete_insert_id.
Qed.
