(* ===== verification/Smp.v ===== *)
(** * Spin locks between CPUs (kernel/spinlock.c)

    The other files run [acquire] and [release] as single steps on the map
    from locks to owners. Here they are the code of spinlock.c, one access to
    the words of the lock at a time, run by any number of CPUs that interleave
    in any order: each CPU acquires the lock, leaves its critical section by
    [release], and starts again. Interrupts are off between [pushcli] and
    [popcli], so that a CPU has one control path here. The accesses of
    different CPUs take effect one after the other; [xchg] is one access.

    The theorem is that the code implements the single steps: the owner read
    off the state changes as they change it, and no test for misuse fires. *)

From stdpp Require Import prelude gmap strings.
From S2P Require Import Prelude Kernel Spinlock.

(** Where a CPU is: before [acquire]; at the two reads of [holding], the loop
    on [xchg] and the store of [lk->cpu]; in the critical section; at the
    reads of [holding] in [release], the store that clears [lk->cpu], and the
    last [xchg]; or in [panic]. *)
Inductive pc :=
| Idle | ALocked | ACpu | ASpin | ASet
| Crit | RLocked | RCpu | RClear | RXchg
| Panicking.

#[export] Instance pc_eq_dec : EqDecision pc.
Proof. solve_decision. Defined.

(** [lk->locked] and [lk->cpu], and the CPUs. *)
Record smp := Smp { m_locked : Z; m_cpu : option nat; m_pc : nat -> pc }.

Definition goto (c : nat) (p : pc) (m : smp) : smp := Smp (m_locked m) (m_cpu m) (fupd (m_pc m) c p).

(** The next access of CPU [c]. *)
Definition cpu_step (c : nat) (m : smp) : smp :=
  match m_pc m c with
  | Idle => goto c ALocked m
  | ALocked => if m_locked m =? 0 then goto c ASpin m else goto c ACpu m
  | ACpu => if bool_decide (m_cpu m = Some c) then goto c Panicking m else goto c ASpin m
  | ASpin =>
    let old := m_locked m in
    let m := Smp 1 (m_cpu m) (m_pc m) in
    if old =? 0 then goto c ASet m else m
  | ASet => goto c Crit (Smp (m_locked m) (Some c) (m_pc m))
  | Crit => goto c RLocked m
  | RLocked => if m_locked m =? 0 then goto c Panicking m else goto c RCpu m
  | RCpu => if bool_decide (m_cpu m = Some c) then goto c RClear m else goto c Panicking m
  | RClear => goto c RXchg (Smp (m_locked m) None (m_pc m))
  | RXchg => goto c Idle (Smp 0 (m_cpu m) (m_pc m))
  | Panicking => m
  end.

Definition smp0 : smp := Smp 0 None (fun _ => Idle).

(** The CPUs in the order in which they make their accesses. *)
Definition interleave (cs : list nat) (m : smp) : smp := foldl (fun m c => cpu_step c m) m cs.

(** ** The invariant *)

(** Between the [xchg] that takes the lock and the one that gives it back. *)
Definition holds_lock (p : pc) : bool :=
  match p with ASet | Crit | RLocked | RCpu | RClear | RXchg => true | _ => false end.

(** Where [lk->cpu] names the holder. *)
Definition named (p : pc) : bool :=
  match p with Crit | RLocked | RCpu | RClear => true | _ => false end.

(** [o] owns the lock. *)
Record smp_ok (m : smp) (o : option nat) : Prop := {
  so_owner : forall c, holds_lock (m_pc m c) = true <-> o = Some c;
  so_locked : m_locked m = if o then 1 else 0;
  so_cpu : forall c, m_cpu m = Some c <-> named (m_pc m c) = true;
  so_panic : forall c, m_pc m c <> Panicking
}.

(** What the access does to the owner. *)
Definition owner_step (c : nat) (m : smp) (o : option nat) : option nat :=
  match m_pc m c with
  | ASpin => match o with None => Some c | Some _ => o end
  | RXchg => None
  | _ => o
  end.

(** A CPU moves between places that are alike for the invariant. *)
Lemma smp_ok_goto m o c p :
  smp_ok m o -> holds_lock p = holds_lock (m_pc m c) -> named p = named (m_pc m c) -> p <> Panicking ->
  smp_ok (goto c p m) o.
Proof.
  intros [Ho Hl Hc Hp] Hh Hn Hne. constructor; cbn; [|done| |]; intros d; unfold fupd; case_decide; subst;
    rewrite ?Hh, ?Hn; auto.
Qed.

Lemma smp_owner m o c : smp_ok m o -> holds_lock (m_pc m c) = true -> o = Some c.
Proof. intros H. apply H. Qed.

(** The [xchg] that takes the lock. *)
Lemma take_ok m c : smp_ok m None -> m_pc m c = ASpin ->
  smp_ok (goto c ASet (Smp 1 (m_cpu m) (m_pc m))) (Some c).
Proof.
  intros [Ho Hl Hc Hp] E. constructor; cbn; [|done| |]; intros d; unfold fupd; case_decide; subst; try done.
  all: first [by apply Hp | rewrite ?Ho, ?Hc, ?E; naive_solver].
Qed.

(** The store of the holder, and its removal. *)
Lemma name_ok m c : smp_ok m (Some c) -> m_pc m c = ASet ->
  smp_ok (goto c Crit (Smp (m_locked m) (Some c) (m_pc m))) (Some c).
Proof.
  intros [Ho Hl Hc Hp] E. constructor; cbn; [|done| |]; intros d; unfold fupd; case_decide; subst; try done.
  split; [congruence|]. intros Hd. assert (holds_lock (m_pc m d) = true) as Hh by by destruct (m_pc m d).
  apply Ho in Hh. congruence.
Qed.

Lemma unname_ok m c : smp_ok m (Some c) -> m_pc m c = RClear ->
  smp_ok (goto c RXchg (Smp (m_locked m) None (m_pc m))) (Some c).
Proof.
  intros [Ho Hl Hc Hp] E. constructor; cbn; [|done| |]; intros d; unfold fupd; case_decide; subst; try done.
  split; [done|]. intros Hd. assert (holds_lock (m_pc m d) = true) as Hh by by destruct (m_pc m d).
  apply Ho in Hh. congruence.
Qed.

(** The [xchg] that gives it back. *)
Lemma give_ok m c : smp_ok m (Some c) -> m_pc m c = RXchg ->
  smp_ok (goto c Idle (Smp 0 (m_cpu m) (m_pc m))) None.
Proof.
  intros [Ho Hl Hc Hp] E. constructor; cbn; [|done| |]; intros d; unfold fupd; case_decide; subst; try done.
  all: first [by apply Hp | rewrite ?Ho, ?Hc, ?E; naive_solver].
Qed.

Ltac same_place E := apply smp_ok_goto; [done|by rewrite E|by rewrite E|done].

Lemma cpu_step_ok c m o : smp_ok m o -> smp_ok (cpu_step c m) (owner_step c m o).
Proof.
  intros Hok. pose proof Hok as [Ho Hl Hc Hp]. unfold cpu_step, owner_step.
  assert (holds_lock (m_pc m c) = true -> o = Some c) as Hown by apply Ho.
  destruct (m_pc m c) eqn:E; try (specialize (Hown eq_refl); subst o); cbv zeta.
  - same_place E.
  - destruct (_ =? _); same_place E.
  - rewrite bool_decide_false by (rewrite Hc, E; done). same_place E.
  - destruct o as [d|]; rewrite Hl; [|by apply take_ok]. destruct m as [l mc p]. cbn in *. by subst l.
  - by apply name_ok.
  - same_place E.
  - rewrite Hl. same_place E.
  - rewrite bool_decide_true by (rewrite Hc, E; done). same_place E.
  - by apply unname_ok.
  - by apply give_ok.
  - by destruct (Hp c).
Qed.

(** ** Refinement *)

(** The owners after the accesses. *)
Fixpoint owners (cs : list nat) (m : smp) (o : option nat) : option nat :=
  match cs with
  | [] => o
  | c :: cs => owners cs (cpu_step c m) (owner_step c m o)
  end.

Lemma interleave_ok cs m o : smp_ok m o -> smp_ok (interleave cs m) (owners cs m o).
Proof.
  revert m o. induction cs as [|c cs IH]; intros m o Hok; [done|]. cbn. by apply IH, cpu_step_ok.
Qed.

Lemma smp0_ok : smp_ok smp0 None.
Proof. by constructor. Qed.

(** The map of the other files gives the lock to its holder. *)
Definition owns_lock (s : kst) (lk : lockid) (m : smp) : Prop :=
  forall d, k_locks s !! lk = Some d <-> holds_lock (m_pc m d) = true.

Lemma owns_owner s lk m o : smp_ok m o -> owns_lock s lk m -> k_locks s !! lk = o.
Proof.
  intros Hok Hs. destruct o as [c|].
  - apply Hs, (so_owner _ _ Hok). done.
  - destruct (k_locks s !! lk) as [d|] eqn:E; [|done]. apply Hs, (so_owner _ _ Hok) in E. done.
Qed.

Lemma owner_owns s lk m o : smp_ok m o -> k_locks s !! lk = o -> owns_lock s lk m.
Proof. intros Hok Hs d. by rewrite Hs, (so_owner _ _ Hok). Qed.

Lemma acquire_busy lk s d : k_locks s !! lk = Some d -> d <> c_id (k_cpu s) -> acquire lk s = Hang.
Proof.
  intros Hd Hne. unfold acquire, pushcli, holding, cli, bind, gets, modify, ret. cbn.
  destruct (c_ncli (k_cpu s) =? 0); cbn; rewrite bool_decide_false by (rewrite Hd; congruence); cbn; by rewrite Hd.
Qed.

(** One access of CPU [c], against the single steps of Spinlock.v run by [c]. *)
Definition simulated (c : nat) (m : smp) (lk : lockid) (s : kst) : Prop :=
  match m_pc m c with
  | ASpin =>
    match acquire lk s with
    | Ok _ s' => owns_lock s' lk (cpu_step c m)
    | Hang => cpu_step c m = m
    | _ => False
    end
  | RXchg => wp (release lk) (fun _ s' => owns_lock s' lk (cpu_step c m)) s
  | _ => owns_lock s lk (cpu_step c m)
  end.

Lemma step_simulated c m o lk s :
  smp_ok m o -> owns_lock s lk m -> c_id (k_cpu s) = c -> c_if (k_cpu s) = false -> 0 < c_ncli (k_cpu s) ->
  simulated c m lk s.
Proof.
  intros Hok Hs Hid Hif Hn. pose proof (owns_owner _ _ _ _ Hok Hs) as Hl.
  pose proof (cpu_step_ok c m o Hok) as Hok'. unfold simulated, owner_step in *.
  destruct (m_pc m c) eqn:E; try (by eapply owner_owns).
  - destruct o as [d|].
    + assert (d <> c) as Hne.
      { intros ->. pose proof (proj2 (so_owner _ _ Hok c) eq_refl) as H. by rewrite E in H. }
      rewrite (acquire_busy lk s d) by congruence. unfold cpu_step. rewrite E. cbv zeta.
      pose proof (so_locked _ _ Hok) as HL. rewrite HL. cbn. destruct m as [l mc p]. cbn in *. by subst l.
    + assert (wp (acquire lk) (fun _ s' => owns_lock s' lk (cpu_step c m)) s) as H.
      { apply wp_acquire; [done|]. eapply owner_owns; [exact Hok'|]. cbn. by rewrite lookup_insert_eq, Hid. }
      unfold wp in H. by destruct (acquire lk s).
  - assert (o = Some c) as -> by (eapply smp_owner; [done|by rewrite E]).
    apply wp_release; [by rewrite Hl, Hid|done|done|].
    eapply owner_owns; [exact Hok'|]. cbn. apply lookup_delete_eq.
Qed.

(** C7. The lock excludes, and the single-step [acquire] and [release] that
    the rest of the kernel is verified with are what spinlock.c does. However
    the CPUs interleave their accesses to the words of a lock: at most one is
    between taking the lock and giving it back, no CPU ever reaches a panic,
    and every access, seen by a CPU whose interrupts are off, is a step of
    the single-step code: the [xchg] of [acquire] gives the free lock to the
    CPU or spins where [acquire] hangs, the [xchg] of [release] gives it back,
    and all other accesses leave the owner alone. *)
Theorem smp_implements_locks cs :
  let m := interleave cs smp0 in
  (forall c d, holds_lock (m_pc m c) = true -> holds_lock (m_pc m d) = true -> c = d) /\
  (forall c, m_pc m c <> Panicking) /\
  (forall c lk s, owns_lock s lk m -> c_id (k_cpu s) = c -> c_if (k_cpu s) = false ->
     0 < c_ncli (k_cpu s) -> simulated c m lk s).
Proof.
  intros m. pose proof (interleave_ok cs smp0 None smp0_ok) as Hok. fold m in Hok. split_and!.
  - intros c d Hc Hd. apply (so_owner _ _ Hok) in Hc, Hd. congruence.
  - apply Hok.
  - intros. by eapply step_simulated.
Qed.

(** Two CPUs that race for the lock: the second spins until the first is out. *)
Example smp_race :
  let m := interleave [0; 1; 0; 1; 0; 1; 1; 0; 1]%nat smp0 in
  m_pc m 0%nat = Crit /\ m_pc m 1%nat = ASpin /\
  m_pc (interleave [0; 0; 0; 0; 1; 0; 1; 1]%nat m) 1%nat = Crit.
Proof. vm_compute. done. Qed.
