(* ===== verification/Sched.v ===== *)
(** * Sleep and wakeup (kernel/proc.c)

    The part of proc.c every other component calls: [sched], [yield],
    [sleep], [wakeup] and [kill]. Process creation and exit are in Proc.v. *)

From stdpp Require Import prelude gmap strings.
From S2P Require Import Prelude Kernel Spinlock.

Definition proc_eta (p : proc) : proc :=
  Proc (p_sz p) (p_pgdir p) (p_kstack p) (p_state p) (p_pid p) (p_parent p) (p_tf p)
    (p_chan p) (p_killed p) (p_ofile p) (p_cwd p) (p_name p) (p_uid p).
Definition set_sz (f : Z -> Z) (p : proc) : proc := ltac:(setfield proc_eta p_sz f p).
Definition set_pgdir (f : Z -> Z) (p : proc) : proc := ltac:(setfield proc_eta p_pgdir f p).
Definition set_kstack (f : Z -> Z) (p : proc) : proc := ltac:(setfield proc_eta p_kstack f p).
Definition set_pstate (f : procstate -> procstate) (p : proc) : proc :=
  ltac:(setfield proc_eta p_state f p).
Definition set_pid (f : Z -> Z) (p : proc) : proc := ltac:(setfield proc_eta p_pid f p).
Definition set_parent (f : option nat -> option nat) (p : proc) : proc :=
  ltac:(setfield proc_eta p_parent f p).
Definition set_tf (f : trapframe -> trapframe) (p : proc) : proc :=
  ltac:(setfield proc_eta p_tf f p).
Definition set_chan (f : option chan -> option chan) (p : proc) : proc :=
  ltac:(setfield proc_eta p_chan f p).
Definition set_killed (f : Z -> Z) (p : proc) : proc := ltac:(setfield proc_eta p_killed f p).
Definition set_ofile (f : list (option nat) -> list (option nat)) (p : proc) : proc :=
  ltac:(setfield proc_eta p_ofile f p).
Definition set_cwd (f : option nat -> option nat) (p : proc) : proc :=
  ltac:(setfield proc_eta p_cwd f p).
Definition set_name (f : bytes -> bytes) (p : proc) : proc := ltac:(setfield proc_eta p_name f p).
Definition set_uid (f : Z -> Z) (p : proc) : proc := ltac:(setfield proc_eta p_uid f p).

Definition tf0 : trapframe := Trapframe 0 0 0 0 0 0 0 0 0 0 0 0 0 0 0 0 0 0 0.
(** A slot of the process table at boot: static storage, all zero. *)
Definition proc0 : proc :=
  Proc 0 0 0 UNUSED 0 None tf0 None 0 (replicate NOFILE None) None (replicate 16 0) 0.

#[export] Instance proc_inhabited : Inhabited proc := populate proc0.

(** [proc] in C: the process this CPU runs. Following a null [proc] faults;
    the code that could tests it first. *)
Definition myproc : K nat :=
  p <- gets (fun s => c_proc (k_cpu s)) ;;
  match p with Some i => ret i | None => fault end.

Definition getp (i : nat) : K proc := gets (fun s => k_procs s !!! i).
Definition setp (i : nat) (f : proc -> proc) : K unit := modify (set_procs (alter f i)).

Definition wakeup1 (c : chan) (ps : list proc) : list proc :=
  (fun p => if bool_decide (p_state p = SLEEPING) && bool_decide (p_chan p = Some c)
            then set_pstate (fun _ => RUNNABLE) p else p) <$> ps.

Definition wakeup (c : chan) : K unit :=
  acquire LPtable ;;
  modify (set_procs (wakeup1 c)) ;;
  release LPtable.

(** The switch to the scheduler's context ends the control path; what
    [sched] does after [swtch] returns belongs to the next time the process
    runs. *)
Definition sched : K unit :=
  h <- holding LPtable ;;
  if negb h then panic "sched ptable.lock" else
  ncli <- gets (fun s => c_ncli (k_cpu s)) ;;
  if negb (ncli =? 1) then panic "sched locks" else
  i <- myproc ;;
  p <- getp i ;;
  if bool_decide (p_state p = RUNNING) then panic "sched running" else
  eflags <- gets (fun s => c_if (k_cpu s)) ;;
  if (eflags : bool) then panic "sched interruptible" else
  fun s => Switched s.

Definition yield : K unit :=
  acquire LPtable ;;
  i <- myproc ;;
  setp i (set_pstate (fun _ => RUNNABLE)) ;;
  sched ;;
  release LPtable.

Definition sleep (c : chan) (lk : lockid) : K unit :=
  o <- gets (fun s => c_proc (k_cpu s)) ;;
  match o with
  | None => panic "sleep"
  | Some i =>
    (if bool_decide (lk <> LPtable) then acquire LPtable ;; release lk else ret tt) ;;
    setp i (set_chan (fun _ => Some c)) ;;
    setp i (set_pstate (fun _ => SLEEPING)) ;;
    sched ;;
    setp i (set_chan (fun _ => None)) ;;
    (if bool_decide (lk <> LPtable) then release LPtable ;; acquire lk else ret tt)
  end.

(** [kill]: the first slot with this pid. *)
Fixpoint kill_scan (pid : Z) (ps : list proc) : option (list proc) :=
  match ps with
  | [] => None
  | p :: ps =>
    if p_pid p =? pid then
      let p := set_killed (fun _ => 1) p in
      Some ((if bool_decide (p_state p = SLEEPING) then set_pstate (fun _ => RUNNABLE) p else p) :: ps)
    else (fun ps => p :: ps) <$> kill_scan pid ps
  end.

Definition kill (pid : Z) : K Z :=
  acquire LPtable ;;
  ps <- gets (fun s => kill_scan pid (k_procs s)) ;;
  match ps with
  | Some ps => modify (set_procs (fun _ => ps)) ;; release LPtable ;; ret 0
  | None => release LPtable ;; ret (-1)
  end.

(** ** Rules *)

(** A process but for its state, which [wakeup] may change. *)
Definition pcore (p : proc) : proc := set_pstate (fun _ => UNUSED) p.

(** Only the CPU, the locks and the states of processes differ. *)
Definition sched_frame (s s' : kst) : Prop :=
  s' = set_cpu (fun _ => k_cpu s') (set_locks (fun _ => k_locks s')
         (set_procs (fun _ => k_procs s') s)).

Definition procs_same (s s' : kst) : Prop :=
  pcore <$> k_procs s' = pcore <$> k_procs s.

Lemma wakeup1_pcore c ps : pcore <$> wakeup1 c ps = pcore <$> ps.
Proof.
  unfold wakeup1. rewrite <- list_fmap_compose. apply list_fmap_ext. intros i p _.
  cbn. by destruct (_ && _).
Qed.

Lemma wp_wakeup c Q s :
  cpu_ok s -> k_locks s !! LPtable = None ->
  (forall s', ctx s s' -> sched_frame s s' -> procs_same s s' -> 
     k_procs s' = wakeup1 c (k_procs s) -> Q tt s') ->
  wp (wakeup c) Q s.
Proof.
  intros Hok Hfree HQ. unfold wakeup. kstep. apply wp_acquire; [done|]. kstep.
  apply (wp_release_ctx _ _ s); [done..| |].
  { apply ctx_same; done. }
  intros Hctx. apply HQ; [done| | |]; try done.
  unfold procs_same. cbn. apply wakeup1_pcore.
Qed.

Lemma sched_frame_keeps s s' : sched_frame s s' -> keeps [FCpu; FLocks; FProcs] s s'.
Proof. intros H f Hf. unfold sched_frame in H. destruct f; try discriminate Hf; cbn; by rewrite H. Qed.

(** ** Paths that end in the scheduler *)

Definition switches {A} (m : K A) (Q : kst -> Prop) (s : kst) : Prop :=
  match m s with Switched s' => Q s' | _ => False end.

Lemma switches_bind {A B} (m : K A) (k : A -> K B) Q s :
  switches m Q s -> switches (x <- m ;; k x) Q s.
Proof. unfold switches, bind. by destruct (m s). Qed.

Lemma switches_bind_wp {A B} (m : K A) (k : A -> K B) Q s :
  wp m (fun a s' => switches (k a) Q s') s -> switches (x <- m ;; k x) Q s.
Proof. unfold switches, bind, wp. by destruct (m s). Qed.

Lemma set_procs_procs f g s : set_procs f (set_procs g s) = set_procs (fun ps => f (g ps)) s.
Proof. done. Qed.

Lemma set_procs_ext f g s : f (k_procs s) = g (k_procs s) -> set_procs f s = set_procs g s.
Proof. intros H. unfold set_procs. by rewrite H. Qed.

(** What [sleep] leaves to the scheduler: the process sleeps on [c], [lk] is
    released and the process table's lock is held in its place. *)
Definition slept (c : chan) (lk : lockid) (i : nat) (s : kst) : kst :=
  set_procs (alter (fun p => set_pstate (fun _ => SLEEPING) (set_chan (fun _ => Some c) p)) i)
    (released lk (acquired LPtable s)).

Lemma sched_switches s i (Q : kst -> Prop) :
  k_locks s !! LPtable = Some (c_id (k_cpu s)) -> c_ncli (k_cpu s) = 1 -> c_proc (k_cpu s) = Some i ->
  p_state (k_procs s !!! i) <> RUNNING -> c_if (k_cpu s) = false -> Q s -> switches sched Q s.
Proof.
  intros Hl Hn Hp Hs Hif HQ. unfold sched, holding, myproc, getp.
  apply switches_bind_wp. kstep. rewrite bool_decide_true by done. cbn [negb].
  apply switches_bind_wp. kstep. rewrite Hn. cbn [negb Z.eqb Pos.eqb].
  apply switches_bind_wp. kstep. rewrite Hp. kstep. apply switches_bind_wp. kstep.
  rewrite bool_decide_false by done. apply switches_bind_wp. kstep. by rewrite Hif.
Qed.

Lemma sleep_switches c lk s i (Q : kst -> Prop) :
  c_proc (k_cpu s) = Some i -> (i < length (k_procs s))%nat ->
  lk <> LPtable -> k_locks s !! lk = Some (c_id (k_cpu s)) -> k_locks s !! LPtable = None ->
  c_ncli (k_cpu s) = 1 -> Q (slept c lk i s) -> switches (sleep c lk) Q s.
Proof.
  intros Hp Hi Hne Hlk Hpt Hn HQ. unfold sleep. apply switches_bind_wp. kstep. rewrite Hp.
  apply switches_bind_wp. rewrite bool_decide_true by done. kstep. apply wp_acquire; [done|].
  apply wp_release; [|done|cbn; lia|].
  { cbn. by rewrite lookup_insert_ne. }
  apply switches_bind_wp. kstep. apply switches_bind_wp. kstep. apply switches_bind.
  rewrite set_procs_procs. erewrite set_procs_ext; [|apply list_alter_alter]. change (set_procs _ _) with (slept c lk i s).
  apply (sched_switches _ i); [| | | | |exact HQ]; cbn -[alter].
  - rewrite lookup_delete_ne by done. by rewrite lookup_insert_eq.
  - lia.
  - done.
  - by rewrite lookup_total_alter_eq.
  - rewrite Hn. done.
Qed.
