(* ===== verification/Bio.v ===== *)
(** * The buffer cache and the memory disk (kernel/bio.c, kernel/memdisk.c)

    The cache is the array [bcache.buf] threaded by [prev]/[next] into a ring
    with [bcache.head] as its sentinel; index [NBUF] stands for the sentinel,
    which the C structure places right after the array. The definitions follow
    the pointers; the theorems show that the ring is at every moment an MRU
    list of the buffers, and that the cache is coherent: every operation
    leaves the logical contents of the disk as it should. *)

From stdpp Require Import prelude gmap strings.
From S2P Require Import Prelude Kernel Spinlock Sched.

Definition buf_eta (b : buf) : buf :=
  Buf (b_flags b) (b_dev b) (b_sector b) (b_prev b) (b_next b) (b_data b).
Definition set_bflags (f : Z -> Z) (b : buf) : buf := ltac:(setfield buf_eta b_flags f b).
Definition set_bdev (f : Z -> Z) (b : buf) : buf := ltac:(setfield buf_eta b_dev f b).
Definition set_bsector (f : Z -> Z) (b : buf) : buf := ltac:(setfield buf_eta b_sector f b).
Definition set_bprev (f : nat -> nat) (b : buf) : buf := ltac:(setfield buf_eta b_prev f b).
Definition set_bnext (f : nat -> nat) (b : buf) : buf := ltac:(setfield buf_eta b_next f b).
Definition set_bdata (f : bytes -> bytes) (b : buf) : buf := ltac:(setfield buf_eta b_data f b).

Definition buf0 : buf := Buf 0 0 0 0 0 (replicate 512 0).
#[export] Instance buf_inhabited : Inhabited buf := populate buf0.

(** The sentinel [&bcache.head]. *)
Definition HEAD : nat := NBUF.

Definition getb (i : nat) : K buf := gets (fun s => k_bc s !!! i).
Definition setb (i : nat) (f : buf -> buf) : K unit := modify (set_bc (alter f i)).

(** ** memdisk.c *)

Definition memideinit (img : list bytes) : K unit :=
  modify (set_disk (fun _ => img)) ;;
  modify (set_disksize (fun _ => Z.of_nat (length img))).

Definition memiderw (i : nat) : K unit :=
  b <- getb i ;;
  if negb (has (b_flags b) B_BUSY) then panic "iderw: buf not busy" else
  if Z.land (b_flags b) (Z.lor B_VALID B_DIRTY) =? B_VALID then panic "iderw: nothing to do" else
  if negb (b_dev b =? 1) then panic "iderw: request not for disk 1" else
  size <- gets k_disksize ;;
  if size <=? b_sector b then panic "iderw: sector out of range" else
  (if has (b_flags b) B_DIRTY then
     setb i (set_bflags (fun fl => clrf fl B_DIRTY)) ;;
     modify (set_disk (<[Z.to_nat (b_sector b) := b_data b]>)) ;;
     modify (set_hist (fun h => h ++ [(b_sector b, b_data b)]))
   else
     p <- gets (fun s => k_disk s !!! Z.to_nat (b_sector b)) ;;
     setb i (set_bdata (fun _ => p))) ;;
  setb i (set_bflags (fun fl => setf fl B_VALID)).

(** ** bio.c *)

(** Splice [i] in after the sentinel. *)
Definition push_front (i : nat) : K unit :=
  h <- getb HEAD ;;
  setb i (set_bnext (fun _ => b_next h)) ;;
  setb i (set_bprev (fun _ => HEAD)) ;;
  h <- getb HEAD ;;
  setb (b_next h) (set_bprev (fun _ => i)) ;;
  setb HEAD (set_bnext (fun _ => i)).

Fixpoint binit_loop (n : nat) (i : nat) : K unit :=
  match n with
  | O => ret tt
  | S n =>
    h <- getb HEAD ;;
    setb i (set_bnext (fun _ => b_next h)) ;;
    setb i (set_bprev (fun _ => HEAD)) ;;
    setb i (set_bdev (fun _ => u32 (-1))) ;;
    h <- getb HEAD ;;
    setb (b_next h) (set_bprev (fun _ => i)) ;;
    setb HEAD (set_bnext (fun _ => i)) ;;
    binit_loop n (S i)
  end.

Definition binit : K unit :=
  initlock LBcache ;;
  setb HEAD (set_bprev (fun _ => HEAD)) ;;
  setb HEAD (set_bnext (fun _ => HEAD)) ;;
  binit_loop NBUF 0.

(** The two scans of [bget]: the first node satisfying [P] from [b] on,
    following [next] (or [prev]) up to the sentinel. *)
Fixpoint scan (step : nat -> nat) (P : nat -> bool) (fuel : nat) (b : nat) : option (option nat) :=
  match fuel with
  | O => None
  | S fuel =>
    if decide (b = HEAD) then Some None
    else if P b then Some (Some b)
    else scan step P fuel (step b)
  end.

Definition next (bc : list buf) (i : nat) : nat := b_next (bc !!! i).
Definition prev (bc : list buf) (i : nat) : nat := b_prev (bc !!! i).

Definition is_sector (dev sector : Z) (bc : list buf) (i : nat) : bool :=
  (b_dev (bc !!! i) =? dev) && (b_sector (bc !!! i) =? sector).
Definition recyclable (bc : list buf) (i : nat) : bool :=
  negb (has (b_flags (bc !!! i)) B_BUSY) && negb (has (b_flags (bc !!! i)) B_DIRTY).

(** One pass over the loop of [bget]; [again] is the [goto loop] after the
    process was woken. *)
Definition bget_pass (again : K nat) (dev sector : Z) : K nat :=
  bc <- gets k_bc ;;
  match scan (next bc) (is_sector dev sector bc) (S NBUF) (next bc HEAD) with
  | None => fun _ => NoFuel
  | Some (Some b) =>
    if negb (has (b_flags (bc !!! b)) B_BUSY) then
      setb b (set_bflags (fun fl => setf fl B_BUSY)) ;;
      release LBcache ;;
      ret b
    else
      sleep (CBuf b) LBcache ;;
      again
  | Some None =>
    match scan (prev bc) (recyclable bc) (S NBUF) (prev bc HEAD) with
    | None => fun _ => NoFuel
    | Some (Some b) =>
      setb b (set_bdev (fun _ => dev)) ;;
      setb b (set_bsector (fun _ => sector)) ;;
      setb b (set_bflags (fun _ => B_BUSY)) ;;
      release LBcache ;;
      ret b
    | Some None => panic "bget: no buffers"
    end
  end.

Fixpoint bget_loop (fuel : nat) (dev sector : Z) : K nat :=
  match fuel with
  | O => fun _ => NoFuel
  | S fuel => bget_pass (bget_loop fuel dev sector) dev sector
  end.

(** A pass either ends the control path or returns, so one pass is all a
    control path ever runs. *)
Definition bget (dev sector : Z) : K nat :=
  acquire LBcache ;;
  bget_loop 1 dev sector.

Definition bread (dev sector : Z) : K nat :=
  b <- bget dev sector ;;
  x <- getb b ;;
  (if negb (has (b_flags x) B_VALID) then memiderw b else ret tt) ;;
  ret b.

Definition bwrite (i : nat) : K unit :=
  b <- getb i ;;
  if negb (has (b_flags b) B_BUSY) then panic "bwrite" else
  setb i (set_bflags (fun fl => setf fl B_DIRTY)) ;;
  memiderw i.

Definition brelse (i : nat) : K unit :=
  b <- getb i ;;
  if negb (has (b_flags b) B_BUSY) then panic "brelse" else
  acquire LBcache ;;
  b <- getb i ;;
  setb (b_next b) (set_bprev (fun _ => b_prev b)) ;;
  b <- getb i ;;
  setb (b_prev b) (set_bnext (fun _ => b_next b)) ;;
  push_front i ;;
  setb i (set_bflags (fun fl => clrf fl B_BUSY)) ;;
  wakeup (CBuf i) ;;
  release LBcache.

(** ** The ring *)

(** The nodes of [c] follow each other through [nx], and back through [pv]. *)
Fixpoint linked (nx pv : nat -> nat) (c : list nat) : Prop :=
  match c with
  | x :: (y :: _) as t => nx x = y /\ pv y = x /\ linked nx pv t
  | _ => True
  end.
Arguments linked : simpl never.

Lemma linked_cons nx pv x y c :
  linked nx pv (x :: y :: c) <-> nx x = y /\ pv y = x /\ linked nx pv (y :: c).
Proof. done. Qed.

(** [l] lists the buffers from the most to the least recently released. *)
Definition ring (bc : list buf) (l : list nat) : Prop :=
  length bc = S NBUF /\ l ≡ₚ seq 0 NBUF /\
  linked (next bc) (prev bc) (HEAD :: l ++ [HEAD]).

Lemma linked_app nx pv a x b :
  linked nx pv (a ++ x :: b) <-> linked nx pv (a ++ [x]) /\ linked nx pv (x :: b).
Proof.
  induction a as [|y a IH]; [simpl; unfold linked at 2; naive_solver|].
  destruct a as [|z a]; simpl in *; rewrite !linked_cons in *; [unfold linked at 3|]; naive_solver.
Qed.

Lemma linked_ext nx pv nx' pv' c :
  linked nx pv c ->
  (forall x, x ∈ removelast c -> nx' x = nx x) ->
  (forall y, y ∈ tail c -> pv' y = pv y) ->
  linked nx' pv' c.
Proof.
  induction c as [|x [|y c] IH]; [done..|]. intros (H1 & H2 & H3) Hnx Hpv.
  split_and!.
  - rewrite Hnx; [done|]. simpl. set_solver.
  - rewrite Hpv; [done|]. simpl. set_solver.
  - apply IH; [done| |].
    + intros z Hz. apply Hnx. simpl in *. set_solver.
    + intros z Hz. apply Hpv. simpl in *. set_solver.
Qed.

Lemma removelast_snoc {A} (l : list A) x : removelast (l ++ [x]) = l.
Proof. apply removelast_last. Qed.

Lemma linked_push nx pv l b :
  linked nx pv (HEAD :: l ++ [HEAD]) -> HEAD ∉ l -> b ∉ HEAD :: l -> NoDup l ->
  linked (fupd (fupd nx b (nx HEAD)) HEAD b) (fupd (fupd pv b HEAD) (nx HEAD) b)
    (HEAD :: (b :: l) ++ [HEAD]).
Proof.
  intros Hl Hh Hb Hnd. apply not_elem_of_cons in Hb as [HbH Hbl].
  destruct l as [|y l].
  { destruct Hl as (H1 & H2 & _). rewrite H1. simpl. rewrite !linked_cons.
    split_and!; unfold fupd; repeat case_decide; done. }
  destruct Hl as (H1 & H2 & H3). simpl in *. rewrite H1.
  apply NoDup_cons in Hnd as [Hyl Hnd].
  apply not_elem_of_cons in Hh as [HHy Hhl], Hbl as [Hby Hbl].
  rewrite !linked_cons. split_and!; [unfold fupd; repeat case_decide; done..|].
  - eapply (linked_ext nx pv); [done| |].
    + intros x Hx. rewrite app_comm_cons, removelast_snoc in Hx. rewrite !fupd_ne; set_solver.
    + intros x Hx. simpl in Hx. rewrite !fupd_ne; set_solver.
Qed.

Lemma linked_unlink nx pv l1 b l2 :
  linked nx pv (HEAD :: (l1 ++ b :: l2) ++ [HEAD]) -> NoDup (HEAD :: l1 ++ b :: l2) ->
  linked (fupd nx (pv b) (nx b)) (fupd pv (nx b) (pv b)) (HEAD :: (l1 ++ l2) ++ [HEAD]).
Proof.
  intros Hl Hnd.
  destruct (exists_last (l := HEAD :: l1)) as (a & p & Ha); [done|].
  assert (exists n c, l2 ++ [HEAD] = n :: c) as (n & c & Hc).
  { destruct l2; simpl; eauto. }
  rewrite <- app_assoc in *. simpl in *.
  rewrite app_comm_cons, Ha, Hc in Hl |- *.
  rewrite <- app_assoc in Hl |- *. simpl in Hl |- *.
  apply linked_app in Hl as [Hl1 Hl2]. apply linked_app.
  destruct Hl2 as (E1 & E2 & E3 & E4 & Hl3).
  subst p. rewrite E3.
  assert (tail (a ++ [pv b]) = l1) as Ht by (by rewrite <- Ha).
  assert (removelast (n :: c) = l2) as Hr by (rewrite <- Hc; apply removelast_snoc).
  assert (HEAD ∉ l1 ++ b :: l2) as HnH by (apply NoDup_cons in Hnd; tauto).
  assert (NoDup (l2 ++ [HEAD])) as Hnd2.
  { rewrite NoDup_cons, NoDup_app, NoDup_cons in Hnd. apply NoDup_app.
    split_and!; [tauto| |apply NoDup_singleton]. set_solver. }
  assert (n ∈ l2 ++ [HEAD]) as Hn by (rewrite Hc; set_solver).
  assert (pv b ∈ HEAD :: l1) as Hp by (rewrite Ha; set_solver).
  assert (NoDup ((a ++ [pv b]) ++ b :: l2)) as Hnd3 by (by rewrite <- Ha).
  apply NoDup_app in Hnd3 as (Hnda & Hdisj & _). rewrite <- Ha in Hdisj.
  split; [|split_and!].
  - eapply (linked_ext nx pv); [done| |].
    + intros x Hx. rewrite removelast_snoc in Hx. apply fupd_ne. intros ->.
      apply NoDup_app in Hnda as (_ & Hd & _). by apply (Hd (pv b)); [|left].
    + intros x Hx. rewrite Ht in Hx. apply fupd_ne. intros ->.
      apply elem_of_app in Hn as [Hn|Hn]; [|set_solver]. apply (Hdisj n); set_solver.
  - by rewrite fupd_eq.
  - by rewrite fupd_eq.
  - eapply (linked_ext nx pv); [done| |].
    + intros x Hx. rewrite Hr in Hx. apply fupd_ne. intros ->.
      apply (Hdisj (pv b)); [done|set_solver].
    + intros x Hx. simpl in Hx. apply fupd_ne. intros ->.
      rewrite Hc in Hnd2. apply NoDup_cons in Hnd2. tauto.
Qed.

(** A scan along the ring is a search in the list. *)
Lemma scan_next nx pv P l x fuel :
  linked nx pv (x :: l ++ [HEAD]) -> HEAD ∉ l -> (length l < fuel)%nat ->
  scan nx P fuel (nx x) = Some (List.find P l).
Proof.
  revert x fuel. induction l as [|y l IH]; intros x fuel (H1 & H2 & H3) Hh Hf;
    (destruct fuel as [|fuel]; [simpl in Hf; lia|]); simpl in *.
  - by rewrite H1, decide_True.
  - apply not_elem_of_cons in Hh as [Hy Hh].
    rewrite H1, decide_False by done. destruct (P y); [done|].
    apply IH; [done|done|lia].
Qed.

Lemma scan_prev nx pv P l x fuel :
  linked nx pv (HEAD :: l ++ [x]) -> HEAD ∉ l -> (length l < fuel)%nat ->
  scan pv P fuel (pv x) = Some (List.find P (reverse l)).
Proof.
  revert x fuel. induction l as [|y l IH] using rev_ind; intros x fuel Hl Hh Hf.
  - destruct Hl as (H1 & H2 & _). destruct fuel as [|fuel]; [simpl in Hf; lia|]. simpl in *.
    by rewrite H2, decide_True.
  - rewrite length_app in Hf. destruct fuel as [|fuel]; [simpl in Hf; lia|].
    rewrite <- app_assoc in Hl. change (HEAD :: l ++ [y] ++ [x]) with ((HEAD :: l) ++ y :: [x]) in Hl.
    apply linked_app in Hl as [Hl (H1 & H2 & _)].
    rewrite reverse_snoc. simpl. rewrite H2, decide_False by set_solver.
    destruct (P y); [done|]. apply IH; [done|set_solver|simpl in Hf; lia].
Qed.

(** ** The list operations on the array *)

(** The fields of a buffer that are not links. *)
Definition meta (bc : list buf) (i : nat) : Z * Z * Z * bytes :=
  let b := bc !!! i in (b_flags b, b_dev b, b_sector b, b_data b).

(** The pointer assignments of [push_front] and of [brelse]. *)
Definition link_front (i : nat) (bc : list buf) : list buf :=
  let bc := alter (set_bnext (fun _ => next bc HEAD)) i bc in
  let bc := alter (set_bprev (fun _ => HEAD)) i bc in
  let bc := alter (set_bprev (fun _ => i)) (next bc HEAD) bc in
  alter (set_bnext (fun _ => i)) HEAD bc.

Definition unlink (i : nat) (bc : list buf) : list buf :=
  let bc := alter (set_bprev (fun _ => prev bc i)) (next bc i) bc in
  alter (set_bnext (fun _ => next bc i)) (prev bc i) bc.

Arguments link_front : simpl never.
Arguments unlink : simpl never.

Lemma ring_perm bc l : ring bc l -> forall i, i ∈ l <-> (i < NBUF)%nat.
Proof.
  intros (_ & Hp & _) i. rewrite Hp, elem_of_seq. lia.
Qed.

Lemma ring_NoDup bc l : ring bc l -> NoDup (HEAD :: l).
Proof.
  intros Hr. apply NoDup_cons. split.
  - rewrite (ring_perm _ _ Hr). unfold HEAD. lia.
  - destruct Hr as (_ & Hp & _). rewrite Hp. apply NoDup_seq.
Qed.

Lemma linked_neighbours nx pv l1 b l2 :
  linked nx pv (HEAD :: (l1 ++ b :: l2) ++ [HEAD]) ->
  pv b ∈ HEAD :: l1 /\ nx b ∈ l2 ++ [HEAD].
Proof.
  intros Hl. destruct (exists_last (l := HEAD :: l1)) as (a & p & Ha); [done|].
  rewrite <- app_assoc, app_comm_cons, Ha, <- app_assoc in Hl. simpl in Hl.
  apply linked_app in Hl as [_ Hl]. rewrite linked_cons in Hl.
  destruct Hl as (_ & Hp & Hl). split; [rewrite Ha; set_solver|].
  destruct l2; simpl in *; rewrite linked_cons in Hl; set_solver.
Qed.

Lemma unlink_next i bc j :
  (next bc i < length bc)%nat -> (prev bc i < length bc)%nat -> next bc i <> i ->
  next (unlink i bc) j = fupd (next bc) (prev bc i) (next bc i) j /\
  prev (unlink i bc) j = fupd (prev bc) (next bc i) (prev bc i) j /\
  meta (unlink i bc) j = meta bc j.
Proof.
  intros Hn Hp Hne. unfold unlink, meta.
  assert (forall j, next (alter (set_bprev (fun _ => prev bc i)) (next bc i) bc) j = next bc j) as E1.
  { intros j'. unfold next at 1. rewrite lookup_total_alter by done. case_decide; subst; done. }
  assert (prev (alter (set_bprev (fun _ => prev bc i)) (next bc i) bc) i = prev bc i) as E2.
  { unfold prev at 1. rewrite lookup_total_alter by done. case_decide; done. }
  rewrite E2, E1. unfold next at 1, prev at 4, fupd.
  rewrite !(lookup_total_alter _ (alter _ _ _)) by len.
  rewrite !(lookup_total_alter _ bc) by done.
  split_and!; repeat case_decide; subst; cbn; try done; congruence.
Qed.

Lemma link_front_next i bc j :
  length bc = S NBUF -> (i < NBUF)%nat -> (next bc HEAD < length bc)%nat ->
  next (link_front i bc) j = fupd (fupd (next bc) i (next bc HEAD)) HEAD i j /\
  prev (link_front i bc) j = fupd (fupd (prev bc) i HEAD) (next bc HEAD) i j /\
  meta (link_front i bc) j = meta bc j.
Proof.
  intros Hlen Hi Hn. unfold link_front, meta.
  assert (i <> HEAD) by (unfold HEAD; lia).
  assert (HEAD < length bc)%nat by (unfold HEAD; lia).
  assert (next (alter (set_bprev (fun _ => HEAD)) i
            (alter (set_bnext (fun _ => next bc HEAD)) i bc)) HEAD = next bc HEAD) as ->.
  { unfold next at 1. by rewrite !lookup_total_alter_ne. }
  unfold next at 1, prev at 1, fupd.
  rewrite !(lookup_total_alter _ (alter _ _ (alter _ _ (alter _ _ _)))) by (len; unfold HEAD; lia).
  rewrite !(lookup_total_alter _ (alter _ _ (alter _ _ bc))) by len.
  rewrite !(lookup_total_alter _ (alter _ _ bc)) by (len; lia).
  rewrite !(lookup_total_alter _ bc) by lia.
  split_and!; repeat case_decide; subst; cbn; try done; congruence.
Qed.

Lemma length_unlink i bc : length (unlink i bc) = length bc.
Proof. unfold unlink. len. Qed.
Lemma length_link_front i bc : length (link_front i bc) = length bc.
Proof. unfold link_front. len. Qed.
#[export] Hint Rewrite length_unlink length_link_front : len.

Lemma ring_in_range bc l i :
  ring bc l -> (i < NBUF)%nat ->
  exists l1 l2, l = l1 ++ i :: l2 /\
    (next bc i < length bc)%nat /\ (prev bc i < length bc)%nat /\
    next bc i <> i /\ prev bc i <> i.
Proof.
  intros Hr Hi. pose proof (ring_NoDup _ _ Hr) as Hnd.
  pose proof (ring_perm _ _ Hr) as Hin.
  assert (i ∈ l) as Hil by (by apply Hin).
  apply list_elem_of_split in Hil as (l1 & l2 & ->).
  destruct Hr as (Hlen & _ & Hl).
  destruct (linked_neighbours _ _ _ _ _ Hl) as [Hp Hn].
  exists l1, l2. split; [done|].
  assert (forall j, j ∈ HEAD :: (l1 ++ i :: l2) -> (j < length bc)%nat) as Hlt.
  { intros j Hj. apply elem_of_cons in Hj as [->|Hj]; [unfold HEAD|apply Hin in Hj]; lia. }
  rewrite NoDup_cons, NoDup_app, NoDup_cons in Hnd.
  split_and!.
  - apply Hlt. set_solver.
  - apply Hlt. set_solver.
  - intros E. rewrite E in Hn. set_solver.
  - intros E. rewrite E in Hp. set_solver.
Qed.

(** [brelse]'s pointer assignments move the buffer to the front. *)
Lemma ring_move_front bc l i :
  ring bc l -> (i < NBUF)%nat ->
  ring (link_front i (unlink i bc)) (i :: filter (fun j => j <> i) l) /\
  forall j, meta (link_front i (unlink i bc)) j = meta bc j.
Proof.
  intros Hr Hi. pose proof (ring_NoDup _ _ Hr) as Hnd.
  destruct (ring_in_range _ _ _ Hr Hi) as (l1 & l2 & -> & Hn & Hp & Hne & _).
  assert (filter (fun j => j <> i) (l1 ++ i :: l2) = l1 ++ l2) as ->.
  { rewrite NoDup_cons, NoDup_app, NoDup_cons in Hnd. destruct Hnd as (_ & _ & Hd & Hi2 & _).
    rewrite filter_app, filter_cons_False by tauto.
    rewrite !filter_ne_notin; [done|tauto|]. intros Hi1. apply (Hd i); set_solver. }
  destruct Hr as (Hlen & Hperm & Hl).
  pose proof (linked_unlink _ _ _ _ _ Hl Hnd) as Hu.
  pose proof (unlink_next i bc) as Hun.
  assert (linked (next (unlink i bc)) (prev (unlink i bc)) (HEAD :: (l1 ++ l2) ++ [HEAD])) as Hu'.
  { eapply linked_ext; [exact Hu| |]; intros x _; by apply Hun. }
  assert (HEAD ∉ l1 ++ l2 /\ i ∉ HEAD :: (l1 ++ l2) /\ NoDup (l1 ++ l2)) as (HhN & HiN & Hnd').
  { rewrite NoDup_cons, NoDup_app, NoDup_cons in Hnd. rewrite NoDup_app. set_solver. }
  assert (next (unlink i bc) HEAD < length (unlink i bc))%nat as Hhead.
  { rewrite length_unlink. destruct (Hun HEAD) as (-> & _ & _); [done..|].
    unfold fupd. case_decide; [done|].
    assert (next bc HEAD ∈ HEAD :: l1 ++ i :: l2) as Hx.
    { destruct l1; simpl in Hl; rewrite linked_cons in Hl; set_solver. }
    apply elem_of_cons in Hx as [->|Hx]; [unfold HEAD; lia|].
    rewrite Hperm in Hx. apply elem_of_seq in Hx. lia. }
  pose proof (linked_push _ _ _ _ Hu' HhN HiN Hnd') as Hf.
  pose proof (fun j => link_front_next i (unlink i bc) j
                         ltac:(by rewrite length_unlink) Hi Hhead) as Hfn.
  split.
  - split_and!; [by len| |].
    + rewrite <- Hperm. apply Permutation_middle.
    + eapply linked_ext; [exact Hf| |]; intros x _; apply Hfn.
  - intros j. destruct (Hfn j) as (_ & _ & ->). by apply Hun.
Qed.

(** ** Coherence *)

Definition busy (b : buf) : bool := has (b_flags b) B_BUSY.
Definition valid (b : buf) : bool := has (b_flags b) B_VALID.
Definition dirty (b : buf) : bool := has (b_flags b) B_DIRTY.

(** A buffer of the cache between operations: it was never used, or it holds
    a sector of the disk, and its data is the sector's unless a process holds
    it or it waits to be written. *)
Definition buf_ok (s : kst) (b : buf) : Prop :=
  (b_dev b = u32 (-1) /\ b_flags b = 0) \/
  (b_dev b = ROOTDEV /\ 0 <= b_sector b < k_disksize s /\ valid b = true /\
   length (b_data b) = 512%nat /\
   (busy b = false -> dirty b = false -> b_data b = k_disk s !!! Z.to_nat (b_sector b))).

Record bio_ok (s : kst) : Prop := {
  bo_ring : exists l, ring (k_bc s) l;
  bo_disk : Z.of_nat (length (k_disk s)) = k_disksize s;
  bo_block : Forall (fun blk => length blk = 512%nat) (k_disk s);
  bo_buf : forall i, (i < NBUF)%nat -> buf_ok s (k_bc s !!! i);
  bo_uniq : forall i j, (i < NBUF)%nat -> (j < NBUF)%nat ->
    b_dev (k_bc s !!! i) = ROOTDEV -> b_dev (k_bc s !!! j) = ROOTDEV ->
    b_sector (k_bc s !!! i) = b_sector (k_bc s !!! j) -> i = j
}.

(** The buffer of a sector, and the contents of the disk as the file system
    sees them: a cached sector's buffer, otherwise the disk. *)
Definition cached (s : kst) (b : Z) : option nat :=
  List.find (is_sector ROOTDEV b (k_bc s)) (seq 0 NBUF).

Definition lview (s : kst) (b : Z) : bytes :=
  match cached s b with
  | Some i => b_data (k_bc s !!! i)
  | None => k_disk s !!! Z.to_nat b
  end.

Arguments cached : simpl never.
Arguments lview : simpl never.

(** Only the CPU, the locks, process states, the cache and the disk differ. *)
Definition bio_frame (s s' : kst) : Prop :=
  s' = set_cpu (fun _ => k_cpu s') (set_locks (fun _ => k_locks s')
         (set_procs (fun _ => k_procs s') (set_bc (fun _ => k_bc s')
           (set_disk (fun _ => k_disk s') (set_hist (fun _ => k_hist s') s))))).

#[export] Instance bio_frame_preorder : PreOrder bio_frame.
Proof.
  split; [by intros []|]. unfold bio_frame. intros s1 s2 s3 H1 H2.
  rewrite H2, H1 at 1. done.
Qed.

#[export] Instance procs_same_preorder : PreOrder procs_same.
Proof. unfold procs_same. split; [done|]. intros s1 s2 s3 H1 H2. congruence. Qed.

Lemma sched_frame_bio s s' : sched_frame s s' -> bio_frame s s'.
Proof. unfold sched_frame, bio_frame. intros E. rewrite E at 1. by rewrite E. Qed.

Lemma is_sector_true dev b bc i :
  is_sector dev b bc i = true <-> b_dev (bc !!! i) = dev /\ b_sector (bc !!! i) = b.
Proof. unfold is_sector. rewrite andb_true_iff, !Z.eqb_eq. done. Qed.

Lemma cached_Some s b i :
  cached s b = Some i ->
  (i < NBUF)%nat /\ b_dev (k_bc s !!! i) = ROOTDEV /\ b_sector (k_bc s !!! i) = b.
Proof.
  intros H. apply List.find_some in H as [Hin Hs]. apply is_sector_true in Hs.
  apply in_seq in Hin. split; [lia|done].
Qed.

Lemma cached_None s b i :
  cached s b = None -> (i < NBUF)%nat ->
  ~ (b_dev (k_bc s !!! i) = ROOTDEV /\ b_sector (k_bc s !!! i) = b).
Proof.
  intros H Hi Hs. apply (is_sector_true _ _ (k_bc s)) in Hs.
  eapply List.find_none in H; [|apply in_seq; split; [apply Nat.le_0_l|exact Hi]].
  congruence.
Qed.

Lemma cached_buf s i :
  bio_ok s -> (i < NBUF)%nat -> b_dev (k_bc s !!! i) = ROOTDEV ->
  cached s (b_sector (k_bc s !!! i)) = Some i.
Proof.
  intros Hok Hi Hd. destruct (cached s _) as [j|] eqn:E.
  - apply cached_Some in E as (Hj & Hdj & Hs). f_equal. by eapply bo_uniq.
  - exfalso. by eapply cached_None.
Qed.

Lemma lview_buf s i :
  bio_ok s -> (i < NBUF)%nat -> b_dev (k_bc s !!! i) = ROOTDEV ->
  lview s (b_sector (k_bc s !!! i)) = b_data (k_bc s !!! i).
Proof. intros. unfold lview. by rewrite cached_buf. Qed.

Lemma ring_ext bc bc' l :
  length bc' = length bc -> (forall j, next bc' j = next bc j) ->
  (forall j, prev bc' j = prev bc j) -> ring bc l -> ring bc' l.
Proof.
  intros Hlen Hn Hp (H1 & H2 & H3). split_and!; [congruence|done|].
  eapply linked_ext; [exact H3| |]; intros; auto.
Qed.

(** Changing fields of one buffer that are not links. *)
Lemma ring_alter bc l f i :
  (forall b, b_next (f b) = b_next b /\ b_prev (f b) = b_prev b) ->
  ring bc l -> ring (alter f i bc) l.
Proof.
  intros Hf Hr. eapply ring_ext; [by len| | |exact Hr]; intros j; unfold next, prev;
    rewrite !list_lookup_total_alt, list_lookup_alter; case_decide; subst; try done;
    (destruct (bc !! j); [apply Hf|done]).
Qed.

(** The flag tests after an update of the flag word. *)
Ltac solve_flag :=
  intros; unfold busy, valid, dirty, set_bflags, B_BUSY, B_VALID, B_DIRTY; cbn;
  rewrite !has_testbit, ?setf_testbit, ?clrf_testbit by lia; cbn;
  rewrite ?orb_true_r, ?orb_false_r, ?andb_true_r, ?andb_false_r; done.

Lemma busy_setf_busy b : busy (set_bflags (fun fl => setf fl B_BUSY) b) = true.
Proof. solve_flag. Qed.
Lemma valid_setf_busy b : valid (set_bflags (fun fl => setf fl B_BUSY) b) = valid b.
Proof. solve_flag. Qed.
Lemma dirty_setf_busy b : dirty (set_bflags (fun fl => setf fl B_BUSY) b) = dirty b.
Proof. solve_flag. Qed.
Lemma busy_setf_valid b : busy (set_bflags (fun fl => setf fl B_VALID) b) = busy b.
Proof. solve_flag. Qed.
Lemma valid_setf_valid b : valid (set_bflags (fun fl => setf fl B_VALID) b) = true.
Proof. solve_flag. Qed.
Lemma dirty_setf_valid b : dirty (set_bflags (fun fl => setf fl B_VALID) b) = dirty b.
Proof. solve_flag. Qed.
Lemma busy_setf_dirty b : busy (set_bflags (fun fl => setf fl B_DIRTY) b) = busy b.
Proof. solve_flag. Qed.
Lemma valid_setf_dirty b : valid (set_bflags (fun fl => setf fl B_DIRTY) b) = valid b.
Proof. solve_flag. Qed.
Lemma dirty_setf_dirty b : dirty (set_bflags (fun fl => setf fl B_DIRTY) b) = true.
Proof. solve_flag. Qed.
Lemma busy_clrf_busy b : busy (set_bflags (fun fl => clrf fl B_BUSY) b) = false.
Proof. solve_flag. Qed.
Lemma valid_clrf_busy b : valid (set_bflags (fun fl => clrf fl B_BUSY) b) = valid b.
Proof. solve_flag. Qed.
Lemma dirty_clrf_busy b : dirty (set_bflags (fun fl => clrf fl B_BUSY) b) = dirty b.
Proof. solve_flag. Qed.
Lemma busy_clrf_dirty b : busy (set_bflags (fun fl => clrf fl B_DIRTY) b) = busy b.
Proof. solve_flag. Qed.
Lemma valid_clrf_dirty b : valid (set_bflags (fun fl => clrf fl B_DIRTY) b) = valid b.
Proof. solve_flag. Qed.
Lemma dirty_clrf_dirty b : dirty (set_bflags (fun fl => clrf fl B_DIRTY) b) = false.
Proof. solve_flag. Qed.

Create HintDb flags.
#[export] Hint Rewrite busy_setf_busy valid_setf_busy dirty_setf_busy busy_setf_valid valid_setf_valid dirty_setf_valid busy_setf_dirty valid_setf_dirty dirty_setf_dirty busy_clrf_busy valid_clrf_busy dirty_clrf_busy busy_clrf_dirty valid_clrf_dirty dirty_clrf_dirty : flags.
Ltac flags := autorewrite with flags in *.

Definition bget_hit (s : kst) (i : nat) (s' : kst) : Prop :=
  k_bc s' = alter (set_bflags (fun fl => setf fl B_BUSY)) i (k_bc s).
Definition bget_miss (s : kst) (dev b : Z) (i : nat) (s' : kst) : Prop :=
  k_bc s' = alter (fun x => Buf B_BUSY dev b (b_prev x) (b_next x) (b_data x)) i (k_bc s).

Lemma bget_spec s b :
  bio_ok s -> cpu_ok s -> k_locks s !! LBcache = None ->
  (forall i, cached s b = Some i -> busy (k_bc s !!! i) = false) ->
  (cached s b = None -> exists i, (i < NBUF)%nat /\ recyclable (k_bc s) i = true) ->
  wp (bget ROOTDEV b) (fun i s' =>
    ctx s s' /\ bio_frame s s' /\ k_procs s' = k_procs s /\ k_disk s' = k_disk s /\ k_hist s' = k_hist s /\
    (i < NBUF)%nat /\
    ((cached s b = Some i /\ bget_hit s i s') \/
     (cached s b = None /\ recyclable (k_bc s) i = true /\ bget_miss s ROOTDEV b i s'))) s.
Proof.
  intros Hok Hcpu Hlk Hnb Hroom. destruct (bo_ring _ Hok) as (l & Hr).
  pose proof (ring_NoDup _ _ Hr) as Hnd. apply NoDup_cons in Hnd as [Hh Hnd].
  pose proof (ring_perm _ _ Hr) as Hin. destruct Hr as (Hlen & Hperm & Hl).
  assert (length l = NBUF) as Hll by (rewrite Hperm; apply length_seq).
  unfold bget. kstep. apply wp_acquire; [done|]. unfold bget_loop, bget_pass. kstep.
  change (k_bc (acquired LBcache s)) with (k_bc s).
  rewrite (scan_next (next (k_bc s)) (prev (k_bc s)) _ l) by (done || lia).
  destruct (List.find _ l) as [j|] eqn:Ef.
  - apply List.find_some in Ef as [Hjl Hj].
    apply list_elem_of_In, Hin in Hjl. apply is_sector_true in Hj as [Hd Hs].
    assert (cached s b = Some j) as Hc by (rewrite <- Hs; by apply cached_buf).
    assert (busy (k_bc s !!! j) = false) as Hb by auto.
    unfold busy in Hb. rewrite Hb. unfold setb. cbn [negb]. kstep.
    apply (wp_release_ctx _ _ s); [done..|by apply ctx_same|]. intros Hctx. kstep.
    split_and!; try done. left. done.
  - rewrite (scan_prev (next (k_bc s)) (prev (k_bc s)) _ l) by (done || lia).
    assert (cached s b = None) as Hc.
    { destruct (cached s b) as [i|] eqn:E; [|done]. exfalso.
      apply cached_Some in E as (Hi & Hs). apply (is_sector_true _ _ (k_bc s)) in Hs.
      eapply List.find_none in Ef; [|apply list_elem_of_In, Hin; exact Hi]. congruence. }
    destruct (List.find _ (reverse l)) as [j|] eqn:Eg.
    + apply List.find_some in Eg as [Hjl Hj].
      apply list_elem_of_In in Hjl. rewrite elem_of_reverse in Hjl. apply Hin in Hjl.
      unfold setb. kstep.
      apply (wp_release_ctx _ _ s); [done..|by apply ctx_same|]. intros Hctx. kstep.
      split_and!; try done. right. split_and!; try done.
      unfold bget_miss. cbn. by rewrite !list_alter_alter.
    + exfalso. destruct (Hroom Hc) as (i & Hi & Hri).
      eapply List.find_none in Eg; [|apply list_elem_of_In, elem_of_reverse, Hin; exact Hi].
      congruence.
Qed.

(** What [bread] promises: buffer [i], held by the caller, with the logical
    contents of the sector; nothing else changes, except that a clean buffer
    nobody held may now hold another sector. *)
Record bread_post (s : kst) (b : Z) (i : nat) (s' : kst) : Prop := {
  br_ctx : ctx s s';
  br_frame : bio_frame s s';
  br_procs : k_procs s' = k_procs s;
  br_disk : k_disk s' = k_disk s;
  br_hist : k_hist s' = k_hist s;
  br_ok : bio_ok s';
  br_i : (i < NBUF)%nat;
  br_free : busy (k_bc s !!! i) = false;
  br_other : forall j, j <> i -> k_bc s' !!! j = k_bc s !!! j;
  br_dev : b_dev (k_bc s' !!! i) = ROOTDEV;
  br_sector : b_sector (k_bc s' !!! i) = b;
  br_busy : busy (k_bc s' !!! i) = true;
  br_dirty : dirty (k_bc s' !!! i) = dirty (k_bc s !!! i);
  br_same : dirty (k_bc s !!! i) = true -> b_sector (k_bc s !!! i) = b;
  br_data : b_data (k_bc s' !!! i) = lview s b;
  br_view : forall b', 0 <= b' -> lview s' b' = lview s b'
}.

Lemma memiderw_read s i :
  b_flags (k_bc s !!! i) = B_BUSY ->
  b_dev (k_bc s !!! i) = ROOTDEV -> b_sector (k_bc s !!! i) < k_disksize s ->
  memiderw i s = Ok tt (set_bc (alter (fun x => Buf (setf B_BUSY B_VALID) (b_dev x) (b_sector x)
                     (b_prev x) (b_next x) (k_disk s !!! Z.to_nat (b_sector x))) i) s).
Proof.
  intros Hfl Hd Hs. unfold memiderw, getb, setb, bind, gets, modify. rewrite Hfl, Hd.
  change (has B_BUSY B_BUSY) with true. change (has B_BUSY B_DIRTY) with false.
  change (Z.land B_BUSY (Z.lor B_VALID B_DIRTY) =? B_VALID) with false. cbn.
  destruct (Z.leb_spec (k_disksize s) (b_sector (k_bc s !!! i))) as [|_]; [lia|].
  unfold set_bc. cbn. do 2 f_equal. rewrite list_alter_alter.
  apply list_alter_at. unfold set_bflags, set_bdata. cbn. by rewrite Hfl.
Qed.

Lemma bio_frame_disksize s s' : bio_frame s s' -> k_disksize s' = k_disksize s.
Proof. intros ->. done. Qed.

Lemma cached_ext s s' b :
  (forall j, (j < NBUF)%nat -> b_dev (k_bc s' !!! j) = b_dev (k_bc s !!! j) /\
                          b_sector (k_bc s' !!! j) = b_sector (k_bc s !!! j)) ->
  cached s' b = cached s b.
Proof.
  intros H. apply find_ext_in. intros j Hj. apply elem_of_seq in Hj.
  unfold is_sector. by destruct (H j) as [-> ->]; [lia|].
Qed.

Lemma u32_m1 : u32 (-1) <> ROOTDEV.
Proof. done. Qed.

Lemma buf_ok_dev s b : buf_ok s b -> b_dev b = ROOTDEV ->
  0 <= b_sector b < k_disksize s /\ valid b = true /\ length (b_data b) = 512%nat /\
  (busy b = false -> dirty b = false -> b_data b = k_disk s !!! Z.to_nat (b_sector b)).
Proof. pose proof u32_m1. intros [[? ?]|?]; [congruence|tauto]. Qed.

Lemma bread_hit_spec s b i s' :
  bio_ok s -> ctx s s' -> bio_frame s s' -> k_procs s' = k_procs s -> k_disk s' = k_disk s ->
  k_hist s' = k_hist s ->
  (i < NBUF)%nat -> cached s b = Some i -> busy (k_bc s !!! i) = false -> bget_hit s i s' ->
  bread_post s b i s'.
Proof.
  intros Hok Hctx Hfr Hps Hdk Hhi Hi Hc Hnb Hbc. unfold bget_hit in Hbc.
  pose proof (bio_frame_disksize _ _ Hfr) as Hsz.
  destruct (bo_ring _ Hok) as (l & Hr). pose proof Hr as (Hlen & _).
  apply cached_Some in Hc as Hc'. destruct Hc' as (_ & Hd & Hs).
  assert (forall j, k_bc s' !!! j = if decide (j = i) then
            set_bflags (fun fl => setf fl B_BUSY) (k_bc s !!! i) else k_bc s !!! j) as Hj.
  { intros j. rewrite Hbc. apply lookup_total_alter. lia. }
  assert (forall b', cached s' b' = cached s b') as Hcx.
  { intros b'. apply cached_ext. intros j _. rewrite Hj. case_decide; subst; done. }
  constructor; rewrite ?Hj, ?decide_True by done; try done.
  - destruct Hok as [_ HD HB Hbuf Huniq]. constructor.
    + exists l. rewrite Hbc. by apply ring_alter.
    + congruence.
    + by rewrite Hdk.
    + intros j Hjn. rewrite Hj. pose proof (Hbuf j Hjn) as Hbj. unfold buf_ok in *.
      rewrite Hsz, Hdk. case_decide; subst; [|done].
      apply buf_ok_dev in Hbj as (? & ? & ? & ?); [|done]. right. flags. cbn.
      split_and!; try done; lia.
    + intros j k Hjn Hkn. rewrite !Hj. repeat case_decide; subst; cbn; eauto.
  - intros j Hne. by rewrite Hj, decide_False.
  - by flags.
  - by flags.
  - cbn. unfold lview. by rewrite Hc.
  - intros b' Hb'. unfold lview. rewrite Hcx, Hdk. destruct (cached s b') as [j|]; [|done].
    rewrite Hj. by case_decide; subst.
Qed.

Lemma cached_intro s b i :
  (i < NBUF)%nat -> b_dev (k_bc s !!! i) = ROOTDEV -> b_sector (k_bc s !!! i) = b ->
  is_Some (cached s b).
Proof.
  intros Hi Hd Hs. destruct (cached s b) eqn:E; [done|].
  exfalso. by eapply cached_None.
Qed.

Lemma recyclable_true bc i :
  recyclable bc i = true <-> busy (bc !!! i) = false /\ dirty (bc !!! i) = false.
Proof. unfold recyclable, busy, dirty. rewrite andb_true_iff, !negb_true_iff. done. Qed.

Lemma block_length s b :
  bio_ok s -> 0 <= b < k_disksize s -> length (k_disk s !!! Z.to_nat b) = 512%nat.
Proof.
  intros Hok Hb. pose proof (bo_disk _ Hok). pose proof (bo_block _ Hok) as HB.
  rewrite Forall_lookup in HB. eapply HB.
  apply list_lookup_lookup_total_lt. lia.
Qed.

Lemma bread_miss_spec s b i s' :
  bio_ok s -> ctx s s' -> bio_frame s s' -> k_procs s' = k_procs s -> k_disk s' = k_disk s ->
  k_hist s' = k_hist s ->
  (i < NBUF)%nat -> 0 <= b < k_disksize s -> cached s b = None -> recyclable (k_bc s) i = true ->
  k_bc s' = alter (fun x => Buf (setf B_BUSY B_VALID) ROOTDEV b (b_prev x) (b_next x)
                              (k_disk s !!! Z.to_nat b)) i (k_bc s) ->
  bread_post s b i s'.
Proof.
  intros Hok Hctx Hfr Hps Hdk Hhi Hi Hb Hc Hrec Hbc.
  pose proof (bio_frame_disksize _ _ Hfr) as Hsz.
  destruct (bo_ring _ Hok) as (l & Hr). pose proof Hr as (Hlen & _).
  apply recyclable_true in Hrec as [Hnb Hnd].
  assert (forall j, k_bc s' !!! j = if decide (j = i) then
            Buf (setf B_BUSY B_VALID) ROOTDEV b (prev (k_bc s) i) (next (k_bc s) i)
                              (k_disk s !!! Z.to_nat b) else k_bc s !!! j) as Hj.
  { intros j. by rewrite Hbc, lookup_total_alter by lia. }
  assert (bio_ok s') as Hok'.
  { pose proof Hok as [_ HD HB Hbuf Huniq]. constructor.
    + exists l. rewrite Hbc. by apply ring_alter.
    + congruence.
    + by rewrite Hdk.
    + intros j Hjn. rewrite Hj. pose proof (Hbuf j Hjn) as Hbj. unfold buf_ok in *.
      rewrite Hsz, Hdk. case_decide; subst; [|done]. right. cbn.
      split_and!; try done; try lia. by apply block_length.
    + intros j k Hjn Hkn. rewrite !Hj. repeat case_decide; subst; cbn; eauto.
      * intros _ Hd Hs. exfalso. by eapply (cached_None s b k).
      * intros Hd _ Hs. exfalso. by eapply (cached_None s b j). }
  assert (forall b', 0 <= b' -> lview s' b' = lview s b') as Hv.
  { intros b' Hb'. destruct (decide (b' = b)) as [->|Hne].
    { unfold lview at 2. rewrite Hc.
      pose proof (lview_buf s' i Hok' Hi) as Hl. rewrite Hj, decide_True in Hl by done.
      by apply Hl. }
    unfold lview. rewrite Hdk. destruct (cached s' b') as [j|] eqn:E'.
    - apply cached_Some in E' as (Hjn & Hd & Hs). rewrite Hj in *. case_decide; subst; [done|].
      by rewrite cached_buf.
    - destruct (cached s b') as [j|] eqn:E; [|done].
      apply cached_Some in E as (Hjn & Hd & Hs).
      destruct (decide (j = i)) as [->|Hji].
      + pose proof (bo_buf _ Hok i Hjn) as Hbi.
        apply buf_ok_dev in Hbi as (_ & _ & _ & Hcl); [|done]. by rewrite Hcl, Hs.
      + exfalso. eapply (cached_None s' b' j); [done..|]. by rewrite Hj, decide_False. }
  constructor; rewrite ?Hj, ?decide_True by done; try done.
  - intros j Hne. by rewrite Hj, decide_False.
  - by rewrite Hnd.
  - cbn. unfold lview. by rewrite Hc.
Qed.

(** [bread] returns a held buffer with the logical contents of the sector,
    provided no process holds the sector and, if the sector is not cached,
    some buffer is neither held nor dirty. *)
Theorem bread_spec s b :
  bio_ok s -> cpu_ok s -> k_locks s !! LBcache = None -> 0 <= b < k_disksize s ->
  (forall i, cached s b = Some i -> busy (k_bc s !!! i) = false) ->
  (cached s b = None -> exists i, (i < NBUF)%nat /\ recyclable (k_bc s) i = true) ->
  wp (bread ROOTDEV b) (bread_post s b) s.
Proof.
  intros Hok Hcpu Hlk Hb Hnb Hroom. unfold bread. kstep.
  eapply wp_mono; [by apply bget_spec|].
  intros i s1 (Hctx & Hfr & Hps & Hdk & Hhi & Hi & [[Hc Hhit]|(Hc & Hrec & Hmiss)]).
  - pose proof (bread_hit_spec _ _ _ _ Hok Hctx Hfr Hps Hdk Hhi Hi Hc (Hnb _ Hc) Hhit) as Hp.
    unfold getb. kstep.
    destruct (buf_ok_dev _ _ (bo_buf _ (br_ok _ _ _ _ Hp) i Hi) (br_dev _ _ _ _ Hp))
      as (_ & Hv & _). unfold valid in Hv. rewrite Hv. cbn [negb]. by kstep.
  - unfold getb. kstep.
    destruct (bo_ring _ Hok) as (l & (Hlen & _)).
    assert (k_bc s1 !!! i = Buf B_BUSY ROOTDEV b (prev (k_bc s) i) (next (k_bc s) i)
              (b_data (k_bc s !!! i))) as Hbi.
    { rewrite Hmiss, lookup_total_alter_eq; [done|lia]. }
    rewrite Hbi. change (negb (has _ B_VALID)) with true. cbv iota.
    unfold wp at 1. rewrite memiderw_read; rewrite ?Hbi; try done.
    2: { cbn. rewrite (bio_frame_disksize _ _ Hfr). lia. }
    kstep. apply bread_miss_spec; try done.
    + etrans; [exact Hctx|]. by apply ctx_same.
    + etrans; [exact Hfr|]. unfold bio_frame. by destruct s1.
    + cbn. rewrite Hmiss, list_alter_alter. apply list_alter_at. cbn. by rewrite Hdk.
Qed.

(** What [brelse] promises. *)
Record brelse_post (s : kst) (i : nat) (s' : kst) : Prop := {
  bl_ctx : ctx s s';
  bl_frame : bio_frame s s';
  bl_procs : procs_same s s';
  bl_disk : k_disk s' = k_disk s;
  bl_hist : k_hist s' = k_hist s;
  bl_ok : bio_ok s';
  bl_meta : forall j, meta (k_bc s') j =
    meta (alter (set_bflags (fun fl => clrf fl B_BUSY)) i (k_bc s)) j;
  bl_view : forall b, lview s' b = lview s b
}.

Lemma meta_dev bc bc' i : meta bc' i = meta bc i -> b_dev (bc' !!! i) = b_dev (bc !!! i).
Proof. unfold meta. congruence. Qed.
Lemma meta_sector bc bc' i : meta bc' i = meta bc i -> b_sector (bc' !!! i) = b_sector (bc !!! i).
Proof. unfold meta. congruence. Qed.
Lemma meta_data bc bc' i : meta bc' i = meta bc i -> b_data (bc' !!! i) = b_data (bc !!! i).
Proof. unfold meta. congruence. Qed.
Lemma meta_flags bc bc' i : meta bc' i = meta bc i -> b_flags (bc' !!! i) = b_flags (bc !!! i).
Proof. unfold meta. congruence. Qed.

Lemma buf_ok_meta s s' bc bc' i :
  k_disk s' = k_disk s -> k_disksize s' = k_disksize s -> meta bc' i = meta bc i ->
  buf_ok s (bc !!! i) -> buf_ok s' (bc' !!! i).
Proof.
  intros Hd Hs Hm. unfold buf_ok, busy, valid, dirty.
  rewrite Hd, Hs, (meta_dev _ _ _ Hm), (meta_sector _ _ _ Hm), (meta_data _ _ _ Hm),
    (meta_flags _ _ _ Hm). done.
Qed.

(** [brelse] gives the buffer back, moves it to the front of the ring and
    leaves every logical block as it was, provided the holder did not change
    the data of a buffer without logging it. *)
Lemma set_bc_bc f g s : set_bc f (set_bc g s) = set_bc (fun bc => f (g bc)) s.
Proof. done. Qed.
Lemma k_bc_set_bc f s : k_bc (set_bc f s) = f (k_bc s).
Proof. done. Qed.

Lemma brelse_spec s i :
  bio_ok s -> cpu_ok s -> k_locks s !! LBcache = None -> k_locks s !! LPtable = None ->
  (i < NBUF)%nat -> busy (k_bc s !!! i) = true ->
  (dirty (k_bc s !!! i) = true \/ b_data (k_bc s !!! i) = k_disk s !!! Z.to_nat (b_sector (k_bc s !!! i))) ->
  wp (brelse i) (fun _ s' => brelse_post s i s' /\
    forall l, ring (k_bc s) l -> ring (k_bc s') (i :: filter (fun j => j <> i) l)) s.
Proof.
  intros Hok Hcpu Hlk Hlp Hi Hb Hcl. unfold brelse, getb, setb. kstep.
  unfold busy in Hb. rewrite Hb. cbn [negb]. kstep.
  apply wp_acquire; [done|]. unfold push_front, getb, setb. kstep.
  rewrite !k_bc_set_bc, !set_bc_bc.
  match goal with |- wp (wakeup _) _ ?st => set (s1 := st) end.
  assert (k_bc s1 = alter (set_bflags (fun fl => clrf fl B_BUSY)) i
            (link_front i (unlink i (k_bc s)))) as Hs1 by reflexivity.
  assert (ctx (acquired LBcache s) s1) as Hctx1 by (by apply ctx_same).
  assert (bio_frame s s1) as Hfr1 by (unfold bio_frame; by destruct s).
  assert (k_disk s1 = k_disk s) as Hdk1 by done.
  assert (k_hist s1 = k_hist s) as Hhi1 by done.
  assert (k_procs s1 = k_procs s) as Hps1 by done.
  assert (k_locks s1 !! LPtable = None) as Hlp1.
  { cbn. by rewrite lookup_insert_ne. }
  clearbody s1.
  apply wp_wakeup; [eauto with kernel|done|].
  intros s2 Hctx2 Hfr2 Hps2 _.
  assert (k_bc s2 = k_bc s1 /\ k_disk s2 = k_disk s1 /\ k_hist s2 = k_hist s1)
    as (Hbc2 & Hdk2 & Hhi2) by (rewrite Hfr2; done).
  apply (wp_release_ctx _ _ s); [done..|by etrans|]. intros Hctx3.
  set (s3 := released LBcache s2) in *.
  assert (k_bc s3 = alter (set_bflags (fun fl => clrf fl B_BUSY)) i
            (link_front i (unlink i (k_bc s)))) as Hbc by (by rewrite <- Hs1).
  assert (bio_frame s s3) as Hfr.
  { etrans; [exact Hfr1|]. etrans; [by apply sched_frame_bio|]. unfold bio_frame. by destruct s2. }
  assert (k_disk s3 = k_disk s) as Hdk by (by rewrite <- Hdk1).
  assert (k_hist s3 = k_hist s) as Hhi by (by rewrite <- Hhi1).
  assert (procs_same s s3) as Hps by (unfold procs_same in *; by rewrite <- Hps1).
  clearbody s3. clear s1 s2 Hs1 Hctx1 Hfr1 Hdk1 Hhi1 Hps1 Hlp1 Hctx2 Hfr2 Hps2 Hbc2 Hdk2 Hhi2.
  pose proof (bo_ring _ Hok) as (l & Hr). pose proof Hr as (Hlen & _).
  assert (forall l, ring (k_bc s) l -> ring (k_bc s3) (i :: filter (fun j => j <> i) l)) as Hring.
  { intros l' Hr'. rewrite Hbc. apply ring_alter; [done|]. by apply ring_move_front. }
  split; [|exact Hring].
  assert (forall j, meta (k_bc s3) j =
            meta (alter (set_bflags (fun fl => clrf fl B_BUSY)) i (k_bc s)) j) as Hm.
  { intros j. rewrite Hbc. pose proof (proj2 (ring_move_front _ _ _ Hr Hi)) as Hmf.
    unfold meta. rewrite !lookup_total_alter by len. case_decide; subst.
    - pose proof (Hmf i) as E. cbn.
      by rewrite (meta_flags _ _ _ E), (meta_dev _ _ _ E), (meta_sector _ _ _ E), (meta_data _ _ _ E).
    - apply (Hmf j). }
  assert (forall j, b_dev (k_bc s3 !!! j) = b_dev (k_bc s !!! j) /\
                    b_sector (k_bc s3 !!! j) = b_sector (k_bc s !!! j) /\
                    b_data (k_bc s3 !!! j) = b_data (k_bc s !!! j)) as Hf.
  { intros j. rewrite (meta_dev _ _ _ (Hm j)), (meta_sector _ _ _ (Hm j)), (meta_data _ _ _ (Hm j)).
    rewrite lookup_total_alter by lia. by case_decide; subst. }
  assert (forall b, cached s3 b = cached s b) as Hcx.
  { intros b. apply cached_ext. intros j _. destruct (Hf j) as (? & ? & ?). done. }
  constructor; try done.
  - destruct Hok as [_ HD HB Hbuf Huniq]. constructor.
    + eauto.
    + rewrite Hdk, (bio_frame_disksize _ _ Hfr). done.
    + by rewrite Hdk.
    + intros j Hj. eapply buf_ok_meta; [exact Hdk|by apply bio_frame_disksize|apply Hm|].
      rewrite lookup_total_alter by lia. case_decide; subst; [|by apply Hbuf].
      pose proof (Hbuf i Hj) as [[Hd0 Hf0]|Hbi].
      { exfalso. rewrite Hf0 in Hb. done. }
      right. flags. cbn. destruct Hbi as (? & ? & ? & ? & ?). split_and!; try done; try lia.
      intros _ Hnd. destruct Hcl; congruence.
    + intros j k Hj Hk. destruct (Hf j) as (-> & -> & _), (Hf k) as (-> & -> & _). eauto.
  - intros b. unfold lview. rewrite Hcx, Hdk. destruct (cached s b) as [j|]; [|done]. apply Hf.
Qed.

(** The holder of a buffer changes its data: the logical block changes. *)
Lemma setdata_spec s i d :
  bio_ok s -> (i < NBUF)%nat -> b_dev (k_bc s !!! i) = ROOTDEV -> busy (k_bc s !!! i) = true ->
  length d = 512%nat ->
  let s' := set_bc (alter (set_bdata (fun _ => d)) i) s in
  bio_ok s' /\
  (forall b, lview s' b = if decide (b = b_sector (k_bc s !!! i)) then d else lview s b).
Proof.
  intros Hok Hi Hd Hb Hlen s'.
  pose proof (bo_ring _ Hok) as (l & Hr). pose proof Hr as (Hbl & _).
  assert (forall j, k_bc s' !!! j = if decide (j = i) then
            set_bdata (fun _ => d) (k_bc s !!! i) else k_bc s !!! j) as Hj.
  { intros j. apply lookup_total_alter. lia. }
  assert (forall b, cached s' b = cached s b) as Hcx.
  { intros b. apply cached_ext. intros j _. rewrite Hj. case_decide; subst; done. }
  split.
  - destruct Hok as [_ HD HB Hbuf Huniq]. constructor; try done.
    + exists l. by apply ring_alter.
    + intros j Hjn. rewrite Hj. pose proof (Hbuf j Hjn) as Hbj. case_decide; subst; [|done].
      apply buf_ok_dev in Hbj as (? & ? & ? & ?); [|done]. right. cbn.
      split_and!; try done; try lia. change (busy (k_bc s !!! i) = false -> dirty (k_bc s !!! i) = false ->
        d = k_disk s !!! Z.to_nat (b_sector (k_bc s !!! i))). congruence.
    + intros j k Hjn Hkn. rewrite !Hj. repeat case_decide; subst; cbn; eauto.
  - intros b. unfold lview. rewrite Hcx. case_decide; subst.
    + by rewrite cached_buf, Hj, decide_True.
    + destruct (cached s b) as [j|] eqn:E; [|done]. apply cached_Some in E as (_ & _ & Hs).
      rewrite Hj, decide_False; [done|congruence].
Qed.

Record bwrite_post (s : kst) (i : nat) (s' : kst) : Prop := {
  bw_ctx : ctx s s';
  bw_frame : bio_frame s s';
  bw_procs : k_procs s' = k_procs s;
  bw_disk : k_disk s' = <[Z.to_nat (b_sector (k_bc s !!! i)) := b_data (k_bc s !!! i)]> (k_disk s);
  bw_hist : k_hist s' = k_hist s ++ [(b_sector (k_bc s !!! i), b_data (k_bc s !!! i))];
  bw_ok : bio_ok s';
  bw_other : forall j, j <> i -> k_bc s' !!! j = k_bc s !!! j;
  bw_dev : b_dev (k_bc s' !!! i) = ROOTDEV;
  bw_sector : b_sector (k_bc s' !!! i) = b_sector (k_bc s !!! i);
  bw_data : b_data (k_bc s' !!! i) = b_data (k_bc s !!! i);
  bw_busy : busy (k_bc s' !!! i) = true;
  bw_dirty : dirty (k_bc s' !!! i) = false;
  bw_view : forall b, 0 <= b -> lview s' b = lview s b
}.

Lemma memiderw_write s i :
  dirty (k_bc s !!! i) = true -> busy (k_bc s !!! i) = true ->
  b_dev (k_bc s !!! i) = ROOTDEV -> b_sector (k_bc s !!! i) < k_disksize s ->
  memiderw i s = Ok tt (set_hist (fun h => h ++ [(b_sector (k_bc s !!! i), b_data (k_bc s !!! i))])
    (set_disk (<[Z.to_nat (b_sector (k_bc s !!! i)) := b_data (k_bc s !!! i)]>)
    (set_bc (alter (fun x => set_bflags (fun fl => setf fl B_VALID)
                               (set_bflags (fun fl => clrf fl B_DIRTY) x)) i) s))).
Proof.
  intros Hd Hb Hdv Hs. unfold memiderw, getb, setb, bind, gets, modify.
  unfold busy in Hb. unfold dirty in Hd. rewrite Hb, Hd, Hdv. cbn.
  assert (Z.land (b_flags (k_bc s !!! i)) (Z.lor B_VALID B_DIRTY) =? B_VALID = false) as ->.
  { apply Z.eqb_neq. intros E. apply (f_equal (fun x => Z.testbit x 2)) in E.
    unfold B_DIRTY in *. rewrite has_testbit in Hd by lia.
    rewrite Z.land_spec, Hd in E. done. }
  destruct (Z.leb_spec (k_disksize s) (b_sector (k_bc s !!! i))) as [|_]; [lia|].
  unfold set_bc, set_disk, set_hist. cbn. by rewrite list_alter_alter.
Qed.

Lemma bwrite_spec s i :
  bio_ok s -> (i < NBUF)%nat -> b_dev (k_bc s !!! i) = ROOTDEV -> busy (k_bc s !!! i) = true ->
  wp (bwrite i) (fun _ s' => bwrite_post s i s') s.
Proof.
  intros Hok Hi Hd Hb. unfold bwrite, getb, setb. kstep.
  pose proof Hb as Hb'. unfold busy in Hb'. rewrite Hb'. cbn [negb]. kstep.
  pose proof (bo_ring _ Hok) as (l & Hr). pose proof Hr as (Hbl & _).
  pose proof (buf_ok_dev _ _ (bo_buf _ Hok i Hi) Hd) as (Hsec & Hv & Hlen & _).
  assert (i < length (k_bc s))%nat as Hil by lia.
  unfold wp. rewrite memiderw_write; cbn [k_bc set_bc];
    rewrite ?(lookup_total_alter_eq _ _ _ Hil); flags; try done; [|cbn; lia].
  set (s' := set_hist _ _). cbn in s'.
  assert (forall j, k_bc s' !!! j = if decide (j = i) then
      set_bflags (fun fl => setf fl B_VALID) (set_bflags (fun fl => clrf fl B_DIRTY)
        (set_bflags (fun fl => setf fl B_DIRTY) (k_bc s !!! i)))
      else k_bc s !!! j) as Hj.
  { intros j. cbn. rewrite list_alter_alter. by rewrite lookup_total_alter. }
  assert (forall b, cached s' b = cached s b) as Hcx.
  { intros b. apply cached_ext. intros j _. rewrite Hj. case_decide; subst; done. }
  pose proof (bo_disk _ Hok) as HD.
  assert (forall b, 0 <= b -> b <> b_sector (k_bc s !!! i) ->
            k_disk s' !!! Z.to_nat b = k_disk s !!! Z.to_nat b) as Hdk.
  { intros b H1 H2. cbn. apply list_lookup_total_insert_ne. lia. }
  constructor; rewrite ?Hj, ?decide_True by done; flags; try done.
  - destruct Hok as [_ _ HB Hbuf Huniq]. constructor.
    + exists l. cbn. rewrite list_alter_alter. by apply ring_alter.
    + cbn. by len.
    + cbn. by apply Forall_insert.
    + intros j Hjn. rewrite Hj. pose proof (Hbuf j Hjn) as Hbj. case_decide; subst.
      * right. flags. cbn. split_and!; try done; try lia. congruence.
      * destruct Hbj as [Hbj|Hbj]; [by left|right]. destruct Hbj as (Hdj & Hsj & ? & ? & Hcl).
        split_and!; try done; try (cbn; lia). rewrite Hdk; [done|lia|]. intros E.
        by pose proof (Huniq j i Hjn Hi Hdj Hd E).
    + intros j k Hjn Hkn. rewrite !Hj. repeat case_decide; subst; cbn; eauto.
  - intros j Hne. by rewrite Hj, decide_False.
  - intros b Hb0. unfold lview. rewrite Hcx. destruct (cached s b) as [j|] eqn:E.
    + rewrite Hj. by case_decide; subst.
    + apply Hdk; [done|]. intros ->. by eapply (cached_None _ _ i E Hi).
Qed.
