(* ===== verification/Cache.v ===== *)
(** * The buffer cache as its clients see it

    A client of bio.c does not see the ring or the array: it sees a disk with
    logical contents ([lview]), and a set of pinned sectors ([pin]), each with
    its buffer, whether a process holds it and whether it waits to be written.
    The lemmas of this file restate the operations of [Bio] in these terms;
    the log and the file system use nothing else. *)

From stdpp Require Import prelude gmap strings.
From S2P Require Import Prelude Kernel Spinlock Sched Bio.

Record pinst := Pin { pn_buf : nat; pn_busy : bool; pn_dirty : bool }.

Definition pin (s : kst) (b : Z) : option pinst :=
  match cached s b with
  | Some i =>
    let x := k_bc s !!! i in
    if busy x || dirty x then Some (Pin i (busy x) (dirty x)) else None
  | None => None
  end.
Arguments pin : simpl never.

Definition dsk (s : kst) (b : Z) : bytes := k_disk s !!! Z.to_nat b.
Arguments dsk : simpl never.

Definition pdirty (p : option pinst) : bool :=
  match p with Some p => pn_dirty p | None => false end.
Definition pbusy (p : option pinst) : bool :=
  match p with Some p => pn_busy p | None => false end.

(** The process holds buffer [i], which is that of sector [b]. *)
Definition holds (s : kst) (i : nat) (b : Z) : Prop :=
  exists d, pin s b = Some (Pin i true d).

(** The locks a control path must not hold when it calls the cache. *)
Record quiet (s : kst) : Prop := {
  q_cpu : cpu_ok s;
  q_bcache : k_locks s !! LBcache = None;
  q_ptable : k_locks s !! LPtable = None
}.

(** What the operations leave alone. *)
Record bframe (s s' : kst) : Prop := {
  bf_ctx : ctx s s';
  bf_bio : bio_frame s s';
  bf_procs : procs_same s s'
}.

#[export] Instance bframe_preorder : PreOrder bframe.
Proof.
  split; [by split|]. intros s1 s2 s3 [] []. split; by etrans.
Qed.

Lemma ctx_quiet s s' : ctx s s' -> quiet s -> quiet s'.
Proof. intros Hc []. split; [by eapply ctx_cpu_ok|..]; by rewrite (ctx_locks _ _ Hc). Qed.

Lemma bframe_quiet s s' : bframe s s' -> quiet s -> quiet s'.
Proof. intros [Hc _ _]. by apply ctx_quiet. Qed.

Lemma pin_Some s b i bz d :
  pin s b = Some (Pin i bz d) ->
  cached s b = Some i /\ busy (k_bc s !!! i) = bz /\ dirty (k_bc s !!! i) = d.
Proof.
  unfold pin. destruct (cached s b) as [j|]; [|done]. intros H.
  destruct (busy _ || dirty _); naive_solver.
Qed.

Lemma pin_busy s b i :
  cached s b = Some i -> busy (k_bc s !!! i) = true ->
  pin s b = Some (Pin i true (dirty (k_bc s !!! i))).
Proof. unfold pin. intros -> ->. done. Qed.

Lemma holds_buf s i b :
  holds s i b -> (i < NBUF)%nat /\ b_dev (k_bc s !!! i) = ROOTDEV /\
    b_sector (k_bc s !!! i) = b /\ busy (k_bc s !!! i) = true /\ cached s b = Some i.
Proof.
  intros (d & H). apply pin_Some in H as (Hc & Hb & _).
  apply cached_Some in Hc as Hc'. naive_solver.
Qed.

Lemma holds_data s i b :
  holds s i b -> b_data (k_bc s !!! i) = lview s b.
Proof. intros H. apply holds_buf in H as (_ & _ & _ & _ & Hc). unfold lview. by rewrite Hc. Qed.

Lemma pin_range s b p : bio_ok s -> pin s b = Some p -> 0 <= b < k_disksize s.
Proof.
  intros Hok. unfold pin. destruct (cached s b) as [i|] eqn:E; [|done]. intros _.
  apply cached_Some in E as (Hi & Hd & <-).
  by destruct (buf_ok_dev _ _ (bo_buf _ Hok i Hi) Hd).
Qed.

(** A sector that is not pinned is on the disk. *)
Lemma lview_clean s b : bio_ok s -> pin s b = None -> lview s b = dsk s b.
Proof.
  intros Hok. unfold pin, lview. destruct (cached s b) as [i|] eqn:E; [|done].
  apply cached_Some in E as (Hi & Hd & Hs).
  destruct (buf_ok_dev _ _ (bo_buf _ Hok i Hi) Hd) as (_ & _ & _ & Hcl).
  destruct (busy _) eqn:Eb; [done|]. destruct (dirty _) eqn:Ed; [done|].
  rewrite Hs in Hcl. intros _. by apply Hcl.
Qed.

Lemma lview_length s b :
  bio_ok s -> 0 <= b < k_disksize s -> length (lview s b) = 512%nat.
Proof.
  intros Hok Hb. unfold lview. destruct (cached s b) as [i|] eqn:E.
  - apply cached_Some in E as (Hi & Hd & Hs).
    by destruct (buf_ok_dev _ _ (bo_buf _ Hok i Hi) Hd) as (_ & _ & ? & _).
  - by apply block_length.
Qed.

Lemma buf_pinned_dev s i :
  bio_ok s -> (i < NBUF)%nat -> busy (k_bc s !!! i) || dirty (k_bc s !!! i) = true ->
  b_dev (k_bc s !!! i) = ROOTDEV.
Proof.
  intros Hok Hi Hp. destruct (bo_buf _ Hok i Hi) as [[_ Hf]|[? _]]; [|done].
  unfold busy, dirty in Hp. by rewrite Hf in Hp.
Qed.

(** Fewer than [NBUF] sectors are pinned, so a buffer can be recycled. *)
Lemma room s (P : gset Z) :
  bio_ok s -> (forall b, pin s b <> None -> b ∈ P) -> (size P < NBUF)%nat ->
  exists i, (i < NBUF)%nat /\ recyclable (k_bc s) i = true.
Proof.
  intros Hok HP Hsz. destruct (List.find (recyclable (k_bc s)) (seq 0 NBUF)) as [i|] eqn:E.
  { apply List.find_some in E as [Hin ?]. apply in_seq in Hin. exists i. split; [lia|done]. }
  exfalso. assert (forall i, (i < NBUF)%nat -> busy (k_bc s !!! i) || dirty (k_bc s !!! i) = true) as Hall.
  { intros i Hi. eapply List.find_none in E; [|apply in_seq; split; [apply Nat.le_0_l|exact Hi]].
    unfold recyclable, busy, dirty in *. destruct (has _ B_BUSY); [done|]. by destruct (has _ B_DIRTY). }
  set (l := (fun i => b_sector (k_bc s !!! i)) <$> seq 0 NBUF).
  assert (NoDup l) as Hnd.
  { apply NoDup_fmap_2_strong; [|apply NoDup_seq]. intros i j Hi Hj Hs.
    rewrite elem_of_seq in Hi, Hj.
    apply (bo_uniq _ Hok); try lia; try done; (apply buf_pinned_dev; [done|lia|apply Hall; lia]). }
  assert (list_to_set l ⊆ P) as Hsub.
  { intros b. rewrite elem_of_list_to_set. unfold l. intros (i & -> & Hi)%list_elem_of_fmap.
    rewrite elem_of_seq in Hi. apply HP. unfold pin.
    assert (b_dev (k_bc s !!! i) = ROOTDEV) by (apply buf_pinned_dev; [done|lia|apply Hall; lia]).
    rewrite cached_buf by (done || lia). by rewrite Hall by lia. }
  apply subseteq_size in Hsub. rewrite size_list_to_set in Hsub by done.
  unfold l in Hsub. rewrite length_fmap, length_seq in Hsub. lia.
Qed.

Lemma pin_ext s s' b :
  cached s' b = cached s b ->
  (forall i, cached s b = Some i -> b_flags (k_bc s' !!! i) = b_flags (k_bc s !!! i)) ->
  pin s' b = pin s b.
Proof.
  intros Hc Hf. unfold pin. rewrite Hc. destruct (cached s b) as [i|]; [|done].
  unfold busy, dirty. by rewrite Hf.
Qed.

(** ** The operations *)

Record bread_abs (s : kst) (b : Z) (i : nat) (s' : kst) : Prop := {
  ra_frame : bframe s s';
  ra_ok : bio_ok s';
  ra_disk : k_disk s' = k_disk s;
  ra_hist : k_hist s' = k_hist s;
  ra_view : forall b', 0 <= b' -> lview s' b' = lview s b';
  ra_pin : forall b', pin s' b' =
    if decide (b' = b) then Some (Pin i true (pdirty (pin s b))) else pin s b'
}.

Lemma bread_post_pin s b i s' :
  bio_ok s -> bread_post s b i s' -> 
  forall b', pin s' b' = if decide (b' = b) then Some (Pin i true (pdirty (pin s b))) else pin s b'.
Proof.
  intros Hok Hp b'. pose proof (br_ok _ _ _ _ Hp) as Hok'. pose proof (br_i _ _ _ _ Hp) as Hi.
  pose proof (br_dev _ _ _ _ Hp) as Hd. pose proof (br_sector _ _ _ _ Hp) as Hs.
  pose proof (br_other _ _ _ _ Hp) as Ho. pose proof (br_free _ _ _ _ Hp) as Hf.
  assert (cached s' b = Some i) as Hc by (rewrite <- Hs; by apply cached_buf).
  assert (forall j, cached s b = Some j -> j = i) as Hji.
  { intros j (Hj & Hdj & Hsj)%cached_Some. destruct (decide (j = i)) as [|Hne]; [done|].
    apply (bo_uniq _ Hok'); rewrite ?(Ho j) by done; congruence. }
  case_decide as Hb; [subst b'|].
  - rewrite (pin_busy _ _ i); [|done|apply (br_busy _ _ _ _ Hp)]. rewrite (br_dirty _ _ _ _ Hp).
    do 2 f_equal. destruct (dirty (k_bc s !!! i)) eqn:Ed.
    + assert (b_dev (k_bc s !!! i) = ROOTDEV) as Hdi by (apply buf_pinned_dev; rewrite ?Ed, ?orb_true_r; done).
      pose proof (br_same _ _ _ _ Hp Ed) as Hsi. unfold pin.
      rewrite <- Hsi, cached_buf by done. by rewrite Hf, Ed.
    + unfold pin. destruct (cached s b) as [j|]; [|done]. rewrite (Hji j) by done. by rewrite Hf, Ed.
  - unfold pin at 1. destruct (cached s' b') as [j|] eqn:E.
    + apply cached_Some in E as (Hj & Hdj & Hsj). assert (j <> i) as Hne by congruence.
      rewrite (Ho j Hne) in *. unfold pin. by rewrite <- Hsj, cached_buf.
    + unfold pin. destruct (cached s b') as [j|] eqn:Ej; [|done].
      apply cached_Some in Ej as (Hj & Hdj & Hsj). destruct (decide (j = i)) as [->|Hne].
      * rewrite Hf. destruct (dirty _) eqn:Ed; [|done]. pose proof (br_same _ _ _ _ Hp Ed). congruence.
      * exfalso. apply (cached_None _ _ j E Hj). by rewrite Ho.
Qed.

Lemma wp_bread s b (P : gset Z) :
  bio_ok s -> quiet s -> 0 <= b < k_disksize s -> pbusy (pin s b) = false ->
  (forall b, pin s b <> None -> b ∈ P) -> (pin s b = None -> (size P < NBUF)%nat) ->
  wp (bread ROOTDEV b) (bread_abs s b) s.
Proof.
  intros Hok [] Hb Hnb HP Hsz. eapply wp_mono.
  - apply bread_spec; try done.
    + intros i Hc. unfold pin in Hnb. rewrite Hc in Hnb. by destruct (busy _).
    + intros Hc. eapply room; [done..|]. apply Hsz. unfold pin. by rewrite Hc.
  - intros i s' Hp. pose proof (bread_post_pin _ _ _ _ Hok Hp). destruct Hp. constructor; try done.
    split; [done..|]. unfold procs_same. by rewrite br_procs.
Qed.

(** Changing the data of a held buffer. *)
Record setdata_abs (s : kst) (b : Z) (d : bytes) (s' : kst) : Prop := {
  sa_frame : bframe s s';
  sa_ok : bio_ok s';
  sa_disk : k_disk s' = k_disk s;
  sa_hist : k_hist s' = k_hist s;
  sa_view : forall b', lview s' b' = if decide (b' = b) then d else lview s b';
  sa_pin : forall b', pin s' b' = pin s b'
}.

Lemma wp_setdata s i b d Q :
  bio_ok s -> holds s i b -> length d = 512%nat ->
  (forall s', setdata_abs s b d s' -> Q tt s') ->
  wp (setb i (set_bdata (fun _ => d))) Q s.
Proof.
  intros Hok Hh Hd HQ. apply holds_buf in Hh as (Hi & Hdv & Hs & Hb & Hc).
  unfold setb. kstep. apply HQ.
  destruct (setdata_spec s i d Hok Hi Hdv Hb Hd) as [Hok' Hv].
  assert (forall j, k_bc (set_bc (alter (set_bdata (fun _ => d)) i) s) !!! j =
     if decide (j = i) then set_bdata (fun _ => d) (k_bc s !!! i) else k_bc s !!! j) as Hj.
  { intros j. cbn. pose proof (bo_ring _ Hok) as (l & Hl & _). rewrite lookup_total_alter; [done|lia]. }
  constructor; try done.
  - intros b'. rewrite Hv, Hs. done.
  - intros b'. apply pin_ext.
    + apply cached_ext. intros j _. rewrite Hj. by case_decide; subst.
    + intros j _. rewrite Hj. by case_decide; subst.
Qed.

Record bwrite_abs (s : kst) (b : Z) (i : nat) (s' : kst) : Prop := {
  wa_frame : bframe s s';
  wa_ok : bio_ok s';
  wa_disk : k_disk s' = <[Z.to_nat b := lview s b]> (k_disk s);
  wa_hist : k_hist s' = k_hist s ++ [(b, lview s b)];
  wa_view : forall b', 0 <= b' -> lview s' b' = lview s b';
  wa_pin : forall b', pin s' b' = if decide (b' = b) then Some (Pin i true false) else pin s b'
}.

Lemma wp_bwrite s i b :
  bio_ok s -> holds s i b -> wp (bwrite i) (fun _ s' => bwrite_abs s b i s') s.
Proof.
  intros Hok Hh. pose proof (holds_data _ _ _ Hh) as Hdt.
  apply holds_buf in Hh as (Hi & Hd & Hs & Hb & Hc).
  eapply wp_mono; [by apply bwrite_spec|]. intros _ s' [].
  rewrite Hs, Hdt in *. constructor; try done.
  { split; [done..|]. unfold procs_same. by rewrite bw_procs. }
  assert (forall b', cached s' b' = cached s b') as Hcx.
  { intros b'. apply cached_ext. intros j _. destruct (decide (j = i)) as [->|Hne].
    - by rewrite bw_dev, bw_sector, Hd, Hs.
    - by rewrite bw_other. }
  intros b'. case_decide; subst.
  - rewrite (pin_busy _ _ i); [by rewrite bw_dirty|by rewrite Hcx|done].
  - apply pin_ext; [done|]. intros j Hj. apply cached_Some in Hj as (_ & _ & Hj).
    rewrite bw_other; [done|congruence].
Qed.

Record brelse_abs (s : kst) (b : Z) (i : nat) (s' : kst) : Prop := {
  la_frame : bframe s s';
  la_ok : bio_ok s';
  la_disk : k_disk s' = k_disk s;
  la_hist : k_hist s' = k_hist s;
  la_view : forall b', lview s' b' = lview s b';
  la_pin : forall b', pin s' b' = if decide (b' = b) then
    (if pdirty (pin s b) then Some (Pin i false true) else None) else pin s b'
}.

Lemma wp_brelse s i b :
  bio_ok s -> quiet s -> holds s i b ->
  (pdirty (pin s b) = true \/ lview s b = dsk s b) ->
  wp (brelse i) (fun _ s' => brelse_abs s b i s') s.
Proof.
  intros Hok [] Hh Hcl. pose proof (holds_data _ _ _ Hh) as Hdt.
  apply holds_buf in Hh as (Hi & Hd & Hs & Hb & Hc).
  pose proof (pin_busy s b i Hc Hb) as Hp. rewrite Hp in Hcl. cbn [pdirty pn_dirty] in Hcl.
  eapply wp_mono; [apply brelse_spec; try done|].
  { rewrite Hdt, Hs. done. }
  intros _ s' [[] _]. constructor; try done.
  pose proof (bo_ring _ Hok) as (l & Hl & _).
  assert (forall j, meta (k_bc s') j = if decide (j = i) then
    (clrf (b_flags (k_bc s !!! i)) B_BUSY, b_dev (k_bc s !!! i), b_sector (k_bc s !!! i),
     b_data (k_bc s !!! i)) else meta (k_bc s) j) as Hm.
  { intros j. rewrite bl_meta. unfold meta. rewrite lookup_total_alter by lia. by case_decide; subst. }
  assert (forall b', cached s' b' = cached s b') as Hcx.
  { intros b'. apply cached_ext. intros j _. pose proof (Hm j) as E. unfold meta in E.
    case_decide; subst; split; congruence. }
  intros b'. case_decide; [subst b'|].
  - rewrite Hp. cbn [pdirty pn_dirty]. unfold pin. rewrite Hcx, Hc. pose proof (Hm i) as E. rewrite decide_True in E by done.
    unfold meta in E. injection E as E _ _ _.
    pose proof (busy_clrf_busy (k_bc s !!! i)) as H1. pose proof (dirty_clrf_busy (k_bc s !!! i)) as H2.
    unfold busy, dirty in *. cbn in H1, H2. rewrite E, H1, H2. by destruct (has _ B_DIRTY).
  - apply pin_ext; [done|]. intros j Hj. apply cached_Some in Hj as (_ & _ & Hj).
    pose proof (Hm j) as E. rewrite decide_False in E by congruence. by apply meta_flags.
Qed.

(** Marking a held buffer dirty pins it beyond its release. *)
Record mark_abs (s : kst) (b : Z) (i : nat) (s' : kst) : Prop := {
  ma_frame : bframe s s';
  ma_ok : bio_ok s';
  ma_disk : k_disk s' = k_disk s;
  ma_hist : k_hist s' = k_hist s;
  ma_view : forall b', lview s' b' = lview s b';
  ma_pin : forall b', pin s' b' = if decide (b' = b) then Some (Pin i true true) else pin s b'
}.

Lemma wp_mark s i b :
  bio_ok s -> holds s i b ->
  wp (setb i (set_bflags (fun fl => setf fl B_DIRTY))) (fun _ s' => mark_abs s b i s') s.
Proof.
  intros Hok Hh. apply holds_buf in Hh as (Hi & Hd & Hs & Hb & Hc).
  unfold setb. kstep. set (s' := set_bc _ s).
  pose proof (bo_ring _ Hok) as (l & Hr). pose proof Hr as (Hl & _).
  assert (forall j, k_bc s' !!! j = if decide (j = i) then
     set_bflags (fun fl => setf fl B_DIRTY) (k_bc s !!! i) else k_bc s !!! j) as Hj.
  { intros j. cbn. rewrite lookup_total_alter; [done|lia]. }
  assert (forall b', cached s' b' = cached s b') as Hcx.
  { intros b'. apply cached_ext. intros j _. rewrite Hj. by case_decide; subst. }
  constructor; try done.
  - pose proof Hok as [_ HD HB Hbuf Huniq]. constructor; try done.
    + exists l. by apply ring_alter.
    + intros j Hjn. rewrite Hj. pose proof (Hbuf j Hjn) as Hbj. case_decide; subst; [|done].
      apply buf_ok_dev in Hbj as (? & ? & ? & ?); [|done]. right. flags. cbn.
      split_and!; try done; lia.
    + intros j k Hjn Hkn. rewrite !Hj. repeat case_decide; subst; cbn; eauto.
  - intros b'. unfold lview. rewrite Hcx. destruct (cached s b') as [j|]; [|done].
    rewrite Hj. by case_decide; subst.
  - intros b'. case_decide; [subst b'|].
    + rewrite (pin_busy _ _ i); rewrite ?Hcx, ?Hj, ?decide_True by done; flags; done.
    + apply pin_ext; [done|]. intros j E. apply cached_Some in E as (_ & _ & E).
      rewrite Hj, decide_False; [done|congruence].
Qed.

(** A pinned sector is held or waits to be written. *)
Lemma pin_used s b p : pin s b = Some p -> pn_busy p || pn_dirty p = true.
Proof.
  unfold pin. destruct (cached s b) as [i|]; [|done].
  destruct (busy _ || dirty _) eqn:E; [|done]. by intros [= <-].
Qed.

Lemma bio_ok_ext s s' :
  k_bc s' = k_bc s -> k_disk s' = k_disk s -> k_disksize s' = k_disksize s ->
  bio_ok s -> bio_ok s'.
Proof.
  intros H1 H2 H3 []. constructor; rewrite ?H1, ?H2, ?H3; try done.
  unfold buf_ok in *. by rewrite H2, H3.
Qed.

Lemma lview_ext s s' b : k_bc s' = k_bc s -> k_disk s' = k_disk s -> lview s' b = lview s b.
Proof. unfold lview, cached. by intros -> ->. Qed.

Lemma pin_ext_bc s s' b : k_bc s' = k_bc s -> pin s' b = pin s b.
Proof. unfold pin, cached. by intros ->. Qed.

Lemma dsk_insert s s' b d b' :
  k_disk s' = <[Z.to_nat b := d]> (k_disk s) -> bio_ok s -> 0 <= b < k_disksize s -> 0 <= b' ->
  dsk s' b' = if decide (b' = b) then d else dsk s b'.
Proof.
  intros E Hok Hb Hb'. unfold dsk. rewrite E. case_decide; subst.
  - apply list_lookup_total_insert_eq. pose proof (bo_disk _ Hok). lia.
  - apply list_lookup_total_insert_ne. lia.
Qed.

(** ** Writing a sector through the cache *)

(** Between [bread] and [bwrite]: the held buffer of [b] contains [d]. *)
Record put_pre (s : kst) (b : Z) (d : bytes) (i : nat) (s' : kst) : Prop := {
  pp_frame : bframe s s';
  pp_ok : bio_ok s';
  pp_disk : k_disk s' = k_disk s;
  pp_hist : k_hist s' = k_hist s;
  pp_view : forall b', 0 <= b' -> lview s' b' = if decide (b' = b) then d else lview s b';
  pp_pin : forall b', pin s' b' = if decide (b' = b) then Some (Pin i true (pdirty (pin s b))) else pin s b'
}.

(** After [bwrite] and [brelse]: the sector is on the disk, and not pinned. *)
Record put_abs (s : kst) (b : Z) (d : bytes) (s' : kst) : Prop := {
  pa_frame : bframe s s';
  pa_ok : bio_ok s';
  pa_disk : k_disk s' = <[Z.to_nat b := d]> (k_disk s);
  pa_hist : k_hist s' = k_hist s ++ [(b, d)];
  pa_view : forall b', 0 <= b' -> lview s' b' = if decide (b' = b) then d else lview s b';
  pa_pin : forall b', pin s' b' = if decide (b' = b) then None else pin s b'
}.

Lemma bread_put s b i s' : bread_abs s b i s' -> put_pre s b (lview s b) i s'.
Proof.
  intros []. split; try done. intros b' Hb'. rewrite (ra_view0 b' Hb'). by case_decide; subst.
Qed.

Lemma put_holds s b d i s' : put_pre s b d i s' -> holds s' i b.
Proof. intros []. eexists. by rewrite pp_pin0, decide_True. Qed.

Lemma put_setdata s b d i s' d' s'' :
  put_pre s b d i s' -> setdata_abs s' b d' s'' -> put_pre s b d' i s''.
Proof.
  intros [] []. split; try congruence.
  - by etrans.
  - intros b' Hb'. rewrite sa_view0. case_decide; [done|]. by rewrite pp_view0, decide_False.
  - intros b'. by rewrite sa_pin0.
Qed.

Lemma wp_put s b d i s1 :
  put_pre s b d i s1 -> quiet s -> 0 <= b < k_disksize s ->
  wp (bwrite i ;; brelse i) (fun _ s' => put_abs s b d s') s1.
Proof.
  intros Hp Hq Hb. pose proof (put_holds _ _ _ _ _ Hp) as Hh. destruct Hp.
  apply wp_bind. eapply wp_mono; [by apply (wp_bwrite s1 i b)|]. intros _ s2 [].
  assert (lview s1 b = d) as Hv by (rewrite pp_view0, decide_True; done || lia). rewrite Hv in *.
  eapply wp_mono.
  - apply (wp_brelse s2 i b); [done| | |].
    + eapply bframe_quiet; [|done]. by etrans.
    + eexists. by rewrite wa_pin0, decide_True.
    + right. rewrite wa_view0, Hv by lia. unfold dsk. rewrite wa_disk0.
      rewrite list_lookup_total_insert_eq; [done|].
      pose proof (bo_disk _ pp_ok0). rewrite (bio_frame_disksize _ _ (bf_bio _ _ pp_frame0)) in *. lia.
  - intros _ s3 []. split; try congruence.
    + etrans; [done|]. by etrans.
    + intros b' Hb'. rewrite la_view0, wa_view0 by done. auto.
    + intros b'. rewrite la_pin0. case_decide.
      * by rewrite wa_pin0, decide_True.
      * by rewrite wa_pin0, decide_False, pp_pin0, decide_False.
Qed.

(** ** Initialisation *)

(** Buffers before [k] are linked, unused and belong to no device. *)
Record binit_inv (bc : list buf) (k : nat) : Prop := {
  bi_length : length bc = S NBUF;
  bi_linked : linked (next bc) (prev bc) (HEAD :: reverse (seq 0 k) ++ [HEAD]);
  bi_flags : forall i, b_flags (bc !!! i) = 0;
  bi_dev : forall i, (i < k)%nat -> b_dev (bc !!! i) = u32 (-1)
}.

(** One round of [binit]'s loop. *)
Definition binit_round (i : nat) (bc : list buf) : list buf :=
  link_front i (alter (set_bdev (fun _ => u32 (-1))) i bc).

Lemma binit_round_inv bc k :
  (k < NBUF)%nat -> binit_inv bc k -> binit_inv (binit_round k bc) (S k).
Proof.
  intros Hk [Hlen Hl Hf Hd]. set (bc1 := alter (set_bdev (fun _ => u32 (-1))) k bc).
  assert (length bc1 = S NBUF) as Hlen1 by (unfold bc1; by len).
  assert (forall j, bc1 !!! j = if decide (j = k) then set_bdev (fun _ => u32 (-1)) (bc !!! k) else bc !!! j) as Hj.
  { intros j. unfold bc1. rewrite lookup_total_alter; [done|lia]. }
  assert (linked (next bc1) (prev bc1) (HEAD :: reverse (seq 0 k) ++ [HEAD])) as Hl1.
  { eapply linked_ext; [exact Hl| |]; intros x _; unfold next, prev; rewrite Hj; by case_decide; subst. }
  assert (HEAD ∉ reverse (seq 0 k) /\ k ∉ HEAD :: reverse (seq 0 k)) as [Hh Hkn].
  { rewrite not_elem_of_cons, elem_of_reverse, elem_of_reverse, !elem_of_seq. unfold HEAD. lia. }
  assert (NoDup (reverse (seq 0 k))) as Hnd by (rewrite reverse_Permutation; apply NoDup_seq).
  assert (next bc1 HEAD < length bc1)%nat as Hn.
  { rewrite Hlen1. destruct (reverse (seq 0 k)) as [|x r] eqn:E; cbn in Hl1;
      rewrite linked_cons in Hl1; destruct Hl1 as [-> _]; [unfold HEAD; lia|].
    assert (x ∈ reverse (seq 0 k)) as Hx by (rewrite E; apply elem_of_cons; by left).
    rewrite elem_of_reverse, elem_of_seq in Hx. lia. }
  pose proof (linked_push _ _ _ _ Hl1 Hh Hkn Hnd) as Hp.
  pose proof (fun j => link_front_next k bc1 j Hlen1 Hk Hn) as Hfn.
  unfold binit_round. fold bc1. split.
  - by len.
  - rewrite seq_S, reverse_snoc. eapply linked_ext; [exact Hp| |]; intros x _; apply Hfn.
  - intros i. destruct (Hfn i) as (_ & _ & Hm). rewrite (meta_flags _ _ _ Hm), Hj. case_decide; subst; apply Hf.
  - intros i Hi. destruct (Hfn i) as (_ & _ & Hm). rewrite (meta_dev _ _ _ Hm), Hj.
    case_decide; [done|]. apply Hd. lia.
Qed.

Lemma binit_round_run k s (m : K unit) Q :
  (k < NBUF)%nat -> length (k_bc s) = S NBUF ->
  wp m Q (set_bc (binit_round k) s) ->
  wp (h <- getb HEAD ;;
      setb k (set_bnext (fun _ => b_next h)) ;;
      setb k (set_bprev (fun _ => HEAD)) ;;
      setb k (set_bdev (fun _ => u32 (-1))) ;;
      h <- getb HEAD ;;
      setb (b_next h) (set_bprev (fun _ => k)) ;;
      setb HEAD (set_bnext (fun _ => k)) ;; m) Q s.
Proof.
  intros Hk Hlen Hm. unfold getb, setb. kstep. rewrite !set_bc_bc.
  set (F := fun bc => _). replace (set_bc F s) with (set_bc (binit_round k) s); [done|].
  assert (k <> HEAD) as Hne by (unfold HEAD; lia).
  assert (binit_round k (k_bc s) = F (k_bc s)) as E; [|unfold set_bc; by rewrite E].
  unfold F, binit_round, link_front. cbn [k_bc set_bc]. unfold next.
  rewrite !list_alter_alter. rewrite !(lookup_total_alter_ne _ _ k HEAD) by done. done.
Qed.

Lemma binit_loop_spec n k s :
  (k + n <= NBUF)%nat -> binit_inv (k_bc s) k ->
  wp (binit_loop n k) (fun _ s' => binit_inv (k_bc s') (k + n) /\ s' = set_bc (fun _ => k_bc s') s) s.
Proof.
  revert k s. induction n as [|n IH]; intros k s Hk Hinv; cbn [binit_loop].
  - apply wp_ret. rewrite Nat.add_0_r. split; [done|]. by destruct s.
  - apply binit_round_run; [lia|apply Hinv|]. eapply wp_mono.
    { apply IH; [lia|]. apply binit_round_inv; [lia|done]. }
    intros [] s' [H1 H2]. replace (k + S n)%nat with (S k + n)%nat by lia. split; [done|].
    rewrite H2. done.
Qed.

Lemma unused_pin s :
  (forall i, (i < NBUF)%nat -> b_dev (k_bc s !!! i) = u32 (-1)) -> forall b, cached s b = None /\ pin s b = None.
Proof.
  intros Hd b. assert (cached s b = None) as E; [|unfold pin; by rewrite E].
  destruct (cached s b) as [i|] eqn:E; [|done]. exfalso.
  apply cached_Some in E as (Hi & Hdi & _). rewrite Hd in Hdi by done. by apply u32_m1.
Qed.

(** [binit] on a cleared [bcache] makes a ring of all buffers, none of which
    holds a sector, over the disk given to [memideinit]. *)
Lemma binit_spec s :
  length (k_bc s) = S NBUF -> Forall (fun b => b_flags b = 0) (k_bc s) ->
  Z.of_nat (length (k_disk s)) = k_disksize s -> Forall (fun blk => length blk = 512%nat) (k_disk s) ->
  wp binit (fun _ s' => bio_ok s' /\ (forall b, pin s' b = None) /\
    ring (k_bc s') (reverse (seq 0 NBUF)) /\
    s' = set_bc (fun _ => k_bc s') (set_locks (delete LBcache) s)) s.
Proof.
  intros Hlen Hfl Hds Hblk. unfold binit, initlock, setb. kstep. rewrite set_bc_bc.
  match goal with |- wp _ _ ?st => set (s1 := st) end.
  assert (binit_inv (k_bc s1) 0) as H1.
  { split; cbn; rewrite ?list_alter_alter.
    - by len.
    - rewrite linked_cons. unfold next, prev. by rewrite !lookup_total_alter_eq by (unfold HEAD; lia).
    - intros i. rewrite lookup_total_alter by (unfold HEAD; lia).
      rewrite Forall_lookup in Hfl. assert (forall j, b_flags (k_bc s !!! j) = 0) as E.
      { intros j. rewrite list_lookup_total_alt. destruct (k_bc s !! j) eqn:Ej; [by eapply Hfl|done]. }
      case_decide; apply E.
    - lia. }
  eapply wp_mono; [apply binit_loop_spec; [lia|exact H1]|]. intros [] s' [[Hl Hlk Hf Hd] Hs'].
  assert (ring (k_bc s') (reverse (seq 0 NBUF))) as Hr.
  { split_and!; [done|by rewrite reverse_Permutation|done]. }
  assert (k_disk s' = k_disk s /\ k_disksize s' = k_disksize s) as [Hdk Hdz] by (by rewrite Hs').
  split_and!; [|intros b; by apply unused_pin|done|by rewrite Hs'].
  split; rewrite ?Hdk, ?Hdz; try done; [by eexists|intros i Hi; left; auto|].
  intros i j Hi Hj Hdi. rewrite Hd in Hdi by lia. exfalso. by apply u32_m1.
Qed.
