(* ===== verification/Log.v ===== *)
(** * The log (kernel/log.c)

    One transaction at a time is kept in a redo log at the end of the disk:
    a header block with the number of logged blocks and their sectors, then
    the blocks. The definitions are the functions of log.c over the buffer
    cache of [Bio]; the theorems show what a transaction means to the file
    system: an invariant that every step of a transaction keeps, a commit that
    makes the logical contents of the disk durable, and the atomicity of a
    transaction across a crash at any disk write. *)

From stdpp Require Import prelude gmap strings.
From S2P Require Import Prelude Kernel Spinlock Sched Bio Cache.

Definition log_eta (l : log) : log :=
  Log (lg_start l) (lg_size l) (lg_busy l) (lg_dev l) (lh_n l) (lh_sector l).
Definition set_start (f : Z -> Z) (l : log) : log := ltac:(setfield log_eta lg_start f l).
Definition set_size (f : Z -> Z) (l : log) : log := ltac:(setfield log_eta lg_size f l).
Definition set_busy (f : Z -> Z) (l : log) : log := ltac:(setfield log_eta lg_busy f l).
Definition set_dev (f : Z -> Z) (l : log) : log := ltac:(setfield log_eta lg_dev f l).
Definition set_n (f : Z -> Z) (l : log) : log := ltac:(setfield log_eta lh_n f l).
Definition set_lhsector (f : list Z -> list Z) (l : log) : log :=
  ltac:(setfield log_eta lh_sector f l).

Definition getlog {A} (f : log -> A) : K A := gets (fun s => f (k_log s)).
Definition setlog (f : log -> log) : K unit := modify (set_log f).

(** [bp->data] as a block of bytes. *)
Definition getdata (i : nat) : K bytes := b <- getb i ;; ret (b_data b).
Definition setdata (i : nat) (d : bytes) : K unit := setb i (set_bdata (fun _ => d)).

(** [log.lh.sector[i]]; the array has [LOGSIZE] entries. *)
Definition lh_get (i : Z) : K Z :=
  if bool_decide (0 <= i < Z.of_nat LOGSIZE) then
    l <- getlog lh_sector ;; ret (l !!! Z.to_nat i)
  else fault.
Definition lh_set (i v : Z) : K unit :=
  if bool_decide (0 <= i < Z.of_nat LOGSIZE) then
    setlog (set_lhsector (<[Z.to_nat i := v]>))
  else fault.

(** The header block: [struct logheader] in the data of a buffer. *)
Definition hd_n (d : bytes) : Z := s32 (get32 d 0).
Definition hd_sector (d : bytes) (i : Z) : Z := s32 (get32 d (Z.to_nat (4 + 4 * i))).

(** [for (tail = 0; tail < log.lh.n; tail++)]: [n] is the number of rounds
    left. *)
Fixpoint install_loop (n : nat) (tail : Z) : K unit :=
  match n with
  | O => ret tt
  | S n =>
    dev <- getlog lg_dev ;;
    start <- getlog lg_start ;;
    lbuf <- bread (u32 dev) (u32 (start + tail + 1)) ;;
    sec <- lh_get tail ;;
    dbuf <- bread (u32 dev) (u32 sec) ;;
    d <- getdata lbuf ;;
    setdata dbuf d ;;
    bwrite dbuf ;;
    brelse lbuf ;;
    brelse dbuf ;;
    install_loop n (tail + 1)
  end.

Definition install_trans : K unit :=
  n <- getlog lh_n ;;
  install_loop (Z.to_nat n) 0.

Fixpoint read_head_loop (d : bytes) (n : nat) (i : Z) : K unit :=
  match n with
  | O => ret tt
  | S n => lh_set i (hd_sector d i) ;; read_head_loop d n (i + 1)
  end.

Definition read_head : K unit :=
  dev <- getlog lg_dev ;;
  start <- getlog lg_start ;;
  buf <- bread (u32 dev) (u32 start) ;;
  d <- getdata buf ;;
  setlog (set_n (fun _ => hd_n d)) ;;
  n <- getlog lh_n ;;
  read_head_loop d (Z.to_nat n) 0 ;;
  brelse buf.

Fixpoint write_head_loop (buf : nat) (n : nat) (i : Z) : K unit :=
  match n with
  | O => ret tt
  | S n =>
    sec <- lh_get i ;;
    d <- getdata buf ;;
    setdata buf (put32 d (Z.to_nat (4 + 4 * i)) sec) ;;
    write_head_loop buf n (i + 1)
  end.

Definition write_head : K unit :=
  dev <- getlog lg_dev ;;
  start <- getlog lg_start ;;
  buf <- bread (u32 dev) (u32 start) ;;
  n <- getlog lh_n ;;
  d <- getdata buf ;;
  setdata buf (put32 d 0 n) ;;
  write_head_loop buf (Z.to_nat n) 0 ;;
  bwrite buf ;;
  brelse buf.

Definition recover_from_log : K unit :=
  read_head ;;
  install_trans ;;
  setlog (set_n (fun _ => 0)) ;;
  write_head.

(** [readsb] of fs.c, which [initlog] calls: the super block is sector 1. *)
Definition sb_dec (d : bytes) : superblock :=
  Superblock (get32 d 0) (get32 d 4) (get32 d 8) (get32 d 12).

Definition readsb (dev : Z) : K superblock :=
  bp <- bread (u32 dev) 1 ;;
  d <- getdata bp ;;
  brelse bp ;;
  ret (sb_dec d).

(** The test of [sizeof(struct logheader)] is decided at compile time. *)
Definition initlog : K unit :=
  if BSIZE <=? 4 + 4 * Z.of_nat LOGSIZE then panic "initlog: too big logheader" else
  initlock LLog ;;
  sb <- readsb ROOTDEV ;;
  setlog (set_start (fun _ => s32 (sb_size sb - sb_nlog sb))) ;;
  setlog (set_size (fun _ => s32 (sb_nlog sb))) ;;
  setlog (set_dev (fun _ => ROOTDEV)) ;;
  recover_from_log.

(** [while (log.busy) sleep(&log, &log.lock)]: the path that sleeps ends by
    switching to the scheduler. *)
Definition begin_trans : K unit :=
  acquire LLog ;;
  b <- getlog lg_busy ;;
  when cbool b do sleep CLog LLog ;;
  setlog (set_busy (fun _ => 1)) ;;
  release LLog.

Definition commit_trans : K unit :=
  n <- getlog lh_n ;;
  (if 0 <? n then
     write_head ;;
     install_trans ;;
     setlog (set_n (fun _ => 0)) ;;
     write_head
   else ret tt) ;;
  acquire LLog ;;
  setlog (set_busy (fun _ => 0)) ;;
  wakeup CLog ;;
  release LLog.

(** The slot of [log_write]: the first logged one with the same sector, or
    the next free one. *)
Fixpoint log_slot (sec : Z) (n : nat) (i : Z) : K Z :=
  match n with
  | O => ret i
  | S n =>
    x <- lh_get i ;;
    if u32 x =? sec then ret i else log_slot sec n (i + 1)
  end.

Definition log_write (b : nat) : K unit :=
  n <- getlog lh_n ;;
  size <- getlog lg_size ;;
  if (Z.of_nat LOGSIZE <=? n) || (size - 1 <=? n) then panic "too big a transaction" else
  busy <- getlog lg_busy ;;
  if negb (cbool busy) then panic "write outside of trans" else
  x <- getb b ;;
  i <- log_slot (b_sector x) (Z.to_nat n) 0 ;;
  lh_set i (s32 (b_sector x)) ;;
  start <- getlog lg_start ;;
  lbuf <- bread (b_dev x) (u32 (start + i + 1)) ;;
  x <- getb b ;;
  setdata lbuf (b_data x) ;;
  bwrite lbuf ;;
  brelse lbuf ;;
  when i =? n do setlog (set_n (fun n => n + 1)) ;;
  setb b (set_bflags (fun fl => setf fl B_DIRTY)).

(** ** Transactions *)

Definition logged (s : kst) : list Z :=
  take (Z.to_nat (lh_n (k_log s))) (lh_sector (k_log s)).

(** The sectors before the log. *)
Definition home (s : kst) (b : Z) : Prop := 0 <= b < lg_start (k_log s).

Record log_geo (s : kst) : Prop := {
  lg_dev_ok : lg_dev (k_log s) = ROOTDEV;
  lg_start_ok : 0 <= lg_start (k_log s);
  lg_size_ok : 1 <= lg_size (k_log s);
  lg_disk_ok : lg_start (k_log s) + lg_size (k_log s) <= k_disksize s;
  lg_disksize : k_disksize s < 2 ^ 31;
  lg_length : length (lh_sector (k_log s)) = LOGSIZE;
  lg_n : 0 <= lh_n (k_log s) <= Z.of_nat LOGSIZE;
  lg_n_size : lh_n (k_log s) <= lg_size (k_log s) - 1
}.

(** The state of a transaction: the process holds the buffers of the sectors
    [H] and has changed those of [W] since it last logged them. Every logged
    block is pinned and its log block holds its contents; every other block is
    on the disk; and the header on the disk says that nothing is committed. *)
Record txn (s : kst) (H W : gset Z) : Prop := {
  tx_bio : bio_ok s;
  tx_quiet : quiet s;
  tx_geo : log_geo s;
  tx_nodup : NoDup (logged s);
  tx_home : forall b, b ∈ logged s -> home s b;
  tx_held : forall b, pbusy (pin s b) = bool_decide (b ∈ H);
  tx_dirty : forall b, pdirty (pin s b) = bool_decide (b ∈ logged s);
  tx_H : forall b, b ∈ H -> home s b;
  tx_W : W ⊆ H;
  tx_clean : forall b, 0 <= b -> b ∉ W -> b ∉ logged s -> lview s b = dsk s b;
  tx_log : forall k b, logged s !! k = Some b -> b ∉ W ->
    dsk s (lg_start (k_log s) + Z.of_nat k + 1) = lview s b;
  tx_head : hd_n (dsk s (lg_start (k_log s))) = 0
}.

(** Writes of sectors, in order. *)
Definition replay (ws : list (Z * bytes)) (d : list bytes) : list bytes :=
  foldl (fun d w => <[Z.to_nat w.1 := w.2]> d) d ws.

(** What a step inside a transaction leaves alone: everything but the cache,
    the log and, on the disk, the log's blocks. *)
Record lframe (s s' : kst) : Prop := {
  lf_ctx : ctx s s';
  lf_procs : procs_same s s';
  lf_rest : s' = set_cpu (fun _ => k_cpu s') (set_locks (fun _ => k_locks s')
         (set_procs (fun _ => k_procs s') (set_bc (fun _ => k_bc s')
           (set_disk (fun _ => k_disk s') (set_hist (fun _ => k_hist s')
             (set_log (fun _ => k_log s') s))))));
  lf_start : lg_start (k_log s') = lg_start (k_log s);
  lf_size : lg_size (k_log s') = lg_size (k_log s);
  lf_busy : lg_busy (k_log s') = lg_busy (k_log s);
  lf_writes : exists ws, k_hist s' = k_hist s ++ ws /\ k_disk s' = replay ws (k_disk s) /\
    Forall (fun w => lg_start (k_log s) < w.1 < lg_start (k_log s) + lg_size (k_log s)) ws
}.

Lemma replay_cons w ws d : replay (w :: ws) d = replay ws (<[Z.to_nat w.1 := w.2]> d).
Proof. done. Qed.

Lemma replay_app ws ws' d : replay (ws ++ ws') d = replay ws' (replay ws d).
Proof. apply foldl_app. Qed.

#[export] Instance lframe_preorder : PreOrder lframe.
Proof.
  split.
  - intros s. split; try done; [by destruct s|]. exists []. by rewrite app_nil_r.
  - intros s1 s2 s3 [? ? E1 Hs1 Hz1 ? (ws1 & Hh1 & Hd1 & Hf1)] [? ? E2 Hs2 Hz2 ? (ws2 & Hh2 & Hd2 & Hf2)].
    split; try (by etrans).
    + rewrite E2, E1 at 1. done.
    + exists (ws1 ++ ws2). split_and!.
      * by rewrite Hh2, Hh1, app_assoc.
      * by rewrite Hd2, Hd1, replay_app.
      * apply Forall_app. split; [done|]. by rewrite Hs1, Hz1 in Hf2.
Qed.

Lemma lframe_disksize s s' : lframe s s' -> k_disksize s' = k_disksize s.
Proof. intros [_ _ E]. by rewrite E. Qed.

Lemma bframe_log s s' : bframe s s' -> k_log s' = k_log s.
Proof. intros [_ E _]. by rewrite E. Qed.

Lemma bframe_lframe s s' ws :
  bframe s s' -> k_hist s' = k_hist s ++ ws -> k_disk s' = replay ws (k_disk s) ->
  Forall (fun w => lg_start (k_log s) < w.1 < lg_start (k_log s) + lg_size (k_log s)) ws ->
  lframe s s'.
Proof.
  intros Hb Hh Hd Hw. pose proof (bframe_log _ _ Hb) as Hl. destruct Hb as [? E ?].
  split; rewrite ?Hl; eauto.
Qed.

Lemma bframe_lframe_nil s s' :
  bframe s s' -> k_hist s' = k_hist s -> k_disk s' = k_disk s -> lframe s s'.
Proof. intros Hb Hh Hd. apply (bframe_lframe _ _ []); rewrite ?app_nil_r; done. Qed.

Lemma wp_getdata s i b Q : holds s i b -> Q (lview s b) s -> wp (getdata i) Q s.
Proof. intros Hh HQ. unfold getdata, getb. kstep. by rewrite (holds_data _ _ _ Hh). Qed.

Lemma txn_room s H W b :
  txn s H W -> pin s b <> None -> b ∈ H ∪ list_to_set (logged s).
Proof.
  intros Htx Hp. destruct (pin s b) as [p|] eqn:E; [|done].
  pose proof (pin_used _ _ _ E) as Hu. pose proof (tx_held _ _ _ Htx b) as H1.
  pose proof (tx_dirty _ _ _ Htx b) as H2. rewrite E in H1, H2. cbn in H1, H2.
  rewrite elem_of_union, elem_of_list_to_set. apply orb_true_iff in Hu as [Hu|Hu].
  - left. rewrite Hu in H1. symmetry in H1. by apply bool_decide_eq_true in H1.
  - right. rewrite Hu in H2. symmetry in H2. by apply bool_decide_eq_true in H2.
Qed.

Lemma logged_length s : log_geo s -> length (logged s) = Z.to_nat (lh_n (k_log s)).
Proof. intros []. unfold logged. rewrite length_take. unfold LOGSIZE in *. lia. Qed.

Lemma txn_n s H W : txn s H W -> lh_n (k_log s) = Z.of_nat (length (logged s)).
Proof. intros []. rewrite logged_length by done. destruct tx_geo0. lia. Qed.

Lemma txn_size s H W :
  txn s H W -> Z.of_nat (size H) + lh_n (k_log s) < Z.of_nat NBUF ->
  (size (H ∪ list_to_set (logged s)) < NBUF)%nat.
Proof.
  intros Htx Hsz. pose proof (tx_geo _ _ _ Htx) as Hg. pose proof (lg_n _ Hg).
  pose proof (size_union_alt H (list_to_set (logged s))) as Hu.
  pose proof (subseteq_size (list_to_set (logged s) ∖ H) (list_to_set (logged s)) ltac:(set_solver)) as Hd.
  rewrite (size_list_to_set (logged s)) in Hd by apply Htx.
  rewrite logged_length in Hd by done. lia.
Qed.

(** The effect of a step: the held and changed sectors after it, the logical
    contents of the home sectors and the list of logged blocks. *)
Record tstep (s s' : kst) (H W : gset Z) (v : Z -> bytes) (l : list Z) : Prop := {
  ts_frame : lframe s s';
  ts_txn : txn s' H W;
  ts_view : forall b, home s b -> lview s' b = v b;
  ts_logged : logged s' = l;
  ts_holds : forall i b, b ∈ H -> holds s i b -> holds s' i b
}.

Lemma txn_geo_ext s s' :
  k_log s' = k_log s -> k_disksize s' = k_disksize s -> log_geo s -> log_geo s'.
Proof. intros H1 H2 []. split; rewrite ?H1, ?H2; done. Qed.

Lemma bframe_disksize s s' : bframe s s' -> k_disksize s' = k_disksize s.
Proof. intros [_ E _]. by rewrite E. Qed.

Lemma logged_ext s s' : k_log s' = k_log s -> logged s' = logged s.
Proof. unfold logged. by intros ->. Qed.

Lemma home_range s b : log_geo s -> home s b -> 0 <= b < k_disksize s.
Proof. unfold home. intros []. lia. Qed.

Lemma holds_pin s s' i b : pin s' b = pin s b -> holds s i b -> holds s' i b.
Proof. unfold holds. by intros ->. Qed.

Lemma txn_bread s H W b :
  txn s H W -> home s b -> b ∉ H ->
  Z.of_nat (size H) + lh_n (k_log s) < Z.of_nat NBUF ->
  wp (bread ROOTDEV b) (fun i s' => holds s' i b /\
    tstep s s' ({[b]} ∪ H) W (lview s) (logged s)) s.
Proof.
  intros Htx Hb Hn Hsz. pose proof Htx as []. eapply wp_mono.
  - apply (wp_bread _ _ (H ∪ list_to_set (logged s))); try done.
    + by apply home_range.
    + by rewrite tx_held0, bool_decide_false.
    + intros b1. by eapply txn_room.
    + intros _. by eapply txn_size.
  - intros i s' []. pose proof (bframe_log _ _ ra_frame) as Hlog.
    split.
    { eexists. by rewrite ra_pin, decide_True. }
    split; try (by apply bframe_lframe_nil); try (by apply logged_ext).
    2: { intros b' [? _]. by apply ra_view. }
    2: { intros i' b' _ Hh. destruct (decide (b' = b)) as [->|].
      - destruct Hh as (d & Hh). pose proof (tx_held0 b) as E. rewrite Hh in E.
        rewrite bool_decide_false in E by done. done.
      - eapply holds_pin; [|done]. by rewrite ra_pin, decide_False. }
    assert (forall b', dsk s' b' = dsk s b') as Hdk by (unfold dsk; by rewrite ra_disk).
    split; unfold home in *; rewrite ?(logged_ext _ _ Hlog), ?Hlog; try done.
    + by eapply bframe_quiet.
    + eapply txn_geo_ext; [done|by apply bframe_disksize|done].
    + intros b'. rewrite ra_pin. case_decide; subst; cbn.
      * by rewrite bool_decide_true by set_solver.
      * rewrite tx_held0. apply bool_decide_ext. set_solver.
    + intros b'. rewrite ra_pin. case_decide; subst; cbn; auto.
    + set_solver.
    + set_solver.
    + intros b' ? ? ?. rewrite ra_view, Hdk by done. auto.
    + intros k b' Hk HW. rewrite Hdk, ra_view; [auto|].
      apply tx_home0. by eapply list_elem_of_lookup_2.
    + by rewrite Hdk.
Qed.

Lemma txn_setdata s H W i b d Q :
  txn s H W -> holds s i b -> b ∈ H -> length d = 512%nat ->
  (forall s', tstep s s' H ({[b]} ∪ W) (fupd (lview s) b d) (logged s) -> Q tt s') ->
  wp (setdata i d) Q s.
Proof.
  intros Htx Hh HH Hd HQ. pose proof Htx as []. unfold setdata.
  apply (wp_setdata s i b); try done. intros s' []. apply HQ.
  pose proof (bframe_log _ _ sa_frame) as Hlog.
  assert (forall b', dsk s' b' = dsk s b') as Hdk by (unfold dsk; by rewrite sa_disk).
  split; try (by apply bframe_lframe_nil); try (by apply logged_ext).
  2: { intros b' _. rewrite sa_view. unfold fupd. by repeat case_decide. }
  2: { intros i' b' _. by apply holds_pin. }
  split; unfold home in *; rewrite ?(logged_ext _ _ Hlog), ?Hlog; try done.
  - by eapply bframe_quiet.
  - eapply txn_geo_ext; [done|by apply bframe_disksize|done].
  - intros b'. by rewrite sa_pin.
  - intros b'. by rewrite sa_pin.
  - set_solver.
  - intros b' ? ? ?. rewrite sa_view, decide_False, Hdk by set_solver. apply tx_clean0; set_solver.
  - intros k b' Hk HW. rewrite Hdk, sa_view, decide_False by set_solver. apply tx_log0; set_solver.
  - by rewrite Hdk.
Qed.

Lemma txn_brelse s H W i b :
  txn s H W -> holds s i b -> b ∉ W ->
  wp (brelse i) (fun _ s' => tstep s s' (H ∖ {[b]}) W (lview s) (logged s)) s.
Proof.
  intros Htx Hh HW. pose proof Htx as []. eapply wp_mono.
  - apply (wp_brelse _ _ b); try done. rewrite tx_dirty0.
    destruct (decide (b ∈ logged s)); [left; by apply bool_decide_eq_true|right].
    apply tx_clean0; try done. destruct Hh as (? & Hh). apply pin_range in Hh; [lia|done].
  - intros _ s' []. pose proof (bframe_log _ _ la_frame) as Hlog.
    assert (forall b', dsk s' b' = dsk s b') as Hdk by (unfold dsk; by rewrite la_disk).
    split; try (by apply bframe_lframe_nil); try (by apply logged_ext).
    2: { intros b' _. apply la_view. }
    2: { intros i' b' ? Hi'. eapply holds_pin; [|done]. rewrite la_pin, decide_False; set_solver. }
    split; unfold home in *; rewrite ?(logged_ext _ _ Hlog), ?Hlog; try done.
    + by eapply bframe_quiet.
    + eapply txn_geo_ext; [done|by apply bframe_disksize|done].
    + intros b'. rewrite la_pin. case_decide; subst; cbn.
      * rewrite bool_decide_false by set_solver. by destruct (pdirty _).
      * rewrite tx_held0. apply bool_decide_ext. set_solver.
    + intros b'. rewrite la_pin. case_decide; subst; [|done]. rewrite <- tx_dirty0.
      destruct (pdirty (pin s b)); done.
    + set_solver.
    + set_solver.
    + intros b' ? ? ?. rewrite la_view, Hdk. auto.
    + intros k b' Hk HW'. rewrite Hdk, la_view. auto.
    + by rewrite Hdk.
Qed.

Lemma wp_lh_get s i Q :
  (i < LOGSIZE)%nat -> Q (lh_sector (k_log s) !!! i) s -> wp (lh_get (Z.of_nat i)) Q s.
Proof.
  intros Hi HQ. unfold lh_get. rewrite bool_decide_true by lia. unfold getlog. kstep.
  by rewrite Nat2Z.id.
Qed.

Lemma wp_lh_set s i v Q :
  (i < LOGSIZE)%nat -> Q tt (set_log (set_lhsector (<[i := v]>)) s) ->
  wp (lh_set (Z.of_nat i) v) Q s.
Proof.
  intros Hi HQ. unfold lh_set. rewrite bool_decide_true by lia. unfold setlog. kstep.
  by rewrite Nat2Z.id.
Qed.

Lemma log_slot_spec s sec n k Q :
  (k + n <= LOGSIZE)%nat ->
  (forall j, (k <= j <= k + n)%nat ->
     ((j < k + n)%nat -> u32 (lh_sector (k_log s) !!! j) = sec) ->
     (forall m, (k <= m < j)%nat -> u32 (lh_sector (k_log s) !!! m) <> sec) ->
     Q (Z.of_nat j) s) ->
  wp (log_slot sec n (Z.of_nat k)) Q s.
Proof.
  revert k. induction n as [|n IH]; intros k Hk HQ; cbn [log_slot].
  - apply wp_ret. apply HQ; lia.
  - kstep. apply wp_lh_get; [lia|]. destruct (Z.eqb_spec (u32 (lh_sector (k_log s) !!! k)) sec) as [E|E].
    + kstep. apply HQ; [lia|done|lia].
    + replace (Z.of_nat k + 1) with (Z.of_nat (S k)) by lia. apply IH; [lia|].
      intros j Hj Hm Hne. apply HQ; [lia|intros; apply Hm; lia|].
      intros m Hlt. destruct (decide (m = k)) as [->|]; [done|]. apply Hne. lia.
Qed.

(** Block numbers of the disk are the same as int and as unsigned int. *)
Lemma home_u32 s b : log_geo s -> home s b -> u32 b = b /\ s32 b = b.
Proof.
  intros Hg Hb. apply home_range in Hb; [|done]. destruct Hg.
  split; [apply u32_small; lia|]. apply sgn_small; lia.
Qed.

Lemma logged_lookup s k : log_geo s -> (k < length (logged s))%nat ->
  logged s !! k = Some (lh_sector (k_log s) !!! k).
Proof.
  intros Hg Hk. rewrite logged_length in Hk by done. unfold logged. rewrite lookup_take, decide_True by lia.
  apply list_lookup_lookup_total_lt. destruct Hg. unfold LOGSIZE in *. lia.
Qed.

(** The list of logged blocks after a block has been logged. *)
Definition log_add (b : Z) (l : list Z) : list Z := if decide (b ∈ l) then l else l ++ [b].

Lemma log_slot_logged s b (j : nat) :
  log_geo s -> (forall x, x ∈ logged s -> home s x) -> home s b ->
  lh_n (k_log s) < Z.of_nat LOGSIZE ->
  (0 <= j <= 0 + Z.to_nat (lh_n (k_log s)))%nat ->
  ((j < 0 + Z.to_nat (lh_n (k_log s)))%nat -> u32 (lh_sector (k_log s) !!! j) = b) ->
  (forall m, (0 <= m < j)%nat -> u32 (lh_sector (k_log s) !!! m) <> b) ->
  take (Z.to_nat (if Z.of_nat j =? lh_n (k_log s) then lh_n (k_log s) + 1 else lh_n (k_log s)))
    (<[j := b]> (lh_sector (k_log s))) = log_add b (logged s) /\
  log_add b (logged s) !! j = Some b.
Proof.
  intros Hg Hhome Hb Hn Hj Hat Hbefore. pose proof (logged_length _ Hg) as Hlen.
  assert (forall m, (m < length (logged s))%nat -> u32 (lh_sector (k_log s) !!! m) = lh_sector (k_log s) !!! m) as Hu.
  { intros m Hm. eapply home_u32; [done|]. apply Hhome.
    eapply list_elem_of_lookup_2. by apply logged_lookup. }
  pose proof Hg as []. destruct (Z.eqb_spec (Z.of_nat j) (lh_n (k_log s))) as [E|E].
  - assert (b ∉ logged s) as Hnin.
    { intros (m & Hm)%list_elem_of_lookup_1. pose proof (lookup_lt_Some _ _ _ Hm).
      rewrite logged_lookup in Hm by done. apply (Hbefore m); [lia|]. rewrite Hu by done. congruence. }
    assert (take (Z.to_nat (lh_n (k_log s) + 1)) (<[j := b]> (lh_sector (k_log s))) = logged s ++ [b]) as ->.
    { replace (Z.to_nat (lh_n (k_log s) + 1)) with (S j) by lia.
      rewrite (take_S_r _ _ b) by (apply list_lookup_insert_eq; unfold LOGSIZE in *; lia).
      f_equal. rewrite take_insert_ge by lia. unfold logged. f_equal. lia. }
    unfold log_add. rewrite decide_False by done. split; [done|].
    rewrite lookup_app_r by lia. by replace (j - length (logged s))%nat with 0%nat by lia.
  - assert (logged s !! j = Some b) as Hjb.
    { rewrite logged_lookup by (done || lia). rewrite <- Hu by lia. f_equal. apply Hat. lia. }
    assert (b ∈ logged s) as Hin by (by eapply list_elem_of_lookup_2).
    unfold log_add. rewrite decide_True by done. split; [|done].
    rewrite list_insert_id; [done|]. unfold logged in Hjb. by apply lookup_take_Some in Hjb as [? _].
Qed.

Lemma pin_None s b : pbusy (pin s b) = false -> pdirty (pin s b) = false -> pin s b = None.
Proof.
  destruct (pin s b) as [p|] eqn:E; [|done]. apply pin_used in E. cbn. intros H1 H2.
  by rewrite H1, H2 in E.
Qed.

Lemma quiet_ext s s' : k_cpu s' = k_cpu s -> k_locks s' = k_locks s -> quiet s -> quiet s'.
Proof. intros H1 H2 []. split; unfold cpu_ok in *; by rewrite ?H1, ?H2. Qed.

(** The pinned state, the disk and the log after [log_write]: what the
    transaction's invariant is rebuilt from. *)
Record log_write_abs (s : kst) (b : Z) (i : nat) (j : nat) (s' : kst) : Prop := {
  lw_frame : lframe s s';
  lw_log : k_log s' = Log (lg_start (k_log s)) (lg_size (k_log s)) (lg_busy (k_log s)) (lg_dev (k_log s))
    (if Z.of_nat j =? lh_n (k_log s) then lh_n (k_log s) + 1 else lh_n (k_log s))
    (<[j := b]> (lh_sector (k_log s)));
  lw_ok : bio_ok s';
  lw_disk : k_disk s' = <[Z.to_nat (lg_start (k_log s) + Z.of_nat j + 1) := lview s b]> (k_disk s);
  lw_view : forall b', 0 <= b' -> b' <> lg_start (k_log s) + Z.of_nat j + 1 -> lview s' b' = lview s b';
  lw_viewj : lview s' (lg_start (k_log s) + Z.of_nat j + 1) = lview s b;
  lw_pin : forall b', pin s' b' = if decide (b' = b) then Some (Pin i true true) else pin s b'
}.

Lemma txn_logblock s H W k :
  txn s H W -> 0 <= k < lg_size (k_log s) ->
  pin s (lg_start (k_log s) + k) = None.
Proof.
  intros [] Hk. apply pin_None.
  - rewrite tx_held0. apply bool_decide_eq_false_2. intros Hin%tx_H0. unfold home in Hin. lia.
  - rewrite tx_dirty0. apply bool_decide_eq_false_2. intros Hin%tx_home0. unfold home in Hin. lia.
Qed.

Lemma lframe_set_log f s :
  lg_start (f (k_log s)) = lg_start (k_log s) -> lg_size (f (k_log s)) = lg_size (k_log s) ->
  lg_busy (f (k_log s)) = lg_busy (k_log s) -> lframe s (set_log f s).
Proof.
  intros H1 H2 H3. split; try done.
  exists []. by rewrite app_nil_r.
Qed.

(** Copying the held block [b] to sector [L], as [log_write] does. *)
Lemma wp_append s L i b (P : gset Z) {A} (k : K A) Q :
  bio_ok s -> quiet s -> 0 <= L < k_disksize s -> pin s L = None -> holds s i b -> b <> L ->
  (forall b, pin s b <> None -> b ∈ P) -> (size P < NBUF)%nat ->
  (forall s', put_abs s L (lview s b) s' -> wp k Q s') ->
  wp (lbuf <- bread ROOTDEV L ;; x <- getb i ;; setdata lbuf (b_data x) ;;
      bwrite lbuf ;; brelse lbuf ;; k) Q s.
Proof.
  intros Hok Hq HL HpL Hh HbL HP Hsz HQ. kstep.
  eapply wp_mono; [apply (wp_bread s L P); rewrite ?HpL; done|].
  intros l s2 H2. apply bread_put in H2. unfold getb. kstep.
  assert (holds s2 i b) as Hh2.
  { eapply holds_pin; [|exact Hh]. by rewrite (pp_pin _ _ _ _ _ H2), decide_False. }
  assert (0 <= b < k_disksize s) as Hb by (destruct Hh as (? & Hh); by eapply pin_range).
  rewrite (holds_data _ _ _ Hh2), (pp_view _ _ _ _ _ H2), decide_False by (done || lia).
  unfold setdata. eapply wp_setdata; [apply H2|by eapply put_holds|by apply lview_length|].
  intros s3 H3. pose proof (put_setdata _ _ _ _ _ _ _ H2 H3) as Hpp.
  apply wp_bind2. eapply wp_mono; [by eapply wp_put|]. intros [] s4 H4. by apply HQ.
Qed.

Lemma log_write_abs_intro s b i j s1 s4 s5 s6 :
  let L := lg_start (k_log s) + Z.of_nat j + 1 in
  let n := lh_n (k_log s) in
  s1 = set_log (set_lhsector (<[j := b]>)) s ->
  put_abs s1 L (lview s b) s4 ->
  s5 = (if Z.of_nat j =? n then set_log (set_n (fun n => n + 1)) s4 else s4) ->
  mark_abs s5 b i s6 -> pin s L = None -> b <> L ->
  0 <= L -> lg_start (k_log s) < L < lg_start (k_log s) + lg_size (k_log s) ->
  log_write_abs s b i j s6.
Proof.
  intros L n E1 H4 E5 H6 HpL HbL HL HLr.
  pose proof (bframe_log _ _ (pa_frame _ _ _ _ H4)) as Hl4.
  pose proof (bframe_log _ _ (ma_frame _ _ _ _ H6)) as Hl6.
  assert (k_bc s5 = k_bc s4 /\ k_disk s5 = k_disk s4 /\ k_disksize s5 = k_disksize s4 /\
          k_log s5 = if Z.of_nat j =? n then set_n (fun n => n + 1) (k_log s4) else k_log s4)
    as (Hb5 & Hd5 & Hz5 & Hl5) by (rewrite E5; by destruct (_ =? _)).
  assert (lframe s4 s5) as Hf5.
  { rewrite E5. destruct (_ =? _); [by apply lframe_set_log|done]. }
  assert (lframe s s6) as Hf.
  { transitivity s1; [|transitivity s4; [|etrans; [exact Hf5|]]].
    - rewrite E1. by apply lframe_set_log.
    - apply (bframe_lframe _ _ [(L, lview s b)]); [apply H4..|]. rewrite E1. by apply Forall_singleton.
    - apply bframe_lframe_nil; apply H6. }
  split; [done| |apply H6| | | |].
  - rewrite Hl6, Hl5, Hl4, E1. unfold n. by destruct (_ =? _).
  - rewrite (ma_disk _ _ _ _ H6), Hd5, (pa_disk _ _ _ _ H4), E1. done.
  - intros b' H0 Hne. rewrite (ma_view _ _ _ _ H6), (lview_ext s4 s5) by done.
    rewrite (pa_view _ _ _ _ H4), decide_False, E1 by done. done.
  - rewrite (ma_view _ _ _ _ H6), (lview_ext s4 s5) by done.
    by rewrite (pa_view _ _ _ _ H4), decide_True.
  - intros b'. rewrite (ma_pin _ _ _ _ H6). case_decide; [done|].
    rewrite (pin_ext_bc s4 s5), (pa_pin _ _ _ _ H4), E1 by done.
    case_decide as E; [by rewrite E, HpL|done].
Qed.

Lemma log_write_steps s H W i b :
  txn s H W -> holds s i b -> home s b -> cbool (lg_busy (k_log s)) = true ->
  lh_n (k_log s) < Z.of_nat LOGSIZE -> lh_n (k_log s) < lg_size (k_log s) - 1 ->
  Z.of_nat (size H) + lh_n (k_log s) < Z.of_nat NBUF ->
  wp (log_write i) (fun _ s' => exists j, Z.of_nat j <= lh_n (k_log s) /\
    logged s' = log_add b (logged s) /\
    log_add b (logged s) !! j = Some b /\ log_write_abs s b i j s') s.
Proof.
  intros Htx Hh Hb Hbusy Hn1 Hn2 Hroom. pose proof Htx as [Hok Hq Hg _ Hhome _ _ _ _ _ _ _].
  pose proof (holds_buf _ _ _ Hh) as (_ & Hdev & Hsec & _).
  pose proof Hg as [Hd Hst Hsz Hdk Hds Hlen Hn _].
  unfold log_write, getlog. kstep.
  destruct (Z.leb_spec (Z.of_nat LOGSIZE) (lh_n (k_log s))) as [|_]; [lia|].
  destruct (Z.leb_spec (lg_size (k_log s) - 1) (lh_n (k_log s))) as [|_]; [lia|]. cbn [orb]. kstep.
  rewrite Hbusy. cbn [negb]. unfold getb at 1. kstep. rewrite Hsec, Hdev.
  apply (log_slot_spec s _ _ 0); [lia|]. intros j Hj Hat Hbefore.
  pose proof (log_slot_logged s b j Hg Hhome Hb Hn1 Hj Hat Hbefore) as [Htake Hjb].
  rewrite (proj2 (home_u32 _ _ Hg Hb)). kstep. apply wp_lh_set; [lia|]. do 2 kstep1.
  set (s1 := set_log _ s). change (lg_start (k_log s1)) with (lg_start (k_log s)).
  rewrite u32_small by lia. set (L := lg_start (k_log s) + Z.of_nat j + 1).
  assert (pin s L = None) as HpL.
  { unfold L. rewrite <- Z.add_assoc. eapply txn_logblock; [done|lia]. }
  assert (b <> L) as HbL by (unfold home in Hb; lia).
  apply (wp_append s1 L i b (H ∪ list_to_set (logged s))); try done.
  { by apply (bio_ok_ext s). } { by apply (quiet_ext s). } { cbn. lia. }
  { intros b'. change (pin s1 b') with (pin s b'). by eapply txn_room. } { by eapply txn_size. }
  change (lview s1 b) with (lview s b). intros s4 H4.
  set (s5 := if Z.of_nat j =? lh_n (k_log s) then set_log (set_n (fun n => n + 1)) s4 else s4).
  kstep. apply (wp_mono _ (fun _ s' => s' = s5)); [unfold s5; by destruct (_ =? _)|]. intros [] ? ->.
  assert (k_bc s5 = k_bc s4 /\ k_disk s5 = k_disk s4 /\ k_disksize s5 = k_disksize s4)
    as (Hb5 & Hd5 & Hz5) by (unfold s5; by destruct (_ =? _)).
  eapply wp_mono.
  { apply (wp_mark s5 i b); [eapply bio_ok_ext; [done..|apply H4]|].
    eapply holds_pin; [|exact Hh]. by rewrite (pin_ext_bc s4 s5), (pa_pin _ _ _ _ H4), decide_False. }
  intros [] s6 H6. exists j. assert (log_write_abs s b i j s6) as Hlw.
  { eapply log_write_abs_intro; try done; lia. }
  split_and!; [lia| |done..]. unfold logged at 1. by rewrite (lw_log _ _ _ _ _ Hlw).
Qed.

Lemma elem_of_log_add x b l : x ∈ log_add b l <-> x = b \/ x ∈ l.
Proof. unfold log_add. case_decide; set_solver. Qed.

Lemma NoDup_log_add b l : NoDup l -> NoDup (log_add b l).
Proof.
  intros Hl. unfold log_add. case_decide; [done|]. apply NoDup_app.
  split_and!; [done|set_solver|apply NoDup_singleton].
Qed.

Lemma log_write_abs_geo s b i j s' :
  log_geo s -> (j < LOGSIZE)%nat -> Z.of_nat j <= lh_n (k_log s) ->
  lh_n (k_log s) < Z.of_nat LOGSIZE -> lh_n (k_log s) < lg_size (k_log s) - 1 ->
  log_write_abs s b i j s' -> log_geo s'.
Proof.
  intros [] Hj1 Hj2 Hn1 Hn2 Hlw. pose proof (lframe_disksize _ _ (lw_frame _ _ _ _ _ Hlw)) as E.
  split; rewrite ?(lw_log _ _ _ _ _ Hlw), ?E; cbn; try done; try (by len);
    destruct (_ =? _); lia.
Qed.

Lemma holds_held s H W i b : txn s H W -> holds s i b -> b ∈ H.
Proof.
  intros [] (d & Hp). pose proof (tx_held0 b) as E. rewrite Hp in E. symmetry in E.
  by apply bool_decide_eq_true in E.
Qed.

Lemma txn_log_write s H W i b :
  txn s H W -> holds s i b -> cbool (lg_busy (k_log s)) = true ->
  lh_n (k_log s) < Z.of_nat LOGSIZE -> lh_n (k_log s) < lg_size (k_log s) - 1 ->
  Z.of_nat (size H) + lh_n (k_log s) < Z.of_nat NBUF ->
  wp (log_write i) (fun _ s' => tstep s s' H (W ∖ {[b]}) (lview s) (log_add b (logged s))) s.
Proof.
  intros Htx Hh Hbusy Hn1 Hn2 Hroom. pose proof (holds_held _ _ _ _ _ Htx Hh) as HbH.
  pose proof Htx as []. pose proof (tx_H0 b HbH) as Hb.
  eapply wp_mono; [by eapply log_write_steps|]. intros _ s' (j & Hj & Hlg & Hjb & Hlw).
  pose proof tx_geo0 as []. pose proof Hlw as [Hf Hl Hok Hdk Hv Hvj Hp].
  set (L := lg_start (k_log s) + Z.of_nat j + 1) in *.
  assert (lg_start (k_log s') = lg_start (k_log s)) as Hst by (by rewrite Hl).
  assert (forall x, home s x -> 0 <= x /\ x <> L) as Hhome by (unfold home; lia).
  assert (forall x, 0 <= x -> dsk s' x = if decide (x = L) then lview s b else dsk s x) as Hdsk.
  { intros x Hx. apply dsk_insert; [done..|lia|done]. }
  split; [done| |intros x Hx; by apply Hv; apply Hhome|done|].
  2: { intros i' b' Hin Hh'. destruct (decide (b' = b)) as [->|].
    - assert (i' = i) as ->. { destruct Hh as (? & E), Hh' as (? & E'). congruence. }
      exists true. by rewrite Hp, decide_True.
    - eapply holds_pin; [|exact Hh']. by rewrite Hp, decide_False. }
  split; unfold home in *; rewrite ?Hst, ?Hlg; try done.
  - eapply ctx_quiet; [apply Hf|done].
  - eapply log_write_abs_geo; try done. lia.
  - by apply NoDup_log_add.
  - intros x [->|?]%elem_of_log_add; auto.
  - intros x. rewrite Hp. case_decide; subst; [|done]. by rewrite bool_decide_true.
  - intros x. rewrite Hp. case_decide; subst; cbn.
    + rewrite bool_decide_true; [done|]. rewrite elem_of_log_add. by left.
    + rewrite tx_dirty0. apply bool_decide_ext. rewrite elem_of_log_add. tauto.
  - set_solver.
  - intros x Hx HW Hnl. rewrite elem_of_log_add in Hnl. rewrite Hdsk by done. case_decide.
    + by subst x.
    + rewrite Hv by done. apply tx_clean0; set_solver.
  - intros k x Hk HW. rewrite Hdsk by lia.
    assert (x ∈ log_add b (logged s)) as Hx by (by eapply list_elem_of_lookup_2).
    apply elem_of_log_add in Hx. assert (0 <= x /\ x <> L) as [Hx0 HxL] by (destruct Hx as [->|?]; auto).
    rewrite Hv by done. case_decide as E.
    + assert (k = j) as -> by lia. congruence.
    + assert (k <> j) as Hkj by (intros ->; done).
      assert (x <> b) as Hxb.
      { intros ->. apply Hkj. eapply NoDup_lookup; [by apply NoDup_log_add|done..]. }
      apply tx_log0; [|set_solver]. unfold log_add in Hk. case_decide; [done|].
      apply lookup_app_Some in Hk as [?|[Hlen Hk]]; [done|].
      apply list_lookup_singleton_Some in Hk as [_ ?]. congruence.
  - rewrite Hdsk, decide_False by lia. done.
Qed.

(** A transaction's state depends on these parts of the kernel's state only. *)
Lemma txn_ext s s' H W :
  k_bc s' = k_bc s -> k_disk s' = k_disk s -> k_disksize s' = k_disksize s ->
  lg_start (k_log s') = lg_start (k_log s) -> lg_size (k_log s') = lg_size (k_log s) ->
  lg_dev (k_log s') = lg_dev (k_log s) -> lh_n (k_log s') = lh_n (k_log s) ->
  lh_sector (k_log s') = lh_sector (k_log s) -> quiet s' -> txn s H W -> txn s' H W.
Proof.
  intros H1 H2 H3 H4 H5 H6 H7 H8 Hq [].
  assert (logged s' = logged s) as Hl by (unfold logged; by rewrite H7, H8).
  assert (forall b, pin s' b = pin s b) as Hp by (intros b; by apply pin_ext_bc).
  assert (forall b, lview s' b = lview s b) as Hv by (intros b; by apply lview_ext).
  assert (forall b, dsk s' b = dsk s b) as Hd by (intros b; unfold dsk; by rewrite H2).
  split; unfold home in *; rewrite ?Hl, ?H4; try done.
  - by eapply bio_ok_ext.
  - destruct tx_geo0. split; rewrite ?H3, ?H4, ?H5, ?H6, ?H7, ?H8; done.
  - intros b. by rewrite Hp.
  - intros b. by rewrite Hp.
  - intros b. rewrite Hv, Hd. auto.
  - intros k b. rewrite Hv, Hd. auto.
  - by rewrite Hd.
Qed.

(** [begin_trans]: a second transaction waits for the first. *)
Lemma begin_trans_spec s :
  txn s ∅ ∅ -> k_locks s !! LLog = None -> lg_busy (k_log s) = 0 ->
  wp begin_trans (fun _ s' => txn s' ∅ ∅ /\ lg_busy (k_log s') = 1 /\ ctx s s' /\
    s' = set_cpu (fun _ => k_cpu s') (set_locks (fun _ => k_locks s')
           (set_log (set_busy (fun _ => 1)) s))) s.
Proof.
  intros Htx Hlk Hb. unfold begin_trans, getlog, setlog. kstep. apply wp_acquire; [done|]. kstep.
  change (lg_busy (k_log (acquired LLog s))) with (lg_busy (k_log s)). rewrite Hb. cbn [cbool Z.eqb negb].
  kstep. apply (wp_release_ctx _ _ s); [apply Htx|done|by apply ctx_same|]. intros Hctx.
  split_and!; try done. apply (txn_ext s); try done. eapply ctx_quiet; [done|apply Htx].
Qed.
