(* ===== verification/LogCrash.v ===== *)
(** * Commit, recovery and crashes

    What [commit_trans] and [initlog] (kernel/log.c) do to the disk, write by
    write, and the atomicity of a transaction: whatever disk write a crash
    follows, the next boot's [initlog] leaves the home sectors with the
    contents they had before the transaction, or with those it gave them. *)

From stdpp Require Import prelude gmap strings.
From S2P Require Import Prelude Kernel Spinlock Sched Bio Cache Log.

(** ** The header block *)

Fixpoint head_fill (d : bytes) (l : list Z) (i : Z) : bytes :=
  match l with
  | [] => d
  | x :: l => head_fill (put32 d (Z.to_nat (4 + 4 * i)) x) l (i + 1)
  end.

(** What [write_head] makes of the header block. *)
Definition head_block (d : bytes) (l : list Z) : bytes :=
  head_fill (put32 d 0 (Z.of_nat (length l))) l 0.

(** The sectors a header block lists. *)
Definition head_list (d : bytes) : list Z :=
  (fun k => hd_sector d (Z.of_nat k)) <$> seq 0 (Z.to_nat (hd_n d)).

Lemma head_fill_length d l i :
  0 <= i -> (4 + 4 * (Z.to_nat i + length l) <= length d)%nat ->
  length (head_fill d l i) = length d.
Proof.
  revert d i. induction l as [|x l IH]; intros d i Hi Hd; [done|]. cbn in *.
  assert (length (put32 d (Z.to_nat (4 + 4 * i)) x) = length d) as E by (apply length_put32; lia).
  rewrite IH; [done|lia|]. rewrite E. lia.
Qed.

Lemma head_fill_before d l i o :
  0 <= i -> (4 + 4 * (Z.to_nat i + length l) <= length d)%nat ->
  (o + 4 <= 4 + 4 * Z.to_nat i)%nat -> get32 (head_fill d l i) o = get32 d o.
Proof.
  revert d i. induction l as [|x l IH]; intros d i Hi Hd Ho; [done|]. cbn in *.
  rewrite IH; [|lia|rewrite length_put32; lia|lia].
  apply get32_put32_ne; lia.
Qed.

Lemma head_fill_at d l i k x :
  0 <= i -> (4 + 4 * (Z.to_nat i + length l) <= length d)%nat -> l !! k = Some x ->
  get32 (head_fill d l i) (Z.to_nat (4 + 4 * (i + Z.of_nat k))) = u32 x.
Proof.
  revert d i k. induction l as [|y l IH]; intros d i k Hi Hd Hk; [done|].
  destruct k as [|k]; cbn in *.
  - injection Hk as ->. rewrite Z.add_0_r, head_fill_before; [|lia|rewrite length_put32; lia|lia].
    apply get32_put32. lia.
  - replace (i + Z.of_nat (S k)) with (i + 1 + Z.of_nat k) by lia.
    apply IH; [lia|rewrite length_put32; lia|done].
Qed.

Section head.
Context (d : bytes) (l : list Z).
Hypothesis Hd : length d = 512%nat.
Hypothesis Hl : (length l <= LOGSIZE)%nat.

Lemma head_block_length : length (head_block d l) = 512%nat.
Proof.
  unfold head_block, LOGSIZE in *. rewrite head_fill_length, length_put32; rewrite ?length_put32; lia.
Qed.

Lemma head_block_n : hd_n (head_block d l) = Z.of_nat (length l).
Proof.
  unfold hd_n, head_block, LOGSIZE in *. rewrite head_fill_before; [|lia|rewrite length_put32; lia|lia].
  rewrite get32_put32, u32_small by lia. apply sgn_small; lia.
Qed.

Lemma head_block_sector k x :
  l !! k = Some x -> 0 <= x < 2 ^ 31 -> hd_sector (head_block d l) (Z.of_nat k) = x.
Proof.
  intros Hk Hx. unfold hd_sector, head_block, LOGSIZE in *.
  pose proof (head_fill_at (put32 d 0 (Z.of_nat (length l))) l 0 k x) as E.
  rewrite Z.add_0_l in E. rewrite E; [|lia|rewrite length_put32; lia|done].
  rewrite u32_small by lia. apply sgn_small; lia.
Qed.

Lemma head_block_list :
  (forall x, x ∈ l -> 0 <= x < 2 ^ 31) -> head_list (head_block d l) = l.
Proof.
  intros Hx. unfold head_list. rewrite head_block_n, Nat2Z.id.
  apply list_eq. intros k. rewrite list_lookup_fmap.
  destruct (decide (k < length l)%nat) as [Hk|Hk].
  - rewrite lookup_seq_lt by done. cbn. destruct (lookup_lt_is_Some_2 l k Hk) as [x E].
    rewrite E. f_equal. apply head_block_sector; [done|]. apply Hx. by eapply list_elem_of_lookup_2.
  - rewrite lookup_seq_ge by lia. symmetry. apply lookup_ge_None. lia.
Qed.
End head.

(** ** [write_head] *)

Lemma write_head_loop_spec s b buf n i d s1 :
  put_pre s b d buf s1 -> 0 <= i -> (Z.to_nat i + n <= LOGSIZE)%nat ->
  length (lh_sector (k_log s1)) = LOGSIZE -> length d = 512%nat ->
  wp (write_head_loop buf n i) (fun _ s' =>
    put_pre s b (head_fill d (slice (lh_sector (k_log s1)) (Z.to_nat i) n) i) buf s') s1.
Proof.
  revert i d s1. induction n as [|n IH]; intros i d s1 Hp Hi Hn Hl Hd; cbn [write_head_loop].
  - apply wp_ret. unfold slice. by rewrite take_0.
  - kstep. rewrite <- (Z2Nat.id i) at 1 by done. apply wp_lh_get; [lia|].
    assert (lview s1 b = d) as Hv.
    { rewrite (pp_view _ _ _ _ _ Hp), decide_True; [done..|].
      destruct (put_holds _ _ _ _ _ Hp) as (? & E). apply (pin_range s1) in E; [lia|apply Hp]. }
    kstep. eapply wp_getdata; [by eapply put_holds|]. rewrite Hv. kstep.
    assert (length (put32 d (Z.to_nat (4 + 4 * i)) (lh_sector (k_log s1) !!! Z.to_nat i)) = 512%nat) as Hd2.
    { rewrite length_put32; unfold LOGSIZE in *; lia. }
    eapply wp_setdata; [apply Hp|by eapply put_holds|done|]. intros s2 H2.
    pose proof (bframe_log _ _ (sa_frame _ _ _ _ H2)) as Hlog.
    eapply wp_mono; [eapply (IH (i + 1)); [by eapply put_setdata|lia|lia|by rewrite Hlog|exact Hd2]|].
    intros [] s3 H3. rewrite Hlog in H3.
    replace (Z.to_nat (i + 1)) with (S (Z.to_nat i)) in H3 by lia.
    assert (lh_sector (k_log s1) !! Z.to_nat i = Some (lh_sector (k_log s1) !!! Z.to_nat i)) as Hat.
    { apply list_lookup_lookup_total_lt. lia. }
    unfold slice in *. by rewrite (drop_S _ _ _ Hat).
Qed.

Lemma write_head_spec s (P : gset Z) :
  bio_ok s -> quiet s -> log_geo s -> pin s (lg_start (k_log s)) = None ->
  (forall b, pin s b <> None -> b ∈ P) -> (size P < NBUF)%nat ->
  wp write_head (fun _ s' => put_abs s (lg_start (k_log s))
    (head_block (lview s (lg_start (k_log s))) (logged s)) s') s.
Proof.
  intros Hok Hq Hg Hp HP Hsz. pose proof Hg as [Hd Hst Hsi Hdk Hds Hlen Hn _].
  unfold write_head, getlog. kstep. rewrite Hd, (u32_small ROOTDEV), u32_small by (done || lia).
  set (b := lg_start (k_log s)) in *. assert (0 <= b < k_disksize s) as Hb by lia.
  eapply wp_mono; [apply (wp_bread s b P); rewrite ?Hp; done|]. intros i s1 H1.
  pose proof (bframe_log _ _ (ra_frame _ _ _ _ H1)) as Hl1. apply bread_put in H1. kstep.
  eapply wp_getdata; [by eapply put_holds|].
  rewrite (pp_view _ _ _ _ _ H1), decide_True, Hl1 by (done || lia).
  pose proof (lview_length s b Hok Hb) as Hvl.
  assert (length (put32 (lview s b) 0 (lh_n (k_log s))) = 512%nat) as Hpl by (rewrite length_put32; lia).
  kstep. eapply wp_setdata; [apply H1|by eapply put_holds|done|]. intros s2 H2.
  pose proof (bframe_log _ _ (sa_frame _ _ _ _ H2)) as Hl2.
  pose proof (put_setdata _ _ _ _ _ _ _ H1 H2) as Hpp.
  kstep. eapply wp_mono; [eapply (write_head_loop_spec s b i _ 0); [exact Hpp|done| | |exact Hpl]|].
  { unfold LOGSIZE in *. lia. } { by rewrite Hl2, Hl1. }
  intros [] s3 H3. replace (head_fill _ _ _) with (head_block (lview s b) (logged s)) in H3.
  { by eapply wp_put. }
  unfold head_block. rewrite (logged_length _ Hg), Hl2, Hl1. unfold logged, slice. rewrite drop_0.
  by rewrite Z2Nat.id by lia.
Qed.

(** ** [install_trans] *)

(** One round: copy log block [L], read before, to its home [b]. *)
Lemma wp_install s L b l s1 (P : gset Z) {A} (k : K A) Q :
  bio_ok s -> quiet s -> L <> b -> pin s L = None -> pbusy (pin s b) = false ->
  0 <= L < k_disksize s -> 0 <= b < k_disksize s ->
  (forall b, pin s b <> None -> b ∈ P) -> (pin s b = None -> (size P + 1 < NBUF)%nat) ->
  bread_abs s L l s1 ->
  (forall s', put_abs s b (lview s L) s' -> wp k Q s') ->
  wp (dbuf <- bread ROOTDEV b ;; d <- getdata l ;; setdata dbuf d ;; bwrite dbuf ;;
      brelse l ;; brelse dbuf ;; k) Q s1.
Proof.
  intros Hok Hq HLb HpL Hpb HL Hb HP Hsz H1 HQ. pose proof (lview_clean _ _ Hok HpL) as HcL.
  assert (holds s1 l L) as Hh1 by (eexists; by rewrite (ra_pin _ _ _ _ H1), decide_True).
  destruct H1 as [Hf1 Hok1 Hdk1 Hhi1 Hv1 Hp1]. pose proof (bframe_disksize _ _ Hf1) as Hds1.
  assert (pin s1 b = pin s b) as Hpb1 by (by rewrite Hp1, decide_False).
  kstep. eapply wp_mono.
  { apply (wp_bread s1 b ({[L]} ∪ P)); [done|by eapply bframe_quiet|lia|congruence| |].
    - intros b'. rewrite Hp1. case_decide; [set_solver|]. intros ?%HP. set_solver.
    - rewrite Hpb1. intros E%Hsz. pose proof (size_union_alt {[L]} P) as Hu.
      rewrite size_singleton in Hu. pose proof (subseteq_size (P ∖ {[L]}) P ltac:(set_solver)). lia. }
  intros i s2 H2. apply bread_put in H2. pose proof H2 as [Hf2 Hok2 Hdk2 Hhi2 Hv2 Hp2].
  assert (holds s2 l L) as Hh2 by (eapply holds_pin; [|done]; by rewrite Hp2, decide_False).
  kstep. eapply wp_getdata; [exact Hh2|]. rewrite Hv2, decide_False, Hv1 by (done || lia).
  kstep. eapply wp_setdata; [done|by eapply put_holds|by apply lview_length|]. intros s3 H3.
  pose proof (put_setdata _ _ _ _ _ _ _ H2 H3) as [Hf3 Hok3 Hdk3 Hhi3 Hv3 Hp3].
  kstep. eapply wp_mono; [apply (wp_bwrite s3 i b); [done|]; eexists; by rewrite Hp3, decide_True|].
  intros [] s4 [Hf4 Hok4 Hdk4 Hhi4 Hv4 Hp4]. rewrite Hv3, decide_True in Hdk4, Hhi4 by (done || lia).
  assert (forall b', 0 <= b' -> dsk s4 b' = if decide (b' = b) then lview s L else dsk s b') as Hd4.
  { intros b' Hb'. rewrite (dsk_insert s3 s4 b (lview s L) b'); [|done..| |done].
    - unfold dsk. by rewrite Hdk3, Hdk1.
    - rewrite (bframe_disksize _ _ Hf3). lia. }
  assert (bframe s s4) as Hf by (etrans; [exact Hf1|etrans; [exact Hf3|exact Hf4]]).
  assert (pin s4 L = Some (Pin l true false)) as HpL4.
  { rewrite Hp4, decide_False, Hp3, decide_False, Hp1, decide_True, HpL by done. done. }
  kstep. eapply wp_mono.
  { apply (wp_brelse s4 l L); [done|by eapply bframe_quiet|by eexists|]. right.
    by rewrite Hv4, Hv3, decide_False, Hv1, Hd4, decide_False by (done || lia). }
  intros [] s5 [Hf5 Hok5 Hdk5 Hhi5 Hv5 Hp5]. rewrite HpL4 in Hp5. cbn in Hp5.
  assert (pin s5 b = Some (Pin i true false)) as Hpb5 by (by rewrite Hp5, decide_False, Hp4, decide_True).
  kstep. eapply wp_mono.
  { apply (wp_brelse s5 i b); [done|apply (bframe_quiet s); [by transitivity s4|done]|by eexists|]. right.
    rewrite Hv5, Hv4, Hv3, decide_True by (done || lia). unfold dsk. rewrite Hdk5.
    fold (dsk s4 b). by rewrite Hd4, decide_True by lia. }
  intros [] s6 [Hf6 Hok6 Hdk6 Hhi6 Hv6 Hp6]. rewrite Hpb5 in Hp6. cbn in Hp6.
  apply HQ. split; try congruence.
  - transitivity s4; [done|]. by transitivity s5.
  - intros b' Hb'. rewrite Hv6, Hv5, Hv4, Hv3 by done. case_decide; [done|]. by apply Hv1.
  - intros b'. rewrite Hp6. case_decide; [done|]. rewrite Hp5. case_decide; [by subst|].
    by rewrite Hp4, decide_False, Hp3, decide_False, Hp1, decide_False.
Qed.

(** The writes of [install_trans], for log blocks from the [k]th on. *)
Fixpoint install_writes (v : Z -> bytes) (start : Z) (k : Z) (l : list Z) : list (Z * bytes) :=
  match l with
  | [] => []
  | b :: l => (b, v (start + k + 1)) :: install_writes v start (k + 1) l
  end.

Definition apply_writes (ws : list (Z * bytes)) (v : Z -> bytes) : Z -> bytes :=
  foldl (fun v w => fupd v w.1 w.2) v ws.

Record install_post (s : kst) (k : Z) (l : list Z) (s' : kst) : Prop := {
  ip_frame : bframe s s';
  ip_ok : bio_ok s';
  ip_disk : k_disk s' = replay (install_writes (lview s) (lg_start (k_log s)) k l) (k_disk s);
  ip_hist : k_hist s' = k_hist s ++ install_writes (lview s) (lg_start (k_log s)) k l;
  ip_view : forall b, 0 <= b ->
    lview s' b = apply_writes (install_writes (lview s) (lg_start (k_log s)) k l) (lview s) b;
  ip_pin : forall b, pin s' b = if decide (b ∈ l) then None else pin s b
}.

Lemma install_writes_ext v v' start k l :
  (forall j, k <= j -> v' (start + j + 1) = v (start + j + 1)) ->
  install_writes v' start k l = install_writes v start k l.
Proof.
  revert k. induction l as [|b l IH]; intros k H; [done|]. cbn.
  rewrite H by lia. f_equal. apply IH. intros. apply H. lia.
Qed.

Lemma apply_writes_ext ws v v' b :
  (forall b, 0 <= b -> v b = v' b) -> 0 <= b -> apply_writes ws v b = apply_writes ws v' b.
Proof.
  revert v v'. induction ws as [|w ws IH]; intros v v' H Hb; [auto|]. cbn.
  apply IH; [|done]. intros c Hc. unfold fupd. case_decide; auto.
Qed.

(** The situation in which [install_trans] is called: no log block is pinned,
    no home sector of the list is held, and there are buffers to work with. *)
Record can_install (s : kst) (l : list Z) (P : gset Z) : Prop := {
  ci_ok : bio_ok s;
  ci_quiet : quiet s;
  ci_geo : log_geo s;
  ci_nodup : NoDup l;
  ci_home : forall b, b ∈ l -> home s b /\ pbusy (pin s b) = false;
  ci_log : forall j, 0 <= j < lg_size (k_log s) -> pin s (lg_start (k_log s) + j) = None;
  ci_pins : forall b, pin s b <> None -> b ∈ P;
  ci_size : (size P < NBUF)%nat;
  ci_room : forall b, b ∈ l -> pin s b = None -> (size P + 1 < NBUF)%nat
}.

Lemma can_install_step s b l P s' d :
  can_install s (b :: l) P -> put_abs s b d s' -> can_install s' l P.
Proof.
  intros [] []. pose proof (bframe_log _ _ pa_frame) as Hlog. apply NoDup_cons in ci_nodup0 as [Hb Hnd].
  split; unfold home in *; rewrite ?Hlog; try done.
  - by eapply bframe_quiet.
  - eapply txn_geo_ext; [done|by apply bframe_disksize|done].
  - intros x Hx. rewrite pa_pin, decide_False by set_solver. apply ci_home0. set_solver.
  - intros j Hj. rewrite pa_pin. case_decide; auto.
  - intros x. rewrite pa_pin. case_decide; [done|]. auto.
  - intros x Hx. rewrite pa_pin, decide_False by set_solver. apply ci_room0. set_solver.
Qed.

Lemma install_post_cons s k b l s1 s' :
  0 <= k -> home s b -> log_geo s -> NoDup (b :: l) ->
  put_abs s b (lview s (lg_start (k_log s) + k + 1)) s1 ->
  install_post s1 (k + 1) l s' -> install_post s k (b :: l) s'.
Proof.
  intros Hk Hb Hg Hnd H1 []. pose proof (bframe_log _ _ (pa_frame _ _ _ _ H1)) as Hlog.
  destruct H1. unfold home in Hb. destruct Hg. rewrite Hlog in *.
  assert (install_writes (lview s1) (lg_start (k_log s)) (k + 1) l =
          install_writes (lview s) (lg_start (k_log s)) (k + 1) l) as E.
  { apply install_writes_ext. intros j Hj. by rewrite pa_view, decide_False by lia. }
  rewrite E in *. apply NoDup_cons in Hnd as [Hbl _]. split; cbn; try done.
  - by etrans.
  - by rewrite ip_disk0, pa_disk.
  - by rewrite ip_hist0, pa_hist, <- app_assoc.
  - intros x Hx. rewrite ip_view0 by done. apply apply_writes_ext; [|done]. intros c Hc.
    unfold fupd. cbn. rewrite pa_view by done. by repeat case_decide.
  - intros x. rewrite ip_pin0, pa_pin. repeat case_decide; subst; set_solver.
Qed.

Lemma install_loop_spec s n k (P : gset Z) :
  can_install s (slice (lh_sector (k_log s)) k n) P ->
  (k + n <= LOGSIZE)%nat -> Z.of_nat (k + n) <= lg_size (k_log s) - 1 ->
  wp (install_loop n (Z.of_nat k)) (fun _ s' =>
    install_post s (Z.of_nat k) (slice (lh_sector (k_log s)) k n) s') s.
Proof.
  revert s k. induction n as [|n IH]; intros s k Hc Hkn Hks; cbn [install_loop].
  - apply wp_ret. unfold slice. rewrite take_0. destruct Hc. split; try done.
    by rewrite app_nil_r.
  - pose proof (ci_geo _ _ _ Hc) as Hg. pose proof Hg as [Hd Hst Hsz Hdk Hds Hlen Hn Hns].
    assert (slice (lh_sector (k_log s)) k (S n) =
              lh_sector (k_log s) !!! k :: slice (lh_sector (k_log s)) (S k) n) as Hsl.
    { unfold slice. by rewrite (drop_S _ (lh_sector (k_log s) !!! k))
        by (apply list_lookup_lookup_total_lt; lia). }
    rewrite Hsl in *. set (b := lh_sector (k_log s) !!! k) in *.
    destruct (ci_home _ _ _ Hc b) as [Hb Hpb]; [set_solver|].
    pose proof (home_range _ _ Hg Hb) as Hbr. pose proof (home_u32 _ _ Hg Hb) as [Hbu _].
    unfold getlog. kstep. rewrite Hd, (u32_small ROOTDEV), u32_small by (done || lia).
    set (L := lg_start (k_log s) + Z.of_nat k + 1).
    assert (pin s L = None) as HpL.
    { unfold L. rewrite <- Z.add_assoc. apply (ci_log _ _ _ Hc). lia. }
    eapply wp_mono.
    { apply (wp_bread s L P); [apply Hc|apply Hc|lia|by rewrite HpL|apply Hc|intros _; apply Hc]. }
    intros l s1 H1. pose proof (bframe_log _ _ (ra_frame _ _ _ _ H1)) as Hl1.
    kstep1. apply wp_lh_get; [lia|]. rewrite Hl1. fold b. rewrite Hbu.
    assert (L <> b) as HLb by (unfold home in Hb; lia).
    assert (0 <= L < k_disksize s) as HLr by lia.
    apply (wp_install s L b l s1 P); try done; try apply Hc; [set_solver|].
    intros s2 H2. replace (Z.of_nat k + 1) with (Z.of_nat (S k)) by lia.
    pose proof (bframe_log _ _ (pa_frame _ _ _ _ H2)) as Hl2.
    eapply wp_mono; [apply (IH s2 (S k)); rewrite ?Hl2; [by eapply can_install_step|lia..]|].
    intros [] s3 H3. rewrite Hl2 in H3. replace (Z.of_nat (S k)) with (Z.of_nat k + 1) in H3 by lia.
    eapply install_post_cons; try done; [lia|apply Hc].
Qed.

(** ** The effect of a run of [install_trans] and [write_head] *)

Record kframe (s s' : kst) : Prop := {
  kf_ctx : ctx s s';
  kf_procs : procs_same s s';
  kf_rest : s' = set_cpu (fun _ => k_cpu s') (set_locks (fun _ => k_locks s')
         (set_procs (fun _ => k_procs s') (set_bc (fun _ => k_bc s')
           (set_disk (fun _ => k_disk s') (set_hist (fun _ => k_hist s')
             (set_log (fun _ => k_log s') s))))))
}.

#[export] Instance kframe_preorder : PreOrder kframe.
Proof.
  split; [intros s; split; [done..|by destruct s]|].
  intros s1 s2 s3 [? ? E1] [? ? E2]. split; [by etrans..|]. rewrite E2, E1 at 1. done.
Qed.

Lemma bframe_kframe s s' : bframe s s' -> kframe s s'.
Proof. intros [? E ?]. split; [done..|]. unfold bio_frame in E. by rewrite E. Qed.

Lemma kframe_set_log f s : kframe s (set_log f s).
Proof. split; try done. Qed.

Lemma kframe_disksize s s' : kframe s s' -> k_disksize s' = k_disksize s.
Proof. intros [_ _ E]. by rewrite E. Qed.

(** The writes [ws] have been made; the pins of [l] are gone. *)
Record wrote (s : kst) (ws : list (Z * bytes)) (l : list Z) (s' : kst) : Prop := {
  wr_frame : kframe s s';
  wr_ok : bio_ok s';
  wr_disk : k_disk s' = replay ws (k_disk s);
  wr_hist : k_hist s' = k_hist s ++ ws;
  wr_view : forall b, 0 <= b -> lview s' b = apply_writes ws (lview s) b;
  wr_pin : forall b, pin s' b = if decide (b ∈ l) then None else pin s b
}.

Lemma apply_writes_app ws ws' v : apply_writes (ws ++ ws') v = apply_writes ws' (apply_writes ws v).
Proof. apply foldl_app. Qed.

Lemma wrote_trans s1 s2 s3 ws ws' l l' :
  wrote s1 ws l s2 -> wrote s2 ws' l' s3 -> wrote s1 (ws ++ ws') (l ++ l') s3.
Proof.
  intros [] []. split; try done.
  - by etrans.
  - by rewrite wr_disk1, wr_disk0, replay_app.
  - by rewrite wr_hist1, wr_hist0, app_assoc.
  - intros b Hb. rewrite wr_view1, apply_writes_app by done. by apply apply_writes_ext.
  - intros b. rewrite wr_pin1, wr_pin0. repeat case_decide; set_solver.
Qed.

Lemma wrote_nil s s' :
  kframe s s' -> k_bc s' = k_bc s -> k_disk s' = k_disk s -> k_hist s' = k_hist s ->
  bio_ok s -> wrote s [] [] s'.
Proof.
  intros Hf H1 H2 H3 Hok. split; try done.
  - eapply bio_ok_ext; [done..|by apply kframe_disksize|done].
  - by rewrite app_nil_r.
  - intros b _. by apply lview_ext.
  - intros b. by apply pin_ext_bc.
Qed.

Lemma put_wrote s b d s' : pin s b = None -> put_abs s b d s' -> wrote s [(b, d)] [] s'.
Proof.
  intros Hp []. split; try done.
  - by apply bframe_kframe.
  - intros x. rewrite pa_pin. case_decide; [by subst|]. done.
Qed.

Lemma install_wrote s k l s' : install_post s k l s' ->
  wrote s (install_writes (lview s) (lg_start (k_log s)) k l) l s'.
Proof. intros []. split; try done. by apply bframe_kframe. Qed.

Definition redo_writes (v : Z -> bytes) (start : Z) (l : list Z) : list (Z * bytes) :=
  install_writes v start 0 l ++ [(start, head_block (v start) [])].

Lemma apply_writes_nil v : apply_writes [] v = v.
Proof. done. Qed.

Lemma apply_writes_cons w ws v : apply_writes (w :: ws) v = apply_writes ws (fupd v w.1 w.2).
Proof. done. Qed.

Lemma apply_install_other v v0 start k l b :
  b ∉ l -> apply_writes (install_writes v start k l) v0 b = v0 b.
Proof.
  revert k v0. induction l as [|x l IH]; intros k v0 Hb; [done|].
  cbn [install_writes]. rewrite apply_writes_cons, IH by set_solver. apply fupd_ne. set_solver.
Qed.

Lemma apply_install_at v v0 start k l j b :
  NoDup l -> l !! j = Some b ->
  apply_writes (install_writes v start k l) v0 b = v (start + (k + Z.of_nat j) + 1).
Proof.
  revert k v0 j. induction l as [|x l IH]; intros k v0 j Hnd Hj; [done|].
  apply NoDup_cons in Hnd as [Hx Hnd]. destruct j as [|j]; cbn in Hj;
    cbn [install_writes]; rewrite apply_writes_cons.
  - injection Hj as ->. rewrite apply_install_other by done. rewrite fupd_eq. cbn [snd]. f_equal. lia.
  - rewrite (IH (k + 1) _ j) by done. f_equal. lia.
Qed.

(** [install_trans(); log.lh.n = 0; write_head()], the end of both
    [commit_trans] and [recover_from_log]. *)
Lemma redo_spec s (P : gset Z) :
  can_install s (logged s) P ->
  wp (install_trans ;; setlog (set_n (fun _ => 0)) ;; write_head) (fun _ s' =>
    wrote s (redo_writes (lview s) (lg_start (k_log s)) (logged s)) (logged s) s' /\
    k_log s' = set_n (fun _ => 0) (k_log s)) s.
Proof.
  intros Hc. pose proof (ci_geo _ _ _ Hc) as Hg. pose proof Hg as [Hd Hst Hsz Hdk Hds Hlen Hn Hns].
  assert (logged s = slice (lh_sector (k_log s)) 0 (Z.to_nat (lh_n (k_log s)))) as Hls.
  { unfold logged, slice. by rewrite drop_0. }
  unfold install_trans, getlog. kstep. eapply wp_mono.
  { apply (install_loop_spec s _ 0 P); [by rewrite <- Hls|unfold LOGSIZE in *; lia..]. }
  intros [] s1 H1. rewrite <- Hls in H1. pose proof (bframe_log _ _ (ip_frame _ _ _ _ H1)) as Hl1.
  pose proof (ip_pin _ _ _ _ H1) as Hp1. pose proof (ip_view _ _ _ _ H1) as Hv1.
  pose proof (bframe_quiet _ _ (ip_frame _ _ _ _ H1) (ci_quiet _ _ _ Hc)) as Hq1.
  pose proof (bframe_disksize _ _ (ip_frame _ _ _ _ H1)) as Hds1.
  apply install_wrote in H1. unfold setlog. kstep. set (s2 := set_log _ s1).
  assert (wrote s1 [] [] s2) as H2 by (apply wrote_nil; try done; apply H1).
  pose proof (wrote_trans _ _ _ _ _ _ _ H1 H2) as H12. rewrite !app_nil_r in H12.
  assert (k_log s2 = set_n (fun _ => 0) (k_log s)) as Hl2 by (unfold s2; cbn; by rewrite Hl1).
  assert (lg_start (k_log s) ∉ logged s) as Hns2.
  { intros Hin. apply (ci_home _ _ _ Hc) in Hin as [Hin _]. unfold home in Hin. lia. }
  assert (pin s2 (lg_start (k_log s)) = None) as Hps.
  { rewrite (wr_pin _ _ _ _ H12), decide_False by done.
    rewrite <- (Z.add_0_r (lg_start _)). apply (ci_log _ _ _ Hc). lia. }
  eapply wp_mono.
  { apply (write_head_spec s2 P); rewrite ?Hl2; cbn; try done.
    - apply H12.
    - by apply (quiet_ext s1).
    - split; rewrite ?Hl2; cbn; try done; lia.
    - intros b. rewrite (wr_pin _ _ _ _ H12). case_decide; [done|]. apply Hc.
    - apply Hc. }
  intros [] s3 H3. pose proof (bframe_log _ _ (pa_frame _ _ _ _ H3)) as Hl3.
  rewrite Hl2 in H3. cbn [set_n lg_start] in H3. unfold logged at 1 in H3. rewrite Hl2 in H3. cbn in H3.
  rewrite (wr_view _ _ _ _ H12), apply_install_other in H3 by done.
  split; [|by rewrite Hl3].
  pose proof (wrote_trans _ _ _ _ _ _ _ H12 (put_wrote _ _ _ _ Hps H3)) as H13.
  by rewrite app_nil_r in H13.
Qed.

(** ** Crash points

    A disk as a function of the sector; [recover_view] is what a boot makes
    of it. *)

Definition view_of (d : list bytes) (b : Z) : bytes := d !!! Z.to_nat b.

Definition recover_view (start : Z) (v : Z -> bytes) : Z -> bytes :=
  apply_writes (redo_writes v start (head_list (v start))) v.

(** The header of the log is one that a boot can act on. *)
Record head_ok (start size : Z) (v : Z -> bytes) : Prop := {
  ho_n : 0 <= hd_n (v start) <= Z.of_nat LOGSIZE;
  ho_size : hd_n (v start) <= size - 1;
  ho_nodup : NoDup (head_list (v start));
  ho_home : forall b, b ∈ head_list (v start) -> 0 <= b < start
}.

Definition commit_writes (v : Z -> bytes) (start : Z) (l : list Z) : list (Z * bytes) :=
  (start, head_block (v start) l) ::
  install_writes v start 0 l ++ [(start, head_block (head_block (v start) l) [])].

Lemma replay_length ws d : length (replay ws d) = length d.
Proof. revert d. induction ws as [|w ws IH]; intros d; [done|]. rewrite replay_cons, IH. by len. Qed.

Lemma replay_view ws d b :
  Forall (fun w => 0 <= w.1 < Z.of_nat (length d)) ws -> 0 <= b ->
  view_of (replay ws d) b = apply_writes ws (view_of d) b.
Proof.
  revert d. induction ws as [|w ws IH]; intros d Hw Hb; [done|].
  apply Forall_cons in Hw as [Hw Hws]. rewrite replay_cons, IH; [|by len|done].
  rewrite apply_writes_cons. apply apply_writes_ext; [|done]. intros c Hc. unfold view_of, fupd. case_decide; subst.
  - apply list_lookup_total_insert_eq. lia.
  - apply list_lookup_total_insert_ne. lia.
Qed.

Lemma apply_writes_other ws v b :
  Forall (fun w => w.1 <> b) ws -> apply_writes ws v b = v b.
Proof.
  revert v. induction ws as [|w ws IH]; intros v Hw; [done|].
  apply Forall_cons in Hw as [Hw Hws]. rewrite apply_writes_cons, IH by done. by apply fupd_ne.
Qed.

Lemma install_writes_take v start k l m :
  take m (install_writes v start k l) = install_writes v start k (take m l).
Proof.
  revert k m. induction l as [|b l IH]; intros k [|m]; cbn; [done..|]. by rewrite IH.
Qed.

Lemma install_writes_length v start k l : length (install_writes v start k l) = length l.
Proof. revert k. induction l as [|b l IH]; intros k; cbn; [done|]. by rewrite IH. Qed.

Lemma hd_n_zero d : hd_n d = 0 -> head_list d = [].
Proof. unfold head_list. by intros ->. Qed.

Lemma recover_empty start v b :
  hd_n (v start) = 0 -> b <> start -> recover_view start v b = v b.
Proof.
  intros Hz Hb. unfold recover_view, redo_writes. rewrite hd_n_zero by done. cbn [install_writes app].
  by rewrite apply_writes_cons, apply_writes_nil, fupd_ne.
Qed.

Lemma head_empty_ok start size v : 1 <= size -> hd_n (v start) = 0 -> head_ok start size v.
Proof.
  intros Hs Hz. split; rewrite ?Hz, ?hd_n_zero by done; try lia; [constructor|set_solver].
Qed.

Lemma head_erased d : length d = 512%nat -> hd_n (head_block d []) = 0.
Proof. intros Hd. rewrite head_block_n; [done|done|cbn; lia]. Qed.

Lemma elem_of_take_l {A} m (l : list A) b : b ∈ take m l -> b ∈ l.
Proof. intros Hb. rewrite <- (take_drop m l). apply elem_of_app. by left. Qed.

Section crash.
Context (start size : Z) (v : Z -> bytes) (l : list Z).
Hypothesis Hstart : 0 <= start.
Hypothesis Hsmall : start < 2 ^ 31.
Hypothesis Hsize : 1 <= size.
Hypothesis Hhead : length (v start) = 512%nat.
Hypothesis Hempty : hd_n (v start) = 0.
Hypothesis Hl : (length l <= LOGSIZE)%nat.
Hypothesis Hls : Z.of_nat (length l) <= size - 1.
Hypothesis Hnd : NoDup l.
Hypothesis Hhome : forall b, b ∈ l -> 0 <= b < start.

(** The contents the transaction gives to the home sectors. *)
Definition new_view (b : Z) : bytes := apply_writes (install_writes v start 0 l) v b.

(** The disk after the first write of a commit and [m] of the others. *)
Definition mid_view (m : nat) : Z -> bytes :=
  apply_writes (install_writes v start 0 (take m l)) (fupd v start (head_block (v start) l)).

Lemma mid_start m : mid_view m start = head_block (v start) l.
Proof.
  unfold mid_view. rewrite apply_install_other; [by rewrite fupd_eq|].
  intros Hin%elem_of_take_l%Hhome. lia.
Qed.

Lemma mid_log m j : 0 <= j -> mid_view m (start + j + 1) = v (start + j + 1).
Proof.
  intros Hj. unfold mid_view. rewrite apply_install_other, fupd_ne; [done|lia|].
  intros Hin%elem_of_take_l%Hhome. lia.
Qed.

Lemma mid_other m b : b ∉ l -> b <> start -> mid_view m b = v b.
Proof.
  intros Hb Hs. unfold mid_view. rewrite apply_install_other, fupd_ne; [done..|].
  by intros Hin%elem_of_take_l.
Qed.

Lemma l_small b : b ∈ l -> 0 <= b < 2 ^ 31.
Proof. intros Hb%Hhome. lia. Qed.

Lemma mid_ok m : head_ok start size (mid_view m).
Proof.
  pose proof l_small. split; rewrite mid_start, ?head_block_list, ?head_block_n by done; try done; lia.
Qed.

Lemma recover_mid m b : 0 <= b < start -> recover_view start (mid_view m) b = new_view b.
Proof.
  intros Hb. pose proof l_small. unfold recover_view, redo_writes, new_view.
  rewrite apply_writes_app, apply_writes_cons. cbn [fst snd]. rewrite mid_start, head_block_list by done.
  rewrite apply_writes_nil, fupd_ne by (done || lia).
  destruct (decide (b ∈ l)) as [Hin|Hin].
  - apply list_elem_of_lookup_1 in Hin as [j Hj].
    rewrite !(apply_install_at _ _ _ _ _ j) by done. apply mid_log. lia.
  - rewrite !apply_install_other by done. apply mid_other; [done|lia].
Qed.

(** After any number of the writes of a commit the header is well formed,
    and recovery gives the old contents (before the first write) or the new. *)
Lemma commit_crash m :
  let v' := apply_writes (take m (commit_writes v start l)) v in
  head_ok start size v' /\
  ((m = 0%nat /\ forall b, 0 <= b < start -> recover_view start v' b = v b) \/
   (forall b, 0 <= b < start -> recover_view start v' b = new_view b)).
Proof.
  destruct m as [|m]; cbn zeta.
  { split; [by apply head_empty_ok|]. left. split; [done|]. intros b Hb. apply recover_empty; [done|lia]. }
  unfold commit_writes. rewrite firstn_cons. change (firstn m) with (@take (Z * bytes) m).
  rewrite take_app, apply_writes_cons, apply_writes_app, install_writes_take, install_writes_length.
  cbn [fst snd]. fold (mid_view m). destruct (decide (m <= length l)%nat) as [Hm|Hm].
  { replace (m - length l)%nat with 0%nat by lia. cbn.
    split; [apply mid_ok|]. right. apply recover_mid. }
  replace (m - length l)%nat with (S (m - length l - 1)) by lia. cbn [firstn].
  rewrite firstn_nil, apply_writes_cons, apply_writes_nil by done. cbn [fst snd].
  set (v' := fupd _ _ _).
  assert (hd_n (v' start) = 0) as Hz.
  { unfold v'. rewrite fupd_eq. apply head_erased. by apply head_block_length. }
  split; [by apply head_empty_ok|]. right. intros b Hb. rewrite recover_empty by (done || lia).
  unfold v'. rewrite fupd_ne by lia. unfold mid_view, new_view. rewrite take_ge by lia.
  destruct (decide (b ∈ l)) as [Hin|Hin].
  - apply list_elem_of_lookup_1 in Hin as [j Hj]. by rewrite !(apply_install_at _ _ _ _ _ j).
  - by rewrite !apply_install_other, fupd_ne by (done || lia).
Qed.
End crash.

(** ** [commit_trans] *)

(** Leaving the transaction: the tail of [commit_trans]. *)
Lemma commit_tail_spec s :
  bio_ok s -> quiet s -> k_locks s !! LLog = None ->
  wp (acquire LLog ;; setlog (set_busy (fun _ => 0)) ;; wakeup CLog ;; release LLog)
    (fun _ s' => wrote s [] [] s' /\ k_log s' = set_busy (fun _ => 0) (k_log s)) s.
Proof.
  intros Hok [] Hlk. kstep. apply wp_acquire; [done|]. unfold setlog. kstep.
  set (s1 := set_log _ (acquired LLog s)).
  assert (ctx (acquired LLog s) s1) as Hc1 by (by apply ctx_same).
  apply wp_wakeup.
  - eapply ctx_cpu_ok; [exact Hc1|]. by apply cpu_ok_acquired.
  - cbn. by rewrite lookup_insert_ne.
  - intros s2 Hc2 Hf2 Hps2 _. apply (wp_release_ctx _ _ s); [done..|by etrans|]. intros Hc3.
    assert (k_log s2 = k_log s1 /\ k_bc s2 = k_bc s1 /\ k_disk s2 = k_disk s1 /\ k_hist s2 = k_hist s1)
      as (H1 & H2 & H3 & H4) by (by rewrite Hf2).
    split; [|by cbn; rewrite H1].
    apply wrote_nil; cbn; rewrite ?H2, ?H3, ?H4; try done.
    split; [done|done|]. unfold sched_frame in Hf2. by rewrite Hf2.
Qed.

Lemma txn_can_install s s1 d :
  txn s ∅ ∅ -> put_abs s (lg_start (k_log s)) d s1 -> lh_n (k_log s) < Z.of_nat NBUF ->
  can_install s1 (logged s1) (list_to_set (logged s)).
Proof.
  intros Htx H1 Hn. pose proof H1 as [Hf Hok _ _ _ Hp]. pose proof (bframe_log _ _ Hf) as Hl.
  pose proof Htx as []. split; unfold home in *; rewrite ?(logged_ext _ _ Hl), ?Hl; try done.
  - by eapply bframe_quiet.
  - eapply txn_geo_ext; [done|by apply bframe_disksize|done].
  - intros b Hb. split; [auto|]. rewrite Hp. case_decide; [done|]. by rewrite tx_held.
  - intros j Hj. rewrite Hp. case_decide; [done|]. by eapply txn_logblock.
  - intros b Hb. rewrite Hp in Hb. case_decide; [done|].
    apply (txn_room _ _ _ _ Htx) in Hb. set_solver.
  - rewrite size_list_to_set, logged_length by done. destruct tx_geo. lia.
  - intros b Hb Hpn. exfalso. pose proof (tx_dirty b) as E. rewrite bool_decide_true in E by done.
    rewrite Hp in Hpn. case_decide as Hbs; [|by rewrite Hpn in E].
    apply tx_home in Hb. lia.
Qed.

Lemma commit_write_steps s :
  txn s ∅ ∅ -> lh_n (k_log s) < Z.of_nat NBUF ->
  wp (write_head ;; install_trans ;; setlog (set_n (fun _ => 0)) ;; write_head) (fun _ s' =>
    wrote s (commit_writes (lview s) (lg_start (k_log s)) (logged s)) (logged s) s' /\
    k_log s' = set_n (fun _ => 0) (k_log s)) s.
Proof.
  intros Htx Hn. pose proof Htx as [Hok Hq Hg]. pose proof Hg as [Hd Hst Hsz Hdk Hds Hlen Hn0 Hns].
  assert (pin s (lg_start (k_log s)) = None) as Hp.
  { rewrite <- (Z.add_0_r (lg_start _)). eapply txn_logblock; [done|lia]. }
  kstep1. eapply wp_mono.
  { apply (write_head_spec s (list_to_set (logged s))); try done.
    - intros b Hb. apply (txn_room _ _ _ _ Htx) in Hb. set_solver.
    - rewrite size_list_to_set, logged_length by (done || apply Htx). lia. }
  intros [] s1 H1. pose proof (bframe_log _ _ (pa_frame _ _ _ _ H1)) as Hl1.
  eapply wp_mono; [apply (redo_spec s1 (list_to_set (logged s))); by eapply txn_can_install|].
  intros [] s2 [H2 Hl2]. rewrite Hl1, (logged_ext _ _ Hl1) in *. split; [|done].
  pose proof (pa_view _ _ _ _ H1) as Hv1.
  pose proof (wrote_trans _ _ _ _ _ _ _ (put_wrote _ _ _ _ Hp H1) H2) as H12.
  unfold redo_writes in H12. rewrite (install_writes_ext (lview s)) in H12.
  - rewrite Hv1, decide_True in H12 by (done || lia). done.
  - intros j Hj. by rewrite Hv1, decide_False by lia.
Qed.

Lemma commit_steps s :
  txn s ∅ ∅ -> k_locks s !! LLog = None -> lh_n (k_log s) < Z.of_nat NBUF ->
  wp commit_trans (fun _ s' =>
    wrote s (if 0 <? lh_n (k_log s) then commit_writes (lview s) (lg_start (k_log s)) (logged s) else [])
      (logged s) s' /\
    k_log s' = set_busy (fun _ => 0) (set_n (fun _ => 0) (k_log s))) s.
Proof.
  intros Htx Hlk Hn. pose proof (lg_n _ (tx_geo _ _ _ Htx)) as Hn0.
  unfold commit_trans, getlog. kstep1. kstep1. kstep1.
  destruct (Z.ltb_spec 0 (lh_n (k_log s))) as [Hpos|Hpos].
  - eapply wp_mono; [by apply commit_write_steps|]. intros [] s1 [H1 Hl1].
    eapply wp_mono; [apply commit_tail_spec|].
    + apply H1.
    + eapply ctx_quiet; [apply H1|apply Htx].
    + by rewrite (ctx_locks _ _ (kf_ctx _ _ (wr_frame _ _ _ _ H1))).
    + intros [] s2 [H2 Hl2]. split; [|by rewrite Hl2, Hl1].
      pose proof (wrote_trans _ _ _ _ _ _ _ H1 H2) as H12. by rewrite !app_nil_r in H12.
  - apply wp_ret. eapply wp_mono; [apply commit_tail_spec; try done; apply Htx|].
    intros [] s2 [H2 Hl2]. assert (lh_n (k_log s) = 0) as E by lia.
    assert (logged s = []) as -> by (unfold logged; by rewrite E). split; [done|].
    rewrite Hl2. destruct (k_log s). cbn in E. by subst.
Qed.

Section committed.
Context (s : kst).
Hypothesis Htx : txn s ∅ ∅.
Let start := lg_start (k_log s).

Lemma log_block_view j : (j < length (logged s))%nat ->
  lview s (start + Z.of_nat j + 1) = dsk s (start + Z.of_nat j + 1).
Proof.
  intros Hj. pose proof Htx as []. pose proof tx_geo as []. rewrite logged_length in Hj by done.
  apply lview_clean; [done|]. unfold start. rewrite <- Z.add_assoc. eapply txn_logblock; [done|lia].
Qed.

Lemma head_view : lview s start = dsk s start.
Proof.
  pose proof Htx as []. pose proof tx_geo as []. apply lview_clean; [done|].
  unfold start. rewrite <- (Z.add_0_r (lg_start _)). eapply txn_logblock; [done|lia].
Qed.

(** The log blocks hold the contents of the logged sectors. *)
Lemma new_view_txn v b :
  (forall x, home s x -> x ∉ logged s -> v x = lview s x) ->
  (forall j, (j < length (logged s))%nat ->
     v (start + Z.of_nat j + 1) = dsk s (start + Z.of_nat j + 1)) ->
  home s b -> new_view start v (logged s) b = lview s b.
Proof.
  intros Hv Hvl Hb. pose proof Htx as []. unfold new_view. destruct (decide (b ∈ logged s)) as [Hin|Hin].
  - apply list_elem_of_lookup_1 in Hin as [j Hj]. rewrite (apply_install_at _ _ _ _ _ j) by done.
    rewrite Z.add_0_l, Hvl by (by eapply lookup_lt_Some). by apply tx_log.
  - rewrite apply_install_other by done. auto.
Qed.

Lemma install_writes_dsk k :
  install_writes (lview s) start (Z.of_nat k) (drop k (logged s)) =
  install_writes (dsk s) start (Z.of_nat k) (drop k (logged s)).
Proof.
  remember (length (logged s) - k)%nat as n eqn:Hn. revert k Hn.
  induction n as [|n IH]; intros k Hn; [by rewrite drop_ge by lia|].
  destruct (lookup_lt_is_Some_2 (logged s) k) as [x Hx]; [lia|].
  rewrite (drop_S _ x) by done. cbn [install_writes]. rewrite log_block_view by lia. f_equal.
  replace (Z.of_nat k + 1) with (Z.of_nat (S k)) by lia. apply IH. lia.
Qed.

Lemma commit_writes_dsk :
  commit_writes (lview s) start (logged s) = commit_writes (dsk s) start (logged s).
Proof.
  unfold commit_writes. rewrite head_view. pose proof (install_writes_dsk 0) as E.
  rewrite drop_0 in E. change (Z.of_nat 0) with 0 in E. by rewrite E.
Qed.

Lemma unpinned b : b ∉ logged s -> pin s b = None.
Proof.
  intros Hb. pose proof Htx as []. apply pin_None; [by rewrite tx_held|].
  by rewrite tx_dirty, bool_decide_false.
Qed.
End committed.

(** What a commit leaves: no transaction, an empty log, and the logical
    contents of every home sector on the disk. *)
Record commit_post (s s' : kst) : Prop := {
  cp_frame : kframe s s';
  cp_txn : txn s' ∅ ∅;
  cp_logged : logged s' = [];
  cp_busy : lg_busy (k_log s') = 0;
  cp_view : forall b, home s b -> lview s' b = lview s b;
  cp_disk : forall b, home s b -> dsk s' b = lview s b
}.

Lemma apply_commit_home s b :
  txn s ∅ ∅ -> home s b ->
  apply_writes (commit_writes (lview s) (lg_start (k_log s)) (logged s)) (lview s) b = lview s b.
Proof.
  intros Htx Hb. unfold commit_writes.
  rewrite apply_writes_cons, apply_writes_app, apply_writes_cons, apply_writes_nil.
  unfold home in Hb. cbn [fst snd]. rewrite fupd_ne by lia.
  destruct (decide (b ∈ logged s)) as [Hin|Hin].
  - pose proof Hin as [j Hj]%list_elem_of_lookup_1. pose proof (tx_nodup _ _ _ Htx).
    rewrite (apply_install_at _ _ _ _ _ j), Z.add_0_l by done.
    rewrite log_block_view by (done || by eapply lookup_lt_Some).
    apply (tx_log _ _ _ Htx); [done|set_solver].
  - by rewrite apply_install_other, fupd_ne by (done || lia).
Qed.

Lemma commit_wrote_post s s' :
  txn s ∅ ∅ ->
  wrote s (if 0 <? lh_n (k_log s) then commit_writes (lview s) (lg_start (k_log s)) (logged s) else [])
    (logged s) s' ->
  k_log s' = set_busy (fun _ => 0) (set_n (fun _ => 0) (k_log s)) ->
  commit_post s s'.
Proof.
  intros Htx [Hf Hok Hdk Hhi Hv Hp] Hl. pose proof Htx as []. pose proof tx_geo as [].
  assert (forall b, pin s' b = None) as Hp0.
  { intros b. rewrite Hp. case_decide; [done|]. by apply unpinned. }
  assert (forall b, lview s' b = dsk s' b) as Hcl by (intros b; by apply lview_clean).
  assert (logged s' = []) as Hlg by (unfold logged; by rewrite Hl).
  assert (forall b, home s b -> lview s' b = lview s b) as Hvw.
  { intros b Hb. rewrite Hv by (unfold home in Hb; lia). destruct (0 <? _); [|done].
    by apply apply_commit_home. }
  split; try done; [|by rewrite Hl|intros b Hb; rewrite <- Hcl; auto].
  assert (forall b : Z, b ∉ ([] : list Z)) as Hnil by (intros b; apply not_elem_of_nil).
  split; unfold home; rewrite ?Hlg, ?Hl; cbn; try done; try (intros b; by rewrite Hp0).
  - eapply ctx_quiet; [apply Hf|done].
  - pose proof (kframe_disksize _ _ Hf). split; rewrite ?Hl; cbn; try done; lia.
  - constructor.
  - by intros b ?%Hnil.
  - rewrite <- Hcl, Hv by done. destruct (0 <? _); [|by rewrite apply_writes_nil, head_view].
    unfold commit_writes. rewrite apply_writes_cons, apply_writes_app, apply_writes_cons, apply_writes_nil.
    cbn [fst snd]. rewrite fupd_eq. apply head_erased.
    apply head_block_length; [apply lview_length; [done|lia]|].
    rewrite logged_length by done. unfold LOGSIZE in *. lia.
Qed.

(** ** Recovery *)

(** The kernel after [binit], with the disk [d] and no transaction yet. *)
Record booted (s : kst) (d : list bytes) : Prop := {
  bt_ok : bio_ok s;
  bt_quiet : quiet s;
  bt_lock : k_locks s !! LLog = None;
  bt_pin : forall b, pin s b = None;
  bt_disk : k_disk s = d;
  bt_size : k_disksize s < 2 ^ 31;
  bt_lh : length (lh_sector (k_log s)) = LOGSIZE
}.

(** Releasing a buffer that was only read; the log may have changed since. *)
Lemma wp_unread s b i s1 f :
  bio_ok s -> quiet s -> pin s b = None -> 0 <= b -> bread_abs s b i s1 ->
  let s2 := set_log f s1 in
  wp (brelse i) (fun _ s' => wrote s [] [] s' /\ k_log s' = f (k_log s)) s2.
Proof.
  intros Hok Hq Hpb Hb H1 s2. pose proof (bframe_log _ _ (ra_frame _ _ _ _ H1)) as Hl1.
  destruct H1 as [Hf1 Hok1 Hdk1 Hhi1 Hv1 Hp1].
  assert (bio_ok s2) as Hok2 by (by apply (bio_ok_ext s1)).
  assert (pin s2 b = Some (Pin i true false)) as Hp2.
  { change (pin s2 b) with (pin s1 b). by rewrite Hp1, decide_True, Hpb. }
  eapply wp_mono.
  - apply (wp_brelse s2 i b); [done| |by eexists|].
    + apply (quiet_ext s1); [done..|]. by eapply bframe_quiet.
    + right. change (lview s1 b = dsk s1 b). rewrite Hv1, lview_clean by done.
      unfold dsk. by rewrite Hdk1.
  - intros [] s3 [Hf3 Hok3 Hdk3 Hhi3 Hv3 Hp3]. split.
    + split; try done.
      * etrans; [by apply bframe_kframe|]. etrans; [|by apply bframe_kframe]. apply kframe_set_log.
      * by rewrite Hdk3, <- Hdk1.
      * by rewrite Hhi3, app_nil_r, <- Hhi1.
      * intros c Hc. rewrite Hv3. by apply Hv1.
      * intros c. rewrite (decide_False (P := c ∈ [])) by apply not_elem_of_nil.
        rewrite Hp3, Hp2. change (pin s2 c) with (pin s1 c). cbn.
        case_decide; subst; [done|]. by rewrite Hp1, decide_False.
    + by rewrite (bframe_log _ _ Hf3), <- Hl1.
Qed.

Lemma readsb_spec s :
  bio_ok s -> quiet s -> (forall b, pin s b = None) -> 1 < k_disksize s ->
  wp (readsb ROOTDEV) (fun sb s' => sb = sb_dec (dsk s 1) /\ wrote s [] [] s' /\ k_log s' = k_log s) s.
Proof.
  intros Hok Hq Hp Hds. unfold readsb. kstep. rewrite u32_small by done. eapply wp_mono.
  { apply (wp_bread s 1 ∅); rewrite ?Hp; try done; [intros b; by rewrite Hp|]. rewrite size_empty. unfold NBUF. lia. }
  intros i s1 H1. kstep. eapply (wp_getdata _ _ 1).
  { eexists. by rewrite (ra_pin _ _ _ _ H1), decide_True. }
  kstep. rewrite (ra_view _ _ _ _ H1), lview_clean by (done || lia).
  replace s1 with (set_log (fun l => l) s1) by (by destruct s1).
  eapply wp_mono; [by eapply (wp_unread s 1)|]. intros [] s2 [H2 Hl2]. by kstep.
Qed.

Lemma read_head_loop_spec d n i s :
  0 <= i -> (Z.to_nat i + n <= LOGSIZE)%nat -> length (lh_sector (k_log s)) = LOGSIZE ->
  wp (read_head_loop d n i) (fun _ s' => exists secs, s' = set_log (set_lhsector (fun _ => secs)) s /\
    length secs = LOGSIZE /\
    (forall j, (j < Z.to_nat i)%nat -> secs !! j = lh_sector (k_log s) !! j) /\
    (forall j, (Z.to_nat i <= j < Z.to_nat i + n)%nat -> secs !! j = Some (hd_sector d (Z.of_nat j)))) s.
Proof.
  revert i s. induction n as [|n IH]; intros i s Hi Hn Hl; cbn [read_head_loop].
  - apply wp_ret. exists (lh_sector (k_log s)). split_and!; try done; [|lia]. by destruct s as [? ? ? ? ? ? ? ? ? []].
  - kstep. rewrite <- (Z2Nat.id i) at 1 by done. apply wp_lh_set; [lia|]. eapply wp_mono.
    { apply IH; [lia|lia|]. cbn. by len. }
    intros [] s' (secs & -> & Hlen & Hlo & Hhi). exists secs. split_and!; try done.
    + intros j Hj. rewrite Hlo by lia. cbn. apply list_lookup_insert_ne. lia.
    + intros j Hj. destruct (decide (j = Z.to_nat i)) as [->|].
      * rewrite Hlo by lia. cbn. rewrite list_lookup_insert_eq by (unfold LOGSIZE in *; lia).
        by rewrite Z2Nat.id.
      * apply Hhi. lia.
Qed.

Lemma head_list_take d secs :
  (Z.to_nat (hd_n d) <= length secs)%nat ->
  (forall j, (j < Z.to_nat (hd_n d))%nat -> secs !! j = Some (hd_sector d (Z.of_nat j))) ->
  take (Z.to_nat (hd_n d)) secs = head_list d.
Proof.
  intros Hl Hs. unfold head_list. apply list_eq. intros j. rewrite list_lookup_fmap.
  destruct (decide (j < Z.to_nat (hd_n d))%nat) as [Hj|Hj].
  - rewrite lookup_take, decide_True, lookup_seq_lt by done. by apply Hs.
  - rewrite lookup_seq_ge by lia. apply lookup_ge_None. rewrite length_take. lia.
Qed.

Lemma read_head_spec s start :
  bio_ok s -> quiet s -> (forall b, pin s b = None) ->
  lg_dev (k_log s) = ROOTDEV -> lg_start (k_log s) = start -> 0 <= start < k_disksize s ->
  k_disksize s < 2 ^ 31 -> length (lh_sector (k_log s)) = LOGSIZE ->
  0 <= hd_n (dsk s start) <= Z.of_nat LOGSIZE ->
  wp read_head (fun _ s' => wrote s [] [] s' /\ exists secs, length secs = LOGSIZE /\
    k_log s' = set_lhsector (fun _ => secs) (set_n (fun _ => hd_n (dsk s start)) (k_log s)) /\
    logged s' = head_list (dsk s start)) s.
Proof.
  intros Hok Hq Hp Hd Hst Hstr Hds Hlen Hn. unfold read_head, getlog. kstep.
  rewrite Hd, Hst, (u32_small ROOTDEV), u32_small by (done || lia). eapply wp_mono.
  { apply (wp_bread s start ∅); rewrite ?Hp; try done; [intros b; by rewrite Hp|].
    rewrite size_empty. unfold NBUF. lia. }
  intros i s1 H1. pose proof (bframe_log _ _ (ra_frame _ _ _ _ H1)) as Hl1. kstep.
  eapply (wp_getdata _ _ start).
  { eexists. by rewrite (ra_pin _ _ _ _ H1), decide_True. }
  rewrite (ra_view _ _ _ _ H1), lview_clean by (done || lia). unfold setlog. kstep.
  eapply wp_mono.
  { apply read_head_loop_spec; cbn; rewrite ?Hl1; [done|unfold LOGSIZE in *; lia|done]. }
  intros [] s2 (secs & -> & Hsl & _ & Hsj).
  eapply wp_mono; [apply (wp_unread s start i s1 (fun l => set_lhsector (fun _ => secs)
    (set_n (fun _ => hd_n (dsk s start)) l))); (done || lia)|].
  intros [] s3 [H3 Hl3]. split; [done|]. exists secs. split_and!; try done.
  unfold logged. rewrite Hl3. cbn. apply head_list_take.
  - unfold LOGSIZE in *. lia.
  - intros j Hj. apply Hsj. cbn. lia.
Qed.

(** What the disk must look like for a boot: the super block gives the
    geometry of the log, and the header is well formed. *)
Record sb_ok (start size : Z) (v : Z -> bytes) (disksize : Z) : Prop := {
  so_start : s32 (sb_size (sb_dec (v 1)) - sb_nlog (sb_dec (v 1))) = start;
  so_size : s32 (sb_nlog (sb_dec (v 1))) = size;
  so_low : 1 < start;
  so_one : 1 <= size;
  so_high : start + size <= disksize
}.

Record recovered (s : kst) (start size : Z) (s' : kst) : Prop := {
  rc_txn : txn s' ∅ ∅;
  rc_logged : logged s' = [];
  rc_start : lg_start (k_log s') = start;
  rc_size : lg_size (k_log s') = size;
  rc_hist : k_hist s' = k_hist s ++ redo_writes (dsk s) start (head_list (dsk s start));
  rc_disk : forall b, 0 <= b -> dsk s' b = recover_view start (dsk s) b
}.

Lemma wrote_nil_same s s' :
  wrote s [] [] s' -> kframe s s' /\ bio_ok s' /\ k_disk s' = k_disk s /\ k_hist s' = k_hist s /\
  (forall b, pin s' b = pin s b).
Proof.
  intros []. rewrite app_nil_r in *. by split_and!.
Qed.

Lemma recover_spec s start size :
  bio_ok s -> quiet s -> (forall b, pin s b = None) ->
  lg_dev (k_log s) = ROOTDEV -> lg_start (k_log s) = start -> lg_size (k_log s) = size ->
  0 <= start -> 1 <= size -> start + size <= k_disksize s -> k_disksize s < 2 ^ 31 ->
  length (lh_sector (k_log s)) = LOGSIZE -> head_ok start size (dsk s) ->
  wp recover_from_log (fun _ s' => recovered s start size s') s.
Proof.
  intros Hok Hq Hp Hd Hst Hsz H0 H1 Hhi Hds Hlen []. unfold recover_from_log. kstep1.
  eapply wp_mono; [apply (read_head_spec s start); (done || lia)|].
  intros [] s1 (Hw1 & secs & Hsl & Hl1 & Hlg1).
  pose proof (wrote_nil_same _ _ Hw1) as (Hf1 & Hok1 & Hdk1 & Hhi1 & Hp1).
  assert (lg_start (k_log s1) = start /\ lg_size (k_log s1) = size) as [Hst1 Hsz1] by (by rewrite Hl1).
  assert (log_geo s1) as Hg1.
  { pose proof (kframe_disksize _ _ Hf1). split; rewrite ?Hl1; cbn; try done; lia. }
  assert (quiet s1) as Hq1 by (eapply ctx_quiet; [apply Hf1|done]).
  assert (forall b, lview s1 b = dsk s b) as Hv1.
  { intros b. rewrite lview_clean; [|done|by rewrite Hp1]. unfold dsk. by rewrite Hdk1. }
  eapply wp_mono.
  { apply (redo_spec s1 ∅). split; rewrite ?Hlg1; try done; try (intros; by rewrite Hp1).
    - intros b Hb. unfold home. rewrite Hst1, Hp1, Hp. split; [auto|done].
    - intros b. by rewrite Hp1, Hp.
    - rewrite size_empty. unfold NBUF. lia.
    - intros. rewrite size_empty. unfold NBUF. lia. }
  intros [] s2 [Hw2 Hl2]. rewrite Hlg1, Hst1 in Hw2.
  assert (forall b, pin s2 b = None) as Hp2.
  { intros b. rewrite (wr_pin _ _ _ _ Hw2). case_decide; [done|]. by rewrite Hp1. }
  assert (forall b, lview s2 b = dsk s2 b) as Hcl by (intros b; apply lview_clean; [apply Hw2|done]).
  assert (redo_writes (lview s1) start (head_list (dsk s start)) =
          redo_writes (dsk s) start (head_list (dsk s start))) as Hrw.
  { unfold redo_writes. rewrite Hv1. f_equal. by apply install_writes_ext. }
  rewrite Hrw in Hw2. destruct Hw2 as [Hf2 Hok2 Hdk2 Hhi2 Hv2 _].
  assert (forall b, 0 <= b -> dsk s2 b = recover_view start (dsk s) b) as Hd2.
  { intros b Hb. rewrite <- Hcl, Hv2 by done. by apply apply_writes_ext. }
  assert (logged s2 = []) as Hlg2 by (unfold logged; by rewrite Hl2).
  split; try done; [|by rewrite Hl2|by rewrite Hl2|by rewrite Hhi2, Hhi1].
  assert (forall b : Z, b ∉ ([] : list Z)) as Hnil by (intros b; apply not_elem_of_nil).
  split; unfold home; rewrite ?Hlg2, ?Hl2; cbn; try done; try (intros b; by rewrite Hp2).
  - eapply ctx_quiet; [apply Hf2|done].
  - destruct Hg1. pose proof (kframe_disksize _ _ Hf2). split; rewrite ?Hl2; cbn; try done; lia.
  - constructor.
  - by intros b ?%Hnil.
  - rewrite Hst1, Hd2 by done. unfold recover_view, redo_writes.
    rewrite apply_writes_app, apply_writes_cons, apply_writes_nil. cbn [fst snd]. rewrite fupd_eq.
    apply head_erased. unfold dsk. apply block_length; [done|lia].
Qed.

Lemma initlog_spec s d start size :
  booted s d -> sb_ok start size (view_of d) (k_disksize s) -> head_ok start size (view_of d) ->
  wp initlog (fun _ s' => recovered s start size s') s.
Proof.
  intros [Hok Hq Hlk Hp <- Hds Hlen] [Hs1 Hs2 Hs3 Hs4 Hs5] Hh.
  unfold initlog. change (BSIZE <=? _) with false. cbv iota. unfold initlock. kstep.
  replace (set_locks (delete LLog) s) with s by (destruct s; unfold set_locks; cbn in *; by rewrite delete_id).
  eapply wp_mono; [apply readsb_spec; (done || lia)|].
  intros sb s1 (-> & Hw1 & Hl1). unfold setlog. kstep.
  pose proof (wrote_nil_same _ _ Hw1) as (Hf1 & Hok1 & Hdk1 & Hhi1 & Hp1).
  pose proof (kframe_disksize _ _ Hf1) as Hz1.
  match goal with |- wp _ _ ?st => set (s2 := st) end.
  assert (forall b, dsk s2 b = dsk s b) as Hd2 by (intros b; unfold dsk; by rewrite <- Hdk1).
  assert (k_log s2 = Log start size (lg_busy (k_log s)) ROOTDEV (lh_n (k_log s)) (lh_sector (k_log s))) as Hl2.
  { rewrite <- Hs1, <- Hs2. cbn. by rewrite Hl1. }
  eapply wp_mono.
  { apply (recover_spec s2 start size); rewrite ?Hl2; cbn; try done; try lia.
    - by apply (bio_ok_ext s1).
    - apply (quiet_ext s1); [done..|]. eapply ctx_quiet; [apply Hf1|done].
    - intros b. change (pin s1 b = None). by rewrite Hp1.
    - destruct Hh. split; by rewrite Hd2. }
  intros [] s3 []. split; try done.
  - rewrite rc_hist0, Hd2. cbn. rewrite Hhi1. f_equal. unfold redo_writes. rewrite Hd2. f_equal.
    by apply install_writes_ext.
  - intros b Hb. rewrite rc_disk0 by done. unfold recover_view, redo_writes. rewrite !Hd2.
    rewrite (install_writes_ext (dsk s)) by done. by apply apply_writes_ext.
Qed.

(** Crashing after [m] of the writes of a transaction and booting. [s0] is the
    state at [begin_trans], [s] the state at [commit_trans], and [boot] that of
    the kernel booted from the disk of the moment of the crash. *)
Definition crash_disk (s0 : kst) (ws : list (Z * bytes)) (m : nat) : list bytes :=
  replay (take m ws) (k_disk s0).

(** The contents a boot gives to the home sectors: those before the
    transaction, or those it wrote. *)
Definition atomic (s0 s boot : kst) : Prop :=
  wp initlog (fun _ s' =>
    txn s' ∅ ∅ /\
    ((forall b, home s0 b -> dsk s' b = dsk s0 b) \/
     (forall b, home s0 b -> dsk s' b = lview s b))) boot.

Lemma atomic_intro s0 s boot d start size :
  booted boot d -> start = lg_start (k_log s0) -> 
  sb_ok start size (view_of d) (k_disksize boot) -> head_ok start size (view_of d) ->
  (forall b, 0 <= b < start -> recover_view start (view_of d) b = dsk s0 b) \/
  (forall b, 0 <= b < start -> recover_view start (view_of d) b = lview s b) ->
  atomic s0 s boot.
Proof.
  intros Hb -> Hsb Hh Hor. unfold atomic. eapply wp_mono; [by eapply initlog_spec|].
  intros [] s' []. split; [done|]. pose proof (bt_disk _ _ Hb) as <-.
  destruct Hor as [Hor|Hor]; [left|right]; intros b Hbh; unfold home in Hbh;
    rewrite rc_disk0 by lia; apply Hor; done.
Qed.

Lemma head_ok_ext start size v v' :
  v' start = v start -> head_ok start size v -> head_ok start size v'.
Proof. intros E []. split; by rewrite E. Qed.

Lemma recover_view_ext start v v' b :
  (forall b, 0 <= b -> v' b = v b) -> 0 <= start -> 0 <= b ->
  recover_view start v' b = recover_view start v b.
Proof.
  intros Hv Hs Hb. unfold recover_view, redo_writes. rewrite Hv by done.
  rewrite (install_writes_ext v) by (intros; apply Hv; lia). by apply apply_writes_ext.
Qed.

(** The writes before the commit go to log blocks only. *)
Lemma log_writes_crash start size ws v :
  1 <= size -> hd_n (v start) = 0 ->
  Forall (fun w : Z * bytes => start < w.1 < start + size) ws ->
  head_ok start size (apply_writes ws v) /\
  (forall b, 0 <= b <= start -> apply_writes ws v b = v b) /\
  (forall b, 0 <= b < start -> recover_view start (apply_writes ws v) b = v b).
Proof.
  intros Hs Hz Hw. assert (forall b, b <= start -> apply_writes ws v b = v b) as Hlow.
  { intros b Hb. apply apply_writes_other. eapply Forall_impl; [exact Hw|]. cbn. intros. lia. }
  assert (hd_n (apply_writes ws v start) = 0) as Hz' by (by rewrite Hlow).
  split_and!; [by apply head_empty_ok|intros; apply Hlow; lia|].
  intros b Hb. rewrite recover_empty by (done || lia). apply Hlow. lia.
Qed.

Lemma sb_ok_ext start size v v' n : v' 1 = v 1 -> sb_ok start size v n -> sb_ok start size v' n.
Proof. intros E []. split; by rewrite ?E. Qed.

Lemma install_writes_sectors v start k l : (install_writes v start k l).*1 = l.
Proof. revert k. induction l as [|b l IH]; intros k; cbn; [done|]. by rewrite IH. Qed.

Lemma commit_writes_sectors v start l w :
  w ∈ commit_writes v start l -> w.1 = start \/ w.1 ∈ l.
Proof.
  unfold commit_writes. rewrite elem_of_cons, elem_of_app, list_elem_of_singleton.
  intros [->|[Hw| ->]]; [by left| |by left]. right.
  rewrite <- (install_writes_sectors v start 0 l). by apply list_elem_of_fmap_2.
Qed.

Section atomicity.
Context (s0 s boot : kst) (ws0 : list (Z * bytes)).
Let start := lg_start (k_log s0).
Let size := lg_size (k_log s0).
Hypothesis Htx0 : txn s0 ∅ ∅.
Hypothesis Htx : txn s ∅ ∅.
Hypothesis Hstart : lg_start (k_log s) = start.
Hypothesis Hsize : lg_size (k_log s) = size.
Hypothesis Hdisk : k_disk s = replay ws0 (k_disk s0).
Hypothesis Hws0 : Forall (fun w => start < w.1 < start + size) ws0.
Hypothesis Hsb : sb_ok start size (dsk s0) (k_disksize s0).
Hypothesis Hone : 1 ∉ logged s.

Lemma atomic_range ws : Forall (fun w : Z * bytes => start < w.1 < start + size) ws ->
  Forall (fun w => 0 <= w.1 < Z.of_nat (length (k_disk s0))) ws.
Proof.
  intros Hw. pose proof Htx0 as []. pose proof tx_geo as []. rewrite (bo_disk _ tx_bio).
  eapply Forall_impl; [exact Hw|]. cbn. intros w Hwr. unfold start, size in *. lia.
Qed.

(** A crash before the commit. *)
Lemma atomic_before m : booted boot (crash_disk s0 ws0 m) -> atomic s0 s boot.
Proof.
  intros Hb. pose proof Htx0 as []. pose proof tx_geo as [].
  assert (Forall (fun w => start < w.1 < start + size) (take m ws0)) as Hw by (by apply Forall_take).
  destruct (log_writes_crash start size (take m ws0) (dsk s0)) as (Hh & Hlow & Hrec); [done..|].
  assert (forall b, 0 <= b -> view_of (crash_disk s0 ws0 m) b = apply_writes (take m ws0) (dsk s0) b) as Hv.
  { intros b Hb0. apply replay_view; [by apply atomic_range|done]. }
  assert (k_disksize boot = k_disksize s0) as Hbz.
  { rewrite <- (bo_disk _ tx_bio), <- (bo_disk _ (bt_ok _ _ Hb)), (bt_disk _ _ Hb).
    unfold crash_disk. by rewrite replay_length. }
  pose proof Hsb as [_ _ Hs3 _ _].
  eapply (atomic_intro s0 s boot _ start size); [exact Hb|done| | |].
  - rewrite Hbz. eapply sb_ok_ext; [|done]. rewrite Hv by lia. apply Hlow. lia.
  - eapply head_ok_ext; [|exact Hh]. by apply Hv.
  - left. intros b Hbr. rewrite (recover_view_ext _ _ _ b Hv) by (unfold start in *; lia). auto.
Qed.

(** A crash after [m] of the writes of the commit. *)
Lemma atomic_commit m :
  booted boot (replay (take m (commit_writes (dsk s) start (logged s))) (k_disk s)) ->
  atomic s0 s boot.
Proof.
  intros Hb. pose proof Htx as []. pose proof tx_geo as []. pose proof (bo_disk _ tx_bio) as Hlen.
  pose proof Htx0 as [Hok0 _ _ _ _ _ _ _ _ _ _ Hhd0]. fold start in Hhd0.
  pose proof Hsb as [_ _ Hs3 Hs4 _]. rewrite Hstart, Hsize in *.
  assert (forall b, 0 <= b <= start -> dsk s b = dsk s0 b) as Hs0.
  { intros b Hb0. change (view_of (k_disk s) b = dsk s0 b). rewrite Hdisk.
    rewrite replay_view by (lia || by apply atomic_range).
    by destruct (log_writes_crash start size ws0 (dsk s0)) as (_ & -> & _). }
  assert (forall w, w ∈ commit_writes (dsk s) start (logged s) -> 0 <= w.1 <= start /\ w.1 <> 1) as Hcw.
  { intros w [->|Hw]%commit_writes_sectors; [lia|]. pose proof (tx_home _ Hw) as Hh. unfold home in Hh.
    rewrite Hstart in Hh. split; [lia|]. intros E. by rewrite E in Hw. }
  set (ws := take m _) in *.
  assert (forall w, w ∈ ws -> 0 <= w.1 <= start /\ w.1 <> 1) as Hws.
  { intros w Hw. apply Hcw. rewrite <- (take_drop m). apply elem_of_app. by left. }
  assert (forall b, 0 <= b -> view_of (replay ws (k_disk s)) b = apply_writes ws (dsk s) b) as Hv.
  { intros b Hb0. apply replay_view; [|done]. apply Forall_forall. intros w Hw.
    apply Hws in Hw. lia. }
  assert (k_disksize boot = k_disksize s0) as Hbz.
  { rewrite <- (bo_disk _ Hok0), <- (bo_disk _ (bt_ok _ _ Hb)), (bt_disk _ _ Hb), replay_length, Hdisk.
    by rewrite replay_length. }
  destruct (commit_crash start size (dsk s) (logged s)) with (m := m) as [Hh Hor]; try done; try lia.
  { unfold dsk. apply block_length; [done|lia]. }
  { rewrite logged_length by done. unfold LOGSIZE in *. lia. }
  { rewrite logged_length by done. lia. }
  { intros b Hbl. apply tx_home in Hbl. unfold home in Hbl. by rewrite Hstart in Hbl. }
  cbn zeta in Hh, Hor. fold ws in Hh, Hor.
  eapply (atomic_intro s0 s boot _ start size); [exact Hb|done| | |].
  - rewrite Hbz. eapply sb_ok_ext; [|done]. rewrite Hv by lia.
    rewrite apply_writes_other; [apply Hs0; lia|]. apply Forall_forall. intros w Hw. by apply Hws.
  - eapply head_ok_ext; [|exact Hh]. apply Hv. lia.
  - destruct Hor as [[_ Hor]|Hor]; [left|right]; intros b Hbr;
      rewrite (recover_view_ext _ _ _ b Hv) by lia; rewrite Hor by done.
    + apply Hs0. lia.
    + rewrite <- Hstart. apply new_view_txn; [done| |done|unfold home; lia].
      intros x Hx Hnx. symmetry. apply tx_clean; [unfold home in Hx; lia|set_solver|done].
Qed.
End atomicity.

(** A crash during recovery: what recovery makes of a disk that it has
    already recovered in part. *)
Lemma redo_crash start size v m :
  0 <= start -> 1 <= size -> length (v start) = 512%nat -> head_ok start size v ->
  let v' := apply_writes (take m (redo_writes v start (head_list (v start)))) v in
  head_ok start size v' /\
  (forall b, 0 <= b < start -> recover_view start v' b = recover_view start v b).
Proof.
  intros H0 H1 Hlen [Hn Hs Hnd Hhome]. cbn zeta. set (l := head_list (v start)) in *.
  assert (forall b, 0 <= b < start -> recover_view start v b =
            apply_writes (install_writes v start 0 l) v b) as Hrv.
  { intros b Hb. unfold recover_view, redo_writes. fold l.
    rewrite apply_writes_app, apply_writes_cons, apply_writes_nil. apply fupd_ne. cbn. lia. }
  unfold redo_writes. rewrite take_app, apply_writes_app, install_writes_take, install_writes_length.
  destruct (decide (m <= length l)%nat) as [Hm|Hm].
  - replace (m - length l)%nat with 0%nat by lia. rewrite firstn_O, apply_writes_nil.
    set (v' := apply_writes _ v).
    assert (forall b, b ∉ l -> v' b = v b) as Hoth.
    { intros b Hb. apply apply_install_other. by intros ?%elem_of_take_l. }
    assert (start ∉ l) as Hsl by (intros ?%Hhome; lia).
    split; [by eapply head_ok_ext; [apply Hoth|]|].
    intros b Hb. rewrite Hrv by done. unfold recover_view, redo_writes. rewrite (Hoth start) by done. fold l.
    rewrite apply_writes_app, apply_writes_cons, apply_writes_nil, fupd_ne by (cbn; lia).
    destruct (decide (b ∈ l)) as [Hin|Hin].
    + apply list_elem_of_lookup_1 in Hin as [j Hj]. rewrite !(apply_install_at _ _ _ _ _ j) by done.
      apply Hoth. intros ?%Hhome. lia.
    + rewrite !apply_install_other by done. by apply Hoth.
  - replace (m - length l)%nat with (S (m - length l - 1)) by lia.
    rewrite firstn_cons, firstn_nil, apply_writes_cons, apply_writes_nil, take_ge by lia. cbn [fst snd].
    set (v' := fupd _ _ _).
    assert (hd_n (v' start) = 0) as Hz by (unfold v'; rewrite fupd_eq; by apply head_erased).
    split; [by apply head_empty_ok|]. intros b Hb. rewrite recover_empty, Hrv by (done || lia).
    unfold v'. apply fupd_ne. lia.
Qed.

Lemma commit_atomic s0 s :
  txn s0 ∅ ∅ -> lframe s0 s -> txn s ∅ ∅ ->
  k_locks s !! LLog = None -> lh_n (k_log s) < Z.of_nat NBUF ->
  sb_ok (lg_start (k_log s0)) (lg_size (k_log s0)) (dsk s0) (k_disksize s0) -> 1 ∉ logged s ->
  wp commit_trans (fun _ s' => commit_post s s' /\
    exists ws, k_hist s' = k_hist s0 ++ ws /\ k_disk s' = replay ws (k_disk s0) /\
    forall m boot, booted boot (crash_disk s0 ws m) -> atomic s0 s boot) s.
Proof.
  intros Htx0 [_ _ _ Hst Hsz _ (ws0 & Hhi & Hdk & Hw0)] Htx Hlk Hn Hsb H1.
  eapply wp_mono; [by apply commit_steps|]. intros [] s' [Hw Hl].
  split; [by apply commit_wrote_post|]. rewrite commit_writes_dsk, Hst in Hw by done.
  eexists (ws0 ++ _). split_and!; [by rewrite (wr_hist _ _ _ _ Hw), Hhi, app_assoc| |].
  { by rewrite (wr_disk _ _ _ _ Hw), Hdk, replay_app. }
  intros m boot. unfold crash_disk. rewrite take_app, replay_app.
  destruct (decide (m < length ws0)%nat) as [Hm|Hm].
  - replace (m - length ws0)%nat with 0%nat by lia. rewrite firstn_O.
    by eapply (atomic_before s0 s boot ws0).
  - rewrite (take_ge ws0), <- Hdk by lia. destruct (0 <? _).
    + by eapply atomic_commit.
    + rewrite firstn_nil. intros Hb. eapply (atomic_before s0 s boot ws0) with (m := length ws0); try done.
      unfold crash_disk. rewrite take_ge by lia. by rewrite <- Hdk.
Qed.

(** C1. A transaction is atomic across crashes. [s0] is any state in which no
    transaction has logged a block, [s] a state reached from it by steps that
    only write the log's blocks (every step inside a transaction does), with no
    buffer held. Then [commit_trans] returns with the contents of every home
    sector on the disk and the log empty; and after a crash behind any prefix
    of the disk writes made since [s0], booting and running [initlog] succeeds
    and leaves all home sectors as before the transaction, or all as the
    transaction wrote them. *)
Theorem transaction_atomic s0 s :
  txn s0 ∅ ∅ -> logged s0 = [] -> lframe s0 s -> txn s ∅ ∅ ->
  k_locks s !! LLog = None -> lh_n (k_log s) < Z.of_nat NBUF ->
  sb_ok (lg_start (k_log s0)) (lg_size (k_log s0)) (dsk s0) (k_disksize s0) -> 1 ∉ logged s ->
  wp commit_trans (fun _ s' => commit_post s s' /\
    exists ws, k_hist s' = k_hist s0 ++ ws /\ k_disk s' = replay ws (k_disk s0) /\
    forall m boot, booted boot (crash_disk s0 ws m) -> atomic s0 s boot) s.
Proof. intros ? _. by apply commit_atomic. Qed.

(** C14. Recovery can itself be interrupted: a crash behind any prefix of the
    writes of [initlog], followed by another boot, leaves the home sectors as
    the uninterrupted recovery would have. *)
Theorem recovery_restartable s d start size :
  booted s d -> sb_ok start size (view_of d) (k_disksize s) -> head_ok start size (view_of d) ->
  1 ∉ head_list (view_of d start) ->
  wp initlog (fun _ s' => txn s' ∅ ∅ /\ logged s' = [] /\
    exists ws, k_hist s' = k_hist s ++ ws /\ forall m boot, booted boot (replay (take m ws) d) ->
      wp initlog (fun _ s2 => txn s2 ∅ ∅ /\ forall b, 0 <= b < start -> dsk s2 b = dsk s' b) boot) s.
Proof.
  intros Hb Hsb Hh H1. pose proof (bt_disk _ _ Hb) as <-.
  pose proof (initlog_spec _ _ _ _ Hb Hsb Hh) as Hi. change (view_of (k_disk s)) with (dsk s) in *.
  pose proof Hsb as [_ _ Hs3 Hs4 Hs5]. pose proof Hb as [Hok _ _ _ _ Hds _].
  pose proof (bo_disk _ Hok) as Hlen.
  eapply wp_mono; [exact Hi|]. intros [] s' [Htx Hlg _ _ Hhi Hdk]. split_and!; [done..|].
  eexists. split; [exact Hhi|]. intros m boot Hb2. set (ws := take m _) in *.
  assert (Forall (fun w => 0 <= w.1 < Z.of_nat (length (k_disk s)) /\ w.1 <> 1) ws) as Hws.
  { apply Forall_take, Forall_forall. intros w. unfold redo_writes. rewrite elem_of_app, list_elem_of_singleton.
    intros [Hw| ->]; [|cbn; lia]. apply (list_elem_of_fmap_2 fst) in Hw. rewrite install_writes_sectors in Hw.
    split; [apply (ho_home _ _ _ Hh) in Hw; lia|]. intros E. by rewrite E in Hw. }
  assert (forall b, 0 <= b -> view_of (replay ws (k_disk s)) b = apply_writes ws (dsk s) b) as Hv.
  { intros b Hb0. apply replay_view; [|done]. eapply Forall_impl; [exact Hws|]. by intros w []. }
  assert (k_disksize boot = k_disksize s) as Hbz.
  { rewrite <- Hlen, <- (bo_disk _ (bt_ok _ _ Hb2)), (bt_disk _ _ Hb2). by rewrite replay_length. }
  destruct (redo_crash start size (dsk s) m) as [Hh2 Hr2];
    [lia..|apply block_length; [done|lia]|done|]. fold ws in Hh2, Hr2.
  eapply wp_mono; [eapply (initlog_spec boot _ start size Hb2)|].
  - rewrite Hbz. eapply sb_ok_ext; [|exact Hsb]. rewrite Hv by lia. apply apply_writes_other.
    eapply Forall_impl; [exact Hws|]. by intros w [].
  - eapply head_ok_ext; [|exact Hh2]. apply Hv. lia.
  - intros [] s2 [Htx2 _ _ _ _ Hdk2]. split; [done|]. intros b Hbr.
    rewrite Hdk2, Hdk by lia. rewrite <- Hr2 by done.
    apply recover_view_ext; [|lia..]. intros c Hc. rewrite <- Hv by done.
    unfold dsk. by rewrite (bt_disk _ _ Hb2).
Qed.

(** ** A concrete disk

    Twenty sectors: the super block, and a log of ten sectors from sector 10
    on. [demo_head n] is a log header that lists [n] sectors from sector 3 on. *)

Definition blk (x : Z) : bytes := replicate 512 x.
Definition demo_sb : bytes := put32 (put32 (put32 (put32 (blk 0) 0 20) 4 6) 8 8) 12 10.
Definition demo_head (n : nat) : bytes := head_block (blk 0) (Z.of_nat <$> seq 3 n).
Definition demo_disk (n : nat) : list bytes :=
  [blk 0; demo_sb] ++ replicate 8 (blk 0) ++ [demo_head n] ++ replicate 9 (blk 7).
Definition kst_of (d : list bytes) (ic : list inode) : kst :=
  Kst (Cpu 0 0 false true (Some 0%nat)) ∅ [proc0] None 1 d 20 [] (replicate 11 buf0)
    (Log 0 0 0 0 0 (replicate 10 0)) ic [] ∅ (Kmem 0 0) ∅ [] (Input [] 0 0 0) 0
    None 1 0 0 0 0 0 ∅ 0 [] 0 (0, 0) hw0 [].
Definition boot_of (d : list bytes) (ic : list inode) : kst := final binit (kst_of d ic).
Definition demo_boot (n : nat) : kst := boot_of (demo_disk n) [].

Lemma boot_booted d ic : length d = 20%nat -> Forall (fun b : bytes => length b = 512%nat) d ->
  booted (boot_of d ic) d.
Proof.
  intros Hl Hd. apply (wp_final binit (fun s => booted s d)).
  eapply wp_mono; [apply binit_spec; try done|].
  - by apply Forall_replicate.
  - cbn. by rewrite Hl.
  - intros [] s (Hok & Hp & _ & Hs). split; [done| |rewrite Hs; done|done|rewrite Hs; done..].
    split; rewrite Hs; done.
Qed.

Lemma demo_booted n : (n <= LOGSIZE)%nat -> booted (demo_boot n) (demo_disk n).
Proof.
  intros Hn. assert (length (demo_head n) = 512%nat) as Hh.
  { apply head_block_length; [done|]. by rewrite length_fmap, length_seq. }
  unfold demo_boot. apply (boot_booted (demo_disk n) []); [done|]. cbn. repeat (apply Forall_cons; split; [done|]). constructor.
Qed.

Lemma demo_sb_ok n : (n <= LOGSIZE)%nat -> sb_ok 10 10 (view_of (demo_disk n)) (k_disksize (demo_boot n)).
Proof.
  intros Hn. pose proof (demo_booted n Hn) as [Hok _ _ _ Hd _ _].
  rewrite <- (bo_disk _ Hok), Hd. by split.
Qed.

Lemma demo_recovered n : (n <= 9)%nat ->
  head_ok 10 10 (view_of (demo_disk n)) -> recovered (demo_boot n) 10 10 (final initlog (demo_boot n)).
Proof.
  intros Hn Hh. apply (wp_final initlog (fun s' => recovered (demo_boot n) 10 10 s')).
  apply (initlog_spec _ (demo_disk n)); [apply demo_booted|apply demo_sb_ok|done]; unfold LOGSIZE; lia.
Qed.

(** The disk after a crash during the installation of two blocks. *)
Lemma recovery_restartable_witness :
  head_list (view_of (demo_disk 2) 10) = [3; 4] /\
  wp initlog (fun _ s' => txn s' ∅ ∅ /\ logged s' = [] /\
    exists ws, k_hist s' = k_hist (demo_boot 2) ++ ws /\
      forall m boot, booted boot (replay (take m ws) (demo_disk 2)) ->
      wp initlog (fun _ s2 => txn s2 ∅ ∅ /\ forall b, 0 <= b < 10 -> dsk s2 b = dsk s' b) boot)
    (demo_boot 2).
Proof.
  assert (head_list (view_of (demo_disk 2) 10) = [3; 4]) as E by (vm_compute; reflexivity).
  split; [exact E|]. apply (recovery_restartable _ _ 10 10).
  - apply demo_booted. unfold LOGSIZE. lia.
  - apply demo_sb_ok. unfold LOGSIZE. lia.
  - split; rewrite ?E; [vm_compute; done|vm_compute; done| |].
    + repeat constructor; set_solver.
    + set_solver by lia.
  - rewrite E. set_solver.
Defined.

(** A transaction that writes sector 3. *)
Definition demo_begun : kst := final begin_trans (final initlog (demo_boot 0)).
Definition demo_update : K unit :=
  i <- bread ROOTDEV 3 ;; setdata i (blk 5) ;; log_write i ;; brelse i.
Definition demo_updated : kst := final demo_update demo_begun.

Record fresh_txn (s : kst) : Prop := {
  fr_txn : txn s ∅ ∅;
  fr_logged : logged s = [];
  fr_n : lh_n (k_log s) = 0;
  fr_start : lg_start (k_log s) = 10;
  fr_size : lg_size (k_log s) = 10;
  fr_lock : k_locks s !! LLog = None
}.

Lemma begin_fresh s : fresh_txn s -> lg_busy (k_log s) = 0 ->
  fresh_txn (final begin_trans s) /\ lg_busy (k_log (final begin_trans s)) = 1.
Proof.
  intros [] Hb. apply (wp_final begin_trans (fun s => fresh_txn s /\ lg_busy (k_log s) = 1)).
  eapply wp_mono; [by apply begin_trans_spec|]. intros [] s' (Htx' & Hb' & Hc & Hs').
  assert (k_log s' = set_busy (fun _ => 1) (k_log s)) as Hl by (by rewrite Hs').
  split; [|done]. split; try done; unfold logged in *; by rewrite ?Hl, ?(ctx_locks _ _ Hc).
Qed.

Lemma update_fresh s : fresh_txn s -> lg_busy (k_log s) = 1 ->
  let s' := final demo_update s in
  txn s' ∅ ∅ /\ lframe s s' /\ logged s' = [3] /\ lview s' 3 = blk 5.
Proof.
  intros [Htx Hlg Hn Hst Hsz Hlk] Hb s'. unfold s'.
  apply (wp_final demo_update (fun s' => txn s' ∅ ∅ /\ lframe s s' /\ logged s' = [3] /\ lview s' 3 = blk 5)).
  unfold demo_update. assert (home s 3) as Hh by (unfold home; lia).
  kstep. eapply wp_mono; [apply (txn_bread s ∅ ∅ 3); [done..|set_solver|by rewrite Hn]|].
  intros i s1 [Hi1 H1]. kstep.
  eapply (txn_setdata s1 _ _ i 3); [apply H1|done|set_solver|done|]. intros s2 H2.
  pose proof (ts_frame _ _ _ _ _ _ H1) as Hf1. pose proof (ts_frame _ _ _ _ _ _ H2) as Hf2.
  assert (holds s2 i 3) as Hi2 by (apply (ts_holds _ _ _ _ _ _ H2); [set_solver|done]).
  assert (lh_n (k_log s2) = 0) as Hn2.
  { rewrite (txn_n _ _ _ (ts_txn _ _ _ _ _ _ H2)), (ts_logged _ _ _ _ _ _ H2), (ts_logged _ _ _ _ _ _ H1), Hlg. done. }
  kstep. eapply wp_mono; [apply (txn_log_write s2 ({[3]} ∪ ∅) ({[3]} ∪ ∅) i 3); [apply H2|done|..]|].
  { by rewrite (lf_busy _ _ Hf2), (lf_busy _ _ Hf1), Hb. }
  { by rewrite Hn2. } { rewrite Hn2, (lf_size _ _ Hf2), (lf_size _ _ Hf1), Hsz. lia. }
  { rewrite Hn2. by vm_compute. }
  assert (({[3]} ∪ ∅) ∖ {[3]} = (∅ : gset Z)) as E by set_solver. rewrite E.
  intros [] s3 H3. eapply wp_mono; [apply (txn_brelse s3 ({[3]} ∪ ∅) ∅ i 3); [apply H3| |set_solver]|].
  { apply (ts_holds _ _ _ _ _ _ H3); [set_solver|done]. }
  rewrite E. intros [] s4 H4. pose proof (ts_frame _ _ _ _ _ _ H3) as Hf3. pose proof (ts_frame _ _ _ _ _ _ H4) as Hf4.
  assert (forall b, home s b -> home s1 b /\ home s2 b /\ home s3 b) as Hho.
  { unfold home. by rewrite (lf_start _ _ Hf3), (lf_start _ _ Hf2), (lf_start _ _ Hf1). }
  destruct (Hho 3 Hh) as (Hh1 & Hh2 & Hh3). split_and!.
  - apply H4.
  - transitivity s1; [done|]. transitivity s2; [done|]. by transitivity s3.
  - rewrite (ts_logged _ _ _ _ _ _ H4), (ts_logged _ _ _ _ _ _ H3), (ts_logged _ _ _ _ _ _ H2),
      (ts_logged _ _ _ _ _ _ H1), Hlg. done.
  - rewrite (ts_view _ _ _ _ _ _ H4), (ts_view _ _ _ _ _ _ H3), (ts_view _ _ _ _ _ _ H2) by done.
    apply fupd_eq.
Qed.

Lemma demo_fresh : fresh_txn (final initlog (demo_boot 0)).
Proof.
  destruct (demo_recovered 0) as [Htx Hlg Hst Hsz _ _]; [lia|apply head_empty_ok; [lia|done]|].
  split; try assumption; vm_compute; reflexivity.
Qed.

Lemma demo_steps :
  (fresh_txn demo_begun /\ lg_busy (k_log demo_begun) = 1) /\
  txn demo_updated ∅ ∅ /\ lframe demo_begun demo_updated /\ logged demo_updated = [3] /\
  lview demo_updated 3 = blk 5.
Proof.
  assert (fresh_txn demo_begun /\ lg_busy (k_log demo_begun) = 1) as [Hf Hb].
  { apply begin_fresh; [apply demo_fresh|vm_compute; reflexivity]. }
  split; [split; [exact Hf|exact Hb]|]. apply (update_fresh demo_begun Hf Hb).
Qed.

Lemma transaction_atomic_witness :
  lview demo_updated 3 = blk 5 /\ dsk demo_begun 3 = blk 0 /\
  wp commit_trans (fun _ s' => commit_post demo_updated s' /\
    exists ws, k_hist s' = k_hist demo_begun ++ ws /\ k_disk s' = replay ws (k_disk demo_begun) /\
    forall m boot, booted boot (crash_disk demo_begun ws m) -> atomic demo_begun demo_updated boot)
    demo_updated.
Proof.
  pose proof demo_steps as ((Hf & _) & Htx & Hfr & Hlg & Hv).
  split; [exact Hv|]. split; [vm_compute; reflexivity|].
  apply (transaction_atomic demo_begun demo_updated).
  - exact (fr_txn _ Hf).
  - exact (fr_logged _ Hf).
  - exact Hfr.
  - exact Htx.
  - vm_compute; reflexivity.
  - vm_compute; reflexivity.
  - rewrite (fr_start _ Hf), (fr_size _ Hf). split; vm_compute; (reflexivity || discriminate).
  - rewrite Hlg. intros H1. apply list_elem_of_singleton in H1. discriminate.
Defined.
