(* ===== verification/StringC.v ===== *)
(** * Strings and memory (kernel/string.c)

    The functions that take pointers into memory work on [mem], the bytes by
    address, with the pointer arithmetic of the 32-bit machine; the string
    functions take the bytes of the string, after which a NUL is read. *)

From stdpp Require Import prelude gmap strings.
From S2P Require Import Prelude.

Definition mem := Z -> Z.
Definition store (m : mem) (a v : Z) : mem := fupd m a (u8 v).

(** ** Memory *)

(** [rep stosb] and [rep stosl]. *)
Fixpoint stosb (m : mem) (a c : Z) (n : nat) : mem :=
  match n with
  | O => m
  | S n => stosb (store m a c) (u32 (a + 1)) c n
  end.

Definition store32 (m : mem) (a v : Z) : mem :=
  store (store (store (store m a v) (u32 (a + 1)) (Z.shiftr v 8))
    (u32 (a + 2)) (Z.shiftr v 16)) (u32 (a + 3)) (Z.shiftr v 24).

Fixpoint stosl (m : mem) (a v : Z) (n : nat) : mem :=
  match n with
  | O => m
  | S n => stosl (store32 m a v) (u32 (a + 4)) v n
  end.

Definition memset (m : mem) (dst c n : Z) : mem :=
  if (Z.rem (s32 dst) 4 =? 0) && (n mod 4 =? 0) then
    let c := Z.land c 255 in
    stosl m dst (u32 (Z.lor (Z.lor (Z.lor (Z.shiftl c 24) (Z.shiftl c 16)) (Z.shiftl c 8)) c))
      (Z.to_nat (n / 4))
  else stosb m dst c (Z.to_nat n).

Fixpoint memchr_loop (m : mem) (p c : Z) (n : nat) : option Z :=
  match n with
  | O => None
  | S n => if m p =? u8 c then Some p else memchr_loop m (u32 (p + 1)) c n
  end.
Definition memchr (m : mem) (s c n : Z) : option Z := memchr_loop m s c (Z.to_nat n).

Fixpoint memcmp_loop (m : mem) (s1 s2 : Z) (n : nat) : Z :=
  match n with
  | O => 0
  | S n =>
    if negb (m s1 =? m s2) then m s1 - m s2
    else memcmp_loop m (u32 (s1 + 1)) (u32 (s2 + 1)) n
  end.
Definition memcmp (m : mem) (v1 v2 n : Z) : Z := memcmp_loop m v1 v2 (Z.to_nat n).

(** The two loops of [memmove]: [*--d = *--s] and [*d++ = *s++]. *)
Fixpoint copy_down (m : mem) (d s : Z) (n : nat) : mem :=
  match n with
  | O => m
  | S n =>
    let d := u32 (d - 1) in
    let s := u32 (s - 1) in
    copy_down (store m d (m s)) d s n
  end.

Fixpoint copy_up (m : mem) (d s : Z) (n : nat) : mem :=
  match n with
  | O => m
  | S n => copy_up (store m d (m s)) (u32 (d + 1)) (u32 (s + 1)) n
  end.

Definition memmove (m : mem) (dst src n : Z) : mem :=
  if (src <? dst) && (dst <? u32 (src + n)) then
    copy_down m (u32 (dst + n)) (u32 (src + n)) (Z.to_nat n)
  else copy_up m dst src (Z.to_nat n).

Definition memcpy (m : mem) (dst src n : Z) : mem := memmove m dst src n.

(** ** Strings *)

Definition chr (s : bytes) : Z := hd 0 s.

Fixpoint strncmp (p q : bytes) (n : nat) : Z :=
  match n with
  | O => 0
  | S n =>
    if negb (chr p =? 0) && (chr p =? chr q) then strncmp (tail p) (tail q) n
    else chr p - chr q
  end.

(** The bytes [strncpy] writes at [s]. *)
Fixpoint strncpy (t : bytes) (n : nat) : bytes :=
  match n with
  | O => []
  | S n => chr t :: (if chr t =? 0 then replicate n 0 else strncpy (tail t) n)
  end.

(** The bytes [safestrcpy] writes at [s]; the loop runs while [--n > 0]. *)
Fixpoint safestrcpy_loop (t : bytes) (n : nat) : bytes :=
  match n with
  | O => []
  | S n => chr t :: (if chr t =? 0 then [] else safestrcpy_loop (tail t) n)
  end.
Definition safestrcpy (t : bytes) (n : Z) : bytes :=
  if n <=? 0 then [] else safestrcpy_loop t (Z.to_nat (n - 1)) ++ [0].

Fixpoint strlen (s : bytes) : Z :=
  match s with
  | [] => 0
  | c :: s => if c =? 0 then 0 else strlen s + 1
  end.

(** The string a buffer holds: its bytes before the first NUL. *)
Fixpoint cstr (s : bytes) : bytes :=
  match s with
  | [] => []
  | c :: s => if c =? 0 then [] else c :: cstr s
  end.

(** ** Theorems *)

Definition is_mem (m : mem) : Prop := forall a, is_byte (m a).

Lemma u8_byte x : is_byte x -> u8 x = x.
Proof. intros ?. unfold u8. apply Z.mod_small. by unfold is_byte in *. Qed.

Lemma is_mem_store m a v : is_mem m -> is_mem (store m a v).
Proof.
  intros Hm x. unfold store, fupd. case_decide; [|apply Hm].
  unfold is_byte, u8. pose proof (Z.mod_pos_bound v (2 ^ 8)). lia.
Qed.

Lemma store_eq m a v : is_byte v -> store m a v a = v.
Proof. intros Hv. unfold store. rewrite fupd_eq. by apply u8_byte. Qed.

Lemma store_ne m a v x : x <> a -> store m a v x = m x.
Proof. apply fupd_ne. Qed.

(** The memory after [n] bytes at [src] have been copied to [dst] at once. *)
Definition copied (m : mem) (dst src n : Z) : mem :=
  fun a => if bool_decide (dst <= a < dst + n) then m (src + (a - dst)) else m a.

Lemma copied_in m dst src n a : dst <= a < dst + n -> copied m dst src n a = m (src + (a - dst)).
Proof. intros. unfold copied. by rewrite bool_decide_true. Qed.
Lemma copied_out m dst src n a : ~ (dst <= a < dst + n) -> copied m dst src n a = m a.
Proof. intros. unfold copied. by rewrite bool_decide_false. Qed.

Lemma copy_up_spec m d s n a :
  is_mem m -> 0 <= d -> 0 <= s -> d + Z.of_nat n < 2 ^ 32 -> s + Z.of_nat n < 2 ^ 32 ->
  (d <= s \/ s + Z.of_nat n <= d) ->
  copy_up m d s n a = copied m d s (Z.of_nat n) a.
Proof.
  revert m d s. induction n as [|n IH]; intros m d s Hm Hd Hs Hdn Hsn Hov; cbn [copy_up].
  { rewrite copied_out; [done|lia]. }
  rewrite !u32_small by lia. rewrite IH by (lia || by apply is_mem_store).
  destruct (decide (d <= a < d + Z.of_nat (S n))) as [Ha|Ha].
  - rewrite (copied_in m) by done. destruct (decide (a = d)) as [->|].
    + rewrite copied_out, store_eq by (lia || apply Hm). f_equal. lia.
    + rewrite copied_in, store_ne by lia. f_equal. lia.
  - rewrite !copied_out, store_ne by lia. done.
Qed.

Lemma copy_down_spec m d s n a :
  is_mem m -> Z.of_nat n <= d < 2 ^ 32 -> Z.of_nat n <= s < 2 ^ 32 -> s <= d ->
  copy_down m d s n a = copied m (d - Z.of_nat n) (s - Z.of_nat n) (Z.of_nat n) a.
Proof.
  revert m d s. induction n as [|n IH]; intros m d s Hm Hd Hs Hov; cbn [copy_down].
  { rewrite copied_out; [done|lia]. }
  rewrite !u32_small by lia. rewrite IH by (lia || by apply is_mem_store).
  destruct (decide (d - Z.of_nat (S n) <= a < d - Z.of_nat (S n) + Z.of_nat (S n))) as [Ha|Ha].
  - rewrite (copied_in m) by done. destruct (decide (a = d - 1)) as [->|].
    + rewrite copied_out, store_eq by (lia || apply Hm). f_equal. lia.
    + rewrite copied_in, store_ne by lia. f_equal. lia.
  - rewrite !copied_out, store_ne by lia. done.
Qed.

(** C34. [memmove] is correct for overlapping regions: every byte of the
    destination gets the value the corresponding source byte had before the
    call, and no other byte changes. *)
Theorem memmove_overlap m dst src n a :
  is_mem m -> 0 <= dst -> 0 <= src -> 0 <= n -> dst + n < 2 ^ 32 -> src + n < 2 ^ 32 ->
  memmove m dst src n a = if bool_decide (dst <= a < dst + n) then m (src + (a - dst)) else m a.
Proof.
  intros Hm Hd Hs Hn Hdn Hsn. change (memmove m dst src n a = copied m dst src n a).
  unfold memmove. rewrite !u32_small by lia.
  destruct (Z.ltb_spec src dst), (Z.ltb_spec dst (src + n)); cbn [andb];
    rewrite ?copy_up_spec, ?copy_down_spec by (done || lia); rewrite ?Z2Nat.id by lia; try done.
  f_equal; lia.
Qed.

Definition demo_mem : mem := fun a => a mod 256.

Lemma memmove_overlap_witness :
  memmove demo_mem 102 100 5 104 = demo_mem 102 /\
  memmove demo_mem 102 100 5 104 =
    if bool_decide (102 <= 104 < 102 + 5) then demo_mem (100 + (104 - 102)) else demo_mem 104.
Proof.
  split; [vm_compute; reflexivity|].
  apply memmove_overlap; try lia. intros a. unfold demo_mem, is_byte.
  pose proof (Z.mod_pos_bound a 256). lia.
Defined.

Lemma stosb_spec m a c n x :
  0 <= a -> a + Z.of_nat n < 2 ^ 32 ->
  stosb m a c n x = if bool_decide (a <= x < a + Z.of_nat n) then u8 c else m x.
Proof.
  revert m a. induction n as [|n IH]; intros m a Ha Hn; cbn [stosb].
  { by rewrite bool_decide_false by lia. }
  rewrite u32_small, IH by lia. repeat case_bool_decide; try lia; try done.
  - unfold store. assert (x = a) as -> by lia. apply fupd_eq.
  - apply store_ne. lia.
Qed.

(** The word [stosl] stores consists of four copies of the byte. *)
Definition word_ok (c : Z) : bool :=
  let v := u32 (Z.lor (Z.lor (Z.lor (Z.shiftl c 24) (Z.shiftl c 16)) (Z.shiftl c 8)) c) in
  (u8 v =? c) && (u8 (Z.shiftr v 8) =? c) && (u8 (Z.shiftr v 16) =? c) && (u8 (Z.shiftr v 24) =? c).

Lemma word_ok_all : forallb word_ok (seqZ 0 256) = true.
Proof. vm_compute. reflexivity. Qed.

Lemma word_bytes c : 0 <= c < 256 ->
  let v := u32 (Z.lor (Z.lor (Z.lor (Z.shiftl c 24) (Z.shiftl c 16)) (Z.shiftl c 8)) c) in
  u8 v = c /\ u8 (Z.shiftr v 8) = c /\ u8 (Z.shiftr v 16) = c /\ u8 (Z.shiftr v 24) = c.
Proof.
  intros Hc. pose proof (proj1 (forallb_forall _ _) word_ok_all c) as H.
  assert (word_ok c = true) as E.
  { apply H. apply list_elem_of_In, elem_of_seqZ. lia. }
  unfold word_ok in E. cbv zeta in E |- *. rewrite !andb_true_iff, !Z.eqb_eq in E. naive_solver.
Qed.

Lemma stosl_spec m a v c n x :
  u8 v = c -> u8 (Z.shiftr v 8) = c -> u8 (Z.shiftr v 16) = c -> u8 (Z.shiftr v 24) = c ->
  0 <= a -> a + 4 * Z.of_nat n < 2 ^ 32 ->
  stosl m a v n x = if bool_decide (a <= x < a + 4 * Z.of_nat n) then c else m x.
Proof.
  intros H0 H1 H2 H3. revert m a. induction n as [|n IH]; intros m a Ha Hn; cbn [stosl].
  { by rewrite bool_decide_false by lia. }
  rewrite u32_small, IH by lia. unfold store32, store, fupd. rewrite !u32_small, H0, H1, H2, H3 by lia.
  repeat case_bool_decide; repeat case_decide; lia || done.
Qed.

(** [memset] stores the low byte of [c] in the [n] bytes at [dst] and
    nowhere else, whether it goes by words or by bytes. *)
Theorem memset_fills m dst c n x :
  0 <= dst -> 0 <= n -> dst + n < 2 ^ 32 ->
  memset m dst c n x = if bool_decide (dst <= x < dst + n) then u8 c else m x.
Proof.
  intros Hd Hn Hdn. unfold memset. destruct (_ && (n mod 4 =? 0)) eqn:E.
  - apply andb_true_iff in E as [_ E%Z.eqb_eq]. pose proof (Z.div_mod n 4).
    assert (Z.land c 255 = u8 c) as -> by (apply (Z.land_ones c 8); lia).
    pose proof (Z.mod_pos_bound c (2 ^ 8)) as Hc.
    destruct (word_bytes (u8 c)) as (H0 & H1 & H2 & H3); [unfold u8; lia|].
    rewrite (stosl_spec _ _ _ (u8 c)) by (done || lia).
    by replace (4 * Z.of_nat (Z.to_nat (n / 4))) with n by lia.
  - rewrite stosb_spec by lia. by rewrite Z2Nat.id by lia.
Qed.

Lemma memset_fills_witness :
  memset demo_mem 100 300 8 103 = 44 /\
  memset demo_mem 100 300 8 103 = if bool_decide (100 <= 103 < 100 + 8) then u8 300 else demo_mem 103.
Proof. split; [vm_compute; reflexivity|]. apply memset_fills; lia. Defined.

Lemma strncmp_eq p q n : strncmp p q n = 0 <-> cstr (take n p) = cstr (take n q).
Proof.
  revert p q. induction n as [|n IH]; intros p q; [done|]. cbn [strncmp].
  destruct p as [|a p], q as [|b q]; cbn [chr hd tail take firstn cstr].
  - done.
  - destruct (Z.eqb_spec b 0); cbn; [subst; done|]. split; [lia|done].
  - destruct (Z.eqb_spec a 0); cbn; [subst; done|]. destruct (Z.eqb_spec a 0); [done|]. split; [lia|done].
  - destruct (Z.eqb_spec a 0) as [->|Ha]; cbn [negb andb].
    + destruct (Z.eqb_spec b 0) as [->|Hb]; [done|]. split; [lia|done].
    + destruct (Z.eqb_spec a b) as [->|Hab].
      * destruct (Z.eqb_spec b 0); [done|]. rewrite IH. change (firstn n) with (@take Z n). split; [congruence|].
        by intros [= ?].
      * destruct (Z.eqb_spec b 0); (split; [lia|congruence]).
Qed.

Lemma strncpy_length t n : length (strncpy t n) = n.
Proof.
  revert t. induction n as [|n IH]; intros t; [done|]. cbn [strncpy length].
  destruct (_ =? 0); [|by rewrite IH]. by rewrite length_replicate.
Qed.

Lemma cstr_strncpy t n : cstr (strncpy t n) = cstr (take n t).
Proof.
  revert t. induction n as [|n IH]; intros t; [done|]. cbn [strncpy cstr].
  destruct t as [|a t]; cbn; [done|]. destruct (a =? 0); [done|]. f_equal. apply IH.
Qed.

Lemma safestrcpy_loop_length t n : (length (safestrcpy_loop t n) <= n)%nat.
Proof.
  revert t. induction n as [|n IH]; intros t; [done|]. cbn [safestrcpy_loop length].
  destruct (_ =? 0); cbn; [lia|]. specialize (IH (tail t)). lia.
Qed.

Lemma cstr_safestrcpy_loop t n : cstr (safestrcpy_loop t n ++ [0]) = take n (cstr t).
Proof.
  revert t. induction n as [|n IH]; intros t; [by destruct (cstr t)|]. cbn [safestrcpy_loop app].
  destruct t as [|a t]; cbn [chr hd tail cstr]; [done|]. destruct (a =? 0) eqn:E; [done|].
  cbn. f_equal. apply IH.
Qed.

(** [safestrcpy] never writes outside the [n] bytes of its buffer, and the
    buffer then holds the string, cut to [n - 1] characters, with its NUL. *)
Theorem safestrcpy_terminates_string t n :
  0 < n -> Z.of_nat (length (safestrcpy t n)) <= n /\ last (safestrcpy t n) = Some 0 /\
    cstr (safestrcpy t n) = take (Z.to_nat (n - 1)) (cstr t).
Proof.
  intros Hn. unfold safestrcpy. destruct (Z.leb_spec n 0); [lia|]. split_and!.
  - rewrite length_app. pose proof (safestrcpy_loop_length t (Z.to_nat (n - 1))). cbn. lia.
  - apply last_snoc.
  - apply cstr_safestrcpy_loop.
Qed.

Lemma safestrcpy_witness :
  safestrcpy (str "init") 3 = [105; 110; 0] /\
  Z.of_nat (length (safestrcpy (str "init") 3)) <= 3 /\ last (safestrcpy (str "init") 3) = Some 0 /\
    cstr (safestrcpy (str "init") 3) = take (Z.to_nat (3 - 1)) (cstr (str "init")).
Proof. split; [vm_compute; reflexivity|]. apply safestrcpy_terminates_string. lia. Defined.
