(* ===== verification/Fs.v ===== *)
(** * The file system (kernel/fs.c, kernel/device.c)

    The five layers of fs.c: block allocation, the inode cache, inode contents,
    directories and path names, over the log and the buffer cache. Inodes are
    indices into [icache.inode]. Calls through the device table, and the
    [exit] of [device_get], leave the file system: they go through the class
    [DevOps]. *)

From stdpp Require Import prelude gmap strings.
From S2P Require Import Prelude Kernel Spinlock Sched Bio Cache Log StringC.

Definition inode_eta (p : inode) : inode :=
  Inode (i_dev p) (i_inum p) (i_ref p) (i_flags p) (i_uid p) (i_type p) (i_major p)
    (i_minor p) (i_nlink p) (i_size p) (i_addrs p).
Definition set_idev (f : Z -> Z) (p : inode) : inode := ltac:(setfield inode_eta i_dev f p).
Definition set_inum (f : Z -> Z) (p : inode) : inode := ltac:(setfield inode_eta i_inum f p).
Definition set_iref (f : Z -> Z) (p : inode) : inode := ltac:(setfield inode_eta i_ref f p).
Definition set_iflags (f : Z -> Z) (p : inode) : inode := ltac:(setfield inode_eta i_flags f p).
Definition set_iuid (f : Z -> Z) (p : inode) : inode := ltac:(setfield inode_eta i_uid f p).
Definition set_itype (f : Z -> Z) (p : inode) : inode := ltac:(setfield inode_eta i_type f p).
Definition set_imajor (f : Z -> Z) (p : inode) : inode := ltac:(setfield inode_eta i_major f p).
Definition set_iminor (f : Z -> Z) (p : inode) : inode := ltac:(setfield inode_eta i_minor f p).
Definition set_nlink (f : Z -> Z) (p : inode) : inode := ltac:(setfield inode_eta i_nlink f p).
Definition set_isize (f : Z -> Z) (p : inode) : inode := ltac:(setfield inode_eta i_size f p).
Definition set_addrs (f : list Z -> list Z) (p : inode) : inode :=
  ltac:(setfield inode_eta i_addrs f p).

Definition inode0 : inode := Inode 0 0 0 0 0 0 0 0 0 0 (replicate 13 0).
#[export] Instance inode_inhabited : Inhabited inode := populate inode0.

Definition geti (i : nat) : K inode := gets (fun s => k_icache s !!! i).
Definition seti (i : nat) (f : inode -> inode) : K unit := modify (set_icache (alter f i)).

(** What the file system calls through function pointers. *)
Class DevOps := {
  dev_read : devfn -> nat -> Z -> K (Z * bytes);
  dev_write : devfn -> nat -> bytes -> Z -> K Z;
  dev_exit : Z -> K unit
}.

(** ** Layout of the disk (include/fs.h) *)

Definition IPB : Z := BSIZE / 64.
Definition BPB : Z := BSIZE * 8.
Definition IBLOCK (i : Z) : Z := u32 (i / IPB + 2).
Definition BBLOCK (b ninodes : Z) : Z := u32 (b / BPB + ninodes / IPB + 3).

(** [struct dinode]: 64 bytes. *)
Definition dinode_enc (d : dinode) : bytes :=
  le_bytes 2 (d_type d) ++ le_bytes 2 (d_major d) ++ le_bytes 2 (d_minor d) ++
  le_bytes 2 (d_nlink d) ++ le_bytes 4 (d_size d) ++ concat (le_bytes 4 <$> d_addrs d).

Definition dinode_dec (l : bytes) : dinode :=
  Dinode (s16 (get16 l 0)) (s16 (get16 l 2)) (s16 (get16 l 4)) (s16 (get16 l 6)) (get32 l 8)
    ((fun k => get32 l (12 + 4 * k)) <$> seq 0 13).

(** The byte offset of inode [inum] in its block. *)
Definition dip_off (inum : Z) : nat := Z.to_nat (inum mod IPB * 64).

(** [struct dirent]: a 16-bit inode number and [DIRSIZ] bytes of name. *)
Definition dirent_enc (d : dirent) : bytes := le_bytes 2 (de_inum d) ++ de_name d.
Definition dirent_dec (l : bytes) : dirent := Dirent (get16 l 0) (slice l 2 DIRSIZ).
Definition DESZ : Z := 16.

(** ** Blocks *)

Definition bzero (dev bno : Z) : K unit :=
  bp <- bread dev (u32 bno) ;;
  setdata bp (replicate 512 0) ;;
  log_write bp ;;
  brelse bp.

(** Bit [bi] of a bitmap block. *)
Definition bit_of (bi : Z) : Z := Z.shiftl 1 (bi mod 8).
Definition byte_at (d : bytes) (bi : Z) : Z := d !!! Z.to_nat (bi / 8).
Definition bit_set (d : bytes) (bi : Z) : bool := negb (Z.land (byte_at d bi) (bit_of bi) =? 0).

(** The inner loop of [balloc]: the first clear bit, [n] bits from [bi] on. *)
Fixpoint balloc_scan (d : bytes) (b size : Z) (n : nat) (bi : Z) : option Z :=
  match n with
  | O => None
  | S n =>
    if b + bi <? size then
      if negb (bit_set d bi) then Some bi else balloc_scan d b size n (bi + 1)
    else None
  end.

(** The outer loop; [n] bounds the number of bitmap blocks. *)
Fixpoint balloc_loop (dev : Z) (sb : superblock) (n : nat) (b : Z) : K Z :=
  match n with
  | O => fun _ => NoFuel
  | S n =>
    if b <? sb_size sb then
      bp <- bread dev (BBLOCK b (sb_ninodes sb)) ;;
      d <- getdata bp ;;
      match balloc_scan d b (sb_size sb) (Z.to_nat BPB) 0 with
      | Some bi =>
        setdata bp (<[Z.to_nat (bi / 8) := u8 (Z.lor (byte_at d bi) (bit_of bi))]> d) ;;
        log_write bp ;;
        brelse bp ;;
        bzero dev (b + bi) ;;
        ret (b + bi)
      | None =>
        brelse bp ;;
        balloc_loop dev sb n (b + BPB)
      end
    else panic "balloc: out of blocks"
  end.

Definition balloc (dev : Z) : K Z :=
  sb <- readsb dev ;;
  balloc_loop dev sb (Z.to_nat (sb_size sb / BPB + 2)) 0.

Definition bfree (dev b : Z) : K unit :=
  sb <- readsb dev ;;
  bp <- bread (u32 dev) (BBLOCK b (sb_ninodes sb)) ;;
  d <- getdata bp ;;
  let bi := b mod BPB in
  if negb (bit_set d bi) then panic "freeing free block" else
  setdata bp (<[Z.to_nat (bi / 8) := u8 (Z.land (byte_at d bi) (Z.lnot (bit_of bi)))]> d) ;;
  log_write bp ;;
  brelse bp.

(** ** Inodes *)

Definition iinit : K unit := initlock LIcache.

(** [iget]: the referenced entry of the inode, or the first unused one. *)
Definition iget (dev inum : Z) : K nat :=
  acquire LIcache ;;
  ic <- gets k_icache ;;
  match List.find (fun i => let ip := ic !!! i in
          (0 <? i_ref ip) && (i_dev ip =? dev) && (i_inum ip =? inum)) (seq 0 NINODE) with
  | Some i =>
    seti i (set_iref (fun r => r + 1)) ;;
    release LIcache ;;
    ret i
  | None =>
    match List.find (fun i => i_ref (ic !!! i) =? 0) (seq 0 NINODE) with
    | None => panic "iget: no inodes"
    | Some i =>
      seti i (set_idev (fun _ => dev)) ;;
      seti i (set_inum (fun _ => inum)) ;;
      seti i (set_iref (fun _ => 1)) ;;
      seti i (set_iflags (fun _ => 0)) ;;
      release LIcache ;;
      ret i
    end
  end.

Definition dinode0 (type : Z) : dinode := Dinode type 0 0 0 0 (replicate 13 0).

(** [n] is the number of inodes left to look at. *)
Fixpoint ialloc_loop (dev type : Z) (n : nat) (inum : Z) : K nat :=
  match n with
  | O => panic "ialloc: no inodes"
  | S n =>
    bp <- bread dev (IBLOCK inum) ;;
    d <- getdata bp ;;
    if s16 (get16 d (dip_off inum)) =? 0 then
      setdata bp (splice d (dip_off inum) (dinode_enc (dinode0 type))) ;;
      log_write bp ;;
      brelse bp ;;
      iget dev inum
    else
      brelse bp ;;
      ialloc_loop dev type n (inum + 1)
  end.

Definition ialloc (dev type : Z) : K nat :=
  sb <- readsb dev ;;
  ialloc_loop dev type (Z.to_nat (sb_ninodes sb - 1)) 1.

Definition dinode_of (ip : inode) : dinode :=
  Dinode (i_type ip) (i_major ip) (i_minor ip) (i_nlink ip) (i_size ip) (i_addrs ip).

Definition iupdate (i : nat) : K unit :=
  ip <- geti i ;;
  bp <- bread (i_dev ip) (IBLOCK (i_inum ip)) ;;
  d <- getdata bp ;;
  ip <- geti i ;;
  setdata bp (splice d (dip_off (i_inum ip)) (dinode_enc (dinode_of ip))) ;;
  log_write bp ;;
  brelse bp.

Definition idup (i : nat) : K nat :=
  acquire LIcache ;;
  seti i (set_iref (fun r => r + 1)) ;;
  release LIcache ;;
  ret i.

Definition load_dinode (d : dinode) (ip : inode) : inode :=
  Inode (i_dev ip) (i_inum ip) (i_ref ip) (i_flags ip) (i_uid ip)
    (d_type d) (d_major d) (d_minor d) (d_nlink d) (d_size d) (d_addrs d).

Definition ilock (i : nat) : K unit :=
  ip <- geti i ;;
  if i_ref ip <? 1 then panic "ilock" else
  acquire LIcache ;;
  ip <- geti i ;;
  when has (i_flags ip) I_BUSY do sleep (CInode i) LIcache ;;
  seti i (set_iflags (fun fl => setf fl I_BUSY)) ;;
  release LIcache ;;
  ip <- geti i ;;
  if negb (has (i_flags ip) I_VALID) then
    bp <- bread (i_dev ip) (IBLOCK (i_inum ip)) ;;
    d <- getdata bp ;;
    seti i (load_dinode (dinode_dec (slice d (dip_off (i_inum ip)) 64))) ;;
    brelse bp ;;
    seti i (set_iflags (fun fl => setf fl I_VALID)) ;;
    ip <- geti i ;;
    if i_type ip =? 0 then panic "ilock: no type" else ret tt
  else ret tt.

Definition iunlock (i : nat) : K unit :=
  ip <- geti i ;;
  if negb (has (i_flags ip) I_BUSY) || (i_ref ip <? 1) then panic "iunlock" else
  acquire LIcache ;;
  seti i (set_iflags (fun fl => clrf fl I_BUSY)) ;;
  wakeup (CInode i) ;;
  release LIcache.

(** ** Contents *)

(** [a[j]] of an indirect block. *)
Definition ind_get (d : bytes) (j : Z) : Z := get32 d (Z.to_nat (4 * j)).

Definition addr_get (i : nat) (k : Z) : K Z :=
  ip <- geti i ;; ret (i_addrs ip !!! Z.to_nat k).
Definition addr_set (i : nat) (k v : Z) : K unit :=
  seti i (set_addrs (<[Z.to_nat k := v]>)).

(** [if((addr = ip->addrs[k]) == 0) ip->addrs[k] = addr = balloc(ip->dev)] *)
Definition addr_alloc (i : nat) (k : Z) : K Z :=
  addr <- addr_get i k ;;
  if addr =? 0 then
    ip <- geti i ;;
    addr <- balloc (i_dev ip) ;;
    addr_set i k addr ;;
    ret addr
  else ret addr.

Definition bmap (i : nat) (bn : Z) : K Z :=
  if bn <? NDIRECT then addr_alloc i bn
  else
    let bn := bn - NDIRECT in
    if bn <? NINDIRECT then
      addr <- addr_alloc i NDIRECT ;;
      ip <- geti i ;;
      bp <- bread (i_dev ip) addr ;;
      d <- getdata bp ;;
      addr <- (if ind_get d bn =? 0 then
                 addr <- balloc (i_dev ip) ;;
                 d <- getdata bp ;;
                 setdata bp (put32 d (Z.to_nat (4 * bn)) addr) ;;
                 log_write bp ;;
                 ret addr
               else ret (ind_get d bn)) ;;
      brelse bp ;;
      ret addr
    else panic "bmap: out of range".

(** [for(i = 0; i < NDIRECT; i++)] of [itrunc]. *)
Fixpoint itrunc_direct (i : nat) (n : nat) (k : Z) : K unit :=
  match n with
  | O => ret tt
  | S n =>
    addr <- addr_get i k ;;
    (if cbool addr then
       ip <- geti i ;;
       bfree (i_dev ip) addr ;;
       addr_set i k 0
     else ret tt) ;;
    itrunc_direct i n (k + 1)
  end.

(** [for(j = 0; j < NINDIRECT; j++)]: the entries are read from the buffer. *)
Fixpoint itrunc_indirect (i : nat) (bp : nat) (n : nat) (j : Z) : K unit :=
  match n with
  | O => ret tt
  | S n =>
    d <- getdata bp ;;
    (if cbool (ind_get d j) then ip <- geti i ;; bfree (i_dev ip) (ind_get d j) else ret tt) ;;
    itrunc_indirect i bp n (j + 1)
  end.

Definition itrunc (i : nat) : K unit :=
  itrunc_direct i (Z.to_nat NDIRECT) 0 ;;
  addr <- addr_get i NDIRECT ;;
  (if cbool addr then
     ip <- geti i ;;
     bp <- bread (i_dev ip) addr ;;
     itrunc_indirect i bp (Z.to_nat NINDIRECT) 0 ;;
     brelse bp ;;
     bfree (i_dev ip) addr ;;
     addr_set i NDIRECT 0
   else ret tt) ;;
  seti i (set_isize (fun _ => 0)) ;;
  iupdate i.

Definition iput (i : nat) : K unit :=
  acquire LIcache ;;
  ip <- geti i ;;
  (if (i_ref ip =? 1) && has (i_flags ip) I_VALID && (i_nlink ip =? 0) then
     if has (i_flags ip) I_BUSY then panic "iput busy" else
     seti i (set_iflags (fun fl => setf fl I_BUSY)) ;;
     release LIcache ;;
     itrunc i ;;
     seti i (set_itype (fun _ => 0)) ;;
     iupdate i ;;
     acquire LIcache ;;
     seti i (set_iflags (fun _ => 0)) ;;
     wakeup (CInode i)
   else ret tt) ;;
  seti i (set_iref (fun r => r - 1)) ;;
  release LIcache.

Definition iunlockput (i : nat) : K unit := iunlock i ;; iput i.

Record stat := Stat { st_type : Z; st_dev : Z; st_ino : Z; st_nlink : Z; st_size : Z }.

Definition stati (i : nat) : K stat :=
  ip <- geti i ;;
  ret (Stat (i_type ip) (s32 (i_dev ip)) (i_inum ip) (i_nlink ip) (i_size ip)).

Section devices.
Context `{DO : DevOps}.

(** [device_get] of device.c; the table has [NDEV] entries. *)
Definition device_get (id : Z) : K device :=
  d <- gets (fun s => k_devs s !! Z.to_nat id) ;;
  match d with
  | None => fault
  | Some d => when dv_enabled d =? 0 do dev_exit 0 ;; ret d
  end.

(** The loop of [readi]; the bytes copied to [dst] are returned. *)
Fixpoint readi_loop (i : nat) (fuel : nat) (tot off n : Z) : K bytes :=
  if tot <? n then
    match fuel with
    | O => fun _ => NoFuel
    | S fuel =>
      bn <- bmap i (off / BSIZE) ;;
      ip <- geti i ;;
      bp <- bread (i_dev ip) bn ;;
      let m := Z.min (n - tot) (BSIZE - off mod BSIZE) in
      d <- getdata bp ;;
      brelse bp ;;
      rest <- readi_loop i fuel (tot + m) (u32 (off + m)) n ;;
      ret (slice d (Z.to_nat (off mod BSIZE)) (Z.to_nat m) ++ rest)
    end
  else ret [].

(** Each round but the first starts at a block boundary, so a transfer of
    [n] bytes takes at most this many rounds. *)
Definition rounds (n : Z) : nat := Z.to_nat (n / BSIZE + 2).

(** [readi]: the result and the bytes stored at [dst]. *)
Definition readi (i : nat) (off n : Z) : K (Z * bytes) :=
  ip <- geti i ;;
  if i_type ip =? T_DEV then
    if (i_major ip <? 0) || (NDEV <=? i_major ip) then ret (-1, []) else
    d <- device_get (i_major ip) ;;
    match dv_read d with
    | None => ret (-1, [])
    | Some f => _ <- device_get (i_major ip) ;; dev_read f i (s32 n)
    end
  else
    if (i_size ip <? off) || (u32 (off + n) <? off) then ret (-1, []) else
    let n := if i_size ip <? u32 (off + n) then u32 (i_size ip - off) else n in
    d <- readi_loop i (rounds n) 0 off n ;;
    ret (s32 n, d).

(** The loop of [writei] returns the final offset. *)
Fixpoint writei_loop (i : nat) (src : bytes) (fuel : nat) (tot off n : Z) : K Z :=
  if tot <? n then
    match fuel with
    | O => fun _ => NoFuel
    | S fuel =>
      bn <- bmap i (off / BSIZE) ;;
      ip <- geti i ;;
      bp <- bread (i_dev ip) bn ;;
      let m := Z.min (n - tot) (BSIZE - off mod BSIZE) in
      d <- getdata bp ;;
      setdata bp (splice d (Z.to_nat (off mod BSIZE)) (slice src (Z.to_nat tot) (Z.to_nat m))) ;;
      log_write bp ;;
      brelse bp ;;
      writei_loop i src fuel (tot + m) (u32 (off + m)) n
    end
  else ret off.

Definition writei (i : nat) (src : bytes) (off n : Z) : K Z :=
  ip <- geti i ;;
  if i_type ip =? T_DEV then
    if (i_major ip <? 0) || (NDEV <=? i_major ip) then ret (-1) else
    d <- device_get (i_major ip) ;;
    match dv_write d with
    | None => ret (-1)
    | Some f => _ <- device_get (i_major ip) ;; dev_write f i src (s32 n)
    end
  else
    if (i_size ip <? off) || (u32 (off + n) <? off) then ret (-1) else
    if MAXFILE * BSIZE <? u32 (off + n) then ret (-1) else
    off <- writei_loop i src (rounds n) 0 off n ;;
    ip <- geti i ;;
    (if (0 <? n) && (i_size ip <? off) then
       seti i (set_isize (fun _ => off)) ;;
       iupdate i
     else ret tt) ;;
    ret (s32 n).
End devices.

(** ** Directories *)

Definition namecmp (s t : bytes) : Z := strncmp s t DIRSIZ.

Section directories.
Context `{DO : DevOps}.

(** [readi(dp, &de, off, sizeof(de))] and the test of its result. *)
Definition read_dirent (dp : nat) (off : Z) : K dirent :=
  ' (r, d) <- readi dp off DESZ ;;
  if negb (r =? DESZ) then panic "dirlink read" else ret (dirent_dec d).

(** The entries from [off] on; the result is an inode and [*poff]. *)
Fixpoint dirlookup_loop (dp : nat) (name : bytes) (fuel : nat) (off : Z) : K (option (nat * Z)) :=
  ip <- geti dp ;;
  if off <? i_size ip then
    match fuel with
    | O => fun _ => NoFuel
    | S fuel =>
      de <- read_dirent dp off ;;
      if de_inum de =? 0 then dirlookup_loop dp name fuel (u32 (off + DESZ)) else
      if namecmp name (de_name de) =? 0 then
        ip <- geti dp ;;
        i <- iget (i_dev ip) (de_inum de) ;;
        ret (Some (i, off))
      else dirlookup_loop dp name fuel (u32 (off + DESZ))
    end
  else ret None.

(** A directory of [n] bytes has at most this many entries. *)
Definition entries (n : Z) : nat := Z.to_nat (n / DESZ + 1).

Definition dirlookup (dp : nat) (name : bytes) : K (option (nat * Z)) :=
  ip <- geti dp ;;
  if negb (i_type ip =? T_DIR) then panic "dirlookup not DIR" else
  dirlookup_loop dp name (entries (i_size ip)) 0.

(** The offset of the first free entry, or the end of the directory. *)
Fixpoint dirlink_loop (dp : nat) (fuel : nat) (off : Z) : K Z :=
  ip <- geti dp ;;
  if off <? i_size ip then
    match fuel with
    | O => fun _ => NoFuel
    | S fuel =>
      de <- read_dirent dp off ;;
      if de_inum de =? 0 then ret off else dirlink_loop dp fuel (off + DESZ)
    end
  else ret off.

Definition dirlink (dp : nat) (name : bytes) (inum : Z) : K Z :=
  r <- dirlookup dp name ;;
  match r with
  | Some (ip, _) => iput ip ;; ret (-1)
  | None =>
    ip <- geti dp ;;
    off <- dirlink_loop dp (entries (i_size ip)) 0 ;;
    r <- writei dp (dirent_enc (Dirent inum (strncpy name DIRSIZ))) off DESZ ;;
    if negb (r =? DESZ) then panic "dirlink" else ret 0
  end.
End directories.

(** ** Paths *)

Definition SLASH : Z := 47.

Fixpoint skip_slashes (p : bytes) : bytes :=
  match p with
  | c :: q => if c =? SLASH then skip_slashes q else p
  | [] => []
  end.

(** The element [*path != '/' && *path != 0] and what follows it. *)
Fixpoint span_elem (p : bytes) : bytes * bytes :=
  match p with
  | c :: q =>
    if negb (c =? SLASH) && negb (c =? 0) then let '(e, r) := span_elem q in (c :: e, r) else ([], p)
  | [] => ([], [])
  end.

(** The rest of the path and the element as [name] then holds it: its first
    [DIRSIZ] bytes, with a NUL behind a shorter one. *)
Definition skipelem (path : bytes) : option (bytes * bytes) :=
  let path := skip_slashes path in
  if chr path =? 0 then None else
  let '(e, r) := span_elem path in
  Some (skip_slashes r, take DIRSIZ e).

Section paths.
Context `{DO : DevOps}.

Fixpoint namex_loop (fuel : nat) (ip : nat) (path : bytes) (nameiparent : bool) (name : bytes)
  : K (option nat * bytes) :=
  match skipelem path with
  | None =>
    if nameiparent then iput ip ;; ret (None, name) else ret (Some ip, name)
  | Some (path, name) =>
    match fuel with
    | O => fun _ => NoFuel
    | S fuel =>
      ilock ip ;;
      p <- geti ip ;;
      if negb (i_type p =? T_DIR) then iunlockput ip ;; ret (None, name) else
      if nameiparent && (chr path =? 0) then iunlock ip ;; ret (Some ip, name) else
      r <- dirlookup ip name ;;
      match r with
      | None => iunlockput ip ;; ret (None, name)
      | Some (next, _) => iunlockput ip ;; namex_loop fuel next path nameiparent name
      end
    end
  end.

Definition namex (path : bytes) (nameiparent : bool) : K (option nat * bytes) :=
  ip <- (if chr path =? SLASH then iget ROOTDEV ROOTINO
         else
           p <- myproc ;;
           p <- getp p ;;
           match p_cwd p with Some cwd => idup cwd | None => fault end) ;;
  namex_loop (length path) ip path nameiparent [].

Definition namei (path : bytes) : K (option nat) :=
  ' (ip, _) <- namex path false ;; ret ip.

Definition nameiparent (path : bytes) : K (option nat * bytes) := namex path true.
End paths.
