(* ===== verification/FsLayout.v ===== *)
(** * The on-disk structures (include/fs.h)

    Inodes and directory entries as bytes: what the kernel writes is what it
    reads back, and what it reads and writes back is unchanged. *)

From stdpp Require Import prelude gmap strings.
From S2P Require Import Prelude Kernel Spinlock Sched Bio Cache Log StringC Fs.

(** Consecutive 32-bit words. *)
Lemma length_words l : length (concat (le_bytes 4 <$> l)) = (4 * length l)%nat.
Proof.
  induction l as [|a l IH]; [done|]. rewrite fmap_cons, concat_cons, length_app, length_le_bytes, IH. cbn. lia.
Qed.

Lemma slice_word l k x : l !! k = Some x -> slice (concat (le_bytes 4 <$> l)) (4 * k) 4 = le_bytes 4 x.
Proof.
  revert k. induction l as [|a l IH]; intros k Hk; [done|]. rewrite fmap_cons, concat_cons. destruct k as [|k].
  - injection Hk as ->. rewrite slice_app_l by (by rewrite length_le_bytes).
    pose proof (slice_full (le_bytes 4 x)) as E. by rewrite length_le_bytes in E.
  - rewrite slice_app_r by (rewrite length_le_bytes; lia). rewrite length_le_bytes.
    replace (4 * S k - 4)%nat with (4 * k)%nat by lia. by apply IH.
Qed.

Lemma words_of (l : bytes) n : Forall is_byte l -> length l = (4 * n)%nat ->
  concat (le_bytes 4 <$> ((fun k => get32 l (4 * k)) <$> seq 0 n)) = l.
Proof.
  revert l. induction n as [|n IH]; intros l Hb Hl.
  { symmetry. apply length_zero_iff_nil. lia. }
  cbn [seq]. rewrite !fmap_cons, concat_cons. transitivity (take 4 l ++ drop 4 l); [|apply take_drop]. f_equal.
  - unfold get32. change (slice l (4 * 0) 4) with (take 4 l).
    assert (length (take 4 l) = 4%nat) as E by (rewrite length_take; lia). rewrite <- E at 1.
    apply le_bytes_val. by apply Forall_take.
  - etrans; [|apply (IH (drop 4 l)); [by apply Forall_drop|rewrite length_drop; lia]].
    assert ((fun k => get32 l (4 * k)) <$> seq 1 n = (fun k => get32 (drop 4 l) (4 * k)) <$> seq 0 n) as ->; [|done].
    rewrite <- fmap_S_seq, <- list_fmap_compose. apply list_fmap_ext. intros i k _.
    unfold get32, slice, compose. rewrite drop_drop. do 3 f_equal. lia.
Qed.

Lemma length_dinode_enc d : length (d_addrs d) = 13%nat -> length (dinode_enc d) = 64%nat.
Proof. intros Hl. unfold dinode_enc. rewrite !length_app, !length_le_bytes, length_words, Hl. done. Qed.

(** The fields of an encoded inode. *)
Lemma dec_enc_size d : 0 <= d_size d < 2 ^ 32 -> d_size (dinode_dec (dinode_enc d)) = d_size d.
Proof.
  intros Hr. cbn [d_size dinode_dec]. unfold get32. change (slice (dinode_enc d) 8 4) with (le_bytes 4 (d_size d)).
  rewrite le_val_bytes. by apply Z.mod_small.
Qed.

Lemma dec_enc_addrs d : length (d_addrs d) = 13%nat -> Forall (fun a => 0 <= a < 2 ^ 32) (d_addrs d) ->
  d_addrs (dinode_dec (dinode_enc d)) = d_addrs d.
Proof.
  intros Hl Hr. cbn [d_addrs dinode_dec]. apply list_eq. intros k. rewrite list_lookup_fmap.
  destruct (decide (k < 13)%nat) as [Hk|Hk].
  - rewrite lookup_seq_lt by done. cbn [fmap option_fmap option_map].
    destruct (lookup_lt_is_Some_2 (d_addrs d) k ltac:(lia)) as [a Ha]. rewrite Ha. f_equal.
    unfold get32. change (dinode_enc d) with
      ((le_bytes 2 (d_type d) ++ le_bytes 2 (d_major d) ++ le_bytes 2 (d_minor d) ++ le_bytes 2 (d_nlink d) ++
        le_bytes 4 (d_size d)) ++ concat (le_bytes 4 <$> d_addrs d)).
    rewrite slice_app_r by (rewrite !length_app, !length_le_bytes; lia). rewrite !length_app, !length_le_bytes.
    replace (12 + 4 * (0 + k) - _)%nat with (4 * k)%nat by lia.
    rewrite (slice_word _ _ a), le_val_bytes by done. apply Z.mod_small. by eapply Forall_lookup_1 in Hr.
  - rewrite lookup_seq_ge by lia. symmetry. apply lookup_ge_None. lia.
Qed.

Lemma sgn_wrap w x y : 0 < w -> - 2 ^ (w - 1) <= x < 2 ^ (w - 1) -> y = x `mod` 2 ^ w -> sgn w y = x.
Proof.
  intros Hw Hx ->. unfold sgn. rewrite Zmod_mod.
  assert (2 ^ w = 2 * 2 ^ (w - 1)) as E by (rewrite <- Z.pow_succ_r by lia; f_equal; lia).
  destruct (decide (0 <= x)).
  - rewrite Z.mod_small by lia. destruct (Z.ltb_spec x (2 ^ (w - 1))); lia.
  - replace (x `mod` 2 ^ w) with (x + 2 ^ w).
    + destruct (Z.ltb_spec (x + 2 ^ w) (2 ^ (w - 1))); lia.
    + symmetry. rewrite <- (Z_mod_plus_full x 1), Z.mul_1_l. apply Z.mod_small. lia.
Qed.

Lemma sgn_bytes x : 0 <= x < 2 ^ 16 -> le_bytes 2 (s16 x) = le_bytes 2 x.
Proof.
  intros Hx. unfold s16, sgn. rewrite (Z.mod_small x) by lia. destruct (_ <? _); [done|].
  cbn [le_bytes]. replace (x - 2 ^ 16) with (x + (-256) * 256) by lia.
  rewrite Z_mod_plus_full, Z.div_add by lia. f_equal. f_equal.
  replace (x / 256 + -256) with (x / 256 + (-1) * 256) by lia. by rewrite Z_mod_plus_full.
Qed.

Lemma get16_bytes l o : Forall is_byte l -> (o + 2 <= length l)%nat -> le_bytes 2 (s16 (get16 l o)) = slice l o 2.
Proof.
  intros Hb Ho. pose proof (length_slice l o 2 Ho) as Hl.
  assert (Forall is_byte (slice l o 2)) as Hs by (unfold slice; by apply Forall_take, Forall_drop).
  pose proof (le_val_range _ Hs) as Hr. rewrite Hl in Hr. unfold get16. rewrite sgn_bytes by done.
  rewrite <- Hl at 1. by apply le_bytes_val.
Qed.

(** A [struct dinode] whose fields fit their types. *)
Record dinode_ok (d : dinode) : Prop := {
  dk_short : Forall (fun x => - 2 ^ 15 <= x < 2 ^ 15) [d_type d; d_major d; d_minor d; d_nlink d];
  dk_size : 0 <= d_size d < 2 ^ 32;
  dk_len : length (d_addrs d) = 13%nat;
  dk_addrs : Forall (fun a => 0 <= a < 2 ^ 32) (d_addrs d)
}.

Lemma dinode_eq a b : d_type a = d_type b -> d_major a = d_major b -> d_minor a = d_minor b ->
  d_nlink a = d_nlink b -> d_size a = d_size b -> d_addrs a = d_addrs b -> a = b.
Proof. destruct a, b. cbn. congruence. Qed.

Lemma dinode_dec_enc d : dinode_ok d -> dinode_dec (dinode_enc d) = d.
Proof.
  intros [Hs Hz Hl Ha]. pose proof (dec_enc_size d Hz) as Ez. pose proof (dec_enc_addrs d Hl Ha) as Ea.
  assert (forall x, - 2 ^ 15 <= x < 2 ^ 15 -> s16 (le_val (le_bytes 2 x)) = x) as E16.
  { intros x Hx. apply sgn_wrap; [done|done|]. apply le_val_bytes. }
  decompose_Forall_hyps. by apply dinode_eq; [apply (E16 (d_type d))|apply (E16 (d_major d))|
    apply (E16 (d_minor d))|apply (E16 (d_nlink d))|..].
Qed.

(** The inodes on the disk: encoding a [struct dinode] whose fields fit
    and decoding it gives the inode back, and decoding 64 bytes of an inode
    block and encoding the result gives the same bytes, so that [iupdate] of
    an inode that has not changed leaves its block as it was. *)
Theorem dinode_roundtrip :
  (forall d, dinode_ok d -> dinode_dec (dinode_enc d) = d) /\
  (forall l, Forall is_byte l -> length l = 64%nat -> dinode_enc (dinode_dec l) = l).
Proof.
  split.
  - apply dinode_dec_enc.
  - intros l Hb Hl. unfold dinode_enc, dinode_dec. cbn [d_type d_major d_minor d_nlink d_size d_addrs].
    rewrite !get16_bytes by (done || lia).
    assert (le_bytes 4 (get32 l 8) = slice l 8 4) as ->.
    { unfold get32. rewrite <- (length_slice l 8 4) at 1 by lia. apply le_bytes_val.
      unfold slice. by apply Forall_take, Forall_drop. }
    assert (concat (le_bytes 4 <$> ((fun k => get32 l (12 + 4 * k)) <$> seq 0 13)) = drop 12 l) as ->.
    { rewrite <- (words_of (drop 12 l) 13); [|by apply Forall_drop|rewrite length_drop; lia].
      do 2 f_equal. apply list_fmap_ext. intros i k _. unfold get32, slice. by rewrite drop_drop. }
    assert (forall o n m, m = (o + n)%nat -> slice l o n ++ drop m l = drop o l) as E.
    { intros o n m ->. unfold slice. rewrite <- drop_drop. apply take_drop. }
    by rewrite (E 8 4)%nat, (E 6 2)%nat, (E 4 2)%nat, (E 2 2)%nat, (E 0 2)%nat.
Qed.

(** A directory entry of the same kind. *)
Lemma dirent_dec_enc d : 0 <= de_inum d < 2 ^ 16 -> length (de_name d) = DIRSIZ -> dirent_dec (dirent_enc d) = d.
Proof.
  intros Hi Hl. destruct d as [n nm]. unfold dirent_dec, dirent_enc, get16. cbn [de_inum de_name] in *.
  change (slice (le_bytes 2 n ++ nm) 0 2) with (le_bytes 2 n). rewrite le_val_bytes, Z.mod_small by done. f_equal.
  rewrite slice_app_r by (by rewrite length_le_bytes). rewrite length_le_bytes, <- Hl. apply slice_full.
Qed.
