(* ===== verification/FsBlock.v ===== *)
(** * Blocks of the file system inside a transaction (kernel/fs.c)

    A client of the log inside a transaction sees the home sectors with their
    logical contents, the set of sectors whose buffers it holds, and the list
    of sectors the transaction has logged ([ses]). The first part restates the
    operations of the log and the cache in these terms, with the room they
    need in the log and in the cache; the second part specifies the block
    allocator of fs.c against the set of blocks the bitmap marks. *)

From stdpp Require Import prelude gmap strings.
From S2P Require Import Prelude Kernel Spinlock Sched Bio Cache Log StringC Fs.

(** [st] and [sz] are the start and the size of the log. *)
Record ses (st sz : Z) (s : kst) (H : gset Z) (V : Z -> bytes) (L : list Z) : Prop := {
  se_txn : txn s H ∅;
  se_start : lg_start (k_log s) = st;
  se_size : lg_size (k_log s) = sz;
  se_view : forall b, 0 <= b < st -> lview s b = V b;
  se_logged : logged s = L
}.

(** A transaction has begun. *)
Definition in_trans (s : kst) : Prop := cbool (lg_busy (k_log s)) = true.

Lemma lframe_in_trans s s' : lframe s s' -> in_trans s -> in_trans s'.
Proof. intros Hf. unfold in_trans. by rewrite (lf_busy _ _ Hf). Qed.

(** Held buffers stay held. *)
Definition still_holds (H : gset Z) (s s' : kst) : Prop :=
  forall i b, b ∈ H -> holds s i b -> holds s' i b.

Section session.
Context (st sz : Z).
Notation ses := (ses st sz).

(** There is room for another block in the log and for another buffer in the
    cache. *)
Definition roomy (H : gset Z) (L : list Z) : Prop :=
  (size H + length L < NBUF)%nat /\ Z.of_nat (length L) < sz - 1.

Lemma ses_n s H V L : ses s H V L -> lh_n (k_log s) = Z.of_nat (length L).
Proof. intros Hs. rewrite (txn_n _ _ _ (se_txn _ _ _ _ _ _ Hs)). by rewrite (se_logged _ _ _ _ _ _ Hs). Qed.

Lemma ses_room s H V L : ses s H V L -> (size H + length L < NBUF)%nat ->
  Z.of_nat (size H) + lh_n (k_log s) < Z.of_nat NBUF.
Proof. intros Hs HR. rewrite (ses_n _ _ _ _ Hs). unfold NBUF in *. lia. Qed.

Lemma ses_home s H V L b : ses s H V L -> home s b <-> 0 <= b < st.
Proof. intros Hs. unfold home. by rewrite (se_start _ _ _ _ _ _ Hs). Qed.

Lemma ses_nodup s H V L : ses s H V L -> NoDup L.
Proof. intros Hs. rewrite <- (se_logged _ _ _ _ _ _ Hs). apply Hs. Qed.

(** A step of the transaction is a step of the session. *)
Lemma tstep_ses s s' H H' V V' L L' v :
  ses s H V L -> tstep s s' H' ∅ v L' -> (forall b, 0 <= b < st -> v b = V' b) -> ses s' H' V' L'.
Proof.
  intros Hs [Hf Htx Hv Hl _] HV. destruct Hs. constructor; try done.
  - by rewrite (lf_start _ _ Hf).
  - by rewrite (lf_size _ _ Hf).
  - intros b Hb. rewrite Hv; [by apply HV|]. unfold home. by rewrite se_start0.
Qed.

Lemma ses_bread s H V L b Q :
  ses s H V L -> 0 <= b < st -> b ∉ H -> (size H + length L < NBUF)%nat ->
  (forall i s', holds s' i b -> ses s' ({[b]} ∪ H) V L -> lframe s s' -> still_holds H s s' -> Q i s') ->
  wp (bread ROOTDEV b) Q s.
Proof.
  intros Hs Hb HH HR HQ. eapply wp_mono.
  - apply (txn_bread s H ∅); [apply Hs|by apply (ses_home _ _ _ _ _ Hs)|done|by eapply ses_room].
  - intros i s' [Hh Ht]. apply HQ; [done| |apply Ht|].
    + eapply tstep_ses; [done| |]; [rewrite <- (se_logged _ _ _ _ _ _ Hs); exact Ht|]. apply Hs.
    + intros j b' Hb' Hj. apply (ts_holds _ _ _ _ _ _ Ht); [set_solver|done].
Qed.

Lemma ses_getdata s H V L i b Q :
  ses s H V L -> holds s i b -> 0 <= b < st -> Q (V b) s -> wp (getdata i) Q s.
Proof. intros Hs Hh Hb HQ. eapply wp_getdata; [done|]. by rewrite (se_view _ _ _ _ _ _ Hs). Qed.

Lemma ses_brelse s H V L i b Q :
  ses s H V L -> holds s i b ->
  (forall s', ses s' (H ∖ {[b]}) V L -> lframe s s' -> still_holds (H ∖ {[b]}) s s' -> Q tt s') ->
  wp (brelse i) Q s.
Proof.
  intros Hs Hh HQ. eapply wp_mono.
  - apply (txn_brelse s H ∅ i b); [apply Hs|done|set_solver].
  - intros [] s' Ht. apply HQ; [|apply Ht|].
    + eapply tstep_ses; [done| |]; [rewrite <- (se_logged _ _ _ _ _ _ Hs); exact Ht|]. apply Hs.
    + intros j b' Hb' Hj. by apply (ts_holds _ _ _ _ _ _ Ht).
Qed.

(** Changing a held block and logging it. *)
Lemma ses_write {A} s H V L i b d (k : K A) Q :
  ses s H V L -> in_trans s -> holds s i b -> b ∈ H -> length d = 512%nat -> roomy H L ->
  (forall s', ses s' H (fupd V b d) (log_add b L) -> lframe s s' -> still_holds H s s' -> wp k Q s') ->
  wp (setdata i d ;; log_write i ;; k) Q s.
Proof.
  intros Hs Hbusy Hh HH Hd [HR1 HR2] HQ. pose proof (se_txn _ _ _ _ _ _ Hs) as Htx. kstep.
  apply (txn_setdata s H ∅ i b); [done..|]. intros s1 Ht1.
  pose proof (ts_holds _ _ _ _ _ _ Ht1 i b HH Hh) as Hh1.
  pose proof (ts_frame _ _ _ _ _ _ Ht1) as Hf1. pose proof (ts_logged _ _ _ _ _ _ Ht1) as Hl1.
  pose proof (txn_n _ _ _ (ts_txn _ _ _ _ _ _ Ht1)) as Hn1.
  rewrite Hl1, (se_logged _ _ _ _ _ _ Hs) in Hn1. kstep.
  eapply wp_mono.
  - apply (txn_log_write s1 H ({[b]} ∪ ∅) i b); [apply Ht1|done|..].
    + by apply (lframe_in_trans s).
    + rewrite Hn1. unfold NBUF, LOGSIZE in *. lia.
    + rewrite Hn1, (lf_size _ _ Hf1), (se_size _ _ _ _ _ _ Hs). done.
    + rewrite Hn1. unfold NBUF in *. lia.
  - intros [] s2 Ht2. pose proof (ts_frame _ _ _ _ _ _ Ht2) as Hf2.
    apply HQ; [|by etrans|].
    + replace (({[b]} ∪ ∅) ∖ {[b]}) with (∅ : gset Z) in Ht2 by set_solver.
      rewrite Hl1, (se_logged _ _ _ _ _ _ Hs) in Ht2.
      destruct Hs. constructor.
      * apply Ht2.
      * by rewrite (lf_start _ _ Hf2), (lf_start _ _ Hf1).
      * by rewrite (lf_size _ _ Hf2), (lf_size _ _ Hf1).
      * intros b' Hb'. rewrite (ts_view _ _ _ _ _ _ Ht2) by (unfold home; rewrite (lf_start _ _ Hf1), se_start0; done).
        rewrite (ts_view _ _ _ _ _ _ Ht1) by (unfold home; rewrite se_start0; done).
        unfold fupd. case_decide; [done|]. by apply se_view0.
      * apply Ht2.
    + intros j b' Hb' Hj. apply (ts_holds _ _ _ _ _ _ Ht2); [done|]. by apply (ts_holds _ _ _ _ _ _ Ht1).
Qed.

Lemma ses_ext s H V V' L : ses s H V L -> (forall b, 0 <= b < st -> V' b = V b) -> ses s H V' L.
Proof. intros [] HV. constructor; try done. intros b Hb. rewrite HV by done. by apply se_view0. Qed.

Lemma ses_held s H V L i b : ses s H V L -> holds s i b -> b ∈ H.
Proof. intros Hs. apply (holds_held _ _ _ _ _ (se_txn _ _ _ _ _ _ Hs)). Qed.

Lemma still_holds_trans H s1 s2 s3 : still_holds H s1 s2 -> still_holds H s2 s3 -> still_holds H s1 s3.
Proof. unfold still_holds. naive_solver. Qed.

Lemma still_holds_sub H H' s s' : H' ⊆ H -> still_holds H s s' -> still_holds H' s s'.
Proof. unfold still_holds. set_solver. Qed.

Lemma ses_length s H V L b : ses s H V L -> 0 <= b < st -> length (V b) = 512%nat.
Proof.
  intros Hs Hb. rewrite <- (se_view _ _ _ _ _ _ Hs b Hb). apply lview_length; [apply Hs|].
  apply home_range; [apply Hs|]. by apply (ses_home _ _ _ _ _ Hs).
Qed.
End session.

(** ** Bitmaps *)

Definition set_bit (d : bytes) (bi : Z) : bytes :=
  <[Z.to_nat (bi / 8) := u8 (Z.lor (byte_at d bi) (bit_of bi))]> d.
Definition clr_bit (d : bytes) (bi : Z) : bytes :=
  <[Z.to_nat (bi / 8) := u8 (Z.land (byte_at d bi) (Z.lnot (bit_of bi)))]> d.

Lemma bit_of_pow bi : bit_of bi = 2 ^ (bi mod 8).
Proof. unfold bit_of. rewrite Z.shiftl_1_l. done. Qed.

Lemma bit_set_testbit d bi : bit_set d bi = Z.testbit (byte_at d bi) (bi mod 8).
Proof.
  unfold bit_set. rewrite bit_of_pow. apply (has_testbit (byte_at d bi) (bi mod 8)).
  by apply Z.mod_pos_bound.
Qed.

Lemma testbit_u8 x k : 0 <= k < 8 -> Z.testbit (u8 x) k = Z.testbit x k.
Proof. intros. unfold u8. by rewrite Z.mod_pow2_bits_low by lia. Qed.

Lemma byte_index_ne bi bj : 0 <= bi -> 0 <= bj -> bi / 8 <> bj / 8 -> Z.to_nat (bi / 8) <> Z.to_nat (bj / 8).
Proof. intros Hi Hj Hne. pose proof (Z.div_pos bi 8). pose proof (Z.div_pos bj 8). lia. Qed.

Lemma bit_same_byte bi bj : bi / 8 = bj / 8 -> (bj mod 8 =? bi mod 8) = (bj =? bi).
Proof.
  intros E. pose proof (Z.div_mod bi 8). pose proof (Z.div_mod bj 8).
  destruct (Z.eqb_spec bj bi) as [->|Hne]; [apply Z.eqb_refl|]. apply Z.eqb_neq. lia.
Qed.

(** A bit after an update of another or the same bit by [f]. *)
Lemma bit_update (f : Z -> Z) (g : bool -> Z -> bool) d bi bj :
  0 <= bi -> 0 <= bj -> (Z.to_nat (bi / 8) < length d)%nat ->
  (forall x k, 0 <= k < 8 -> Z.testbit (f x) k = g (Z.testbit x k) k) ->
  (forall x k, k <> bi mod 8 -> g x k = x) ->
  bit_set (<[Z.to_nat (bi / 8) := u8 (f (byte_at d bi))]> d) bj =
  if bj =? bi then g (bit_set d bi) (bi mod 8) else bit_set d bj.
Proof.
  intros Hi Hj Hl Hf Hg. rewrite !bit_set_testbit. unfold byte_at at 1.
  pose proof (Z.mod_pos_bound bi 8 ltac:(lia)). pose proof (Z.mod_pos_bound bj 8 ltac:(lia)).
  destruct (decide (bi / 8 = bj / 8)) as [E|Hne].
  - rewrite <- E, list_lookup_total_insert_eq by done. rewrite testbit_u8, Hf by lia.
    assert (byte_at d bj = byte_at d bi) as Eb by (unfold byte_at; by rewrite E). rewrite Eb.
    destruct (Z.eqb_spec bj bi) as [->|Hb]; [done|]. rewrite Hg; [done|].
    rewrite <- Z.eqb_neq. rewrite bit_same_byte by done. by apply Z.eqb_neq.
  - rewrite list_lookup_total_insert_ne by (by apply byte_index_ne). fold (byte_at d bj).
    destruct (Z.eqb_spec bj bi) as [->|]; [done|done].
Qed.

Lemma bit_set_set d bi bj : 0 <= bi -> 0 <= bj -> (Z.to_nat (bi / 8) < length d)%nat ->
  bit_set (set_bit d bi) bj = bit_set d bj || (bj =? bi).
Proof.
  intros. unfold set_bit. pose proof (Z.mod_pos_bound bi 8 ltac:(lia)).
  rewrite (bit_update (fun x => Z.lor x (bit_of bi)) (fun b k => b || (k =? bi mod 8))); try done.
  - rewrite Z.eqb_refl, orb_true_r. destruct (Z.eqb_spec bj bi); [by rewrite orb_true_r|by rewrite orb_false_r].
  - intros x k Hk. rewrite bit_of_pow. apply (setf_testbit x (bi mod 8) k); lia.
  - intros x k Hk. apply Z.eqb_neq in Hk. by rewrite Hk, orb_false_r.
Qed.

Lemma bit_set_clr d bi bj : 0 <= bi -> 0 <= bj -> (Z.to_nat (bi / 8) < length d)%nat ->
  bit_set (clr_bit d bi) bj = bit_set d bj && negb (bj =? bi).
Proof.
  intros. unfold clr_bit. pose proof (Z.mod_pos_bound bi 8 ltac:(lia)).
  rewrite (bit_update (fun x => Z.land x (Z.lnot (bit_of bi))) (fun b k => b && negb (k =? bi mod 8))); try done.
  - rewrite Z.eqb_refl. cbn. rewrite andb_false_r. destruct (Z.eqb_spec bj bi); [by rewrite andb_false_r|by rewrite andb_true_r].
  - intros x k Hk. rewrite bit_of_pow. apply (clrf_testbit x (bi mod 8) k); lia.
  - intros x k Hk. apply Z.eqb_neq in Hk. by rewrite Hk, andb_true_r.
Qed.

(** The scan finds the first clear bit. *)
Lemma balloc_scan_spec d b size n bi :
  match balloc_scan d b size n bi with
  | Some r => bi <= r < bi + Z.of_nat n /\ b + r < size /\ bit_set d r = false /\
      forall k, bi <= k < r -> bit_set d k = true
  | None => forall k, bi <= k < bi + Z.of_nat n -> b + k < size -> bit_set d k = true
  end.
Proof.
  revert bi. induction n as [|n IH]; intros bi; cbn [balloc_scan]; [lia|].
  destruct (Z.ltb_spec (b + bi) size); [|lia]. destruct (bit_set d bi) eqn:E; cbn [negb].
  - specialize (IH (bi + 1)). destruct (balloc_scan d b size n (bi + 1)) as [r|].
    + destruct IH as (H1 & H2 & H3 & H4). split_and!; [lia|lia|done|done|]. intros k Hk.
      destruct (decide (k = bi)) as [->|]; [done|]. apply H4. lia.
    + intros k Hk Hs. destruct (decide (k = bi)) as [->|]; [done|]. apply IH; lia.
  - split_and!; [lia|lia|done|done|]. intros; lia.
Qed.

(** ** The block allocator *)

(** The first element of a range that satisfies [P]. *)
Lemma filter_seqZ_cons (P : Z -> Prop) `{HP : forall x, Decision (P x)} m n b l :
  filter P (seqZ m n) = b :: l -> m <= b < m + n /\ P b /\ forall k, m <= k < b -> ~ P k.
Proof.
  remember (Z.to_nat n) as N eqn:EN. revert m n EN. induction N as [|N IH]; intros m n EN H.
  { unfold seqZ in H. rewrite <- EN in H. done. }
  rewrite seqZ_cons in H by lia. destruct (decide (P m)) as [Hm|Hm].
  - rewrite filter_cons_True in H by done. injection H as <- _. split_and!; [lia|lia|done|lia].
  - rewrite filter_cons_False in H by done. apply IH in H as (H1 & H2 & H3); [|lia].
    split_and!; [lia|lia|done|]. intros k Hk. destruct (decide (k = m)) as [->|]; [done|]. apply H3. lia.
Qed.

Section allocator.
Context (st sz : Z) (sb : superblock).
Notation ses := (ses st sz).
Notation roomy := (roomy sz).

(** The bitmap lies between the inodes and the log. *)
Record fs_geo : Prop := {
  fg_size : 0 <= sb_size sb < 2 ^ 31;
  fg_ninodes : 0 <= sb_ninodes sb < 2 ^ 31;
  fg_bitmap : sb_size sb / BPB + sb_ninodes sb / IPB + 3 < st;
  fg_log : st <= sb_size sb
}.

Definition bblock (b : Z) : Z := BBLOCK b (sb_ninodes sb).

(** Block [b] is marked as in use. *)
Definition used (V : Z -> bytes) (b : Z) : bool := bit_set (V (bblock b)) (b mod BPB).

(** [b] is one of the blocks of the bitmap. *)
Definition is_bitmap (b : Z) : Prop := exists k, 0 <= k < sb_size sb /\ b = bblock k.

Context (geo : fs_geo).

Lemma bblock_eq b : 0 <= b < 2 ^ 31 -> bblock b = b / BPB + sb_ninodes sb / IPB + 3.
Proof.
  intros Hb. destruct geo as [Hsz Hn Hbm _]. unfold bblock, BBLOCK. apply u32_small.
  change BPB with 4096. change IPB with 8. pose proof (Z.div_pos b 4096). pose proof (Z.div_pos (sb_ninodes sb) 8).
  assert (b / 4096 < 2 ^ 19) by (apply Z.div_lt_upper_bound; lia).
  assert (sb_ninodes sb / 8 <= sb_ninodes sb) by (apply Z.div_le_upper_bound; lia).
  lia.
Qed.

Lemma bblock_range b : 0 <= b < sb_size sb -> 3 <= bblock b < st.
Proof.
  intros Hb. destruct geo as [Hsz Hn Hbm _]. rewrite bblock_eq by lia.
  assert (0 <= b / BPB <= sb_size sb / BPB).
  { unfold BPB, BSIZE. split; [apply Z.div_pos; lia|apply Z.div_le_mono; lia]. }
  assert (0 <= sb_ninodes sb / IPB) by (apply Z.div_pos; [lia|done]). lia.
Qed.

(** Blocks of the same bitmap block. *)
Lemma bblock_base b k : 0 <= b -> b mod BPB = 0 -> 0 <= k < BPB -> b + k < 2 ^ 31 -> bblock (b + k) = bblock b.
Proof.
  intros Hb Hm Hk Hlt. rewrite !bblock_eq by (unfold BPB, BSIZE in *; lia). f_equal. f_equal.
  apply Z.div_exact in Hm; [|done]. rewrite Hm at 1.
  rewrite Z.mul_comm, Z.div_add_l by done. rewrite (Z.div_small k) by done. lia.
Qed.

Lemma bblock_inj b b' : 0 <= b < 2 ^ 31 -> 0 <= b' < 2 ^ 31 -> bblock b = bblock b' ->
  b mod BPB = b' mod BPB -> b = b'.
Proof.
  intros Hb Hb' E Em. rewrite !bblock_eq in E by done. pose proof (Z.div_mod b BPB ltac:(done)). pose proof (Z.div_mod b' BPB ltac:(done)). lia.
Qed.

Lemma mod_base b k : b mod BPB = 0 -> 0 <= k < BPB -> (b + k) mod BPB = k.
Proof.
  intros Hm Hk. rewrite <- Zplus_mod_idemp_l, Hm. apply Z.mod_small. lia.
Qed.

Lemma ses_readsb s H V L Q :
  ses s H V L -> 1 ∉ H -> 1 < st -> (size H + length L < NBUF)%nat ->
  (forall s', ses s' H V L -> lframe s s' -> still_holds H s s' -> Q (sb_dec (V 1)) s') ->
  wp (readsb ROOTDEV) Q s.
Proof.
  intros Hs H1 Hst HR HQ. unfold readsb. kstep. change (u32 ROOTDEV) with ROOTDEV.
  eapply ses_bread; [done|lia|done|done|]. intros i s1 Hh Hs1 Hf1 Hk1. kstep.
  eapply ses_getdata; [done|done|lia|]. kstep.
  eapply ses_brelse; [done|done|]. intros s2 Hs2 Hf2 Hk2. kstep.
  replace (({[1]} ∪ H) ∖ {[1]}) with H in Hs2, Hk2 by set_solver.
  apply HQ; [done|by etrans|]. by eapply still_holds_trans.
Qed.

Definition zeros : bytes := replicate 512 0.
Lemma length_zeros : length zeros = 512%nat.
Proof. apply length_replicate. Qed.
Lemma slice_zeros o n : slice zeros o n = replicate (min n (512 - o)) 0.
Proof. unfold slice, zeros. rewrite drop_replicate, take_replicate. done. Qed.
Opaque zeros.

Lemma ses_bzero s H V L b Q :
  ses s H V L -> in_trans s -> 0 <= b < st -> b ∉ H -> roomy ({[b]} ∪ H) L ->
  (forall s', ses s' H (fupd V b zeros) (log_add b L) -> lframe s s' -> still_holds H s s' -> Q tt s') ->
  wp (bzero ROOTDEV b) Q s.
Proof.
  intros Hs Ht Hb HH HR HQ. unfold bzero. change (replicate 512 0) with zeros. kstep.
  assert (u32 b = b) as ->.
  { apply (home_u32 s); [apply Hs|]. by apply (ses_home _ _ _ _ _ _ _ Hs). }
  eapply ses_bread; [done|done|done| |].
  { destruct HR as [HR _]. rewrite size_union, size_singleton in HR by set_solver. lia. }
  intros i s1 Hh Hs1 Hf1 Hk1. kstep.
  apply (ses_write st sz s1 ({[b]} ∪ H) V L i b); [done|by eapply lframe_in_trans|done|set_solver|apply length_zeros|done|].
  intros s2 Hs2 Hf2 Hk2. eapply (ses_brelse _ _ _ _ _ _ i b); [done|apply Hk2; [set_solver|done]|].
  intros s3 Hs3 Hf3 Hk3. replace (({[b]} ∪ H) ∖ {[b]}) with H in Hs3, Hk3 by set_solver.
  apply HQ; [done|by do 2 (etrans; [done|])|].
  eapply still_holds_trans; [done|]. eapply still_holds_trans; [|done].
  eapply still_holds_sub; [|done]. set_solver.
Qed.

(** The view after block [b] has been allocated. *)
Definition alloc_view (V : Z -> bytes) (b : Z) : Z -> bytes :=
  fupd (fupd V (bblock b) (set_bit (V (bblock b)) (b mod BPB))) b zeros.

(** [b] is the first free block. *)
Definition first_free (V : Z -> bytes) (b : Z) : Prop :=
  0 <= b < sb_size sb /\ used V b = false /\ forall k, 0 <= k < b -> used V k = true.

Lemma used_base V b k : 0 <= b -> b mod BPB = 0 -> 0 <= k < BPB -> b + k < 2 ^ 31 ->
  used V (b + k) = bit_set (V (bblock b)) k.
Proof. intros. unfold used. by rewrite bblock_base, mod_base. Qed.

Lemma scan_used V b n : 0 <= b -> b mod BPB = 0 -> sb_size sb < 2 ^ 31 -> n = Z.to_nat BPB ->
  match balloc_scan (V (bblock b)) b (sb_size sb) n 0 with
  | Some r => 0 <= r < BPB /\ b + r < sb_size sb /\ used V (b + r) = false /\
      forall k, b <= k < b + r -> used V k = true
  | None => forall k, b <= k < b + BPB -> k < sb_size sb -> used V k = true
  end.
Proof.
  intros Hb Hm Hsz ->. pose proof (balloc_scan_spec (V (bblock b)) b (sb_size sb) (Z.to_nat BPB) 0) as H.
  change (Z.of_nat (Z.to_nat BPB)) with BPB in H.
  destruct (balloc_scan _ _ _ _ _) as [r|].
  - destruct H as (H1 & H2 & H3 & H4). rewrite used_base by lia. split_and!; [lia|lia|done|done|].
    intros k Hk. replace k with (b + (k - b)) by lia. rewrite used_base by lia. apply H4. lia.
  - intros k Hk Hk2. replace k with (b + (k - b)) by lia. rewrite used_base by lia. apply H; lia.
Qed.

(** The conditions under which block [b0] can be allocated: it is a home
    block that is neither held nor part of the bitmap, and there is room for
    it and its bitmap block. *)
Record can_alloc (H : gset Z) (L : list Z) (b0 : Z) : Prop := {
  ca_home : b0 < st;
  ca_held : b0 ∉ H;
  ca_bitmap : ~ is_bitmap b0;
  ca_bheld : forall b, is_bitmap b -> b ∉ H;
  ca_sb : 1 ∉ H;
  ca_room : (size H + length L + 2 < NBUF)%nat;
  ca_log : Z.of_nat (length L) + 1 < sz - 1
}.

Lemma length_log_add b L : (length (log_add b L) <= length L + 1)%nat.
Proof. unfold log_add. case_decide; [lia|]. rewrite length_app. cbn. lia. Qed.

Lemma roomy_held H L b : (size H + length L + 1 < NBUF)%nat -> Z.of_nat (length L) < sz - 1 ->
  roomy ({[b]} ∪ H) L.
Proof.
  intros H1 H2. split; [|done]. pose proof (size_union_alt {[b]} H) as E. rewrite size_singleton in E.
  pose proof (subseteq_size (H ∖ {[b]}) H ltac:(set_solver)). lia.
Qed.

Lemma bit_index r : 0 <= r < BPB -> (Z.to_nat (r / 8) < 512)%nat.
Proof.
  intros Hr. change BPB with 4096 in Hr. assert (0 <= r / 8 < 512); [|lia].
  split; [apply Z.div_pos; lia|apply Z.div_lt_upper_bound; lia].
Qed.

Lemma length_set_bit d bi : length (set_bit d bi) = length d.
Proof. apply length_insert. Qed.

(** From the block of the bitmap that has the free bit. *)
Lemma balloc_take s H V L b i r Q :
  ses s ({[bblock b]} ∪ H) V L -> in_trans s -> holds s i (bblock b) -> 0 <= b < sb_size sb -> b mod BPB = 0 ->
  0 <= r < BPB -> b + r < sb_size sb -> can_alloc H L (b + r) ->
  (forall s', ses s' H (alloc_view V (b + r)) (log_add (b + r) (log_add (bblock (b + r)) L)) ->
     lframe s s' -> still_holds H s s' -> Q (b + r) s') ->
  let d := V (bblock b) in
  wp (setdata i (<[Z.to_nat (r / 8) := u8 (Z.lor (byte_at d r) (bit_of r))]> d) ;;
      log_write i ;; brelse i ;; bzero ROOTDEV (b + r) ;; ret (b + r)) Q s.
Proof.
  intros Hs Ht Hh Hb Hm Hr Hbr [] HQ d. fold (set_bit d r). destruct geo as [Hsz Hn Hbm _].
  pose proof (bblock_range b Hb) as Hbb. assert (bblock (b + r) = bblock b) as Eb by (apply bblock_base; lia).
  assert (is_bitmap (bblock b)) as Hbi by (exists b; auto).
  assert ((b + r) mod BPB = r) as Em by (by apply mod_base).
  apply (ses_write st sz s ({[bblock b]} ∪ H) V L i (bblock b)); [done|done|done|set_solver| | |].
  { rewrite length_set_bit. eapply ses_length; [done|lia]. }
  { apply roomy_held; lia. }
  intros s1 Hs1 Hf1 Hk1. kstep.
  eapply (ses_brelse _ _ _ _ _ _ i (bblock b)); [done|apply Hk1; [set_solver|done]|].
  intros s2 Hs2 Hf2 Hk2. replace (({[bblock b]} ∪ H) ∖ {[bblock b]}) with H in Hs2, Hk2
    by (specialize (ca_bheld0 _ Hbi); set_solver). kstep.
  pose proof (length_log_add (bblock b) L).
  eapply ses_bzero; [done|do 2 (eapply lframe_in_trans; [done|]); done|lia|done|apply roomy_held; lia|].
  intros s3 Hs3 Hf3 Hk3. kstep.
  apply HQ; [|by do 2 (etrans; [done|])|].
  - unfold alloc_view. by rewrite Eb, Em.
  - eapply still_holds_trans; [|done]. eapply still_holds_trans; [|done].
    eapply still_holds_sub; [|done]. set_solver.
Qed.

Lemma balloc_loop_spec n s H V L b b0 Q :
  ses s H V L -> in_trans s -> first_free V b0 -> can_alloc H L b0 -> 0 <= b <= b0 -> b mod BPB = 0 ->
  (Z.to_nat ((b0 - b) / BPB) < n)%nat ->
  (forall s', ses s' H (alloc_view V b0) (log_add b0 (log_add (bblock b0) L)) ->
     lframe s s' -> still_holds H s s' -> Q b0 s') ->
  wp (balloc_loop ROOTDEV sb n b) Q s.
Proof.
  intros Hs Ht (Hb0 & Hfree & Hused) Hca. revert s b Hs Ht.
  induction n as [|n IH]; intros s b Hs Ht Hb Hm Hn HQ; [lia|]. cbn [balloc_loop].
  destruct geo as [Hsz Hni Hbm _]. destruct (Z.ltb_spec b (sb_size sb)) as [Hlt|]; [|lia].
  pose proof (bblock_range b ltac:(lia)) as Hbb. assert (is_bitmap (bblock b)) as Hbi by (exists b; split; [lia|done]).
  assert (bblock b ∉ H) as HnH by (by apply Hca). kstep.
  eapply ses_bread; [done|fold (bblock b); lia|done|destruct Hca; lia|]. fold (bblock b).
  intros i s1 Hh Hs1 Hf1 Hk1. kstep. eapply ses_getdata; [done|done|lia|].
  pose proof (scan_used V b (Z.to_nat BPB) ltac:(lia) Hm ltac:(lia) eq_refl) as Hscan.
  destruct (balloc_scan _ _ _ _ _) as [r|].
  - destruct Hscan as (Hr & Hbr & Hf & Hu). assert (b + r = b0) as <-.
    { destruct (Z.lt_trichotomy (b + r) b0) as [Hl|[E|Hg]]; [|done|].
      - rewrite Hused in Hf by lia. done.
      - rewrite Hu in Hfree by lia. done. }
    apply (balloc_take s1 H V L b i r); [done|by eapply lframe_in_trans|done|lia|done|done|done|done|].
    intros s' Hs' Hf' Hk'. apply HQ; [done|by etrans|]. by eapply still_holds_trans.
  - kstep. eapply (ses_brelse _ _ _ _ _ _ i (bblock b)); [done|done|].
    intros s2 Hs2 Hf2 Hk2. replace (({[bblock b]} ∪ H) ∖ {[bblock b]}) with H in Hs2, Hk2 by set_solver.
    assert (b + BPB <= b0) as Hge.
    { destruct (decide (b0 < b + BPB)); [|lia]. rewrite Hscan in Hfree by lia. done. }
    apply IH; [done|do 2 (eapply lframe_in_trans; [done|]); done|unfold BPB, BSIZE in *; lia| | |].
    + rewrite <- Zplus_mod_idemp_l, Hm. done.
    + replace (b0 - b) with (b0 - (b + BPB) + 1 * BPB) in Hn by lia. rewrite Z.div_add in Hn by done.
      assert (0 <= (b0 - (b + BPB)) / BPB) by (apply Z.div_pos; [lia|done]). lia.
    + intros s' Hs' Hf' Hk'. apply HQ; [done|by do 2 (etrans; [done|])|].
      eapply still_holds_trans; [|done]. by eapply still_holds_trans.
Qed.

(** The free blocks, in order. *)
Definition free_blocks (V : Z -> bytes) : list Z := filter (fun b => used V b = false) (seqZ 0 (sb_size sb)).

Lemma free_blocks_first V b l : free_blocks V = b :: l -> first_free V b.
Proof.
  intros (H1 & H2 & H3)%filter_seqZ_cons. split_and!; [lia|lia|done|]. intros k Hk.
  specialize (H3 k ltac:(lia)). by destruct (used V k).
Qed.

Lemma elem_of_free V b : b ∈ free_blocks V <-> 0 <= b < sb_size sb /\ used V b = false.
Proof. unfold free_blocks. rewrite list_elem_of_filter, elem_of_seqZ. naive_solver lia. Qed.

Lemma NoDup_free V : NoDup (free_blocks V).
Proof. apply NoDup_filter, NoDup_seqZ. Qed.

(** The bitmap determines what is in use. *)
Lemma used_ext V V' b : V' (bblock b) = V (bblock b) -> used V' b = used V b.
Proof. unfold used. by intros ->. Qed.

Lemma free_ext V V' : (forall b, is_bitmap b -> V' b = V b) -> free_blocks V' = free_blocks V.
Proof.
  intros HV. apply list_filter_iff'. intros b Hb%elem_of_seqZ. rewrite (used_ext V V'); [done|].
  apply HV. exists b. split; [lia|done].
Qed.

Lemma used_alloc V b0 b : 0 <= b0 < sb_size sb -> 0 <= b < sb_size sb -> ~ is_bitmap b0 ->
  length (V (bblock b0)) = 512%nat ->
  used (alloc_view V b0) b = used V b || (b =? b0).
Proof.
  intros Hb0 Hb Hnb Hl. destruct geo as [Hsz _ _ _]. unfold used, alloc_view.
  pose proof (Z.mod_pos_bound b0 BPB ltac:(done)). pose proof (Z.mod_pos_bound b BPB ltac:(done)).
  rewrite fupd_ne by (intros E; apply Hnb; exists b; by split). 
  destruct (decide (bblock b = bblock b0)) as [E|Hne].
  - rewrite E, fupd_eq. rewrite bit_set_set by (try lia; rewrite Hl; by apply bit_index). f_equal.
    destruct (Z.eqb_spec b b0) as [->|Hbb]; [apply Z.eqb_refl|]. apply Z.eqb_neq. intros Em.
    apply Hbb. apply bblock_inj; (done || lia).
  - rewrite fupd_ne by done. destruct (Z.eqb_spec b b0) as [->|]; [done|]. by rewrite orb_false_r.
Qed.

(** Allocation takes the first block off the list. *)
Lemma free_alloc V b0 l : free_blocks V = b0 :: l -> ~ is_bitmap b0 ->
  length (V (bblock b0)) = 512%nat -> free_blocks (alloc_view V b0) = l.
Proof.
  intros Hf Hnb Hl. pose proof (free_blocks_first V b0 l Hf) as (Hb0 & _). pose proof (NoDup_free V) as Hnd.
  rewrite Hf in Hnd. apply NoDup_cons in Hnd as [Hn _].
  transitivity (filter (fun b => b <> b0) (free_blocks V)).
  - unfold free_blocks. rewrite list_filter_filter. apply list_filter_iff'. intros b Hb%elem_of_seqZ.
    rewrite used_alloc by (done || lia). rewrite orb_false_iff, Z.eqb_neq. naive_solver.
  - rewrite Hf, filter_cons_False by (intros H; by apply H). by apply filter_ne_notin.
Qed.

Lemma ses_balloc s H V L b0 Q :
  ses s H V L -> in_trans s -> sb_dec (V 1) = sb -> first_free V b0 -> can_alloc H L b0 ->
  (forall s', ses s' H (alloc_view V b0) (log_add b0 (log_add (bblock b0) L)) ->
     lframe s s' -> still_holds H s s' -> Q b0 s') ->
  wp (balloc ROOTDEV) Q s.
Proof.
  intros Hs Ht Hsb Hff Hca HQ. unfold balloc. kstep. pose proof Hff as (Hb0 & _).
  assert (1 < st) by (pose proof (bblock_range b0 Hb0); lia).
  eapply ses_readsb; [done|by destruct Hca|done|destruct Hca; lia|].
  intros s1 Hs1 Hf1 Hk1. cbv beta. rewrite Hsb.
  apply (balloc_loop_spec _ s1 H V L 0 b0); [done|by eapply lframe_in_trans|done|done|lia|done| |].
  - rewrite Z.sub_0_r. destruct geo.
    assert (0 <= b0 / BPB <= sb_size sb / BPB).
    { unfold BPB, BSIZE. split; [apply Z.div_pos; lia|apply Z.div_le_mono; lia]. }
    lia.
  - intros s' Hs' Hf' Hk'. apply HQ; [done|by etrans|]. by eapply still_holds_trans.
Qed.

(** The blocks between the bitmap and the log. *)
Definition data_block (b : Z) : Prop := sb_size sb / BPB + sb_ninodes sb / IPB + 4 <= b < st.

Lemma bitmap_below b : is_bitmap b -> 3 <= b < sb_size sb / BPB + sb_ninodes sb / IPB + 4.
Proof.
  intros (k & Hk & ->). split; [by apply bblock_range|]. destruct geo as [Hsz Hn Hbm _].
  rewrite bblock_eq by lia. assert (k / BPB <= sb_size sb / BPB) by (apply Z.div_le_mono; [done|lia]). lia.
Qed.

Lemma data_not_bitmap b : data_block b -> ~ is_bitmap b.
Proof. intros Hd Hb%bitmap_below. unfold data_block in Hd. lia. Qed.

Lemma data_above b : data_block b -> 4 <= b.
Proof.
  destruct geo as [Hsz Hn Hbm _]. unfold data_block. 
  assert (0 <= sb_size sb / BPB) by (apply Z.div_pos; [lia|done]).
  assert (0 <= sb_ninodes sb / IPB) by (apply Z.div_pos; [lia|done]). lia.
Qed.

(** The room an allocation needs while the data blocks [H] are held. *)
Definition alloc_room (H : gset Z) (L : list Z) : Prop :=
  (forall b, b ∈ H -> data_block b) /\ (size H + length L + 2 < NBUF)%nat /\ Z.of_nat (length L) + 1 < sz - 1.

Lemma can_alloc_data H L b : data_block b -> b ∉ H -> alloc_room H L -> can_alloc H L b.
Proof.
  intros Hb HbH (HH & H1 & H2). split; [unfold data_block in Hb; lia|done|by apply data_not_bitmap| | |lia|lia].
  - intros k Hk Hin%HH. by eapply data_not_bitmap.
  - intros Hin%HH%data_above. lia.
Qed.

(** [balloc] by the list of free blocks. *)
Lemma ses_alloc s H V L b0 l Q :
  ses s H V L -> in_trans s -> sb_dec (V 1) = sb -> free_blocks V = b0 :: l -> data_block b0 -> b0 ∉ H ->
  alloc_room H L ->
  (forall s', ses s' H (alloc_view V b0) (log_add b0 (log_add (bblock b0) L)) ->
     lframe s s' -> still_holds H s s' -> free_blocks (alloc_view V b0) = l -> Q b0 s') ->
  wp (balloc ROOTDEV) Q s.
Proof.
  intros Hs Ht Hsb Hf Hd HbH Hr HQ. pose proof (free_blocks_first V b0 l Hf) as Hff.
  eapply ses_balloc; [done|done|done|done|by apply can_alloc_data|]. intros s' Hs' Hf' Hk'.
  apply HQ; [done..|]. apply free_alloc; [done|by apply data_not_bitmap|].
  eapply ses_length; [exact Hs|]. pose proof (bblock_range b0 ltac:(apply Hff)). lia.
Qed.

(** The view after block [b] has been freed. *)
Definition free_view (V : Z -> bytes) (b : Z) : Z -> bytes :=
  fupd V (bblock b) (clr_bit (V (bblock b)) (b mod BPB)).

Lemma used_free V b0 b : 0 <= b0 < sb_size sb -> 0 <= b < sb_size sb ->
  length (V (bblock b0)) = 512%nat -> used (free_view V b0) b = used V b && negb (b =? b0).
Proof.
  intros Hb0 Hb Hl. destruct geo as [Hsz _ _ _]. unfold used, free_view.
  pose proof (Z.mod_pos_bound b0 BPB ltac:(done)). pose proof (Z.mod_pos_bound b BPB ltac:(done)).
  destruct (decide (bblock b = bblock b0)) as [E|Hne].
  - rewrite E, fupd_eq. rewrite bit_set_clr by (try lia; rewrite Hl; by apply bit_index). f_equal. f_equal.
    destruct (Z.eqb_spec b b0) as [->|Hbb]; [apply Z.eqb_refl|]. apply Z.eqb_neq. intros Em.
    apply Hbb. apply bblock_inj; (done || lia).
  - rewrite fupd_ne by done. destruct (Z.eqb_spec b b0) as [->|]; [done|]. by rewrite andb_true_r.
Qed.

Lemma ses_bfree s H V L b Q :
  ses s H V L -> in_trans s -> sb_dec (V 1) = sb -> 0 <= b < sb_size sb -> used V b = true ->
  (forall b, b ∈ H -> data_block b) -> (size H + length L + 1 < NBUF)%nat -> Z.of_nat (length L) < sz - 1 ->
  (forall s', ses s' H (free_view V b) (log_add (bblock b) L) -> lframe s s' -> still_holds H s s' -> Q tt s') ->
  wp (bfree ROOTDEV b) Q s.
Proof.
  intros Hs Ht Hsb Hb Hu HH HR1 HR2 HQ. unfold bfree. kstep. pose proof (bblock_range b Hb) as Hbb.
  assert (is_bitmap (bblock b)) as Hbi by (by exists b).
  assert (bblock b ∉ H) as HbH by (intros Hin%HH; by eapply data_not_bitmap).
  eapply ses_readsb; [done|intros Hin%HH%data_above; lia|lia|lia|]. intros s1 Hs1 Hf1 Hk1.
  cbv beta. rewrite Hsb. change (u32 ROOTDEV) with ROOTDEV. fold (bblock b). kstep.
  eapply ses_bread; [done|lia|done|lia|]. intros i s2 Hh Hs2 Hf2 Hk2. kstep.
  eapply ses_getdata; [done|done|lia|]. fold (used V b). rewrite Hu. cbn [negb].
  fold (clr_bit (V (bblock b)) (b mod BPB)).
  apply (ses_write st sz s2 ({[bblock b]} ∪ H) V L i (bblock b)); [done| |done|set_solver| | |].
  { do 2 (eapply lframe_in_trans; [done|]). done. }
  { unfold clr_bit. rewrite length_insert. eapply ses_length; [done|lia]. }
  { by apply roomy_held. }
  intros s3 Hs3 Hf3 Hk3.
  eapply (ses_brelse _ _ _ _ _ _ i (bblock b)); [done|apply Hk3; [set_solver|done]|].
  intros s4 Hs4 Hf4 Hk4. replace (({[bblock b]} ∪ H) ∖ {[bblock b]}) with H in Hs4, Hk4 by set_solver.
  apply HQ; [done|by do 3 (etrans; [done|])|].
  do 2 (eapply still_holds_trans; [done|]). eapply still_holds_trans; [|done].
  eapply still_holds_sub; [|done]. set_solver.
Qed.

(** C20. The block allocator takes the first free block: with the free blocks
    [b :: l] in order, all of them data blocks, [balloc] returns [b] zeroed;
    afterwards exactly [l] is free, and no block but [b] and the bitmap has
    changed. *)
Theorem balloc_takes_first s V b l :
  ses s ∅ V [] -> in_trans s -> sb_dec (V 1) = sb -> 4 <= sz ->
  free_blocks V = b :: l -> data_block b ->
  wp (balloc ROOTDEV) (fun r s' => r = b /\ lframe s s' /\ exists V' L, ses s' ∅ V' L /\
    free_blocks V' = l /\ V' b = zeros /\ forall b', b' <> b -> ~ is_bitmap b' -> V' b' = V b') s.
Proof.
  intros Hs Ht Hsb Hsz Hf Hd. pose proof (free_blocks_first V b l Hf) as (Hb & _).
  eapply ses_alloc; [done..|set_solver| |].
  { split_and!; [set_solver|rewrite size_empty; unfold NBUF; cbn; lia|cbn; lia]. }
  intros s' Hs' Hf' _ Hfr. split_and!; [done..|]. do 2 eexists. split_and!; [done|done|by apply fupd_eq|].
  intros b' Hne Hnb. unfold alloc_view. rewrite !fupd_ne; [done|intros ->; apply Hnb; by exists b|done].
Qed.

(** C21. [bfree] undoes [balloc]: freeing a block that is in use makes it free
    again and changes the state of no other block, and the contents of no
    block outside the bitmap. *)
Theorem bfree_frees s V b :
  ses s ∅ V [] -> in_trans s -> sb_dec (V 1) = sb -> 4 <= sz -> 0 <= b < sb_size sb -> used V b = true ->
  wp (bfree ROOTDEV b) (fun _ s' => lframe s s' /\ exists V' L, ses s' ∅ V' L /\
    (forall b', 0 <= b' < sb_size sb -> used V' b' = used V b' && negb (b' =? b)) /\
    forall b', ~ is_bitmap b' -> V' b' = V b') s.
Proof.
  intros Hs Ht Hsb Hsz Hb Hu.
  eapply ses_bfree; [done..|set_solver|rewrite size_empty; unfold NBUF; cbn; lia|cbn; lia|].
  intros s' Hs' Hf' _. split; [done|]. do 2 eexists. split; [done|]. split.
  - intros b' Hb'. apply used_free; [done|done|]. eapply ses_length; [exact Hs|].
    pose proof (bblock_range b Hb). lia.
  - intros b' Hnb. unfold free_view. rewrite fupd_ne; [done|]. intros ->. apply Hnb. by exists b.
Qed.
End allocator.
