(* ===== verification/FsFile.v ===== *)
(** * Contents of files (kernel/fs.c)

    What a file holds, as a list of bytes: the inode's block numbers and the
    indirect block lead to data blocks that are in use and not shared, and the
    bytes of the file are theirs ([file_rep]). [bmap], [readi] and [writei] are
    specified on that list. *)

From stdpp Require Import prelude gmap strings.
From S2P Require Import Prelude Kernel Spinlock Sched Bio Cache Log StringC Fs FsBlock.

(** ** Frames of operations that change cached inodes *)

Definition iframe (s s' : kst) : Prop := lframe (set_icache (fun _ => k_icache s') s) s'.

Lemma set_icache_id s : set_icache (fun _ => k_icache s) s = s.
Proof. by destruct s. Qed.

Lemma lframe_icache s s' : lframe s s' -> k_icache s' = k_icache s.
Proof. intros Hf. rewrite (lf_rest _ _ Hf). done. Qed.

Lemma lframe_iframe s s' : lframe s s' -> iframe s s'.
Proof. intros Hf. unfold iframe. by rewrite (lframe_icache _ _ Hf), set_icache_id. Qed.

Lemma lframe_set_icache ic s s' : lframe s s' ->
  lframe (set_icache (fun _ => ic) s) (set_icache (fun _ => ic) s').
Proof.
  intros [[] ? E ? ? ? ?]. constructor; try done. by rewrite E at 1.
Qed.

#[export] Instance iframe_preorder : PreOrder iframe.
Proof.
  split.
  - intros s. by apply lframe_iframe.
  - intros s1 s2 s3 H1 H2. unfold iframe in *.
    apply (lframe_set_icache (k_icache s3)) in H1. etrans; [|exact H2]. exact H1.
Qed.

Lemma iframe_in_trans s s' : iframe s s' -> in_trans s -> in_trans s'.
Proof. intros Hf Ht. eapply lframe_in_trans; [exact Hf|exact Ht]. Qed.

Lemma iframe_seti s i f : iframe s (set_icache (alter f i) s).
Proof. unfold iframe. reflexivity. Qed.

Lemma ses_set_icache st sz s H V L f : ses st sz s H V L -> ses st sz (set_icache f s) H V L.
Proof.
  intros [Htx ? ? ? ?]. constructor; try done. apply (txn_ext s); try done. apply (quiet_ext s); [done..|apply Htx].
Qed.

Lemma holds_set_icache s i b f : holds s i b -> holds (set_icache f s) i b.
Proof. done. Qed.

Lemma sub_length (L T : list Z) : NoDup L -> L ⊆ T -> (length L <= length T)%nat.
Proof. intros Hnd Hs. apply submseteq_length. by apply NoDup_submseteq. Qed.

Lemma log_add_sub b (L T : list Z) : b ∈ T -> L ⊆ T -> log_add b L ⊆ T.
Proof. intros Hb HL x Hx%elem_of_log_add. set_solver. Qed.

(** ** The blocks of a file *)

(** The number of the indirect block, and of the [k]th block of the file. *)
Definition indirect (addrs : list Z) : Z := addrs !!! Z.to_nat NDIRECT.
Definition fblk (V : Z -> bytes) (addrs : list Z) (k : Z) : Z :=
  if k <? NDIRECT then addrs !!! Z.to_nat k
  else if indirect addrs =? 0 then 0 else ind_get (V (indirect addrs)) (k - NDIRECT).

(** The number of blocks of [n] bytes. *)
Definition nblk (n : Z) : Z := (n + 511) / 512.

Section files.
Context (st sz : Z) (sb : superblock) (geo : fs_geo st sb).
Notation ses := (ses st sz).
Notation data_block := (data_block st sb).
Notation used := (used sb).
Notation is_bitmap := (is_bitmap sb).
Notation bblock := (bblock sb).
Notation alloc_view := (alloc_view sb).
Notation free_blocks := (free_blocks sb).

(** A file of [n] blocks. *)
Record file_blocks (V : Z -> bytes) (addrs : list Z) (n : Z) : Prop := {
  fb_len : length addrs = 13%nat;
  fb_max : 0 <= n <= MAXFILE;
  fb_data : forall k, 0 <= k < n -> data_block (fblk V addrs k) /\ used V (fblk V addrs k) = true;
  fb_none : forall k, n <= k < MAXFILE -> fblk V addrs k = 0;
  fb_ind : NDIRECT < n -> data_block (indirect addrs) /\ used V (indirect addrs) = true;
  fb_ind_ne : NDIRECT < n -> forall k, 0 <= k < n -> fblk V addrs k <> indirect addrs;
  fb_noind : n <= NDIRECT -> indirect addrs = 0;
  fb_inj : forall j k, 0 <= j < n -> 0 <= k < n -> fblk V addrs j = fblk V addrs k -> j = k
}.

(** The blocks that belong to a file of [n] blocks. *)
Definition owns (V : Z -> bytes) (addrs : list Z) (n x : Z) : Prop :=
  (exists k, 0 <= k < n /\ x = fblk V addrs k) \/ NDIRECT < n /\ x = indirect addrs.

(** A file with the contents [C]. *)
Record file_rep (V : Z -> bytes) (addrs : list Z) (C : bytes) : Prop := {
  fr_blocks : file_blocks V addrs (nblk (Z.of_nat (length C)));
  fr_bytes : forall o, (o < length C)%nat ->
    C !! o = V (fblk V addrs (Z.of_nat o / 512)) !! (o mod 512)%nat
}.

(** The blocks of a file other than the one given are left alone. *)
Lemma data_not_1 b : data_block b -> b <> 1.
Proof. intros H%data_above; [|done]. lia. Qed.

Lemma data_home b : data_block b -> 0 <= b < st.
Proof. intros H. pose proof (data_above st sb geo b H). destruct H. lia. Qed.

Lemma data_range b : data_block b -> 0 <= b < sb_size sb.
Proof. intros H%data_home. destruct geo. lia. Qed.

(** ** [bmap] on a block the file has *)

Lemma NDIRECT_val : NDIRECT = 12. Proof. done. Qed.
Lemma MAXFILE_val : MAXFILE = 140. Proof. done. Qed.

Lemma nonzero_data b : data_block b -> (b =? 0) = false.
Proof. intros H%data_above; [|done]. apply Z.eqb_neq. lia. Qed.

(** The cached inode [i] is an inode of the root device with these blocks. *)
Definition has_inode (s : kst) (i : nat) (addrs : list Z) : Prop :=
  i_dev (k_icache s !!! i) = ROOTDEV /\ i_addrs (k_icache s !!! i) = addrs.

Lemma lframe_has_inode s s' i addrs : lframe s s' -> has_inode s i addrs -> has_inode s' i addrs.
Proof. intros Hf. unfold has_inode. by rewrite (lframe_icache _ _ Hf). Qed.

Lemma addr_alloc_get s i k addrs Q :
  has_inode s i addrs -> (addrs !!! Z.to_nat k =? 0) = false -> Q (addrs !!! Z.to_nat k) s ->
  wp (addr_alloc i k) Q s.
Proof.
  intros [_ Ha] Hz HQ. unfold addr_alloc, addr_get, geti. kstep. rewrite Ha, Hz. by kstep.
Qed.

Lemma bmap_get s H V L i addrs n k Q :
  ses s H V L -> has_inode s i addrs -> file_blocks V addrs n -> 0 <= k < n ->
  (NDIRECT < n -> indirect addrs ∉ H) -> (size H + length L < NBUF)%nat ->
  (forall s', ses s' H V L -> lframe s s' -> still_holds H s s' -> Q (fblk V addrs k) s') ->
  wp (bmap i k) Q s.
Proof.
  intros Hs Hi Hfb Hk HH HR HQ. destruct (fb_data _ _ _ Hfb k Hk) as [Hd _].
  pose proof (fb_max _ _ _ Hfb) as Hn. unfold bmap, fblk in *. destruct (Z.ltb_spec k NDIRECT) as [Hlt|Hge].
  - apply (addr_alloc_get _ _ _ addrs); [done|by apply nonzero_data|].
    apply HQ; [done|reflexivity|]. intros ? ? ? ?. done.
  - destruct (fb_ind _ _ _ Hfb ltac:(lia)) as [Hdi _]. pose proof (nonzero_data _ Hdi) as Hz.
    pose proof (nonzero_data _ Hd) as Hz'. rewrite Hz in Hz', HQ.
    destruct (Z.ltb_spec (k - NDIRECT) NINDIRECT); [|unfold MAXFILE in Hn; lia]. kstep.
    apply (addr_alloc_get _ _ _ addrs); [done|done|]. fold (indirect addrs). unfold geti. kstep.
    rewrite (proj1 Hi).
    eapply ses_bread; [done|by apply data_home|apply HH; lia|done|]. intros j s1 Hh Hs1 Hf1 Hk1.
    kstep. eapply ses_getdata; [done|done|by apply data_home|]. rewrite Hz'. kstep.
    eapply (ses_brelse _ _ _ _ _ _ j (indirect addrs)); [done|done|]. intros s2 Hs2 Hf2 Hk2.
    replace (({[indirect addrs]} ∪ H) ∖ {[indirect addrs]}) with H in Hs2, Hk2
      by (specialize (HH ltac:(lia)); set_solver).
    kstep. apply HQ; [done|by etrans|]. by eapply still_holds_trans.
Qed.

(** ** A file that gets a block more *)

Definition blocks_512 (V : Z -> bytes) : Prop := forall b, 0 <= b < st -> length (V b) = 512%nat.

(** What appending block [b] to a file of [n] blocks does. *)
Record appended (V : Z -> bytes) (addrs : list Z) (n : Z) (V' : Z -> bytes) (addrs' : list Z) (b : Z) : Prop := {
  ap_blocks : file_blocks V' addrs' (n + 1);
  ap_new : fblk V' addrs' n = b;
  ap_zero : V' b = zeros;
  ap_old : forall k, 0 <= k < n ->
    fblk V' addrs' k = fblk V addrs k /\ V' (fblk V addrs k) = V (fblk V addrs k);
  ap_fresh : used V b = false;
  ap_ind : indirect addrs' = indirect addrs \/
    data_block (indirect addrs') /\ used V (indirect addrs') = false;
  ap_used : forall x, 0 <= x < sb_size sb -> used V x = true -> used V' x = true;
  ap_frame : forall x, ~ is_bitmap x -> (data_block x -> used V x = true) -> x <> indirect addrs -> V' x = V x
}.

Lemma free_data V b l : free_blocks V = b :: l -> 0 <= b < sb_size sb /\ used V b = false.
Proof. intros H. by destruct (free_blocks_first sb V b l H) as (? & ? & _). Qed.

Lemma alloc_same V b x : x <> b -> ~ is_bitmap x -> 0 <= b < sb_size sb -> alloc_view V b x = V x.
Proof.
  intros Hx Hnb Hb. unfold FsBlock.alloc_view. rewrite !fupd_ne; [done|intros ->; apply Hnb; by exists b|done].
Qed.

Lemma alloc_used V b x : blocks_512 V -> data_block b -> 0 <= b < sb_size sb -> 0 <= x < sb_size sb ->
  used (alloc_view V b) x = used V x || (x =? b).
Proof.
  intros HV Hd Hb Hx. apply (used_alloc st sb geo); [done|done|by eapply data_not_bitmap|].
  apply HV. pose proof (bblock_range st sb geo b Hb). lia.
Qed.

(** A used data block is untouched by the allocation of a free one. *)
Lemma alloc_keeps V b x : blocks_512 V -> data_block b -> used V b = false -> data_block x -> used V x = true ->
  x <> b /\ alloc_view V b x = V x /\ used (alloc_view V b) x = true.
Proof.
  intros HV Hb Hub Hx Hux. assert (x <> b) as Hne by (intros ->; congruence).
  pose proof (data_range _ Hb). pose proof (data_range _ Hx).
  split_and!; [done|apply alloc_same; [done|by eapply data_not_bitmap|done]|].
  rewrite alloc_used, Hux by done. done.
Qed.

Lemma blocks_512_alloc V b : blocks_512 V -> blocks_512 (alloc_view V b).
Proof.
  intros HV x Hx. unfold FsBlock.alloc_view, fupd. repeat case_decide; subst; [apply length_zeros| |by apply HV].
  unfold set_bit. rewrite length_insert. by apply HV.
Qed.

Lemma direct_append V addrs n b : blocks_512 V -> file_blocks V addrs n -> n < NDIRECT ->
  data_block b -> used V b = false ->
  appended V addrs n (alloc_view V b) (<[Z.to_nat n := b]> addrs) b.
Proof.
  intros HV Hfb Hn Hd Hu. pose proof (data_range _ Hd) as Hb. destruct Hfb.
  assert (indirect (<[Z.to_nat n:=b]> addrs) = indirect addrs) as Ei.
  { unfold indirect. apply list_lookup_total_insert_ne. rewrite NDIRECT_val in *. lia. }
  assert (indirect addrs = 0) as Ei0 by (apply fb_noind0; lia).
  assert (fblk (alloc_view V b) (<[Z.to_nat n:=b]> addrs) n = b) as Enew.
  { unfold fblk. destruct (Z.ltb_spec n NDIRECT); [|lia]. apply list_lookup_total_insert_eq. rewrite NDIRECT_val in *. lia. }
  assert (forall k, 0 <= k -> k <> n -> fblk (alloc_view V b) (<[Z.to_nat n:=b]> addrs) k = fblk V addrs k) as Eold.
  { intros k Hk Hne. unfold fblk. rewrite Ei, Ei0. destruct (k <? NDIRECT); [|done].
    apply list_lookup_total_insert_ne. lia. }
  assert (forall k, 0 <= k < n -> fblk V addrs k <> b /\ alloc_view V b (fblk V addrs k) = V (fblk V addrs k) /\
    used (alloc_view V b) (fblk V addrs k) = true) as Hk.
  { intros k Hk. destruct (fb_data0 k Hk). by apply alloc_keeps. }
  split; [split|..].
  - by rewrite length_insert.
  - rewrite MAXFILE_val, NDIRECT_val in *. lia.
  - intros k Hkn. destruct (decide (k = n)) as [->|Hne].
    + rewrite Enew. split; [done|]. rewrite alloc_used by done. by rewrite Z.eqb_refl, orb_true_r.
    + rewrite Eold by lia. split; [apply fb_data0; lia|apply Hk; lia].
  - intros k Hkn. rewrite Eold by lia. apply fb_none0. lia.
  - lia.
  - lia.
  - intros _. by rewrite Ei.
  - intros j k Hj Hkk E. destruct (decide (j = n)) as [->|], (decide (k = n)) as [->|]; [done| | |].
    + rewrite Enew, Eold in E by lia. exfalso. by apply (Hk k ltac:(lia)).
    + rewrite Enew, Eold in E by lia. exfalso. by apply (Hk j ltac:(lia)).
    + rewrite !Eold in E by lia. apply fb_inj0; [lia|lia|done].
  - done.
  - by apply fupd_eq.
  - intros k Hkk. split; [apply Eold; lia|by apply Hk].
  - done.
  - by left.
  - intros x Hx Hux. rewrite alloc_used, Hux by done. done.
  - intros x Hnb Hdx _. apply alloc_same; [|done|done]. intros ->. specialize (Hdx Hd). congruence.
Qed.

(** A file of [n] blocks whose indirect block [a] is there. *)
Record ready (V : Z -> bytes) (addrs : list Z) (n : Z) : Prop := {
  rd_len : length addrs = 13%nat;
  rd_n : NDIRECT <= n < MAXFILE;
  rd_data : forall k, 0 <= k < n -> data_block (fblk V addrs k) /\ used V (fblk V addrs k) = true;
  rd_none : forall k, n <= k < MAXFILE -> fblk V addrs k = 0;
  rd_ind : data_block (indirect addrs) /\ used V (indirect addrs) = true;
  rd_ne : forall k, 0 <= k < n -> fblk V addrs k <> indirect addrs;
  rd_inj : forall j k, 0 <= j < n -> 0 <= k < n -> fblk V addrs j = fblk V addrs k -> j = k
}.

Lemma blocks_ready V addrs n : file_blocks V addrs n -> NDIRECT < n < MAXFILE -> ready V addrs n.
Proof. intros [] Hn. split; try done; try lia; auto with lia. all: intros; apply fb_ind0 || apply fb_ind_ne0; lia. Qed.

(** The [k]th block through an indirect block [a]. *)
Lemma fblk_ind V addrs k : NDIRECT <= k -> data_block (indirect addrs) ->
  fblk V addrs k = ind_get (V (indirect addrs)) (k - NDIRECT).
Proof.
  intros Hk Hd. unfold fblk. destruct (Z.ltb_spec k NDIRECT); [lia|]. by rewrite (nonzero_data _ Hd).
Qed.

Lemma fblk_dir V V' addrs k : k < NDIRECT -> fblk V' addrs k = fblk V addrs k.
Proof. intros Hk. unfold fblk. by destruct (Z.ltb_spec k NDIRECT); [|lia]. Qed.

(** Entry [j] of an indirect block after entry [n] has been set. *)
Lemma ind_get_put d n j v : length d = 512%nat -> 0 <= n < NINDIRECT -> 0 <= j < NINDIRECT ->
  0 <= v < 2 ^ 32 -> ind_get (put32 d (Z.to_nat (4 * n)) v) j = if j =? n then v else ind_get d j.
Proof.
  intros Hl Hn Hj Hv. unfold ind_get. change NINDIRECT with 128 in *. destruct (Z.eqb_spec j n) as [->|Hne].
  - rewrite get32_put32 by lia. by apply u32_small.
  - apply get32_put32_ne; lia.
Qed.

Definition indirect_view (V : Z -> bytes) (addrs : list Z) (n b : Z) : Z -> bytes :=
  fupd (alloc_view V b) (indirect addrs)
    (put32 (alloc_view V b (indirect addrs)) (Z.to_nat (4 * (n - NDIRECT))) b).

Lemma indirect_append V addrs n b : blocks_512 V -> ready V addrs n -> st < 2 ^ 32 ->
  data_block b -> used V b = false -> appended V addrs n (indirect_view V addrs n b) addrs b.
Proof.
  intros HV [] Hst Hd Hu. pose proof NDIRECT_val. pose proof MAXFILE_val. destruct rd_ind0 as [Hda Hua]. set (a := indirect addrs) in *.
  pose proof (data_range _ Hd) as Hb. pose proof (data_home _ Hd) as Hbh.
  destruct (alloc_keeps V b a HV Hd Hu Hda Hua) as (Hab & Va & Ua).
  unfold indirect_view. fold a. rewrite Va. set (V' := fupd _ a _).
  assert (forall x, x <> a -> V' x = alloc_view V b x) as HV' by (intros x Hx; by apply fupd_ne).
  assert (forall x, 0 <= x < sb_size sb -> used V' x = used (alloc_view V b) x) as HU.
  { intros x Hx. apply used_ext. apply HV'. intros E. apply (data_not_bitmap st sb geo a Hda). rewrite <- E. by exists x. }
  assert (forall k, 0 <= k < n -> fblk V addrs k <> b /\ V' (fblk V addrs k) = V (fblk V addrs k) /\
    used V' (fblk V addrs k) = true) as Hk.
  { intros k Hk. destruct (rd_data0 k Hk) as [Hdk Huk].
    destruct (alloc_keeps V b _ HV Hd Hu Hdk Huk) as (H1 & H2 & H3).
    rewrite HU by (by apply data_range). rewrite HV' by (by apply rd_ne0). done. }
  assert (forall k, NDIRECT <= k < MAXFILE -> fblk V' addrs k = if k =? n then b else fblk V addrs k) as Hind.
  { intros k Hkk. rewrite !fblk_ind by (done || lia). fold a. unfold V' at 1. rewrite fupd_eq.
    rewrite ind_get_put; [|by apply HV, data_home|unfold MAXFILE in *; lia..].
    replace (k - NDIRECT =? n - NDIRECT) with (k =? n) by lia. done. }
  assert (forall k, 0 <= k < MAXFILE -> k <> n -> fblk V' addrs k = fblk V addrs k) as Eold.
  { intros k Hkk Hne. destruct (decide (k < NDIRECT)); [by apply fblk_dir|].
    rewrite Hind by lia. by destruct (Z.eqb_spec k n). }
  assert (fblk V' addrs n = b) as Enew by (rewrite Hind by lia; by rewrite Z.eqb_refl).
  assert (used V' b = true) as Hub.
  { rewrite HU by done. rewrite alloc_used by done. by rewrite Z.eqb_refl, orb_true_r. }
  split; [split|..].
  - done.
  - lia.
  - intros k Hkn. destruct (decide (k = n)) as [->|Hne]; [by rewrite Enew|].
    rewrite Eold by lia. split; [apply rd_data0; lia|apply Hk; lia].
  - intros k Hkn. rewrite Eold by lia. apply rd_none0. lia.
  - intros _. split; [done|]. fold a. rewrite HU by (by apply data_range). done.
  - intros _ k Hkn. fold a. destruct (decide (k = n)) as [->|]; [rewrite Enew; congruence|].
    rewrite Eold by lia. apply rd_ne0. lia.
  - lia.
  - intros j k Hj Hkk E. destruct (decide (j = n)) as [->|], (decide (k = n)) as [->|]; [done| | |].
    + rewrite Enew, Eold in E by lia. exfalso. by apply (Hk k ltac:(lia)).
    + rewrite Enew, Eold in E by lia. exfalso. by apply (Hk j ltac:(lia)).
    + rewrite !Eold in E by lia. apply rd_inj0; [lia|lia|done].
  - done.
  - rewrite HV' by congruence. by apply fupd_eq.
  - intros k Hkk. split; [apply Eold; lia|by apply Hk].
  - done.
  - by left.
  - intros x Hx Hux. rewrite HU, alloc_used, Hux by done. done.
  - intros x Hnb Hdx Hxa. rewrite HV' by done. apply alloc_same; [|done|done].
    intros ->. specialize (Hdx Hd). congruence.
Qed.

Lemma ind_get_zeros j : ind_get zeros j = 0.
Proof.
  unfold ind_get, get32. rewrite slice_zeros. generalize (min 4 (512 - Z.to_nat (4 * j))) as n.
  induction n as [|n IH]; cbn; [done|]. rewrite IH. done.
Qed.

(** The first block behind the direct ones brings the indirect block. *)
Lemma ready_alloc V addrs a : blocks_512 V -> file_blocks V addrs NDIRECT -> data_block a -> used V a = false ->
  let V1 := alloc_view V a in let addrs1 := <[Z.to_nat NDIRECT := a]> addrs in
  indirect addrs1 = a /\ ready V1 addrs1 NDIRECT /\
  forall k, 0 <= k < NDIRECT -> fblk V1 addrs1 k = fblk V addrs k /\ V1 (fblk V addrs k) = V (fblk V addrs k).
Proof.
  intros HV [] Hd Hu V1 addrs1. pose proof NDIRECT_val. pose proof MAXFILE_val.
  pose proof (data_range _ Hd) as Ha.
  assert (indirect addrs1 = a) as Ei by (unfold indirect; apply list_lookup_total_insert_eq; rewrite fb_len0; vm_compute; lia).
  assert (forall k, 0 <= k < NDIRECT -> fblk V1 addrs1 k = fblk V addrs k) as Eold.
  { intros k Hk. unfold fblk. destruct (Z.ltb_spec k NDIRECT); [|lia]. apply list_lookup_total_insert_ne. lia. }
  assert (forall k, 0 <= k < NDIRECT -> fblk V addrs k <> a /\ V1 (fblk V addrs k) = V (fblk V addrs k) /\
    used V1 (fblk V addrs k) = true) as Hk.
  { intros k Hk. destruct (fb_data0 k Hk). by apply alloc_keeps. }
  split_and!; [done| |intros k Hkk; split; [by apply Eold|by apply Hk]]. split.
  - unfold addrs1. by rewrite length_insert.
  - lia.
  - intros k Hkn. rewrite Eold by done. split; [by apply fb_data0|by apply Hk].
  - intros k Hkn. rewrite fblk_ind by (rewrite ?Ei; done || lia). rewrite Ei.
    replace (V1 a) with zeros by (symmetry; apply fupd_eq). apply ind_get_zeros.
  - rewrite Ei. split; [done|]. unfold V1. rewrite alloc_used by done. by rewrite Z.eqb_refl, orb_true_r.
  - intros k Hkn. rewrite Eold, Ei by done. by apply Hk.
  - intros j k Hj Hkn. rewrite !Eold by done. by apply fb_inj0.
Qed.

Lemma appended_alloc V addrs a b : blocks_512 V -> file_blocks V addrs NDIRECT -> st < 2 ^ 32 ->
  data_block a -> used V a = false -> data_block b -> used (alloc_view V a) b = false ->
  let addrs1 := <[Z.to_nat NDIRECT := a]> addrs in
  appended V addrs NDIRECT (indirect_view (alloc_view V a) addrs1 NDIRECT b) addrs1 b.
Proof.
  intros HV Hfb Hst Hda Hua Hdb Hub addrs1.
  destruct (ready_alloc V addrs a HV Hfb Hda Hua) as (Ei & Hr & Hold). fold addrs1 in Ei, Hr, Hold.
  destruct (indirect_append (alloc_view V a) addrs1 NDIRECT b) as [H1 H2 H3 H4 H5 _ H6 H7];
    [by apply blocks_512_alloc|done..|].
  assert (used V b = false /\ b <> a) as [Hub' Hba].
  { rewrite alloc_used in Hub by (done || by apply data_range). apply orb_false_iff in Hub as [? ?%Z.eqb_neq]. done. }
  assert (forall x, 0 <= x < sb_size sb -> used V x = true -> used (alloc_view V a) x = true) as Hu.
  { intros x Hx Hux. rewrite alloc_used, Hux by (done || by apply data_range). done. }
  split; try done.
  - intros k Hk. destruct (H4 k Hk) as [E1 E2], (Hold k Hk) as [E3 E4]. rewrite E3 in E1, E2. by rewrite E2, E4.
  - right. by rewrite Ei.
  - intros x Hx Hux. apply H6; [done|]. by apply Hu.
  - intros x Hnb Hdx _. assert (x <> a) as Hxa by (intros ->; specialize (Hdx Hda); congruence).
    rewrite H7; [apply alloc_same; [done|done|by apply data_range]|done| |congruence].
    intros Hdx'. apply Hu; [by apply data_range|by apply Hdx].
Qed.

(** ** [bmap] at the end of a file

    The disk has one block of bitmap, as [mkfs] makes it. [T] bounds what a
    transaction touches. *)

Context (one_bitmap : sb_size sb <= BPB) (big_log : 9 <= sz) (small_disk : st < 2 ^ 31).
Notation bm := (bblock 0).

Lemma bblock_one b : 0 <= b < sb_size sb -> bblock b = bm.
Proof.
  intros Hb. rewrite !(bblock_eq st sb geo) by (unfold BPB, BSIZE in *; lia).
  rewrite (Z.div_small b BPB) by lia. done.
Qed.

(** The bound on what has been logged, with room for [n] more blocks. *)
Definition within (L T : list Z) (n : nat) : Prop := L ⊆ T /\ bm ∈ T /\ (length T + n <= 7)%nat.

Lemma within_room s H V L T n : ses s H V L -> within L T n -> (length L + n <= 7)%nat.
Proof. intros Hs (HL & _ & Hn). pose proof (sub_length L T (ses_nodup _ _ _ _ _ _ Hs) HL). lia. Qed.

Lemma alloc_block s V L T b l (H : gset Z) Q :
  ses s H V L -> in_trans s -> sb_dec (V 1) = sb -> free_blocks V = b :: l -> data_block b ->
  (forall x, x ∈ H -> data_block x /\ used V x = true) -> (size H <= 1)%nat -> within L T 1 ->
  (forall s' L', ses s' H (alloc_view V b) L' -> L' ⊆ b :: T -> lframe s s' -> still_holds H s s' ->
     free_blocks (alloc_view V b) = l -> used V b = false -> Q b s') ->
  wp (balloc ROOTDEV) Q s.
Proof.
  intros Hs Ht Hsb Hf Hd HH Hsz HT HQ. pose proof (within_room _ _ _ _ _ _ Hs HT) as HL.
  destruct (free_data V b l Hf) as [Hb Hu].
  eapply (ses_alloc st sz sb geo); [done..| | |].
  - intros Hin%HH. destruct Hin. congruence.
  - split_and!; [by intros x [? _]%HH|unfold NBUF; lia|lia].
  - intros s' Hs' Hf' Hk' Hfr. apply (HQ s' _ Hs'); [|done..]. destruct HT as (HT1 & HT2 & _).
    rewrite bblock_one by done. apply log_add_sub; [set_solver|]. apply log_add_sub; set_solver.
Qed.

Lemma has_inode_set s i addrs addrs' : (i < length (k_icache s))%nat -> has_inode s i addrs ->
  has_inode (set_icache (alter (set_addrs (fun _ => addrs')) i) s) i addrs'.
Proof. intros Hi [Hd Ha]. unfold has_inode. cbn -[alter]. by rewrite lookup_total_alter_eq. Qed.

(** What [bmap] leaves when it has appended a block. *)
Record bmap_post (s : kst) (V : Z -> bytes) (T : list Z) (i : nat) (addrs : list Z) (n : Z) (b : Z) (s' : kst)
  (V' : Z -> bytes) (L' : list Z) (addrs' : list Z) : Prop := {
  bp_ses : ses s' ∅ V' L';
  bp_frame : iframe s s';
  bp_app : appended V addrs n V' addrs' b;
  bp_inode : k_icache s' = alter (set_addrs (fun _ => addrs')) i (k_icache s);
  bp_log : L' ⊆ b :: (if n =? NDIRECT then [indirect addrs'] else []) ++ T;
  bp_ind : n <> NDIRECT -> indirect addrs' = indirect addrs;
  bp_sb : V' 1 = V 1;
  bp_free : free_blocks V' = drop (if n =? NDIRECT then 2 else 1) (free_blocks V)
}.

Lemma bmap_direct s V L T i addrs n b l Q :
  ses s ∅ V L -> in_trans s -> sb_dec (V 1) = sb -> has_inode s i addrs -> (i < length (k_icache s))%nat ->
  file_blocks V addrs n -> n < NDIRECT -> free_blocks V = b :: l -> data_block b -> within L T 1 ->
  (forall s' V' L' addrs', bmap_post s V T i addrs n b s' V' L' addrs' -> Q b s') ->
  wp (bmap i n) Q s.
Proof.
  intros Hs Ht Hsb Hi Hlen Hfb Hn Hf Hd HT HQ. pose proof Hi as [Hdev Haddrs]. pose proof (fb_max _ _ _ Hfb).
  unfold bmap. destruct (Z.ltb_spec n NDIRECT); [|lia]. unfold addr_alloc, addr_get, geti. kstep.
  rewrite Haddrs. pose proof (fb_none _ _ _ Hfb n ltac:(rewrite MAXFILE_val, NDIRECT_val in *; lia)) as Hz.
  unfold fblk in Hz. destruct (Z.ltb_spec n NDIRECT); [|lia]. rewrite Hz. cbn [Z.eqb]. kstep. rewrite Hdev.
  eapply alloc_block; [done..|set_solver|rewrite size_empty; lia|done|].
  intros s1 L1 Hs1 HL1 Hf1 _ Hfr Hu. unfold addr_set, seti. kstep.
  apply (HQ _ (alloc_view V b) L1 (<[Z.to_nat n := b]> addrs)). split.
  - by apply ses_set_icache.
  - etrans; [by apply lframe_iframe|apply iframe_seti].
  - apply direct_append; [|done..]. intros x Hx. by eapply ses_length.
  - cbn -[alter]. rewrite (lframe_icache _ _ Hf1). apply list_alter_at. unfold set_addrs. by rewrite Haddrs.
  - destruct (Z.eqb_spec n NDIRECT); [lia|done].
  - intros _. unfold indirect. apply list_lookup_total_insert_ne. rewrite NDIRECT_val in *. lia.
  - apply alloc_same; [intros <-; by apply (data_not_1 1)| |by apply (free_data V b l)].
    intros Hb1%(bitmap_below st sb geo). lia.
  - destruct (Z.eqb_spec n NDIRECT); [lia|]. by rewrite Hf.
Qed.

(** [bmap] from the indirect block [a] on. *)
Definition bmap_entry (i : nat) (a bn : Z) : K Z :=
  ip <- geti i ;;
  bp <- bread (i_dev ip) a ;;
  d <- getdata bp ;;
  addr <- (if ind_get d bn =? 0 then
             addr <- balloc (i_dev ip) ;;
             d <- getdata bp ;;
             setdata bp (put32 d (Z.to_nat (4 * bn)) addr) ;;
             log_write bp ;;
             ret addr
           else ret (ind_get d bn)) ;;
  brelse bp ;;
  ret addr.

Lemma free_indirect V addrs n b l : free_blocks (alloc_view V b) = l -> data_block (indirect addrs) ->
  free_blocks (indirect_view V addrs n b) = l.
Proof.
  intros <- Hd. apply free_ext. intros x Hx. apply fupd_ne. intros ->. by eapply data_not_bitmap.
Qed.

Lemma bmap_entry_append s V L T i addrs n b l Q :
  ses s ∅ V L -> in_trans s -> sb_dec (V 1) = sb -> has_inode s i addrs -> ready V addrs n ->
  free_blocks V = b :: l -> data_block b -> within L T 1 -> indirect addrs ∈ T ->
  (forall s' L', ses s' ∅ (indirect_view V addrs n b) L' -> L' ⊆ b :: T -> lframe s s' ->
     free_blocks (indirect_view V addrs n b) = l -> used V b = false -> Q b s') ->
  wp (bmap_entry i (indirect addrs) (n - NDIRECT)) Q s.
Proof.
  intros Hs Ht Hsb [Hdev _] Hr Hf Hd HT HaT HQ. set (a := indirect addrs) in *.
  pose proof (rd_ind _ _ _ Hr) as [Hda Hua]. fold a in Hda, Hua. pose proof (rd_n _ _ _ Hr) as Hn.
  pose proof (within_room _ _ _ _ _ _ Hs HT) as HL. pose proof (data_home a Hda) as Hah.
  unfold bmap_entry, geti. kstep. rewrite Hdev.
  eapply ses_bread; [done|done|set_solver|rewrite size_empty; unfold NBUF; lia|].
  intros j s1 Hh Hs1 Hf1 _. kstep. eapply ses_getdata; [done|done|done|].
  pose proof (rd_none _ _ _ Hr n ltac:(lia)) as Hz. rewrite fblk_ind in Hz by (done || lia). fold a in Hz.
  rewrite Hz. cbn [Z.eqb]. kstep.
  assert (in_trans s1) as Ht1 by (by eapply lframe_in_trans).
  eapply (alloc_block s1 V L T b l ({[a]} ∪ ∅)); [done..|set_solver|rewrite union_empty_r_L, size_singleton; lia|done|].
  intros s2 L2 Hs2 HL2 Hf2 Hk2 Hfr Hu.
  assert (holds s2 j a) as Hh2 by (apply Hk2; [set_solver|done]). kstep.
  eapply ses_getdata; [done|done|done|].
  apply (ses_write st sz s2 ({[a]} ∪ ∅) (alloc_view V b) L2 j a); [done|by eapply lframe_in_trans|done|set_solver| | |].
  { rewrite length_put32; [eapply ses_length; done|].
    rewrite (ses_length _ _ _ _ _ _ _ Hs2 Hah). unfold MAXFILE in Hn. change NINDIRECT with 128 in Hn. lia. }
  { pose proof (sub_length L2 (b :: T) (ses_nodup _ _ _ _ _ _ Hs2) HL2) as Hl2. cbn in Hl2. destruct HT as (_ & _ & HT).
    split; [rewrite union_empty_r_L, size_singleton; unfold NBUF|]; lia. }
  intros s3 Hs3 Hf3 Hk3. kstep.
  eapply (ses_brelse _ _ _ _ _ _ j a); [done|apply Hk3; [set_solver|done]|]. intros s4 Hs4 Hf4 _. kstep.
  replace (({[a]} ∪ ∅) ∖ {[a]}) with (∅ : gset Z) in Hs4 by set_solver.
  apply (HQ _ (log_add a L2)); [done| | | |done].
  - apply log_add_sub; [set_solver|done].
  - by do 3 (etrans; [done|]).
  - by apply free_indirect.
Qed.

Lemma bmap_unfold i n : NDIRECT <= n < MAXFILE ->
  bmap i n = (a <- addr_alloc i NDIRECT ;; bmap_entry i a (n - NDIRECT)).
Proof.
  intros Hn. unfold bmap. destruct (Z.ltb_spec n NDIRECT); [lia|].
  destruct (Z.ltb_spec (n - NDIRECT) NINDIRECT); [done|]. unfold MAXFILE in Hn. lia.
Qed.

Lemma indirect_sb V addrs n b : data_block (indirect addrs) -> data_block b ->
  indirect_view V addrs n b 1 = V 1.
Proof.
  intros Hda Hd. unfold indirect_view. rewrite fupd_ne by (intros E; by apply (data_not_1 _ Hda)).
  apply alloc_same; [intros E; by apply (data_not_1 _ Hd)| |by apply data_range].
  intros Hb1%(bitmap_below st sb geo). lia.
Qed.

Lemma set_addrs_id s i addrs : has_inode s i addrs ->
  alter (set_addrs (fun _ => addrs)) i (k_icache s) = k_icache s.
Proof.
  intros [_ Ha]. transitivity (alter id i (k_icache s)); [|apply list_alter_id; done].
  apply list_alter_at. unfold set_addrs. rewrite <- Ha. by destruct (k_icache s !!! i).
Qed.

Lemma bmap_indirect s V L T i addrs n b l Q :
  ses s ∅ V L -> in_trans s -> sb_dec (V 1) = sb -> has_inode s i addrs ->
  file_blocks V addrs n -> NDIRECT < n < MAXFILE -> free_blocks V = b :: l -> data_block b -> within L T 1 ->
  indirect addrs ∈ T ->
  (forall s' V' L' addrs', bmap_post s V T i addrs n b s' V' L' addrs' -> Q b s') ->
  wp (bmap i n) Q s.
Proof.
  intros Hs Ht Hsb Hi Hfb Hn Hf Hd HT HaT HQ. pose proof (blocks_ready V addrs n Hfb ltac:(lia)) as Hr.
  destruct (rd_ind _ _ _ Hr) as [Hda Hua]. rewrite bmap_unfold by lia. kstep.
  apply (addr_alloc_get _ _ _ addrs); [done|by apply nonzero_data|]. fold (indirect addrs).
  eapply bmap_entry_append; [done..|]. intros s' L' Hs' HL' Hf' Hfr Hu.
  apply (HQ _ (indirect_view V addrs n b) L' addrs). split.
  - done.
  - by apply lframe_iframe.
  - apply indirect_append; [|done|lia|done..]. intros x Hx. by eapply ses_length.
  - by rewrite (lframe_icache _ _ Hf'), set_addrs_id.
  - destruct (Z.eqb_spec n NDIRECT); [lia|done].
  - done.
  - by apply indirect_sb.
  - destruct (Z.eqb_spec n NDIRECT); [lia|]. by rewrite Hf.
Qed.

Lemma bmap_first_indirect s V L T i addrs a b l Q :
  ses s ∅ V L -> in_trans s -> sb_dec (V 1) = sb -> has_inode s i addrs -> (i < length (k_icache s))%nat ->
  file_blocks V addrs NDIRECT -> free_blocks V = a :: b :: l -> data_block a -> data_block b -> within L T 2 ->
  (forall s' V' L' addrs', bmap_post s V T i addrs NDIRECT b s' V' L' addrs' -> Q b s') ->
  wp (bmap i NDIRECT) Q s.
Proof.
  intros Hs Ht Hsb Hi Hlen Hfb Hf Hda Hd HT HQ. pose proof Hi as [Hdev Haddrs].
  assert (blocks_512 V) as HV by (intros x Hx; by eapply ses_length).
  rewrite bmap_unfold by (rewrite MAXFILE_val, NDIRECT_val; lia). unfold addr_alloc, addr_get, geti. kstep.
  rewrite Haddrs. fold (indirect addrs). rewrite (fb_noind _ _ _ Hfb) by lia. cbn [Z.eqb]. kstep. rewrite Hdev.
  destruct HT as (HT1 & HT2 & HT3).
  eapply (alloc_block s V L T a); [done..|set_solver|rewrite size_empty; lia|split_and!; [done..|lia]|].
  intros s1 L1 Hs1 HL1 Hf1 _ Hfr Hua. unfold addr_set, seti. kstep.
  set (addrs1 := <[Z.to_nat NDIRECT:=a]> addrs).
  destruct (ready_alloc V addrs a HV Hfb Hda Hua) as (Ei & Hr & _). fold addrs1 in Ei, Hr.
  assert (alter (set_addrs (<[Z.to_nat NDIRECT := a]>)) i (k_icache s1) =
    alter (set_addrs (fun _ => addrs1)) i (k_icache s)) as Eic.
  { rewrite (lframe_icache _ _ Hf1). apply list_alter_at. unfold set_addrs. by rewrite Haddrs. }
  assert (alloc_view V a 1 = V 1) as E1.
  { apply alloc_same; [intros E; by apply (data_not_1 _ Hda)| |by apply data_range].
    intros Hb1%(bitmap_below st sb geo). lia. }
  match goal with |- wp _ _ ?s2 => set (s2' := s2) end. rewrite <- Ei.
  eapply (bmap_entry_append s2' (alloc_view V a) L1 (a :: T) i addrs1 NDIRECT b l).
  - by apply ses_set_icache.
  - eapply iframe_in_trans; [apply iframe_seti|]. by eapply lframe_in_trans.
  - by rewrite E1.
  - unfold has_inode, s2'. cbn -[alter]. rewrite Eic, lookup_total_alter_eq by done. done.
  - done.
  - done.
  - done.
  - split_and!; [done|set_solver|cbn; lia].
  - rewrite Ei. set_solver.
  - intros s' L' Hs' HL' Hf' Hfr' Hu. apply (HQ _ (indirect_view (alloc_view V a) addrs1 NDIRECT b) L' addrs1). split.
    + exact Hs'.
    + etrans; [by apply lframe_iframe|]. etrans; [apply iframe_seti|]. by apply lframe_iframe.
    + apply appended_alloc; [done|done|lia|done..].
    + rewrite (lframe_icache _ _ Hf'). exact Eic.
    + rewrite Z.eqb_refl, Ei. set_solver.
    + done.
    + rewrite indirect_sb by (rewrite ?Ei; done). done.
    + by rewrite Z.eqb_refl, Hf.
Qed.

(** ** Any block a write may touch: one the file has or the next one *)

(** The number of blocks [bmap] allocates for block [k] of a file of [n]. *)
Definition cost (n k : Z) : nat := if k <? n then 0 else if n =? NDIRECT then 2 else 1.

(** The number of blocks it touches besides those of [T]. *)
Definition grow (n k : Z) : nat := if (n =? NDIRECT) && (k =? n) then 2 else 1.

Record bmapped (s : kst) (V : Z -> bytes) (T : list Z) (i : nat) (addrs : list Z) (n k : Z) (b : Z) (s' : kst)
  (V' : Z -> bytes) (L' T' : list Z) (addrs' : list Z) : Prop := {
  bd_ses : ses s' ∅ V' L';
  bd_frame : iframe s s';
  bd_blocks : file_blocks V' addrs' (Z.max n (k + 1));
  bd_new : fblk V' addrs' k = b;
  bd_old : forall j, 0 <= j < n ->
    fblk V' addrs' j = fblk V addrs j /\ V' (fblk V addrs j) = V (fblk V addrs j);
  bd_inode : k_icache s' = alter (set_addrs (fun _ => addrs')) i (k_icache s);
  bd_same : k < n -> addrs' = addrs;
  bd_touch : L' ⊆ T' /\ T ⊆ T' /\ b ∈ T' /\ (NDIRECT < Z.max n (k + 1) -> indirect addrs' ∈ T') /\
    (length T' <= length T + grow n k)%nat;
  bd_sb : V' 1 = V 1;
  bd_free : free_blocks V' = drop (cost n k) (free_blocks V);
  bd_fresh : (k < n \/ used V b = false) /\ (indirect addrs' = indirect addrs \/
    data_block (indirect addrs') /\ used V (indirect addrs') = false);
  bd_used : forall x, 0 <= x < sb_size sb -> used V x = true -> used V' x = true;
  bd_keep : forall x, ~ is_bitmap x -> (data_block x -> used V x = true) -> x <> indirect addrs -> V' x = V x;
  bd_one : 1 ∉ T -> 1 ∉ T'
}.

(** The blocks of a file are not the superblock. *)
Lemma touched_not_1 V addrs n k b l T : file_blocks V addrs n -> 0 <= k < n -> fblk V addrs k = b ->
  l = [] \/ NDIRECT < n /\ l = [indirect addrs] -> 1 ∉ T -> 1 ∉ b :: l ++ T.
Proof.
  intros Hfb Hk <- Hl HT. pose proof (data_not_1 _ (proj1 (fb_data _ _ _ Hfb k Hk))).
  destruct Hl as [->|[Hn ->]]; [set_solver|]. pose proof (data_not_1 _ (proj1 (fb_ind _ _ _ Hfb Hn))). set_solver.
Qed.

Lemma post_bmapped s V T i addrs n b s' V' L' addrs' :
  bm ∈ T -> (NDIRECT < n -> indirect addrs ∈ T) -> 0 <= n ->
  bmap_post s V T i addrs n b s' V' L' addrs' ->
  bmapped s V T i addrs n n b s' V' L' (b :: (if n =? NDIRECT then [indirect addrs'] else []) ++ T) addrs'.
Proof.
  intros HT HiT Hn [Hs Hf [] Hic HL Hia Hsb Hfr]. replace (n + 1) with (Z.max n (n + 1)) in * by lia.
  split; try done; [lia| | |by split; [right|]|].
  - split_and!; [done|set_solver|set_solver| |].
    + intros Hlt. destruct (Z.eqb_spec n NDIRECT); [set_solver|]. rewrite Hia by done.
      specialize (HiT ltac:(lia)). set_solver.
    + unfold grow. rewrite Z.eqb_refl, andb_true_r. destruct (n =? NDIRECT); cbn; lia.
  - unfold cost. rewrite Z.ltb_irrefl. done.
  - intros H1. apply (touched_not_1 _ _ _ n _ _ _ ltac:(eassumption)); [lia|done| |done].
    destruct (Z.eqb_spec n NDIRECT); [right; split; [lia|done]|by left].
Qed.

Lemma get_bmapped s V L T i addrs n k s' : ses s' ∅ V L -> lframe s s' -> has_inode s i addrs ->
  file_blocks V addrs n -> 0 <= k < n -> L ⊆ T -> (NDIRECT < n -> indirect addrs ∈ T) ->
  bmapped s V T i addrs n k (fblk V addrs k) s' V L (fblk V addrs k :: T) addrs.
Proof.
  intros Hs Hf Hi Hfb Hk HL HiT. split; try done.
  - by apply lframe_iframe.
  - by rewrite Z.max_l by lia.
  - by rewrite (lframe_icache _ _ Hf), set_addrs_id.
  - rewrite Z.max_l by lia. split_and!; [set_solver|set_solver|set_solver|set_solver|].
    unfold grow. destruct (_ && _); cbn; lia.
  - unfold cost. destruct (Z.ltb_spec k n); [|lia]. by rewrite drop_0.
  - split; [left; lia|by left].
  - intros H1. apply (touched_not_1 V addrs n k _ []); [done|done|done|by left|done].
Qed.

Lemma bmap_any s V L T i addrs n k Q :
  ses s ∅ V L -> in_trans s -> sb_dec (V 1) = sb -> has_inode s i addrs -> (i < length (k_icache s))%nat ->
  file_blocks V addrs n -> 0 <= k <= n -> k < MAXFILE ->
  (cost n k <= length (free_blocks V))%nat -> Forall data_block (take (cost n k) (free_blocks V)) ->
  within L T (grow n k) -> (NDIRECT < n -> indirect addrs ∈ T) ->
  (forall b s' V' L' T' addrs', bmapped s V T i addrs n k b s' V' L' T' addrs' -> Q b s') ->
  wp (bmap i k) Q s.
Proof.
  intros Hs Ht Hsb Hi Hlen Hfb Hk Hm Hc Hd HT HiT HQ. pose proof HT as (HT1 & HT2 & HT3).
  destruct (decide (k < n)) as [Hlt|Hge].
  { eapply (bmap_get _ _ _ _ _ addrs n); [done..|lia|set_solver| |].
    { pose proof (within_room _ _ _ _ _ _ Hs HT). rewrite size_empty. unfold NBUF. lia. }
    intros s' Hs' Hf' _. apply (HQ _ s' V L (fblk V addrs k :: T) addrs).
    apply get_bmapped; (done || lia). }
  assert (k = n) as -> by lia. unfold cost in Hc, Hd. rewrite Z.ltb_irrefl in Hc, Hd.
  unfold grow in HT, HT3. rewrite Z.eqb_refl, andb_true_r in HT, HT3.
  assert (forall b s' V' L' addrs', bmap_post s V T i addrs n b s' V' L' addrs' -> Q b s') as HQ'.
  { intros b s' V' L' addrs' Hp. eapply HQ. apply post_bmapped; [done..|lia|exact Hp]. }
  destruct (Z.eqb_spec n NDIRECT) as [->|Hne].
  - destruct (free_blocks V) as [|a [|b l]] eqn:Ef; cbn in Hc, Hd; [lia..|].
    apply Forall_cons in Hd as [Hda Hd]. apply Forall_cons in Hd as [Hdb _].
    eapply (bmap_first_indirect s V L T i addrs a b l); [done..|]. eauto.
  - destruct (free_blocks V) as [|b l] eqn:Ef; cbn in Hc, Hd; [lia|].
    apply Forall_cons in Hd as [Hdb _]. destruct (decide (n < NDIRECT)).
    + eapply (bmap_direct s V L T i addrs n b l); [done..|]. eauto.
    + eapply (bmap_indirect s V L T i addrs n b l); [done..|lia|done|done|done|apply HiT; lia|]. eauto.
Qed.
End files.
