(* ===== verification/FsRw.v ===== *)
(** * Reading and writing files (kernel/fs.c)

    [readi] and [writei] on the contents of a file: reading returns the bytes
    of the file, writing replaces them and extends the file, and what was
    written is read back. *)

From stdpp Require Import prelude gmap strings.
From S2P Require Import Prelude Kernel Spinlock Sched Bio Cache Log StringC Fs FsLayout FsBlock FsFile.

Section rw.
Context (st sz : Z) (sb : superblock) (geo : fs_geo st sb).
Context (one_bitmap : sb_size sb <= BPB) (big_log : 9 <= sz) (small_disk : st < 2 ^ 31).
Notation ses := (ses st sz).
Notation data_block := (data_block st sb).
Notation used := (used sb).
Notation is_bitmap := (is_bitmap sb).
Notation free_blocks := (free_blocks sb).
Notation file_blocks := (file_blocks st sb).
Notation file_rep := (file_rep st sb).
Notation bmapped := (bmapped st sz sb).

(** ** Arithmetic of blocks *)

Lemma nblk_range n : 0 <= n -> 512 * (nblk n - 1) < n <= 512 * nblk n \/ n = 0 /\ nblk n = 0.
Proof.
  intros Hn. unfold nblk. pose proof (Z.div_mod (n + 511) 512 ltac:(lia)).
  pose proof (Z.mod_pos_bound (n + 511) 512 ltac:(lia)). destruct (decide (n = 0)) as [->|]; [by right|left; lia].
Qed.

Lemma nblk_of n k : 512 * (k - 1) < n <= 512 * k -> nblk n = k.
Proof.
  intros H. unfold nblk. symmetry. apply (Z.div_unique _ _ _ (n + 511 - 512 * k)); lia.
Qed.

Lemma nblk_max a b : 0 <= a -> 0 <= b -> nblk (Z.max a b) = Z.max (nblk a) (nblk b).
Proof.
  intros Ha Hb. assert (forall x y, x <= y -> nblk x <= nblk y) as Hm.
  { intros x y Hxy. apply Z.div_le_mono; lia. }
  destruct (Z.max_spec a b) as [[Hlt ->]|[Hlt ->]]; [pose proof (Hm a b)|pose proof (Hm b a)]; lia.
Qed.

(** The block of an offset in the file. *)
Lemma off_block o n : 0 <= o < n -> 0 <= o / 512 < nblk n.
Proof.
  intros Ho. split; [apply Z.div_pos; lia|]. destruct (nblk_range n) as [H|H]; [lia| |lia].
  apply Z.div_lt_upper_bound; lia.
Qed.

Lemma off_split (o : nat) : Z.of_nat o / 512 = Z.of_nat (o / 512) /\ Z.of_nat (o mod 512) = Z.of_nat o mod 512.
Proof. rewrite Nat2Z.inj_div, Nat2Z.inj_mod. done. Qed.

Lemma length_splice_ext {A} (C : list A) o (w : list A) : (o <= length C)%nat ->
  length (splice C o w) = max (length C) (o + length w).
Proof. intros Ho. unfold splice. rewrite !length_app, length_take, length_drop. lia. Qed.

Lemma lookup_splice_keep {A} (C : list A) o (w : list A) i : (o <= length C)%nat ->
  (i < o \/ o + length w <= i)%nat -> splice C o w !! i = C !! i.
Proof.
  intros Ho [Hi|Hi]; unfold splice.
  - rewrite lookup_app_l by (rewrite length_take; lia). by rewrite lookup_take_lt.
  - rewrite app_assoc, lookup_app_r by (rewrite length_app, length_take; lia).
    rewrite lookup_drop. f_equal. rewrite length_app, length_take. lia.
Qed.

Lemma splice_splice {A} (C : list A) o (w w' : list A) : (o <= length C)%nat ->
  splice (splice C o w) (o + length w) w' = splice C o (w ++ w').
Proof.
  intros Ho. apply list_eq. intros i. pose proof (length_splice_ext C o w Ho) as Hl.
  destruct (decide (i < o)%nat).
  { rewrite !lookup_splice_keep by lia. done. }
  destruct (decide (i < o + length w)%nat).
  { rewrite lookup_splice_keep by lia. rewrite !lookup_splice_in by (rewrite ?length_app; lia).
    by rewrite lookup_app_l by lia. }
  destruct (decide (i < o + length w + length w')%nat).
  { rewrite !lookup_splice_in by (rewrite ?length_app; lia). rewrite lookup_app_r by lia. f_equal. lia. }
  rewrite !lookup_splice_keep by (rewrite ?length_app; lia). done.
Qed.

(** ** Writing a piece into one block *)

Lemma write_piece V addrs V1 addrs1 C (o : nat) w b :
  let k := Z.of_nat o / 512 in let n := nblk (Z.of_nat (length C)) in
  file_rep V addrs C -> (o <= length C)%nat -> w <> [] -> (o mod 512 + length w <= 512)%nat ->
  blocks_512 st V1 -> file_blocks V1 addrs1 (Z.max n (k + 1)) -> fblk V1 addrs1 k = b ->
  (forall j, 0 <= j < n -> fblk V1 addrs1 j = fblk V addrs j /\ V1 (fblk V addrs j) = V (fblk V addrs j)) ->
  file_rep (fupd V1 b (splice (V1 b) (o mod 512) w)) addrs1 (splice C o w).
Proof.
  intros k n [Hfb HC] Ho Hw Hm H512 Hfb1 Hb Hold. set (V2 := fupd V1 b _).
  destruct (off_split o) as [Ek Em]. assert (0 <= k) as Hk0 by (apply Z.div_pos; lia).
  assert (0 <= k < Z.max n (k + 1)) as Hk by lia.
  destruct (fb_data _ _ _ _ _ Hfb1 k Hk) as [Hdb Hub]. rewrite Hb in Hdb, Hub.
  pose proof (Nat.div_mod_eq o 512) as Hdm. pose proof (Nat.mod_upper_bound o 512 ltac:(lia)) as Hmo.
  assert (0 < length w)%nat as Hwl by (destruct w; cbn; [done|lia]).
  (* the number of blocks *)
  assert (nblk (Z.of_nat (length (splice C o w))) = Z.max n (k + 1)) as En.
  { rewrite length_splice_ext by done. rewrite Nat2Z.inj_max, nblk_max by lia. f_equal.
    apply nblk_of. unfold k. rewrite Ek. lia. }
  (* block numbers do not change *)
  assert (forall j, 0 <= j < Z.max n (k + 1) -> NDIRECT < Z.max n (k + 1) -> indirect addrs1 <> b) as Hne.
  { intros j Hj Hi E. apply (fb_ind_ne _ _ _ _ _ Hfb1 Hi k Hk). by rewrite Hb. }
  assert (forall j, fblk V2 addrs1 j = fblk V1 addrs1 j) as Ef.
  { intros j. unfold fblk. destruct (j <? NDIRECT); [done|]. destruct (Z.eqb_spec (indirect addrs1) 0) as [|Hnz]; [done|].
    unfold V2. rewrite fupd_ne; [done|]. apply (Hne k Hk). destruct (decide (NDIRECT < Z.max n (k + 1))); [done|].
    destruct Hnz. apply (fb_noind _ _ _ _ _ Hfb1). lia. }
  assert (forall x, 0 <= x < sb_size sb -> used V2 x = used V1 x) as Eu.
  { intros x Hx. apply used_ext. unfold V2. rewrite fupd_ne; [done|]. intros E.
    apply (data_not_bitmap st sb geo b Hdb). rewrite <- E. by exists x. }
  split.
  - rewrite En. destruct Hfb1 as [F1 F2 F3 F4 F5 F6 F7 F8]. split; try done.
    + intros j Hj. rewrite Ef. destruct (F3 j Hj) as [Hd Hu]. by rewrite Eu by (by apply (data_range st sb geo)).
    + intros j Hj. rewrite Ef. by apply F4.
    + intros Hi. destruct (F5 Hi) as [Hd Hu]. by rewrite Eu by (by apply (data_range st sb geo)).
    + intros Hi j Hj. rewrite Ef. by apply F6.
    + intros i j Hi Hj. rewrite !Ef. by apply F8.
  - intros q Hq. rewrite Ef. rewrite length_splice_ext in Hq by done.
    destruct (off_split q) as [Eq Emq]. pose proof (Nat.div_mod_eq q 512) as Hdq.
    pose proof (Nat.mod_upper_bound q 512 ltac:(lia)) as Hmq.
    assert (length (V1 b) = 512%nat) as Hlb by (by apply H512, (data_home st sb geo)).
    destruct (decide (o <= q < o + length w)%nat) as [Hin|Hout].
    + assert (q / 512 = o / 512)%nat as Eqo by nia. rewrite lookup_splice_in by lia.
      rewrite Eq, Eqo, <- Ek. fold k. rewrite Hb. unfold V2. rewrite fupd_eq, lookup_splice_in by lia.
      f_equal. lia.
    + rewrite lookup_splice_keep by lia. assert (q < length C)%nat as Hqc by lia. rewrite HC by done.
      assert (0 <= Z.of_nat q / 512 < n) as Hqn by (apply off_block; lia).
      destruct (Hold _ Hqn) as [E1 E2]. rewrite E1. unfold V2.
      destruct (decide (fblk V addrs (Z.of_nat q / 512) = b)) as [Eb|Hbne]; [|by rewrite fupd_ne, E2].
      assert (Z.of_nat q / 512 = k) as Eqk.
      { apply (fb_inj _ _ _ _ _ Hfb1); [lia|lia|]. by rewrite E1, Hb. }
      rewrite Eb, fupd_eq, lookup_splice_other by (unfold k in Eqk; nia).
      rewrite Eb in E2. by rewrite E2.
Qed.

(** ** One round of [writei] *)

Notation bm := (bblock sb 0).

(** The blocks of the range, and whether it brings the indirect block. *)
Definition span_blocks (off rem : Z) : Z := if rem =? 0 then 0 else nblk (off + rem) - off / 512.
Definition crosses (n e : Z) : Z := if (n <=? NDIRECT) && (NDIRECT <? nblk e) then 1 else 0.

(** The blocks a file of [n] blocks lacks when it is to reach offset [e]. *)
Definition need (n e : Z) : Z := if n <? nblk e then nblk e - n + crosses n e else 0.

(** The next [m] blocks [balloc] finds are there, and are data blocks. (The
    bitmap mkfs writes leaves the log free as well, behind the data blocks.) *)
Definition has_room (V : Z -> bytes) (m : Z) : Prop :=
  m <= Z.of_nat (length (free_blocks V)) /\ Forall data_block (take (Z.to_nat m) (free_blocks V)).

Lemma has_room_drop V V' (c : nat) m m' : has_room V m -> free_blocks V' = drop c (free_blocks V) ->
  Z.of_nat c + m' <= m -> 0 <= m' -> has_room V' m'.
Proof.
  intros [Hl Hd] E Hc Hm. unfold has_room. rewrite E, length_drop. split; [lia|].
  rewrite firstn_skipn_comm. apply Forall_drop.
  replace (c + Z.to_nat m')%nat with (min (c + Z.to_nat m') (Z.to_nat m)) by lia. rewrite <- take_take. by apply Forall_take.
Qed.

Lemma has_room_first V m (c : nat) : has_room V m -> Z.of_nat c <= m ->
  (c <= length (free_blocks V))%nat /\ Forall data_block (take c (free_blocks V)).
Proof.
  intros [Hl Hd] Hc. split; [lia|]. replace c with (min c (Z.to_nat m)) by lia. rewrite <- take_take. by apply Forall_take.
Qed.

Lemma has_room_le V m m' : has_room V m -> 0 <= m' <= m -> has_room V m'.
Proof. intros H Hm. destruct (has_room_first V m (Z.to_nat m') H) as [Hl Hd]; [lia|]. split; [lia|done]. Qed.

(** Ready to write [rem] bytes at [off] into a file with contents [C]. *)
Record wready (s : kst) (V : Z -> bytes) (L T : list Z) (i : nat) (addrs : list Z) (C : bytes) (off rem : Z) : Prop := {
  wr_ses : ses s ∅ V L;
  wr_trans : in_trans s;
  wr_sb : sb_dec (V 1) = sb;
  wr_inode : has_inode s i addrs;
  wr_len : (i < length (k_icache s))%nat;
  wr_rep : file_rep V addrs C;
  wr_off : 0 <= off <= Z.of_nat (length C);
  wr_rem : 0 <= rem /\ off + rem <= MAXFILE * 512;
  wr_T : L ⊆ T /\ bm ∈ T /\ (NDIRECT < nblk (Z.of_nat (length C)) -> indirect addrs ∈ T) /\ 1 ∉ T;
  wr_room : Z.of_nat (length T) + span_blocks off rem + crosses (nblk (Z.of_nat (length C))) (off + rem) <= 7;
  wr_free : has_room V (need (nblk (Z.of_nat (length C))) (off + rem))
}.

(** What a write does to the rest of the disk: the blocks the file gets were
    free data blocks, and only its own blocks and the bitmap change. *)
Record wstep (V : Z -> bytes) (addrs : list Z) (n : Z) (V' : Z -> bytes) (addrs' : list Z) (n' : Z) : Prop := {
  sw_used : forall x, 0 <= x < sb_size sb -> used V x = true -> used V' x = true;
  sw_keep : forall x, ~ is_bitmap x -> (data_block x -> used V x = true) ->
    (forall k, 0 <= k < n -> x <> fblk V addrs k) -> x <> indirect addrs -> V' x = V x;
  sw_blk : forall j, 0 <= j < n' -> 0 <= j < n /\ fblk V' addrs' j = fblk V addrs j \/
    data_block (fblk V' addrs' j) /\ used V (fblk V' addrs' j) = false;
  sw_ind : indirect addrs' = indirect addrs \/ data_block (indirect addrs') /\ used V (indirect addrs') = false
}.

Lemma wstep_refl V addrs n : wstep V addrs n V addrs n.
Proof. split; auto. Qed.

Lemma wstep_trans V addrs n V1 addrs1 n1 V2 addrs2 n2 :
  wstep V addrs n V1 addrs1 n1 -> wstep V1 addrs1 n1 V2 addrs2 n2 -> wstep V addrs n V2 addrs2 n2.
Proof.
  intros [U1 K1 B1 I1] [U2 K2 B2 I2].
  assert (forall x, data_block x -> used V1 x = false -> used V x = false) as Hu.
  { intros x Hd Hx. destruct (used V x) eqn:E; [|done]. rewrite U1 in Hx by (done || by apply (data_range st sb geo)). done. }
  split.
  - intros x Hx Hux. by apply U2, U1.
  - intros x Hnb Hdx Hb Hi. rewrite K2; [by apply K1|done| | |].
    + intros Hd. apply U1; [by apply (data_range st sb geo)|by apply Hdx].
    + intros k Hk ->. destruct (B1 k Hk) as [[Hkn E]|[Hd Hf]]; [by apply (Hb k)|]. rewrite Hdx in Hf; done.
    + intros ->. destruct I1 as [E|[Hd Hf]]; [congruence|]. rewrite Hdx in Hf; done.
  - intros j Hj. destruct (B2 j Hj) as [[Hjn E]|[Hd Hf]]; [|right; by split; [|apply Hu]].
    rewrite E. by apply B1.
  - destruct I2 as [E|[Hd Hf]]; [by rewrite E|right; by split; [|apply Hu]].
Qed.

Lemma max_nblk (C : bytes) o (w : bytes) : (o <= length C)%nat -> w <> [] -> (o mod 512 + length w <= 512)%nat ->
  nblk (Z.of_nat (length (splice C o w))) = Z.max (nblk (Z.of_nat (length C))) (Z.of_nat o / 512 + 1).
Proof.
  intros Ho Hw Hm. destruct (off_split o) as [Ek Em].
  pose proof (Nat.div_mod_eq o 512) as Hdm. assert (0 < length w)%nat as Hwl by (destruct w; cbn; [done|lia]).
  rewrite length_splice_ext by done. rewrite Nat2Z.inj_max, nblk_max by lia. f_equal.
  apply nblk_of. rewrite Ek. lia.
Qed.

(** The arithmetic of one round: the block [k], the rest of the range, and
    what it takes of the budgets. *)
Lemma round_block off rem m : 0 <= off -> 0 < rem -> m = Z.min rem (512 - off mod 512) ->
  let k := off / 512 in
  nblk (off + m) = k + 1 /\ k + 1 <= nblk (off + rem) /\ 0 < m /\
  span_blocks (off + m) (rem - m) = span_blocks off rem - 1 /\ 1 <= span_blocks off rem.
Proof.
  intros Hoff Hrem Em k. pose proof (Z.div_mod off 512 ltac:(lia)) as Hdm.
  pose proof (Z.mod_pos_bound off 512 ltac:(lia)) as Hmo. fold k in Hdm.
  assert (nblk (off + m) = k + 1) as E1 by (apply nblk_of; lia).
  assert (k + 1 <= nblk (off + rem)) as E2 by (rewrite <- E1; apply Z.div_le_mono; lia).
  split_and!; [done|done|lia| |]; unfold span_blocks; destruct (Z.eqb_spec rem 0); try lia.
  destruct (Z.eqb_spec (rem - m) 0) as [E|Hne].
  - replace (off + rem) with (off + m) by lia. rewrite E1. fold k. lia.
  - replace (off + m + (rem - m)) with (off + rem) by lia.
    replace ((off + m) / 512) with (k + 1); [fold k; lia|]. apply (Z.div_unique _ _ _ 0); lia.
Qed.

Lemma round_budget n k e : 0 <= k <= n -> k + 1 <= nblk e -> let n' := Z.max n (k + 1) in
  Z.of_nat (grow n k) - 1 + crosses n' e <= crosses n e /\ Z.of_nat (cost n k) + need n' e <= need n e /\
  0 <= crosses n' e /\ 0 <= need n' e.
Proof.
  intros Hk He n'. pose proof NDIRECT_val as HN. unfold grow, cost, need, crosses.
  destruct (Z.ltb_spec k n).
  - replace n' with n by lia. destruct (Z.eqb_spec k n); [lia|]. rewrite andb_false_r.
    split_and!; repeat case_match; lia.
  - assert (k = n) as -> by lia. assert (n' = n + 1) as -> by lia. rewrite Z.eqb_refl, andb_true_r.
    destruct (Z.eqb_spec n NDIRECT), (Z.ltb_spec n (nblk e)), (Z.ltb_spec (n + 1) (nblk e)),
      (Z.leb_spec n NDIRECT), (Z.leb_spec (n + 1) NDIRECT), (Z.ltb_spec NDIRECT (nblk e)); cbn [andb];
      split_and!; lia.
Qed.

(** The view after a round is a step. *)
Lemma bmapped_wstep s V T i addrs n k b s' V' L' T' addrs' d :
  bmapped s V T i addrs n k b s' V' L' T' addrs' -> 0 <= k <= n ->
  file_blocks (fupd V' b d) addrs' (Z.max n (k + 1)) ->
  (forall j, fblk (fupd V' b d) addrs' j = fblk V' addrs' j) ->
  wstep V addrs n (fupd V' b d) addrs' (Z.max n (k + 1)).
Proof.
  intros [] Hk Hfb2 Ef. assert (data_block b) as Hdb.
  { rewrite <- bd_new. apply (fb_data _ _ _ _ _ bd_blocks). lia. }
  destruct bd_fresh as [Hb Hi].
  assert (forall x, (data_block x -> used V x = true) -> (forall k, 0 <= k < n -> x <> fblk V addrs k) -> x <> b) as Hxb.
  { intros x Hdx Hx ->. destruct Hb as [Hlt|Hf].
    - apply (Hx k); [lia|]. rewrite <- bd_new. apply bd_old. lia.
    - rewrite Hdx in Hf; done. }
  split.
  - intros x Hx Hu. rewrite (used_ext sb V'); [by apply bd_used|]. apply fupd_ne. intros E.
    apply (data_not_bitmap st sb geo b Hdb). rewrite <- E. by exists x.
  - intros x Hnb Hdx Hxk Hxi. rewrite fupd_ne by (by apply Hxb). by apply bd_keep.
  - intros j Hj. rewrite Ef. destruct (decide (j < n)) as [Hlt|Hge].
    + left. split; [lia|]. apply bd_old. lia.
    + right. assert (j = k) as -> by lia. rewrite bd_new. split; [done|]. by destruct Hb; [lia|].
  - done.
Qed.

Lemma bmapped_inode s V T i addrs n k b s' V' L' T' addrs' :
  bmapped s V T i addrs n k b s' V' L' T' addrs' -> has_inode s i addrs -> (i < length (k_icache s))%nat ->
  has_inode s' i addrs' /\ length (k_icache s') = length (k_icache s).
Proof.
  intros [] [Hd _] Hi. unfold has_inode. rewrite bd_inode, lookup_total_alter_eq, length_alter by done. done.
Qed.

(** The blocks of a file do not depend on the contents of its data blocks. *)
Lemma fblk_data V addrs n k b d : file_blocks V addrs n -> 0 <= k < n -> fblk V addrs k = b ->
  forall j, fblk (fupd V b d) addrs j = fblk V addrs j.
Proof.
  intros Hfb Hk Hb j. unfold fblk at 1 2. destruct (j <? NDIRECT); [done|].
  destruct (Z.eqb_spec (indirect addrs) 0) as [|Hnz]; [done|]. rewrite fupd_ne; [done|]. intros E.
  destruct (decide (NDIRECT < n)) as [Hi|Hi].
  - apply (fb_ind_ne _ _ _ _ _ Hfb Hi k Hk). congruence.
  - apply Hnz. apply (fb_noind _ _ _ _ _ Hfb). lia.
Qed.

Definition round_body {A} (i : nat) (src : bytes) (tot off m : Z) (k : K A) : K A :=
  bn <- bmap i (off / BSIZE) ;;
  ip <- geti i ;;
  bp <- bread (i_dev ip) bn ;;
  d <- getdata bp ;;
  setdata bp (splice d (Z.to_nat (off mod BSIZE)) (slice src (Z.to_nat tot) (Z.to_nat m))) ;;
  log_write bp ;;
  brelse bp ;;
  k.

Lemma wready_bmap s V L T i addrs C off rem : wready s V L T i addrs C off rem -> 0 < rem ->
  let k := off / 512 in let n := nblk (Z.of_nat (length C)) in
  0 <= k <= n /\ k < MAXFILE /\
  ((cost n k <= length (free_blocks V))%nat /\ Forall data_block (take (cost n k) (free_blocks V))) /\ within sb L T (grow n k).
Proof.
  intros [] Hrem k n. destruct wr_off0 as [Ho1 Ho2]. destruct wr_rem0 as [_ He].
  destruct (round_block off rem (Z.min rem (512 - off mod 512)) Ho1 Hrem eq_refl) as (_ & Hke & _ & _ & Hsp).
  fold k in Hke. assert (0 <= k <= n) as Hkn.
  { split; [apply Z.div_pos; lia|]. destruct (decide (off = Z.of_nat (length C))) as [->|Hne].
    - unfold k, n, nblk. apply Z.div_le_mono; lia.
    - pose proof (off_block off (Z.of_nat (length C)) ltac:(lia)). fold k n in H. lia. }
  destruct (round_budget n k (off + rem) Hkn Hke) as (HB1 & HB2 & HB3 & HB4).
  destruct wr_T0 as (HT1 & HT2 & _). fold n in wr_room0, wr_free0. split; [lia|]. split; [|split; [by eapply has_room_first; [exact wr_free0|lia]|]].
  - pose proof (Z.div_mod off 512 ltac:(lia)) as Hd. pose proof (Z.mod_pos_bound off 512 ltac:(lia)). fold k in Hd. lia.
  - split_and!; [done..|lia].
Qed.

(** What the round leaves ready. *)
Lemma wready_next s V L T i addrs C (o : nat) rem w b s1 V1 L1 T1 addrs1 s2 :
  let off := Z.of_nat o in let k := off / 512 in let n := nblk (Z.of_nat (length C)) in
  let V2 := fupd V1 b (splice (V1 b) (o mod 512) w) in
  wready s V L T i addrs C off rem -> 0 < rem -> Z.of_nat (length w) = Z.min rem (512 - off mod 512) ->
  bmapped s V T i addrs n k b s1 V1 L1 T1 addrs1 ->
  ses s2 ∅ V2 (log_add b L1) -> lframe s1 s2 ->
  wready s2 V2 (log_add b L1) T1 i addrs1 (splice C o w) (off + Z.of_nat (length w)) (rem - Z.of_nat (length w)) /\
  wstep V addrs n V2 addrs1 (nblk (Z.of_nat (length (splice C o w)))).
Proof.
  intros off k n V2 Hwr Hrem Hm Hbd Hs2 Hf2. destruct (wready_bmap _ _ _ _ _ _ _ _ _ Hwr Hrem) as (Hkn & _ & _ & _).
  fold k n in Hkn. pose proof (bmapped_inode _ _ _ _ _ _ _ _ _ _ _ _ _ Hbd (wr_inode _ _ _ _ _ _ _ _ _ Hwr)
    (wr_len _ _ _ _ _ _ _ _ _ Hwr)) as [Hi1 Hl1].
  destruct Hwr, (off_split o) as [Ek Em]. destruct wr_off0 as [_ Ho]. unfold off in Ho.
  destruct (round_block off rem (Z.of_nat (length w)) ltac:(lia) Hrem Hm) as (_ & Hke & Hmp & Hsp & _). fold k in Hke.
  pose proof (Z.mod_pos_bound off 512 ltac:(lia)) as Hmo. fold off in Em.
  assert (w <> []) as Hw by (intros ->; cbn in Hmp; lia).
  assert (o mod 512 + length w <= 512)%nat as Hfit by lia.
  pose proof (max_nblk C o w ltac:(lia) Hw Hfit) as En. fold off k n in En.
  destruct (round_budget n k (off + rem) Hkn Hke) as (HB1 & HB2 & _ & HB4).
  pose proof (bd_blocks _ _ _ _ _ _ _ _ _ _ _ _ _ _ _ _ Hbd) as Hfb1.
  pose proof (bd_new _ _ _ _ _ _ _ _ _ _ _ _ _ _ _ _ Hbd) as Hb.
  assert (data_block b) as Hdb by (rewrite <- Hb; apply (fb_data _ _ _ _ _ Hfb1); lia).
  assert (file_rep V2 addrs1 (splice C o w)) as Hrep.
  { apply (write_piece V addrs); [done|lia|done|done| |done|done|by destruct Hbd].
    intros x Hx. eapply ses_length; [exact (bd_ses _ _ _ _ _ _ _ _ _ _ _ _ _ _ _ _ Hbd)|done]. }
  assert (forall x, is_bitmap x -> V2 x = V1 x) as Hbm2.
  { intros x Hx. apply fupd_ne. intros ->. by apply (data_not_bitmap st sb geo b). }
  split; [|rewrite En; eapply bmapped_wstep; [done|done|rewrite <- En; by destruct Hrep|];
    by apply (fblk_data V1 addrs1 (Z.max n (k + 1)) k); [|lia|]].
  destruct Hbd. destruct bd_touch as (HT1 & HT2 & HT3 & HT4 & HT5). destruct wr_T0 as (HL0 & Hbm0 & _ & H10).
  assert (free_blocks V2 = drop (cost n k) (free_blocks V)) as Hfr.
  { rewrite <- bd_free. by apply free_ext. }
  split.
  - done.
  - eapply lframe_in_trans; [done|]. by eapply iframe_in_trans.
  - unfold V2. rewrite fupd_ne by (intros E; by apply (data_not_1 st sb geo b)). by rewrite bd_sb.
  - by eapply lframe_has_inode.
  - rewrite (lframe_icache _ _ Hf2). lia.
  - done.
  - rewrite length_splice_ext by lia. lia.
  - lia.
  - split_and!; [by apply log_add_sub|set_solver|rewrite En; exact HT4|auto].
  - rewrite En, Hsp. replace (off + Z.of_nat (length w) + (rem - Z.of_nat (length w))) with (off + rem) by lia.
    fold n in wr_room0. lia.
  - rewrite En. replace (off + Z.of_nat (length w) + (rem - Z.of_nat (length w))) with (off + rem) by lia.
    eapply has_room_drop; [exact wr_free0|exact Hfr|fold n; lia|lia].
Qed.

Lemma wp_round {A} s V L T i addrs C (o : nat) rem src tot m (k : K A) Q :
  let off := Z.of_nat o in
  wready s V L T i addrs C off rem -> 0 < rem -> m = Z.min rem (512 - off mod 512) ->
  0 <= tot -> tot + rem <= Z.of_nat (length src) ->
  (forall s' V' L' T' addrs', let C' := splice C o (slice src (Z.to_nat tot) (Z.to_nat m)) in
    wready s' V' L' T' i addrs' C' (off + m) (rem - m) -> iframe s s' ->
    k_icache s' = alter (set_addrs (fun _ => addrs')) i (k_icache s) -> T ⊆ T' -> V' 1 = V 1 ->
    wstep V addrs (nblk (Z.of_nat (length C))) V' addrs' (nblk (Z.of_nat (length C'))) ->
    (off + rem <= Z.of_nat (length C) -> addrs' = addrs) -> wp k Q s') ->
  wp (round_body i src tot off m k) Q s.
Proof.
  intros off Hwr Hrem Hm Htot Hsrc HQ. pose proof Hwr as [Hs Ht Hsb Hi Hlen Hrep Hoff Hre HT _ _].
  destruct (wready_bmap _ _ _ _ _ _ _ _ _ Hwr Hrem) as (Hkn & Hkm & [Hcost Hdat] & Hwin).
  unfold round_body. change BSIZE with 512. kstep.
  eapply (bmap_any st sz sb geo one_bitmap big_log small_disk); [done..|apply Hrep|done|done|done|done|done|apply HT|].
  intros b s1 V1 L1 T1 addrs1 Hbd. pose proof (bmapped_inode _ _ _ _ _ _ _ _ _ _ _ _ _ Hbd Hi Hlen) as [[Hdev1 _] _].
  pose proof Hbd as [Hs1 Hf1 Hfb1 Hnew _ Hic1 Hsame (HT1 & HT2 & HT3 & _ & HT5) Hsb1 _ _ _ _ _].
  assert (data_block b) as Hdb by (rewrite <- Hnew; apply (fb_data _ _ _ _ _ Hfb1); lia).
  pose proof (data_home st sb geo b Hdb) as Hbh.
  assert (length L1 <= 7)%nat as HL1.
  { pose proof (sub_length L1 T1 (ses_nodup _ _ _ _ _ _ Hs1) HT1). destruct Hwin as (_ & _ & ?). lia. }
  unfold geti. kstep. rewrite Hdev1.
  eapply ses_bread; [done|done|set_solver|rewrite size_empty; unfold NBUF; lia|].
  intros j s2 Hh Hs2 Hf2 _. kstep. eapply ses_getdata; [done|done|done|].
  set (w := slice src (Z.to_nat tot) (Z.to_nat m)). pose proof (Z.mod_pos_bound off 512 ltac:(lia)).
  assert (length w = Z.to_nat m) as Hw by (apply length_slice; lia).
  destruct (off_split o) as [_ Em]. fold off in Em. replace (Z.to_nat (off mod 512)) with (o mod 512)%nat by lia.
  apply (ses_write st sz s2 ({[b]} ∪ ∅) V1 L1 j b); [done| |done|set_solver| | |].
  { eapply lframe_in_trans; [done|]. by eapply iframe_in_trans. }
  { rewrite length_splice; rewrite (ses_length _ _ _ _ _ _ _ Hs1 Hbh); [done|lia]. }
  { split; [rewrite union_empty_r_L, size_singleton; unfold NBUF|]; lia. }
  intros s3 Hs3 Hf3 Hk3. kstep.
  eapply (ses_brelse _ _ _ _ _ _ j b); [done|apply Hk3; [set_solver|done]|]. intros s4 Hs4 Hf4 _.
  replace (({[b]} ∪ ∅) ∖ {[b]}) with (∅ : gset Z) in Hs4 by set_solver.
  assert (lframe s1 s4) as Hf14 by (by do 2 (etrans; [done|])).
  destruct (wready_next s V L T i addrs C o rem w b s1 V1 L1 T1 addrs1 s4) as [Hwr' Hst];
    [done|done|rewrite Hw, Z2Nat.id by lia; exact Hm|done|done|done|]. fold off in Hwr'. rewrite Hw in Hwr'.
  replace (Z.of_nat (Z.to_nat m)) with m in Hwr' by lia.
  eapply HQ; [done| | |done| |done|].
  - etrans; [done|]. by apply lframe_iframe.
  - by rewrite (lframe_icache _ _ Hf14).
  - rewrite fupd_ne by (intros E; by apply (data_not_1 st sb geo b)). done.
  - intros Hin. apply Hsame. apply off_block. lia.
Qed.

(** ** [writei] *)

Context `{DO : DevOps}.

Lemma writei_loop_round i src fuel tot off n : tot < n ->
  writei_loop i src (S fuel) tot off n =
  let m := Z.min (n - tot) (512 - off mod 512) in
  round_body i src tot off m (writei_loop i src fuel (tot + m) (u32 (off + m)) n).
Proof. intros H. cbn [writei_loop]. destruct (Z.ltb_spec tot n); [|lia]. reflexivity. Qed.

Lemma slice_app_slice {A} (l : list A) o a b : slice l o a ++ slice l (o + a) b = slice l o (a + b).
Proof. unfold slice. rewrite <- drop_drop. rewrite take_take_drop. done. Qed.

Lemma alter_set_addrs2 i a1 a2 (ic : list inode) :
  alter (set_addrs (fun _ => a2)) i (alter (set_addrs (fun _ => a1)) i ic) = alter (set_addrs (fun _ => a2)) i ic.
Proof. rewrite list_alter_alter. by apply list_alter_ext'. Qed.

Lemma splice_nil {A} (l : list A) o : splice l o [] = l.
Proof. unfold splice. cbn. by rewrite Nat.add_0_r, take_drop. Qed.

Lemma writei_loop_spec fuel s V L T i addrs C (o : nat) rem src tot n Q :
  wready s V L T i addrs C (Z.of_nat o) rem -> rem = n - tot -> 0 <= tot -> n <= Z.of_nat (length src) ->
  span_blocks (Z.of_nat o) rem <= Z.of_nat fuel ->
  (forall s' V' L' T' addrs', let C' := splice C o (slice src (Z.to_nat tot) (Z.to_nat rem)) in
    wready s' V' L' T' i addrs' C' (Z.of_nat o + rem) 0 -> iframe s s' ->
    k_icache s' = alter (set_addrs (fun _ => addrs')) i (k_icache s) -> T ⊆ T' -> V' 1 = V 1 ->
    wstep V addrs (nblk (Z.of_nat (length C))) V' addrs' (nblk (Z.of_nat (length C'))) ->
    (Z.of_nat o + rem <= Z.of_nat (length C) -> addrs' = addrs) -> Q (Z.of_nat o + rem) s') ->
  wp (writei_loop i src fuel tot (Z.of_nat o) n) Q s.
Proof.
  revert s V L T addrs C o rem tot. induction fuel as [|fuel IH];
    intros s V L T addrs C o rem tot Hwr Erem Htot Hsrc Hfuel HQ.
  all: destruct (decide (rem = 0)) as [->|Hne].
  1, 3: cbn [writei_loop]; destruct (Z.ltb_spec tot n); [lia|]; kstep; rewrite Z.add_0_r in HQ;
    pose proof (wr_inode _ _ _ _ _ _ _ _ _ Hwr) as Hi;
    apply (HQ s V L T addrs); change (slice src (Z.to_nat tot) (Z.to_nat 0)) with (@nil Z);
    rewrite ?splice_nil; [done|done|by rewrite set_addrs_id|done|done|apply wstep_refl|done].
  { exfalso. unfold span_blocks in Hfuel. destruct (Z.eqb_spec rem 0); [lia|]. destruct Hwr.
    destruct (round_block (Z.of_nat o) rem _ ltac:(lia) ltac:(lia) eq_refl) as (_ & ? & _). lia. }
  assert (0 < rem) as Hrem by (destruct Hwr; lia). rewrite writei_loop_round by lia. cbv zeta.
  set (m := Z.min (n - tot) _).
  destruct (round_block (Z.of_nat o) rem m ltac:(lia) Hrem ltac:(unfold m; lia)) as (_ & _ & Hm & Hsp & _).
  eapply wp_round; [done|done|unfold m; by rewrite Erem|done|lia|]. clearbody m.
  intros s1 V1 L1 T1 addrs1 C1 Hwr1 Hf1 Hic1 HT1 Hv1 Hst1 Hsm1.
  assert (u32 (Z.of_nat o + m) = Z.of_nat (o + Z.to_nat m)) as ->.
  { rewrite Nat2Z.inj_add, Z2Nat.id by lia. apply u32_small. destruct Hwr1. change MAXFILE with 140 in *. lia. }
  assert (Z.of_nat o + m = Z.of_nat (o + Z.to_nat m)) as Eo by lia. rewrite Eo in Hwr1, Hsp.
  assert (0 <= rem - m) as Hrm by (destruct Hwr1; lia).
  apply (IH s1 V1 L1 T1 addrs1 C1 _ (rem - m)); [done|lia|lia|done|lia|].
  intros s2 V2 L2 T2 addrs2 C2 Hwr2 Hf2 Hic2 HT2 Hv2 Hst2 Hsm2.
  assert (length (slice src (Z.to_nat tot) (Z.to_nat m)) = Z.to_nat m) as Hlm by (apply length_slice; lia).
  assert (C2 = splice C o (slice src (Z.to_nat tot) (Z.to_nat rem))) as EC.
  { unfold C2, C1. pose proof (splice_splice C o (slice src (Z.to_nat tot) (Z.to_nat m))
      (slice src (Z.to_nat (tot + m)) (Z.to_nat (rem - m))) ltac:(destruct Hwr; lia)) as E.
    rewrite Hlm in E. rewrite E. clear E. replace (Z.to_nat (tot + m)) with (Z.to_nat tot + Z.to_nat m)%nat by lia. rewrite slice_app_slice.
    do 2 f_equal. lia. }
  replace (Z.of_nat (o + Z.to_nat m) + (rem - m)) with (Z.of_nat o + rem) in * by lia. rewrite EC in Hwr2, Hst2.
  eapply HQ; [exact Hwr2|by etrans| |by etrans|congruence|by eapply wstep_trans|].
  - rewrite Hic2, Hic1. apply alter_set_addrs2.
  - intros Hin. rewrite Hsm2; [by apply Hsm1|]. unfold C1. rewrite length_splice_ext by (destruct Hwr; lia). lia.
Qed.

(** ** The inode on disk *)

Lemma iblock_range inum : 0 <= inum < sb_ninodes sb ->
  IBLOCK inum = inum / IPB + 2 /\ 2 <= IBLOCK inum < st /\ ~ is_bitmap (IBLOCK inum) /\
  ~ data_block (IBLOCK inum).
Proof.
  intros Hi. destruct geo as [Hsz Hn Hbm Hlog].
  assert (0 <= inum / IPB <= sb_ninodes sb / IPB) as Hd.
  { split; [apply Z.div_pos; [lia|done]|apply Z.div_le_mono; [done|lia]]. }
  assert (sb_ninodes sb / IPB <= sb_ninodes sb) by (apply Z.div_le_upper_bound; [done|change IPB with 8; lia]).
  assert (IBLOCK inum = inum / IPB + 2) as E by (apply u32_small; lia).
  assert (0 <= sb_size sb / BPB) by (apply Z.div_pos; [lia|done]).
  rewrite E. split_and!; [done|lia|lia| |unfold FsBlock.data_block; lia].
  intros (k & Hk & Ek). rewrite (bblock_eq st sb geo) in Ek by lia.
  assert (0 <= k / BPB) by (apply Z.div_pos; [lia|done]). lia.
Qed.

Lemma dip_off_range inum : 0 <= inum -> (dip_off inum + 64 <= 512)%nat.
Proof.
  intros Hi. unfold dip_off. change IPB with 8. pose proof (Z.mod_pos_bound inum 8 ltac:(lia)). lia.
Qed.

Lemma ses_iupdate s V L T i inum Q : ses s ∅ V L -> in_trans s ->
  i_dev (k_icache s !!! i) = ROOTDEV -> i_inum (k_icache s !!! i) = inum -> 0 <= inum < sb_ninodes sb ->
  length (i_addrs (k_icache s !!! i)) = 13%nat -> L ⊆ T -> IBLOCK inum ∈ T -> (length T <= 7)%nat ->
  (forall s' L', let V' := fupd V (IBLOCK inum) (splice (V (IBLOCK inum)) (dip_off inum)
       (dinode_enc (dinode_of (k_icache s !!! i)))) in
     ses s' ∅ V' L' -> lframe s s' -> L' ⊆ T -> Q tt s') ->
  wp (iupdate i) Q s.
Proof.
  intros Hs Ht Hdev Hinum Hr Hl HL HT HTl HQ. destruct (iblock_range inum Hr) as (_ & Hib & _).
  pose proof (sub_length L T (ses_nodup _ _ _ _ _ _ Hs) HL) as HLl.
  unfold iupdate, geti. kstep. rewrite Hdev, Hinum.
  eapply ses_bread; [done|lia|set_solver|rewrite size_empty; unfold NBUF; lia|].
  intros j s1 Hh Hs1 Hf1 _. kstep. eapply ses_getdata; [done|done|lia|]. kstep.
  rewrite (lframe_icache _ _ Hf1), Hinum.
  apply (ses_write st sz s1 ({[IBLOCK inum]} ∪ ∅) V L j (IBLOCK inum)); [done| |done|set_solver| | |].
  { by eapply lframe_in_trans. }
  { assert (length (V (IBLOCK inum)) = 512%nat) as Hvl by (eapply ses_length; [exact Hs|lia]).
    rewrite length_splice; rewrite Hvl; [done|]. rewrite length_dinode_enc by done. apply dip_off_range. lia. }
  { split; [rewrite union_empty_r_L, size_singleton; unfold NBUF|]; lia. }
  intros s2 Hs2 Hf2 Hk2. 
  eapply (ses_brelse _ _ _ _ _ _ j (IBLOCK inum)); [done|apply Hk2; [set_solver|done]|]. intros s3 Hs3 Hf3 _.
  replace (({[IBLOCK inum]} ∪ ∅) ∖ {[IBLOCK inum]}) with (∅ : gset Z) in Hs3 by set_solver.
  eapply HQ; [exact Hs3|by do 2 (etrans; [done|])|by apply log_add_sub].
Qed.

(** ** Open files *)

(** The cached inode [i] is that of file [inum], which holds [C], and the inode
    on disk agrees with it. *)
Record open_file (s : kst) (V : Z -> bytes) (i : nat) (inum : Z) (addrs : list Z) (C : bytes) : Prop := {
  of_len : (i < length (k_icache s))%nat;
  of_dev : i_dev (k_icache s !!! i) = ROOTDEV;
  of_inum : i_inum (k_icache s !!! i) = inum;
  of_range : 0 <= inum < sb_ninodes sb;
  of_type : i_type (k_icache s !!! i) <> T_DEV;
  of_size : i_size (k_icache s !!! i) = Z.of_nat (length C);
  of_addrs : i_addrs (k_icache s !!! i) = addrs;
  of_rep : file_rep V addrs C;
  of_sync : slice (V (IBLOCK inum)) (dip_off inum) 64 = dinode_enc (dinode_of (k_icache s !!! i))
}.

Lemma fblk_ext V V' addrs k :
  (indirect addrs <> 0 -> V' (indirect addrs) = V (indirect addrs)) -> fblk V' addrs k = fblk V addrs k.
Proof.
  intros HV. unfold fblk. destruct (k <? NDIRECT); [done|]. destruct (Z.eqb_spec (indirect addrs) 0); [done|].
  by rewrite HV.
Qed.

Lemma ind_data V addrs n : file_blocks V addrs n -> indirect addrs <> 0 -> data_block (indirect addrs).
Proof.
  intros Hfb Hnz. destruct (decide (NDIRECT < n)); [by apply (fb_ind _ _ _ _ _ Hfb)|].
  destruct Hnz. apply (fb_noind _ _ _ _ _ Hfb). lia.
Qed.

Lemma owns_data V addrs n x : file_blocks V addrs n -> owns V addrs n x -> data_block x /\ used V x = true.
Proof. intros [] [(k & Hk & ->)|[Hn ->]]; auto. Qed.

(** A file depends on its own blocks only. *)
Lemma file_rep_own V V' addrs C :
  (forall x, owns V addrs (nblk (Z.of_nat (length C))) x -> V' x = V x /\ used V' x = true) ->
  file_rep V addrs C -> file_rep V' addrs C /\ forall k, fblk V' addrs k = fblk V addrs k.
Proof.
  intros HV [Hfb HC]. set (n := nblk _) in *.
  assert (forall k, fblk V' addrs k = fblk V addrs k) as Ef.
  { intros k. apply fblk_ext. intros Hnz. apply HV. right. split; [|done].
    destruct (decide (NDIRECT < n)) as [|Hge]; [done|]. destruct Hnz. apply (fb_noind _ _ _ _ _ Hfb). lia. }
  assert (forall k, 0 <= k < n -> owns V addrs n (fblk V addrs k)) as Hown by (intros k Hk; left; eauto).
  destruct Hfb as [F1 F2 F3 F4 F5 F6 F7 F8]. split; [|done]. split.
  - split; try done; try setoid_rewrite Ef; try done.
    + intros k Hk. split; [by apply F3|]. by apply HV, Hown.
    + intros Hi. split; [by apply F5|]. apply HV. by right.
  - intros o Ho. rewrite Ef, HC by done. destruct (HV (fblk V addrs (Z.of_nat o / 512))) as [-> _]; [|done].
    apply Hown. apply off_block. lia.
Qed.

Lemma file_rep_ext V V' addrs C : (forall x, data_block x \/ is_bitmap x -> V' x = V x) ->
  file_rep V addrs C -> file_rep V' addrs C.
Proof.
  intros HV Hrep. apply (file_rep_own V); [|done]. intros x Hx.
  destruct (owns_data _ _ _ _ (fr_blocks _ _ _ _ _ Hrep) Hx) as [Hd Hu]. split; [auto|]. rewrite <- Hu.
  apply used_ext. apply HV. right. exists x. split; [by apply (data_range st sb geo)|done].
Qed.

(** A block that is neither bitmap nor data is not touched by a write. *)
Lemma wstep_meta V addrs n V' addrs' n' x : wstep V addrs n V' addrs' n' -> file_blocks V addrs n ->
  ~ is_bitmap x -> ~ data_block x -> x <> 0 -> V' x = V x.
Proof.
  intros Hst Hfb Hnb Hnd Hnz. apply (sw_keep _ _ _ _ _ _ Hst); [done|done| |].
  - intros k Hk ->. destruct Hnd. by apply (fb_data _ _ _ _ _ Hfb).
  - intros ->. apply Hnd. by eapply ind_data.
Qed.

(** The blocks a write gives to a file were its own, or free. *)
Lemma wstep_owns V addrs n V' addrs' n' x : wstep V addrs n V' addrs' n' -> file_blocks V addrs n ->
  file_blocks V' addrs' n' -> owns V' addrs' n' x -> owns V addrs n x \/ used V x = false.
Proof.
  intros Hst Hfb Hfb' [(k & Hk & ->)|[Hn ->]].
  - destruct (sw_blk _ _ _ _ _ _ Hst k Hk) as [[Hkn ->]|[_ ?]]; [left; left; eauto|by right].
  - destruct (sw_ind _ _ _ _ _ _ Hst) as [E|[_ ?]]; [|by right]. left. right. split; [|done].
    destruct (decide (NDIRECT < n)) as [|Hge]; [done|]. exfalso.
    pose proof (data_above st sb geo _ (proj1 (fb_ind _ _ _ _ _ Hfb' Hn))) as Hd.
    rewrite E, (fb_noind _ _ _ _ _ Hfb) in Hd; lia.
Qed.

(** The other inodes on disk, also those of the same block. *)
Definition inodes_kept (V : Z -> bytes) (inum : Z) (V' : Z -> bytes) : Prop :=
  forall j, 0 <= j < sb_ninodes sb -> j <> inum ->
    slice (V' (IBLOCK j)) (dip_off j) 64 = slice (V (IBLOCK j)) (dip_off j) 64.

Lemma dip_off_apart j k : 0 <= j < sb_ninodes sb -> 0 <= k < sb_ninodes sb -> IBLOCK j = IBLOCK k -> j <> k ->
  (dip_off j + 64 <= dip_off k \/ dip_off k + 64 <= dip_off j)%nat.
Proof.
  intros Hj Hk HE Hne. destruct (iblock_range j Hj) as [Ej _], (iblock_range k Hk) as [Ek _].
  unfold dip_off. rewrite Ej, Ek in HE. change IPB with 8 in *.
  pose proof (Z.div_mod j 8 ltac:(lia)). pose proof (Z.div_mod k 8 ltac:(lia)).
  pose proof (Z.mod_pos_bound j 8 ltac:(lia)). pose proof (Z.mod_pos_bound k 8 ltac:(lia)). lia.
Qed.

Lemma inodes_kept_splice V inum e : 0 <= inum < sb_ninodes sb -> length e = 64%nat -> length (V (IBLOCK inum)) = 512%nat ->
  inodes_kept V inum (fupd V (IBLOCK inum) (splice (V (IBLOCK inum)) (dip_off inum) e)).
Proof.
  intros Hr He HV j Hj Hne. destruct (decide (IBLOCK j = IBLOCK inum)) as [E|E]; [|by rewrite fupd_ne].
  rewrite E, fupd_eq. pose proof (dip_off_range inum ltac:(lia)).
  apply slice_splice_other; rewrite He; [lia|]. apply dip_off_apart; (done || lia).
Qed.

(** Updating the inode on disk brings it in step with the cached inode. *)
Lemma iupdate_sync s V L T i inum C Q : ses s ∅ V L -> in_trans s -> sb_dec (V 1) = sb ->
  (i < length (k_icache s))%nat ->
  i_dev (k_icache s !!! i) = ROOTDEV -> i_inum (k_icache s !!! i) = inum -> 0 <= inum < sb_ninodes sb ->
  i_type (k_icache s !!! i) <> T_DEV -> i_size (k_icache s !!! i) = Z.of_nat (length C) ->
  file_rep V (i_addrs (k_icache s !!! i)) C -> L ⊆ T -> IBLOCK inum ∈ T -> (length T <= 7)%nat ->
  (forall s' V' L', ses s' ∅ V' L' -> lframe s s' -> open_file s' V' i inum (i_addrs (k_icache s !!! i)) C ->
     (forall x, x <> IBLOCK inum -> V' x = V x) -> inodes_kept V inum V' -> L' ⊆ T -> Q tt s') ->
  wp (iupdate i) Q s.
Proof.
  intros Hs Ht Hsb Hlen Hdev Hinum Hr Hty Hsz Hrep HL HT HTl HQ.
  destruct (iblock_range inum Hr) as (_ & Hib & Hnb & Hnd).
  assert (length (i_addrs (k_icache s !!! i)) = 13%nat) as Hl by (by destruct Hrep as [[]]).
  eapply ses_iupdate; [done..|]. intros s' L' V' Hs' Hf' HL'.
  apply (HQ s' V' L'); [done|done| |intros x Hx; by apply fupd_ne| |done].
  2: { apply inodes_kept_splice; [lia|by apply length_dinode_enc|]. apply (ses_length _ _ _ _ _ _ _ Hs). lia. }
  pose proof (lframe_icache _ _ Hf') as Hic. split; rewrite ?Hic; try done.
  - eapply file_rep_ext; [|exact Hrep]. intros x [Hx|Hx]; apply fupd_ne; by intros ->.
  - unfold V'. rewrite fupd_eq. set (e := dinode_enc _).
    assert (length e = 64%nat) as He by (by apply length_dinode_enc). rewrite <- He.
    apply slice_splice_same. rewrite He. rewrite (ses_length _ _ _ _ _ _ _ Hs) by lia. apply dip_off_range. lia.
Qed.

(** What a write of [n <= 1536] bytes touches: the bitmap, the inode, the
    indirect block and at most four data blocks. [filewrite] writes at most
    this much in a transaction. *)
Definition touch0 (inum : Z) (addrs : list Z) (n : Z) : list Z :=
  bm :: IBLOCK inum :: (if NDIRECT <? n then [indirect addrs] else []).

Lemma span_small off n : 0 <= off -> 0 <= n <= 1536 -> span_blocks off n <= 4.
Proof.
  intros Ho Hn. unfold span_blocks, nblk. destruct (n =? 0); [lia|].
  pose proof (Z.div_mod off 512 ltac:(lia)). pose proof (Z.mod_pos_bound off 512 ltac:(lia)).
  assert ((off + n + 511) / 512 < off / 512 + 5); [|lia]. apply Z.div_lt_upper_bound; lia.
Qed.

Lemma touch0_not_1 V inum addrs n : 0 <= inum < sb_ninodes sb -> file_blocks V addrs n -> 1 ∉ touch0 inum addrs n.
Proof.
  intros (_ & Hib & _)%iblock_range Hfb. unfold touch0.
  assert (bm <> 1) as Hbm by (destruct geo; pose proof (bblock_range st sb geo 0); lia).
  destruct (Z.ltb_spec NDIRECT n) as [Hn|Hn]; [|set_solver by lia].
  pose proof (data_not_1 st sb geo _ (proj1 (fb_ind _ _ _ _ _ Hfb Hn))). set_solver by lia.
Qed.

Lemma wready_start s V i inum addrs C off n :
  ses s ∅ V [] -> in_trans s -> sb_dec (V 1) = sb -> open_file s V i inum addrs C ->
  0 <= off <= Z.of_nat (length C) -> 0 <= n <= 1536 -> off + n <= MAXFILE * 512 ->
  has_room V (need (nblk (Z.of_nat (length C))) (off + n)) ->
  wready s V [] (touch0 inum addrs (nblk (Z.of_nat (length C)))) i addrs C off n.
Proof.
  intros Hs Ht Hsb [] Ho Hn Hmax Hneed. pose proof (span_small off n ltac:(lia) Hn) as Hsp.
  split; try done; try lia.
  - split_and!; [set_solver|set_solver| |].
    { unfold touch0. intros Hlt. destruct (Z.ltb_spec NDIRECT (nblk (Z.of_nat (length C)))); [set_solver|lia]. }
    by eapply touch0_not_1; [apply of_range0|apply of_rep0].
  - unfold touch0, crosses. destruct (Z.ltb_spec NDIRECT (nblk (Z.of_nat (length C)))) as [Hlt|Hge];
      destruct (Z.leb_spec (nblk (Z.of_nat (length C))) NDIRECT); cbn [andb length]; try lia.
    destruct (_ <? _); lia.
Qed.

(** What a write leaves alone: the contents of every block that is neither
    bitmap nor part of the file or its inode, unless it was free. *)
Definition write_kept (V : Z -> bytes) (inum : Z) (addrs : list Z) (n : Z) (V' : Z -> bytes) : Prop :=
  forall x, ~ is_bitmap x -> (data_block x -> used V x = true) ->
    (forall k, 0 <= k < n -> x <> fblk V addrs k) -> x <> indirect addrs -> x <> IBLOCK inum -> V' x = V x.

Lemma loop_rounds off n : 0 <= off -> 0 <= n -> span_blocks off n <= Z.of_nat (rounds n).
Proof.
  intros Ho Hn. unfold span_blocks, nblk, rounds. change BSIZE with 512. destruct (n =? 0); [lia|].
  pose proof (Z.div_mod off 512 ltac:(lia)). pose proof (Z.mod_pos_bound off 512 ltac:(lia)).
  pose proof (Z.div_mod n 512 ltac:(lia)). pose proof (Z.mod_pos_bound n 512 ltac:(lia)).
  assert ((off + n + 511) / 512 < off / 512 + n / 512 + 3); [apply Z.div_lt_upper_bound; lia|].
  pose proof (Z.div_pos n 512). lia.
Qed.

Record written (s : kst) (V : Z -> bytes) (i : nat) (inum : Z) (addrs : list Z) (C C' : bytes) (s' : kst) : Prop := {
  wn_frame : iframe s s';
  wn_view : exists V' L' addrs', ses s' ∅ V' L' /\ (length L' <= 7)%nat /\ 1 ∉ L' /\ V' 1 = V 1 /\ open_file s' V' i inum addrs' C' /\
    write_kept V inum addrs (nblk (Z.of_nat (length C))) V' /\ inodes_kept V inum V' /\
    (forall x, owns V' addrs' (nblk (Z.of_nat (length C'))) x ->
       owns V addrs (nblk (Z.of_nat (length C))) x \/ used V x = false) /\
    (forall x, 0 <= x < sb_size sb -> used V x = true -> used V' x = true)
}.

(** The end of [writei]: the size, and the inode on disk. *)
Lemma writei_finish s V i inum addrs C C' e n s1 V1 L1 T1 addrs1 :
  open_file s V i inum addrs C -> wready s1 V1 L1 T1 i addrs1 C' e 0 -> iframe s s1 ->
  k_icache s1 = alter (set_addrs (fun _ => addrs1)) i (k_icache s) -> V1 1 = V 1 ->
  wstep V addrs (nblk (Z.of_nat (length C))) V1 addrs1 (nblk (Z.of_nat (length C'))) ->
  (e <= Z.of_nat (length C) -> addrs1 = addrs) -> IBLOCK inum ∈ T1 -> 0 <= n < 2 ^ 31 ->
  Z.of_nat (length C') = Z.max (Z.of_nat (length C)) e -> (n = 0 -> e <= Z.of_nat (length C)) ->
  wp (ip <- geti i ;;
      (if (0 <? n) && (i_size ip <? e) then seti i (set_isize (fun _ => e)) ;; iupdate i else ret tt) ;;
      ret (s32 n)) (fun r s' => r = n /\ written s V i inum addrs C C' s') s1.
Proof.
  intros Hof Hwr Hf Hic H1 Hst Hsame HT Hn HC' Hn0. pose proof Hof as [Hlen Hdev Hinum Hr Hty Hsz Ha Hrep Hsync].
  pose proof Hwr as [Hs1 Ht1 Hsb1 Hi1 Hlen1 Hrep1 _ _ (HTL & _ & _ & H1T) Hroom _].
  assert (length T1 <= 7)%nat as HT7.
  { assert (0 <= crosses (nblk (Z.of_nat (length C'))) (e + 0)) by (unfold crosses; destruct (_ && _); lia).
    unfold span_blocks in Hroom. cbn in Hroom. lia. }
  destruct (iblock_range inum Hr) as (_ & Hib & Hnb & Hnd).
  assert (forall j, 0 <= j < sb_ninodes sb -> V1 (IBLOCK j) = V (IBLOCK j)) as Hm1.
  { intros j Hj. destruct (iblock_range j Hj) as (? & ? & ? & ?).
    eapply wstep_meta; [done|apply Hrep|done|done|lia]. }
  assert (k_icache s1 !!! i = set_addrs (fun _ => addrs1) (k_icache s !!! i)) as Eic.
  { rewrite Hic. by apply lookup_total_alter_eq. }
  assert (s32 n = n) as En by (apply sgn_small; lia).
  unfold geti, seti. kstep. rewrite Eic. cbn [set_addrs i_size]. rewrite Hsz.
  destruct (Z.ltb_spec (Z.of_nat (length C)) e) as [Hg|Hg]; [destruct (Z.ltb_spec 0 n) as [Hp|Hp]|]; cbn [andb].
  - kstep. match goal with |- wp _ _ ?st => set (s2 := st) end.
    assert (k_icache s2 !!! i = set_isize (fun _ => e) (k_icache s1 !!! i)) as Eic2.
    { unfold s2. cbn -[alter]. by apply lookup_total_alter_eq. }
    eapply (iupdate_sync s2 V1 L1 T1 i inum C'); rewrite ?Eic2, ?Eic; try done.
    + by apply ses_set_icache.
    + unfold s2. cbn -[alter]. by rewrite length_alter.
    + cbn. lia.
    + intros s3 V3 L3 Hs3 Hf3 Hof3 Hk3 Hki3 HL3. kstep. split; [done|]. split.
      { etrans; [done|]. etrans; [apply iframe_seti|]. by apply lframe_iframe. }
      exists V3, L3, addrs1. split_and!; [done| |set_solver| |done| | | |].
      * pose proof (sub_length L3 T1 (ses_nodup _ _ _ _ _ _ Hs3) HL3). lia.
      * rewrite Hk3; [done|lia].
      * intros x Hx1 Hx2 Hx3 Hx4 Hx5. rewrite Hk3 by done. by apply (sw_keep _ _ _ _ _ _ Hst).
      * intros j Hj Hne. rewrite Hki3 by done. by rewrite Hm1.
      * intros x Hx. eapply wstep_owns; [done|apply Hrep|apply Hrep1|].
        assert (forall k, fblk V3 addrs1 k = fblk V1 addrs1 k) as Ef.
        { intros k. apply fblk_ext. intros Hnz. apply Hk3. intros E. apply Hnd. rewrite <- E.
          eapply ind_data; [apply Hrep1|done]. }
        destruct Hx as [(k & Hk & ->)|?]; [left; exists k; by rewrite Ef|by right].
      * intros x Hx Hux. rewrite (used_ext sb V1); [by apply (sw_used _ _ _ _ _ _ Hst)|]. apply Hk3.
        intros E. apply Hnb. rewrite <- E. by exists x.
  - assert (n = 0) as -> by lia. specialize (Hn0 eq_refl). lia.
  - specialize (Hsame Hg). subst addrs1. rewrite <- Ha, set_addrs_id in Hic by done.
    rewrite andb_false_r. kstep. split; [done|]. split; [done|]. exists V1, L1, addrs. 
    pose proof (sub_length L1 T1 (ses_nodup _ _ _ _ _ _ Hs1) HTL).
    split_and!; [done|lia|set_solver|done| | | | |by apply Hst].
    + split; rewrite ?Hic; try done; [lia|]. rewrite <- Hsync. by rewrite Hm1.
    + intros x ? ? ? ? _. by apply (sw_keep _ _ _ _ _ _ Hst).
    + intros j Hj _. by rewrite Hm1.
    + intros x. eapply wstep_owns; [done|apply Hrep|apply Hrep1].
Qed.

(** ** [readi] *)

Lemma file_slice V addrs C (o m : nat) : file_rep V addrs C -> (o + m <= length C)%nat ->
  (o mod 512 + m <= 512)%nat ->
  slice (V (fblk V addrs (Z.of_nat o / 512))) (o mod 512) m = slice C o m.
Proof.
  intros [Hfb HC] Ho Hm. apply list_eq. intros j. unfold slice.
  destruct (decide (j < m)%nat) as [Hj|Hj]; [|by rewrite !lookup_take_ge by lia].
  rewrite !lookup_take_lt, !lookup_drop by done. rewrite HC by lia.
  pose proof (Nat.div_mod_eq o 512). pose proof (Nat.mod_upper_bound o 512 ltac:(lia)).
  assert ((o + j) / 512 = o / 512)%nat as E by (symmetry; apply (Nat.div_unique _ _ _ (o mod 512 + j)); lia).
  assert ((o + j) mod 512 = o mod 512 + j)%nat as E2 by (symmetry; apply (Nat.mod_unique _ _ (o / 512)); lia).
  by rewrite !(proj1 (off_split _)), E, E2.
Qed.

Lemma readi_loop_spec fuel s V L i addrs C (o : nat) rem tot n Q :
  ses s ∅ V L -> has_inode s i addrs -> file_rep V addrs C -> (length L < NBUF)%nat ->
  rem = n - tot -> 0 <= rem -> 0 <= tot -> Z.of_nat o + rem <= Z.of_nat (length C) ->
  span_blocks (Z.of_nat o) rem <= Z.of_nat fuel ->
  (forall s', ses s' ∅ V L -> lframe s s' -> Q (slice C o (Z.to_nat rem)) s') ->
  wp (readi_loop i fuel tot (Z.of_nat o) n) Q s.
Proof.
  intros Hs Hi Hrep HL. revert s o rem tot Hs Hi Q.
  induction fuel as [|fuel IH]; intros s o rem tot Hs Hi Q Erem Hrem Htot Ho Hfuel HQ.
  all: destruct (decide (rem = 0)) as [->|Hne].
  1, 3: cbn [readi_loop]; destruct (Z.ltb_spec tot n); [lia|]; kstep; by apply HQ.
  { exfalso. unfold span_blocks in Hfuel. destruct (Z.eqb_spec rem 0); [lia|].
    destruct (round_block (Z.of_nat o) rem _ ltac:(lia) ltac:(lia) eq_refl) as (_ & ? & _). lia. }
  cbn [readi_loop]. destruct (Z.ltb_spec tot n); [|lia]. change BSIZE with 512.
  set (m := Z.min (n - tot) (512 - Z.of_nat o mod 512)).
  destruct (round_block (Z.of_nat o) rem m ltac:(lia) ltac:(lia) ltac:(unfold m; by rewrite Erem)) as (_ & _ & Hm & Hsp & _).
  destruct (off_split o) as [Ek Em]. assert (m <= rem /\ m <= 512 - Z.of_nat o mod 512) as [Hm1 Hm2] by (unfold m; lia).
  clearbody m. kstep. pose proof (off_block (Z.of_nat o) (Z.of_nat (length C)) ltac:(lia)) as Hk.
  eapply (bmap_get st sz sb geo); [done|done|apply Hrep|done|set_solver|by rewrite size_empty|].
  intros s1 Hs1 Hf1 _. pose proof (lframe_has_inode _ _ _ _ Hf1 Hi) as Hi1. unfold geti. kstep. rewrite (proj1 Hi1).
  destruct (fb_data _ _ _ _ _ (fr_blocks _ _ _ _ _ Hrep) _ Hk) as [Hd _]. pose proof (data_home st sb geo _ Hd) as Hbh.
  eapply ses_bread; [done|done|set_solver|by rewrite size_empty|]. intros j s2 Hh Hs2 Hf2 _. kstep.
  eapply ses_getdata; [done|done|done|]. kstep.
  eapply (ses_brelse _ _ _ _ _ _ j); [done|done|]. intros s3 Hs3 Hf3 _.
  match type of Hs3 with context [({[?x]} ∪ ∅) ∖ {[?x]}] =>
    replace (({[x]} ∪ ∅) ∖ {[x]}) with (∅ : gset Z) in Hs3 by set_solver end.
  assert (lframe s s3) as Hf by (by do 2 (etrans; [done|])). kstep.
  assert (u32 (Z.of_nat o + m) = Z.of_nat (o + Z.to_nat m)) as ->.
  { rewrite Nat2Z.inj_add, Z2Nat.id by lia. apply u32_small.
    destruct (fr_blocks _ _ _ _ _ Hrep) as [_ Hmx _ _ _ _ _ _]. rewrite MAXFILE_val in Hmx.
    destruct (nblk_range (Z.of_nat (length C))); lia. }
  apply (IH s3 _ (rem - m)); [done|by eapply lframe_has_inode|lia|lia|lia|lia| |].
  { replace (Z.of_nat (o + Z.to_nat m)) with (Z.of_nat o + m) by lia. lia. }
  intros s4 Hs4 Hf4. kstep. replace (Z.to_nat (Z.of_nat o mod 512)) with (o mod 512)%nat by lia.
  rewrite (file_slice V addrs C) by (done || lia). rewrite slice_app_slice.
  replace (Z.to_nat m + Z.to_nat (rem - m))%nat with (Z.to_nat rem) by lia. apply HQ; [done|by etrans].
Qed.

(** [writei] writes: for a regular file with contents [C], at most 1536
    bytes (the most [filewrite] asks for in a transaction) written at an offset
    inside the file or at its end succeed, given that as many of the first free
    blocks as the file lacks are data blocks; the transaction fits into the log and the cache. Afterwards the
    file holds [C] with the bytes from the offset on replaced, the inode on
    disk agrees with the cached one, and every block that is not the bitmap
    and was not free, nor part of the file or its inode, is as it was. *)
Lemma writei_write s V i inum addrs C (o : nat) n src :
  ses s ∅ V [] -> in_trans s -> sb_dec (V 1) = sb -> open_file s V i inum addrs C ->
  (o <= length C)%nat -> 0 <= n <= 1536 -> n <= Z.of_nat (length src) ->
  Z.of_nat o + n <= MAXFILE * 512 ->
  has_room V (need (nblk (Z.of_nat (length C))) (Z.of_nat o + n)) ->
  wp (writei i src (Z.of_nat o) n)
    (fun r s' => r = n /\ written s V i inum addrs C (splice C o (take (Z.to_nat n) src)) s') s.
Proof.
  intros Hs Ht Hsb Hof Ho Hn Hsrc Hmax Hneed. pose proof Hof as [Hlen Hdev Hinum Hr Hty Hsz Ha Hrep Hsync].
  unfold writei, geti. kstep. destruct (Z.eqb_spec (i_type (k_icache s !!! i)) T_DEV); [done|].
  rewrite Hsz. rewrite MAXFILE_val in *. change BSIZE with 512. rewrite u32_small by lia.
  destruct (Z.ltb_spec (Z.of_nat (length C)) (Z.of_nat o)); [lia|].
  destruct (Z.ltb_spec (Z.of_nat o + n) (Z.of_nat o)); [lia|]. cbn [orb].
  destruct (Z.ltb_spec (140 * 512) (Z.of_nat o + n)); [lia|]. kstep.
  eapply (writei_loop_spec (rounds n) s V []); [apply wready_start; rewrite ?MAXFILE_val; (done || lia)|lia|lia|done|..].
  { apply loop_rounds; lia. }
  change (slice src (Z.to_nat 0) (Z.to_nat n)) with (take (Z.to_nat n) src).
  intros s1 V1 L1 T1 addrs1 C1 Hwr1 Hf1 Hic1 HT1 Hv1 Hst1 Hsm1.
  assert (length C1 = max (length C) (o + Z.to_nat n)) as HlC.
  { unfold C1. rewrite length_splice_ext, length_take by done. lia. }
  eapply writei_finish; [done|done|done|done|done|done|done|set_solver|lia| |lia].
  fold C1. rewrite HlC. lia.
Qed.

(** [readi] reads: for a file or directory with contents [C] it returns, at an
    offset inside the file, the bytes from there up to the number asked for or
    the end of the file, and their number; it changes nothing on disk and
    needs no transaction. *)
Lemma readi_at s V L i addrs C (o : nat) n :
  ses s ∅ V L -> (length L < NBUF)%nat -> has_inode s i addrs -> i_type (k_icache s !!! i) <> T_DEV ->
  i_size (k_icache s !!! i) = Z.of_nat (length C) -> file_rep V addrs C -> (o <= length C)%nat -> 0 <= n < 2 ^ 31 ->
  let m := min (Z.to_nat n) (length C - o) in
  wp (readi i (Z.of_nat o) n)
    (fun r s' => r = (Z.of_nat m, slice C o m) /\ lframe s s' /\ ses s' ∅ V L) s.
Proof.
  intros Hs HL Hin Hty Hsz Hrep Ho Hn m.
  assert (Z.of_nat (length C) <= 140 * 512) as Hmax.
  { destruct (fr_blocks _ _ _ _ _ Hrep) as [_ Hmx _ _ _ _ _ _]. rewrite MAXFILE_val in Hmx.
    destruct (nblk_range (Z.of_nat (length C))); lia. }
  unfold readi, geti. kstep. destruct (Z.eqb_spec (i_type (k_icache s !!! i)) T_DEV); [done|].
  rewrite Hsz, u32_small by lia.
  destruct (Z.ltb_spec (Z.of_nat (length C)) (Z.of_nat o)); [lia|].
  destruct (Z.ltb_spec (Z.of_nat o + n) (Z.of_nat o)); [lia|]. cbn [orb].
  assert ((if Z.of_nat (length C) <? Z.of_nat o + n then u32 (Z.of_nat (length C) - Z.of_nat o) else n)
    = Z.of_nat m) as ->.
  { unfold m. destruct (Z.ltb_spec (Z.of_nat (length C)) (Z.of_nat o + n)); rewrite ?u32_small by lia; lia. }
  kstep. eapply (readi_loop_spec _ s V L i addrs C o (Z.of_nat m)); [done|done|done|done|lia|lia|lia|lia| |].
  { apply loop_rounds; lia. }
  intros s' Hs' Hf'. kstep. rewrite Nat2Z.id. split_and!; [|done|done].
  f_equal. apply sgn_small; lia.
Qed.

Lemma readi_read s V L i inum addrs C (o : nat) n :
  ses s ∅ V L -> (length L < NBUF)%nat -> open_file s V i inum addrs C ->
  (o <= length C)%nat -> 0 <= n < 2 ^ 31 ->
  let m := min (Z.to_nat n) (length C - o) in
  wp (readi i (Z.of_nat o) n)
    (fun r s' => r = (Z.of_nat m, slice C o m) /\ lframe s s' /\ ses s' ∅ V L) s.
Proof. intros Hs HL [Hlen Hdev Hinum Hr Hty Hsz Ha Hrep Hsync] Ho Hn. by apply (readi_at s V L i addrs C). Qed.

(** C15. What is written is read back: in a transaction that has logged nothing,
    a write of at most 1536 bytes inside or at the end of a file followed by a
    read of the same range returns the bytes written, when the blocks the file
    lacks are there among the free blocks the bitmap gives first and are data
    blocks. *)
Theorem write_then_read s V i inum addrs C (o : nat) n src :
  ses s ∅ V [] -> in_trans s -> sb_dec (V 1) = sb -> open_file s V i inum addrs C ->
  (o <= length C)%nat -> 0 <= n <= 1536 -> n <= Z.of_nat (length src) ->
  Z.of_nat o + n <= MAXFILE * 512 ->
  has_room V (need (nblk (Z.of_nat (length C))) (Z.of_nat o + n)) ->
  wp (_ <- writei i src (Z.of_nat o) n ;; readi i (Z.of_nat o) n)
    (fun r _ => r = (n, take (Z.to_nat n) src)) s.
Proof.
  intros Hs Ht Hsb Hof Ho Hn Hsrc Hmax Hneed. kstep.
  eapply wp_mono; [eapply writei_write; done|].
  intros r s1 [_ [_ (V1 & L1 & addrs1 & Hs1 & HL1 & _ & _ & Hof1 & _)]].
  set (w := take (Z.to_nat n) src) in *. assert (length w = Z.to_nat n) as Hw by (apply length_take_le; lia).
  pose proof (length_splice_ext C o w Ho) as Hl.
  eapply wp_mono; [eapply readi_read; [done|unfold NBUF; lia|done|lia|lia]|].
  intros r' s2 [-> _]. cbv beta. rewrite Hl, Hw.
  replace (min (Z.to_nat n) (max (length C) (o + Z.to_nat n) - o)) with (length w) by lia.
  rewrite Hw, Z2Nat.id by lia. f_equal. rewrite <- Hw. unfold slice, splice.
  rewrite drop_app_length' by (rewrite length_take; lia). apply take_app_length.
Qed.
End rw.
