(* ===== verification/FsCrash.v ===== *)
(** * Files across writes and crashes (kernel/fs.c on kernel/log.c)

    What a file is on the disk, and what a transaction that calls [writei]
    does to the files of the disk: the file written holds the old contents or
    the new ones after a crash at any moment, and no other file changes.
    [FsDemo] has the disk on which the theorems are applied; [Mkfs] shows that
    the images of mkfs are such disks, with room for the blocks that are left. *)

From stdpp Require Import prelude gmap strings.
From S2P Require Import Prelude Kernel Spinlock Sched Bio Cache Log LogCrash StringC Fs FsLayout FsBlock FsFile FsRw.

Section crash.
Context (st sz : Z) (sb : superblock) (geo : fs_geo st sb).
Context (one_bitmap : sb_size sb <= BPB) (big_log : 9 <= sz) (small_disk : st < 2 ^ 31).
Context `{DO : DevOps}.
Notation ses := (ses st sz).
Notation data_block := (data_block st sb).
Notation used := (used sb).
Notation is_bitmap := (is_bitmap sb).
Notation free_blocks := (free_blocks sb).
Notation file_rep := (file_rep st sb).
Notation open_file := (open_file st sb).

(** The inode of file [inum] on the disk; and: its contents are [C]. *)
Definition disk_inode (V : Z -> bytes) (inum : Z) : dinode :=
  dinode_dec (slice (V (IBLOCK inum)) (dip_off inum) 64).

Record on_disk (V : Z -> bytes) (inum : Z) (C : bytes) : Prop := {
  od_size : d_size (disk_inode V inum) = Z.of_nat (length C);
  od_rep : file_rep V (d_addrs (disk_inode V inum)) C
}.

(** The blocks of the file. *)
Definition file_owns (V : Z -> bytes) (inum : Z) (C : bytes) : Z -> Prop :=
  owns V (d_addrs (disk_inode V inum)) (nblk (Z.of_nat (length C))).

(** The disk holds the files [F], by inode number: each has its contents, and
    no block belongs to two of them. *)
Record fs_rep (V : Z -> bytes) (F : gmap Z bytes) : Prop := {
  fs_file : forall inum C, F !! inum = Some C -> 0 <= inum < sb_ninodes sb /\ on_disk V inum C;
  fs_apart : forall i j C D x, F !! i = Some C -> F !! j = Some D -> i <> j ->
    file_owns V i C x -> ~ file_owns V j D x
}.

Lemma meta_home b : data_block b \/ is_bitmap b -> 0 <= b < st.
Proof.
  intros [H|(k & Hk & ->)]; [by apply (data_home st sb geo)|]. pose proof (bblock_range st sb geo k Hk). lia.
Qed.

(** Only the home sectors count. *)
Lemma on_disk_ext V V' inum C : 0 <= inum < sb_ninodes sb -> (forall b, 0 <= b < st -> V' b = V b) ->
  on_disk V inum C -> on_disk V' inum C /\ forall x, file_owns V' inum C x <-> file_owns V inum C x.
Proof.
  intros Hi HV []. destruct (iblock_range st sb geo inum Hi) as (_ & ? & _).
  assert (disk_inode V' inum = disk_inode V inum) as E by (unfold disk_inode; rewrite HV; [done|lia]).
  assert (forall k, fblk V' (d_addrs (disk_inode V inum)) k = fblk V (d_addrs (disk_inode V inum)) k) as Ef.
  { intros k. apply fblk_ext. intros Hnz. apply HV, meta_home. left. eapply ind_data; [apply od_rep0|done]. }
  split; [split; rewrite E; [done|]|].
  - eapply (file_rep_ext st sb geo); [|done]. intros x Hx%meta_home. by apply HV.
  - intros x. unfold file_owns, owns. rewrite E. by setoid_rewrite Ef.
Qed.

Lemma fs_rep_ext V V' F : (forall b, 0 <= b < st -> V' b = V b) -> fs_rep V F -> fs_rep V' F.
Proof.
  intros HV [Hf Ha]. split.
  - intros inum C HF. destruct (Hf _ _ HF) as [Hr Ho]. split; [done|]. by apply (on_disk_ext V).
  - intros i j C D x Hi Hj Hne. destruct (Hf _ _ Hi) as [Hri Hoi], (Hf _ _ Hj) as [Hrj Hoj].
    rewrite (proj2 (on_disk_ext V V' i C Hri HV Hoi)), (proj2 (on_disk_ext V V' j D Hrj HV Hoj)). by apply Ha.
Qed.

(** The addresses in an inode fit in 32 bits. *)
Lemma addrs_range V addrs n : file_blocks st sb V addrs n -> Forall (fun a => 0 <= a < 2 ^ 32) addrs.
Proof.
  intros []. assert (forall x, data_block x -> 0 <= x < 2 ^ 32) as Hd.
  { intros x Hx%(data_home st sb geo). lia. }
  apply Forall_lookup. intros k a Hk. pose proof (lookup_lt_Some _ _ _ Hk) as Hlt. rewrite fb_len in Hlt.
  apply list_lookup_total_correct in Hk as <-. destruct (decide (k = 12%nat)) as [->|Hne].
  - change (addrs !!! 12%nat) with (indirect addrs). destruct (decide (NDIRECT < n)).
    + apply Hd. by apply fb_ind.
    + rewrite fb_noind by lia. done.
  - replace (addrs !!! k) with (fblk V addrs (Z.of_nat k)).
    + destruct (decide (Z.of_nat k < n)); [apply Hd, fb_data; lia|]. rewrite fb_none; [done|].
      rewrite MAXFILE_val. lia.
    + unfold fblk. rewrite NDIRECT_val. destruct (Z.ltb_spec (Z.of_nat k) 12); [by rewrite Nat2Z.id|lia].
Qed.

(** The disk agrees with the cached inode of an open file. *)
Lemma open_inode s V i inum addrs C : open_file s V i inum addrs C ->
  d_size (disk_inode V inum) = Z.of_nat (length C) /\ d_addrs (disk_inode V inum) = addrs.
Proof.
  intros []. pose proof (fr_blocks _ _ _ _ _ of_rep) as Hfb. pose proof Hfb as [Hl Hm _ _ _ _ _ _].
  unfold disk_inode. rewrite of_sync. split.
  - rewrite dec_enc_size; [done|]. cbn [dinode_of d_size]. rewrite of_size, MAXFILE_val in *. unfold nblk in Hm.
    assert (Z.of_nat (length C) + 511 < 141 * 512); [|lia].
    pose proof (Z.div_mod (Z.of_nat (length C) + 511) 512 ltac:(lia)).
    pose proof (Z.mod_pos_bound (Z.of_nat (length C) + 511) 512 ltac:(lia)). lia.
  - rewrite dec_enc_addrs; cbn [dinode_of d_addrs]; rewrite of_addrs; [done|done|by eapply addrs_range].
Qed.

Lemma open_on_disk s V i inum addrs C : open_file s V i inum addrs C -> on_disk V inum C.
Proof. intros Ho. destruct (open_inode _ _ _ _ _ _ Ho) as [E1 E2]. split; [done|]. rewrite E2. apply Ho. Qed.

Lemma ses_dsk s V b : ses s ∅ V [] -> 0 <= b < st -> dsk s b = V b.
Proof.
  intros [Htx Hst _ HV HL] Hb. rewrite <- HV by done. symmetry. apply lview_clean; [apply Htx|].
  apply unpinned; [done|]. rewrite HL. set_solver.
Qed.

(** The hypotheses of a write: a transaction that has logged nothing, an open
    file, a range inside the file or just behind it that one transaction can
    write, and, among the blocks the bitmap gives first, as many data blocks as
    the file lacks. *)
Record can_write (s : kst) (V : Z -> bytes) (i : nat) (inum : Z) (addrs : list Z) (C : bytes) (o : nat) (n : Z)
    (src : bytes) : Prop := {
  cw_ses : ses s ∅ V [];
  cw_trans : in_trans s;
  cw_sb : sb_dec (V 1) = sb;
  cw_file : open_file s V i inum addrs C;
  cw_off : (o <= length C)%nat;
  cw_n : 0 <= n <= 1536;
  cw_src : n <= Z.of_nat (length src);
  cw_max : Z.of_nat o + n <= MAXFILE * 512;
  cw_free : has_room st sb V (need (nblk (Z.of_nat (length C))) (Z.of_nat o + n))
}.

Lemma can_writei s V i inum addrs C (o : nat) n src : can_write s V i inum addrs C o n src ->
  wp (writei i src (Z.of_nat o) n)
    (fun r s' => r = n /\ written st sz sb s V i inum addrs C (splice C o (take (Z.to_nat n) src)) s') s.
Proof. intros []. by apply writei_write. Qed.

(** The commit of a session: the view is on the disk, and a crash leaves the
    view of before or of after. *)
Lemma ses_commit s0 s V V' L : ses s0 ∅ V [] -> iframe s0 s -> ses s ∅ V' L -> (length L <= 7)%nat -> 1 ∉ L ->
  k_locks s0 !! LLog = None -> sb_ok st sz V (k_disksize s0) ->
  wp commit_trans (fun _ s' => (forall b, 0 <= b < st -> dsk s' b = V' b) /\
    exists ws, k_hist s' = k_hist s0 ++ ws /\ k_disk s' = replay ws (k_disk s0) /\
    forall m boot, booted boot (crash_disk s0 ws m) ->
      wp initlog (fun _ s2 => txn s2 ∅ ∅ /\ ((forall b, 0 <= b < st -> dsk s2 b = V b) \/
        (forall b, 0 <= b < st -> dsk s2 b = V' b))) boot) s.
Proof.
  intros Hs0 Hf Hs HL H1 Hlk Hsb. pose proof (ses_dsk s0 V) as Hd0. unfold iframe in Hf.
  pose proof (ses_set_icache _ _ _ _ _ _ (fun _ => k_icache s) Hs0) as Hs0'.
  set (s0' := set_icache _ s0) in *. pose proof Hs0' as [Htx0 Hst0 Hsz0 _ _]. pose proof Hs as [Htx Hst Hsz HV Hlg].
  assert (0 < st) by (destruct Hsb; lia).
  eapply wp_mono; [apply (commit_atomic s0' s); try done|].
  - rewrite (ctx_locks _ _ (lf_ctx _ _ Hf)). done.
  - rewrite (ses_n _ _ _ _ _ _ Hs). unfold NBUF. lia.
  - rewrite Hst0, Hsz0. eapply (sb_ok_ext _ _ V); [|done]. apply Hd0; [done|]. destruct Hsb. lia.
  - by rewrite Hlg.
  - intros [] s' [Hc (ws & Hh & Hk & Hat)].
    assert (forall b, 0 <= b < st -> home s b /\ home s0' b) as Hho by (intros b; unfold home; by rewrite Hst, Hst0).
    split. { intros b Hb. rewrite (cp_disk _ _ Hc) by (by apply Hho). by apply HV. }
    exists ws. split_and!; [done|done|]. intros m boot Hb. eapply wp_mono; [by apply (Hat m boot)|].
    intros [] s2 [Ht2 Hor]. split; [done|]. destruct Hor as [Ho|Ho]; [left|right]; intros b Hbb.
    + rewrite Ho by (by apply Hho). by apply Hd0.
    + rewrite Ho by (by apply Hho). by apply HV.
Qed.

(** The blocks of a file while another is written. *)
Lemma owned_kept V V' inum addrs C j D : file_rep V addrs C -> 0 <= inum < sb_ninodes sb ->
  write_kept st sb V inum addrs (nblk (Z.of_nat (length C))) V' ->
  (forall x, 0 <= x < sb_size sb -> used V x = true -> used V' x = true) ->
  (forall x, file_owns V j D x -> ~ owns V addrs (nblk (Z.of_nat (length C))) x) ->
  on_disk V j D -> forall x, file_owns V j D x -> V' x = V x /\ used V' x = true.
Proof.
  intros Hrep Hi Hk Hu Hap [Hz HR] x Hx. destruct (iblock_range st sb geo inum Hi) as (_ & _ & _ & Hnd).
  destruct (owns_data st sb _ _ _ _ (fr_blocks _ _ _ _ _ HR) Hx) as [Hd Hux]. split.
  - apply Hk; [by apply (data_not_bitmap st sb geo)|done| | |by intros ->].
    + intros k Hkk ->. apply (Hap _ Hx). left. eauto.
    + intros ->. destruct (decide (NDIRECT < nblk (Z.of_nat (length C)))) as [Hlt|Hge].
      { apply (Hap _ Hx). by right. }
      pose proof (data_above st sb geo _ Hd) as Hd'.
      rewrite (fb_noind _ _ _ _ _ (fr_blocks _ _ _ _ _ Hrep)) in Hd'; lia.
  - apply Hu; [by apply (data_range st sb geo)|done].
Qed.

(** A write of another file. *)
Lemma on_disk_kept V V' inum addrs C j D : file_rep V addrs C -> 0 <= inum < sb_ninodes sb ->
  0 <= j < sb_ninodes sb -> j <> inum ->
  write_kept st sb V inum addrs (nblk (Z.of_nat (length C))) V' -> inodes_kept sb V inum V' ->
  (forall x, 0 <= x < sb_size sb -> used V x = true -> used V' x = true) ->
  (forall x, file_owns V j D x -> ~ owns V addrs (nblk (Z.of_nat (length C))) x) ->
  on_disk V j D -> on_disk V' j D /\ forall x, file_owns V' j D x <-> file_owns V j D x.
Proof.
  intros Hrep Hi Hj Hne Hk Hik Hu Hap Hon. pose proof Hon as [Hz HR].
  assert (disk_inode V' j = disk_inode V j) as E by (unfold disk_inode; by rewrite Hik).
  destruct (file_rep_own st sb V V' (d_addrs (disk_inode V j)) D) as [HR' Ef]; [by apply (owned_kept V V' inum addrs C)|done|].
  split; [split; by rewrite E|]. intros x. unfold file_owns, owns. rewrite E. by setoid_rewrite Ef.
Qed.

(** The files when one of them, or a new one, has changed: [Hap] says that its
    blocks are its own. *)
Lemma fs_rep_update V V' inum addrs C C' F :
  fs_rep V F -> file_rep V addrs C -> 0 <= inum < sb_ninodes sb ->
  (forall j D x, j <> inum -> F !! j = Some D -> file_owns V j D x -> ~ owns V addrs (nblk (Z.of_nat (length C))) x) ->
  on_disk V' inum C' ->
  write_kept st sb V inum addrs (nblk (Z.of_nat (length C))) V' -> inodes_kept sb V inum V' ->
  (forall x, file_owns V' inum C' x -> owns V addrs (nblk (Z.of_nat (length C))) x \/ used V x = false) ->
  (forall x, 0 <= x < sb_size sb -> used V x = true -> used V' x = true) ->
  fs_rep V' (<[inum := C']> F).
Proof.
  intros [Hf Ha] Hrep Hr Hap Hon Hk Hik Hown Hu.
  assert (forall j D, j <> inum -> F !! j = Some D ->
    on_disk V' j D /\ (forall x, file_owns V' j D x <-> file_owns V j D x) /\
    (forall x, file_owns V j D x -> ~ file_owns V' inum C' x)) as Hoth.
  { intros j D Hne HD. destruct (Hf _ _ HD) as [Hrj Hoj].
    destruct (on_disk_kept V V' inum addrs C j D) as [H1 H2]; [done..|intros x; by apply (Hap j D x)|done|].
    split_and!; [done|done|]. intros x Hx [Hx'|Hx']%Hown; [by apply (Hap j D x)|].
    destruct (owns_data st sb _ _ _ _ (fr_blocks _ _ _ _ _ (od_rep _ _ _ Hoj)) Hx) as [_ ?]. congruence. }
  split.
  - intros j D [[<- <-]|[Hne HD]]%lookup_insert_Some; [done|]. split; [by apply (Hf j D)|by apply Hoth].
  - intros j k D E x [[<- <-]|[Hj HD]]%lookup_insert_Some [[<- <-]|[Hk' HE]]%lookup_insert_Some Hne; [done|..].
    + destruct (Hoth k E) as (_ & H2 & H3); [done..|]. rewrite H2. intros Hx Hy. by apply (H3 x).
    + destruct (Hoth j D) as (_ & H2 & H3); [done..|]. rewrite H2. by apply H3.
    + destruct (Hoth j D) as (_ & H2 & _), (Hoth k E) as (_ & H4 & _); [done..|]. rewrite H2, H4. by apply Ha.
Qed.

(** The files after a write. *)
Lemma written_fs s V i inum addrs C C' s' V' addrs' F :
  fs_rep V F -> F !! inum = Some C -> open_file s V i inum addrs C ->
  open_file s' V' i inum addrs' C' ->
  write_kept st sb V inum addrs (nblk (Z.of_nat (length C))) V' -> inodes_kept sb V inum V' ->
  (forall x, owns V' addrs' (nblk (Z.of_nat (length C'))) x ->
       owns V addrs (nblk (Z.of_nat (length C))) x \/ used V x = false) ->
  (forall x, 0 <= x < sb_size sb -> used V x = true -> used V' x = true) ->
  fs_rep V' (<[inum := C']> F).
Proof.
  intros HF HC Hof Hof' Hk Hik Hown Hu.
  destruct (open_inode _ _ _ _ _ _ Hof) as [_ Ea], (open_inode _ _ _ _ _ _ Hof') as [_ Ea'].
  apply (fs_rep_update V V' inum addrs C); [done|apply Hof|apply Hof| |by eapply open_on_disk|done|done| |done].
  - intros j D x Hne HD Hx. rewrite <- Ea. by apply (fs_apart _ _ HF j inum D C x).
  - intros x. unfold file_owns. rewrite Ea'. apply Hown.
Qed.

(** C2. A write to a file is atomic across crashes. The disk holds the files
    [F], and a transaction that has logged nothing calls [writei] on one of
    them with at most 1536 bytes (what [filewrite] puts in one transaction) and
    then [commit_trans], the blocks the file lacks being there among the free
    blocks the bitmap gives first ([can_write]). The calls return the number of bytes written, and the
    disk then holds [F] with that file's bytes replaced or extended, every
    other file unchanged. After a crash behind any prefix of the disk writes
    made on the way, booting and running [initlog] succeeds, and the disk holds
    the files from before the write, or those from after it. *)
Theorem file_write_crash_atomic s V F i inum addrs C (o : nat) n src :
  can_write s V i inum addrs C o n src -> fs_rep V F -> F !! inum = Some C ->
  k_locks s !! LLog = None -> sb_ok st sz V (k_disksize s) ->
  let F' := <[inum := splice C o (take (Z.to_nat n) src)]> F in
  wp (r <- writei i src (Z.of_nat o) n ;; commit_trans ;; ret r) (fun r s' => r = n /\
    fs_rep (dsk s) F /\ fs_rep (dsk s') F' /\
    exists ws, k_hist s' = k_hist s ++ ws /\ k_disk s' = replay ws (k_disk s) /\
    forall m boot, booted boot (crash_disk s ws m) ->
      wp initlog (fun _ s2 => txn s2 ∅ ∅ /\ (fs_rep (dsk s2) F \/ fs_rep (dsk s2) F')) boot) s.
Proof.
  intros Hcw HF HC Hlk Hsb F'. kstep. eapply wp_mono; [by apply can_writei|].
  intros r s1 [-> [Hf (V1 & L1 & addrs1 & Hs1 & HL1 & H1 & _ & Hof1 & Hk & Hik & Hown & Hu)]]. kstep.
  pose proof (written_fs s V i inum addrs C _ s1 V1 addrs1 F HF HC (cw_file _ _ _ _ _ _ _ _ _ Hcw)
    Hof1 Hk Hik Hown Hu) as HF1. fold F' in HF1.
  eapply wp_mono; [by eapply (ses_commit s s1 V V1 L1); [apply Hcw|..]|].
  intros [] s2 (Hd & ws & Hh & Hdk & Hat). kstep. split; [done|].
  pose proof (cw_ses _ _ _ _ _ _ _ _ _ Hcw) as Hs. split_and!.
  - eapply fs_rep_ext; [|exact HF]. intros b Hb. by apply ses_dsk.
  - by eapply fs_rep_ext.
  - exists ws. split_and!; [done|done|]. intros m boot Hb. eapply wp_mono; [by apply (Hat m)|].
    intros [] s3 [Ht3 [Ho|Ho]]; (split; [done|]); [left|right]; by eapply fs_rep_ext.
Qed.
End crash.
