(* ===== verification/FsDir.v ===== *)
(** * The inode cache, directories and path names (kernel/fs.c)

    A client of the inode cache sees the references that are held, by inode
    number ([icache_rep]); [iget], [ilock], [iunlock] and [iput] are restated in
    these terms. A directory is the list of entries its contents decode to, and
    a path is walked on the contents of the disk ([walk]).

    The theorem: [namei] finds the inode the walk finds, holds one reference to
    it and leaves every other count as it was. *)

From stdpp Require Import prelude gmap strings.
From S2P Require Import Prelude Kernel Spinlock Sched Bio Cache Log LogCrash StringC Fs FsLayout FsBlock FsFile FsRw FsCrash.

(** ** References *)

(** The inode at [i] with the number of references and the lock left out. *)
Definition icore (p : inode) : inode := set_iref (fun _ => 0) (set_iflags (fun fl => clrf fl I_BUSY) p).

(** ** Path names *)

(** The words of a path between slashes. *)
Fixpoint split_slash (p : bytes) : list bytes :=
  match p with
  | [] => [[]]
  | c :: q =>
    if c =? SLASH then [] :: split_slash q
    else match split_slash q with w :: ws => (c :: w) :: ws | [] => [[c]] end
  end.
Definition components (path : bytes) : list bytes := filter (fun w => w <> []) (split_slash (cstr path)).

Lemma split_slash_ne p : split_slash p <> [].
Proof. destruct p as [|c q]; cbn; [done|]. destruct (c =? SLASH); [done|]. by destruct (split_slash q). Qed.

Lemma components_slash q : components (SLASH :: q) = components q.
Proof. done. Qed.

Lemma components_skip p : components (skip_slashes p) = components p.
Proof. induction p as [|c q IH]; [done|]. cbn [skip_slashes]. destruct (Z.eqb_spec c SLASH) as [->|]; [|done]. by rewrite IH. Qed.

Lemma skip_slashes_head p c q : skip_slashes p = c :: q -> c <> SLASH.
Proof. induction p as [|a p IH]; [done|]. cbn. destruct (Z.eqb_spec a SLASH); [done|]. by intros [= -> ->]. Qed.

Lemma length_skip p : (length (skip_slashes p) <= length p)%nat.
Proof. induction p as [|a p IH]; [done|]. cbn. destruct (a =? SLASH); cbn; lia. Qed.

(** The element the code splits off is the first word of the split. *)
Lemma span_split p : exists ws, split_slash (cstr p) = (span_elem p).1 :: ws /\
  filter (fun w => w <> []) ws = components (span_elem p).2 /\ (length (span_elem p).1 + length (span_elem p).2 = length p)%nat.
Proof.
  induction p as [|c q IH]; [by exists []|]. cbn [span_elem]. destruct IH as (ws & E & Ec & El).
  destruct (span_elem q) as [e r]; cbn [fst snd] in *. destruct (Z.eqb_spec c SLASH) as [->|Hs]; [|destruct (Z.eqb_spec c 0) as [->|H0]].
  - cbn [negb andb fst snd length]. exists (split_slash (cstr q)). by split_and!.
  - cbn [negb andb fst snd length]. exists []. by split_and!.
  - cbn [negb andb fst snd length]. exists ws. cbn [cstr]. rewrite (proj2 (Z.eqb_neq c 0)) by done. cbn [split_slash].
    rewrite (proj2 (Z.eqb_neq c SLASH)), E by done. split_and!; [done..|lia].
Qed.

Lemma skipelem_components path :
  match skipelem path with
  | None => components path = []
  | Some (rest, name) => exists w, components path = w :: components rest /\ name = take DIRSIZ w /\ (length rest < length path)%nat
  end.
Proof.
  unfold skipelem. rewrite <- (components_skip path). pose proof (length_skip path) as Hl. pose proof (skip_slashes_head path) as Hh.
  destruct (skip_slashes path) as [|c q]; [done|]. specialize (Hh c q eq_refl). cbn [chr hd].
  destruct (Z.eqb_spec c 0) as [->|H0]; [done|]. destruct (span_split (c :: q)) as (ws & E & Ec & El).
  assert (Hne : (span_elem (c :: q)).1 <> []).
  { cbn. rewrite (proj2 (Z.eqb_neq c SLASH)), (proj2 (Z.eqb_neq c 0)) by done. cbn. by destruct (span_elem q). }
  destruct (span_elem (c :: q)) as [e r]; cbn [fst snd] in *. exists e. unfold components at 1. rewrite E, filter_cons_True by done.
  rewrite Ec, components_skip. split_and!; [done..|]. pose proof (length_skip r). cbn [length] in *. destruct e; [done|]. cbn in El. lia.
Qed.

(** What is left of the path is empty exactly when its text is. *)
Lemma skipelem_rest path rest name : skipelem path = Some (rest, name) -> chr rest = 0 <-> components rest = [].
Proof.
  unfold skipelem. destruct (chr (skip_slashes path) =? 0); [done|]. destruct (span_elem (skip_slashes path)) as [e r].
  intros [= <- _]. pose proof (skip_slashes_head r) as Hh. pose proof (skipelem_components (skip_slashes r)) as Hc.
  destruct (skip_slashes r) as [|c q]; [done|]. specialize (Hh c q eq_refl). unfold skipelem in Hc. cbn [skip_slashes] in Hc.
  rewrite (proj2 (Z.eqb_neq c SLASH)) in Hc by done. cbn [chr hd] in *. destruct (Z.eqb_spec c 0) as [->|H0]; [done|].
  destruct (span_elem (c :: q)) as [e' r']. destruct Hc as (w & -> & _). done.
Qed.

Section dirs.
Context (st sz : Z) (sb : superblock) (geo : fs_geo st sb).
Context (one_bitmap : sb_size sb <= BPB) (big_log : 9 <= sz) (small_disk : st < 2 ^ 31).
Context `{DO : DevOps}.
Context (V : Z -> bytes) (L : list Z) (room : (length L < NBUF)%nat).
Notation ses := (ses st sz).
Notation file_rep := (file_rep st sb).
Notation on_disk := (on_disk st sb).
Notation slot s i := (k_icache s !!! i).

(** [B n] references to inode [n] are held; the inode in slot [lk] is locked. *)
Record icache_rep (s : kst) (B : Z -> Z) (lk : option nat) : Prop := {
  ic_len : length (k_icache s) = NINODE;
  ic_pos : forall i, 0 <= i_ref (slot s i);
  ic_refs : forall i, 0 < i_ref (slot s i) -> i_dev (slot s i) = ROOTDEV /\ B (i_inum (slot s i)) = i_ref (slot s i);
  ic_uniq : forall i j, 0 < i_ref (slot s i) -> 0 < i_ref (slot s j) -> i_inum (slot s i) = i_inum (slot s j) -> i = j;
  ic_all : forall n, B n <> 0 -> exists i, 0 < i_ref (slot s i) /\ i_inum (slot s i) = n;
  ic_lock : forall i, lk = Some i -> 0 < i_ref (slot s i);
  ic_busy : forall i, 0 < i_ref (slot s i) -> has (i_flags (slot s i)) I_BUSY = bool_decide (lk = Some i);
  ic_valid : forall i, 0 < i_ref (slot s i) -> has (i_flags (slot s i)) I_VALID = true ->
    dinode_of (slot s i) = disk_inode V (i_inum (slot s i))
}.

(** The file system at rest, or in a transaction, with the cache's lock free. *)
Definition fs_ready (s : kst) (B : Z -> Z) (lk : option nat) : Prop :=
  ses s ∅ V L /\ k_locks s !! LIcache = None /\ icache_rep s B lk.

(** Slot [i] holds inode [n]. *)
Definition refers (s : kst) (i : nat) (n : Z) : Prop := 0 < i_ref (slot s i) /\ i_inum (slot s i) = n.

Definition bump (n d : Z) (B : Z -> Z) : Z -> Z := fun m => if m =? n then B m + d else B m.

Lemma slot_len s i : 0 < i_ref (slot s i) -> (i < length (k_icache s))%nat.
Proof using Type.
  intros H. destruct (decide (i < length (k_icache s))%nat); [done|]. rewrite list_lookup_total_alt, lookup_ge_None_2 in H by (by apply Nat.nlt_ge). done.
Qed.

(** A slot is free when fewer inodes than slots are referred to. *)
Lemma icache_free s B lk U : icache_rep s B lk -> (forall n, B n <> 0 -> n ∈ U) -> (length U < NINODE)%nat ->
  exists i, (i < NINODE)%nat /\ i_ref (slot s i) = 0.
Proof.
  intros Hic HU Hlen. destruct (decide (Exists (fun i => i_ref (slot s i) = 0) (seq 0 NINODE))) as [(i & Hi & H0)%Exists_exists|Hno].
  { apply elem_of_seq in Hi. exists i. split; [lia|done]. }
  exfalso. assert (Hpos : forall i, (i < NINODE)%nat -> 0 < i_ref (slot s i)).
  { intros i Hi. pose proof (ic_pos _ _ _ Hic i). destruct (decide (i_ref (slot s i) = 0)); [|lia]. destruct Hno. apply Exists_exists.
    exists i. split; [|done]. apply elem_of_seq. lia. }
  set (l := (fun i => i_inum (slot s i)) <$> seq 0 NINODE).
  assert (Hnd : NoDup l).
  { apply NoDup_fmap_2_strong; [|apply NoDup_seq]. intros i j Hi%elem_of_seq Hj%elem_of_seq E.
    apply (ic_uniq _ _ _ Hic); [apply Hpos; lia..|done]. }
  assert (Hsub : l ⊆ U).
  { intros n (i & -> & Hi%elem_of_seq)%list_elem_of_fmap. apply HU. destruct (ic_refs _ _ _ Hic i (Hpos i ltac:(lia))) as [_ ->].
    pose proof (Hpos i ltac:(lia)). lia. }
  pose proof (sub_length l U Hnd Hsub) as Hl. unfold l in Hl. rewrite length_fmap, length_seq in Hl. lia.
Qed.

(** The end of a critical section of the cache, in which processes may have
    been woken. *)
Lemma leave_icache_frame s s2 f (Q : unit -> kst -> Prop) : ses s ∅ V L -> k_locks s !! LIcache = None ->
  ctx (acquired LIcache s) s2 -> sched_frame (set_icache f (acquired LIcache s)) s2 -> procs_same s s2 ->
  (forall s', ses s' ∅ V L -> k_locks s' !! LIcache = None -> k_icache s' = f (k_icache s) -> iframe s s' -> Q tt s') ->
  wp (release LIcache) Q s2.
Proof.
  intros Hs Hl Hc2 Hf2 Hps HQ. pose proof (tx_quiet _ _ _ (se_txn _ _ _ _ _ _ Hs)) as [Hok Hb Hp].
  apply (wp_release_ctx _ _ s); [done..|]. intros Hc.
  assert (Hq : quiet (released LIcache s2)) by (split; [by eapply ctx_cpu_ok|by rewrite (ctx_locks _ _ Hc)..]).
  unfold sched_frame in Hf2. revert Hc Hq Hps. rewrite Hf2. generalize (k_cpu s2), (k_locks s2), (k_procs s2). clear s2 Hc2 Hf2.
  intros c l ps Hc Hq Hps. apply HQ.
  - destruct Hs as [Htx ? ? ? ?]. constructor; try done. by apply (txn_ext s).
  - by rewrite (ctx_locks _ _ Hc).
  - done.
  - constructor; try done; [by destruct Hc; constructor|]. exists []. by rewrite app_nil_r.
Qed.

Lemma leave_icache s f (Q : unit -> kst -> Prop) : ses s ∅ V L -> k_locks s !! LIcache = None ->
  (forall s', ses s' ∅ V L -> k_locks s' !! LIcache = None -> k_icache s' = f (k_icache s) -> iframe s s' -> Q tt s') ->
  wp (release LIcache) Q (set_icache f (acquired LIcache s)).
Proof. intros Hs Hl HQ. apply (leave_icache_frame s _ f); [done..|by apply ctx_same|by destruct s|done|done]. Qed.

Lemma slot_alter g i (ic : list inode) j : (i < length ic)%nat ->
  alter g i ic !!! j = if decide (j = i) then g (ic !!! i) else ic !!! j.
Proof. apply lookup_total_alter. Qed.

(** One more reference to an inode in the cache. *)
Lemma rep_more s s' B lk i n : icache_rep s B lk -> refers s i n -> k_icache s' = alter (set_iref (fun r => r + 1)) i (k_icache s) ->
  icache_rep s' (bump n 1 B) lk.
Proof.
  intros [H1 H2 H3 H4 H5 H6 H7 H8] [Hr Hn] E. pose proof (slot_len s i Hr) as Hi.
  assert (Hs : forall j, slot s' j = if decide (j = i) then set_iref (fun r => r + 1) (slot s i) else slot s j)
    by (intros j; rewrite E; by apply slot_alter).
  assert (Hp : forall j, 0 < i_ref (slot s' j) -> 0 < i_ref (slot s j)) by (intros j; rewrite Hs; case_decide; [by subst|done]).
  assert (Hnum : forall j, i_inum (slot s' j) = i_inum (slot s j)) by (intros j; rewrite Hs; case_decide; [by subst|done]).
  split.
  - by rewrite E, length_alter.
  - intros j. rewrite Hs. case_decide; [cbn; lia|apply H2].
  - intros j Hj%Hp. destruct (H3 j Hj) as [Hd HB]. rewrite Hnum. unfold bump. rewrite Hs. case_decide as Hji; [subst j|].
    + cbn. destruct (Z.eqb_spec (i_inum (slot s i)) n); [split; [done|lia]|done].
    + destruct (Z.eqb_spec (i_inum (slot s j)) n) as [E1|]; [|done]. destruct Hji. apply (H4 j i); [done..|congruence].
  - intros j k Hj%Hp Hk%Hp. rewrite !Hnum. by apply H4.
  - intros m Hm. unfold bump in Hm. destruct (Z.eqb_spec m n) as [Em|_].
    + exists i. rewrite Hs, decide_True by done. cbn. split; [lia|congruence].
    + destruct (H5 m Hm) as (j & Hj & Hjm). exists j. rewrite Hnum. split; [|done]. rewrite Hs. case_decide; [cbn; lia|done].
  - intros j ->. specialize (H6 j eq_refl). rewrite Hs. case_decide; [cbn; lia|done].
  - intros j Hj%Hp. specialize (H7 j Hj). rewrite Hs. by destruct (decide (j = i)) as [->|].
  - intros j Hj%Hp. specialize (H8 j Hj). rewrite Hnum, Hs. by destruct (decide (j = i)) as [->|].
Qed.

(** A reference to an inode that was not in the cache, in a free slot. *)
Lemma rep_new s s' B lk i n : icache_rep s B lk -> (i < NINODE)%nat -> i_ref (slot s i) = 0 -> B n = 0 ->
  k_icache s' = alter (fun p => set_iflags (fun _ => 0) (set_iref (fun _ => 1) (set_inum (fun _ => n) (set_idev (fun _ => ROOTDEV) p)))) i (k_icache s) ->
  icache_rep s' (bump n 1 B) lk.
Proof.
  intros [H1 H2 H3 H4 H5 H6 H7 H8] Hi Hr HB E. set (g := fun p => _) in E.
  assert (Hs : forall j, slot s' j = if decide (j = i) then g (slot s i) else slot s j) by (intros j; rewrite E; apply slot_alter; lia).
  assert (Hx : forall j, 0 < i_ref (slot s j) -> i_inum (slot s j) <> n).
  { intros j Hj Hn. destruct (H3 j Hj) as [_ H]. rewrite Hn in H. lia. }
  split.
  - by rewrite E, length_alter.
  - intros j. rewrite Hs. case_decide; [done|apply H2].
  - intros j. rewrite Hs. unfold bump. case_decide as Hji; [subst j|].
    + intros _. cbn. rewrite Z.eqb_refl. split; [done|lia].
    + intros Hj. rewrite (proj2 (Z.eqb_neq _ _)) by auto. by apply H3.
  - intros j k. rewrite !Hs. repeat case_decide; subst; try done; [| |by apply H4]; cbn; intros Hj Hk Hn; exfalso; [by apply (Hx k)|by apply (Hx j)].
  - intros m Hm. unfold bump in Hm. destruct (Z.eqb_spec m n) as [Em|_].
    + exists i. by rewrite Hs, decide_True, Em by done.
    + destruct (H5 m Hm) as (j & Hj & Hjm). exists j. rewrite Hs, decide_False; [done|]. intros ->. lia.
  - intros j ->. specialize (H6 j eq_refl). rewrite Hs, decide_False; [done|]. intros ->. lia.
  - intros j. rewrite Hs. destruct (decide (j = i)) as [->|]; [|apply H7]. intros _. rewrite bool_decide_false; [by vm_compute|]. intros ->.
    specialize (H6 i eq_refl). lia.
  - intros j. rewrite Hs. destruct (decide (j = i)) as [->|]; [done|apply H8].
Qed.

(** A reference given back. *)
Lemma rep_less s s' B lk i n : icache_rep s B lk -> refers s i n -> (lk = Some i -> 1 < i_ref (slot s i)) ->
  k_icache s' = alter (set_iref (fun r => r - 1)) i (k_icache s) -> icache_rep s' (bump n (-1) B) lk.
Proof.
  intros [H1 H2 H3 H4 H5 H6 H7 H8] [Hr Hn] Hlk E. pose proof (slot_len s i Hr) as Hi.
  assert (Hs : forall j, slot s' j = if decide (j = i) then set_iref (fun r => r - 1) (slot s i) else slot s j)
    by (intros j; rewrite E; by apply slot_alter).
  assert (Hp : forall j, 0 < i_ref (slot s' j) -> 0 < i_ref (slot s j)) by (intros j; rewrite Hs; destruct (decide (j = i)) as [->|]; done).
  assert (Hnum : forall j, i_inum (slot s' j) = i_inum (slot s j)) by (intros j; rewrite Hs; by destruct (decide (j = i)) as [->|]).
  destruct (H3 i Hr) as [_ HBn]. rewrite Hn in HBn. split.
  - by rewrite E, length_alter.
  - intros j. rewrite Hs. destruct (decide (j = i)) as [->|]; [cbn; lia|apply H2].
  - intros j Hj%Hp. destruct (H3 j Hj) as [Hd HB]. rewrite Hnum. unfold bump. rewrite Hs. destruct (decide (j = i)) as [->|Hji].
    + cbn. rewrite Hn, Z.eqb_refl. split; [done|lia].
    + destruct (Z.eqb_spec (i_inum (slot s j)) n) as [E1|]; [|done]. destruct Hji. apply (H4 j i); [done..|congruence].
  - intros j k Hj%Hp Hk%Hp. rewrite !Hnum. by apply H4.
  - intros m Hm. unfold bump in Hm. destruct (Z.eqb_spec m n) as [Em|Em].
    + exists i. rewrite Hs, decide_True by done. cbn. rewrite Em in Hm. split; [lia|congruence].
    + destruct (H5 m Hm) as (j & Hj & Hjm). exists j. rewrite Hnum, Hs, decide_False by congruence. done.
  - intros j Hj. rewrite Hs. destruct (decide (j = i)) as [->|]; [specialize (Hlk Hj); cbn; lia|by apply H6].
  - intros j Hj%Hp. specialize (H7 j Hj). rewrite Hs. by destruct (decide (j = i)) as [->|].
  - intros j Hj%Hp. specialize (H8 j Hj). rewrite Hnum, Hs. by destruct (decide (j = i)) as [->|].
Qed.

(** A change of an inode's flags or contents. *)
Lemma rep_same s s' B lk lk' i g : icache_rep s B lk -> 0 < i_ref (slot s i) -> k_icache s' = alter g i (k_icache s) ->
  i_ref (g (slot s i)) = i_ref (slot s i) -> i_inum (g (slot s i)) = i_inum (slot s i) -> i_dev (g (slot s i)) = i_dev (slot s i) ->
  has (i_flags (g (slot s i))) I_BUSY = bool_decide (lk' = Some i) -> (forall j, j <> i -> lk = Some j <-> lk' = Some j) ->
  (has (i_flags (g (slot s i))) I_VALID = true -> dinode_of (g (slot s i)) = disk_inode V (i_inum (slot s i))) ->
  icache_rep s' B lk'.
Proof.
  intros [H1 H2 H3 H4 H5 H6 H7 H8] Hr E Er En Ed Eb Elk Ev. pose proof (slot_len s i Hr) as Hi.
  assert (Hs : forall j, slot s' j = if decide (j = i) then g (slot s i) else slot s j) by (intros j; rewrite E; by apply slot_alter).
  assert (Href : forall j, i_ref (slot s' j) = i_ref (slot s j)) by (intros j; rewrite Hs; by destruct (decide (j = i)) as [->|]).
  assert (Hnum : forall j, i_inum (slot s' j) = i_inum (slot s j)) by (intros j; rewrite Hs; by destruct (decide (j = i)) as [->|]).
  assert (Hdev : forall j, i_dev (slot s' j) = i_dev (slot s j)) by (intros j; rewrite Hs; by destruct (decide (j = i)) as [->|]).
  split.
  - by rewrite E, length_alter.
  - intros j. by rewrite Href.
  - intros j. rewrite Href, Hnum, Hdev. apply H3.
  - intros j k. rewrite !Href, !Hnum. apply H4.
  - intros m Hm. destruct (H5 m Hm) as (j & Hj). exists j. by rewrite Href, Hnum.
  - intros j Hj. rewrite Href. destruct (decide (j = i)) as [->|Hne]; [done|]. apply H6. by apply Elk.
  - intros j. rewrite Href. intros Hj. specialize (H7 j Hj). rewrite Hs. destruct (decide (j = i)) as [->|Hne]; [done|].
    rewrite H7. apply bool_decide_ext. by apply Elk.
  - intros j. rewrite Href. intros Hj. specialize (H8 j Hj). rewrite Hnum, Hs. by destruct (decide (j = i)) as [->|Hne].
Qed.

(** ** The operations of the cache *)

Lemma iframe_locks s s' : iframe s s' -> k_locks s' = k_locks s.
Proof. intros H. by rewrite (ctx_locks _ _ (lf_ctx _ _ H)). Qed.

Lemma find_seq (f : nat -> bool) n i : List.find f (seq 0 n) = Some i -> (i < n)%nat /\ f i = true.
Proof. intros [Hi Hf]%find_some. apply in_seq in Hi. split; [lia|done]. Qed.

Lemma wp_iget s B lk n U : fs_ready s B lk -> (forall m, B m <> 0 -> m ∈ U) -> (length U < NINODE)%nat ->
  wp (iget ROOTDEV n) (fun i s' => fs_ready s' (bump n 1 B) lk /\ refers s' i n /\ iframe s s' /\
    (forall j m, refers s j m -> refers s' j m)) s.
Proof.
  intros (Hs & Hl & Hic) HU HUl. unfold iget, seti. kstep. apply wp_acquire; [done|]. kstep. cbn [k_icache acquired set_locks set_cpu].
  destruct (List.find _ _) as [i|] eqn:Ef.
  - apply find_seq in Ef as [Hi Hf]. rewrite !andb_true_iff, Z.ltb_lt, !Z.eqb_eq in Hf. destruct Hf as [[Hr Hd] Hn].
    kstep. apply leave_icache; [done..|]. intros s' Hs' Hl' Hic' Hf'. kstep.
    assert (Href : forall j m, refers s j m -> refers s' j m).
    { intros j m [Hj Hm]. split; rewrite Hic', slot_alter by (by apply slot_len); destruct (decide (j = i)) as [->|]; cbn; (lia || done). }
    split; [split; [done|]; split; [done|]; by apply (rep_more s s' B lk i n)|]. split; [by apply Href|by split].
  - assert (HB : B n = 0).
    { destruct (decide (B n = 0)); [done|]. destruct (ic_all _ _ _ Hic n) as (i & Hr & Hn); [done|].
      apply (find_none _ _) with (x := i) in Ef; [|apply in_seq; pose proof (slot_len s i Hr); rewrite (ic_len _ _ _ Hic) in *; lia].
      rewrite (proj2 (Z.ltb_lt _ _) Hr), (proj1 (ic_refs _ _ _ Hic i Hr)), Hn, !Z.eqb_refl in Ef. done. }
    destruct (icache_free s B lk U Hic HU HUl) as (i0 & Hi0 & Hr0). destruct (List.find (fun i => i_ref _ =? 0) _) as [i|] eqn:Eg.
    2: { apply (find_none _ _) with (x := i0) in Eg; [|apply in_seq; lia]. by rewrite Hr0 in Eg. }
    apply find_seq in Eg as [Hi Hr%Z.eqb_eq]. kstep.
    apply (leave_icache s (fun ic => alter (set_iflags (fun _ => 0)) i (alter (set_iref (fun _ => 1)) i
      (alter (set_inum (fun _ => n)) i (alter (set_idev (fun _ => ROOTDEV)) i ic))))); [done..|].
    intros s' Hs' Hl' Hic' Hf'. kstep. rewrite !list_alter_alter in Hic'.
    split; [split; [done|]; split; [done|]; by apply (rep_new s s' B lk i n)|].
    assert (Hsl : forall j, slot s' j = if decide (j = i) then _ else slot s j)
      by (intros j; rewrite Hic'; apply slot_alter; rewrite (ic_len _ _ _ Hic); lia).
    split; [|split; [done|]].
    + split; rewrite Hsl, decide_True by done; done.
    + intros j m [Hj Hm]. split; rewrite Hsl, decide_False; try done; intros ->; lia.
Qed.

Lemma iflags_busy fl : has (setf fl I_BUSY) I_BUSY = true /\ has (setf fl I_BUSY) I_VALID = has fl I_VALID /\
  has (clrf fl I_BUSY) I_BUSY = false /\ has (clrf fl I_BUSY) I_VALID = has fl I_VALID.
Proof. unfold I_BUSY, I_VALID. rewrite !has_testbit, !setf_testbit, !clrf_testbit by lia. cbn. by rewrite !orb_true_r, !orb_false_r, !andb_false_r, !andb_true_r. Qed.

Lemma iflags_valid fl : has (setf fl I_VALID) I_VALID = true /\ has (setf fl I_VALID) I_BUSY = has fl I_BUSY.
Proof. unfold I_BUSY, I_VALID. rewrite !has_testbit, !setf_testbit by lia. cbn. by rewrite !orb_true_r, !orb_false_r. Qed.

(** The part of [ilock] that reads the inode. *)
Definition iload (i : nat) : K unit :=
  ip <- geti i ;;
  bp <- bread (i_dev ip) (IBLOCK (i_inum ip)) ;;
  d <- getdata bp ;;
  seti i (load_dinode (dinode_dec (slice d (dip_off (i_inum ip)) 64))) ;;
  brelse bp ;;
  seti i (set_iflags (fun fl => setf fl I_VALID)).

Lemma wp_iload s B i n : fs_ready s B (Some i) -> refers s i n -> 0 <= n < sb_ninodes sb ->
  wp (iload i) (fun _ s' => fs_ready s' B (Some i) /\ refers s' i n /\ dinode_of (slot s' i) = disk_inode V n /\
    iframe s s' /\ (forall j m, refers s j m -> refers s' j m)) s.
Proof.
  intros (Hs & Hl & Hic) [Hr Hn] Hrange. pose proof (slot_len s i Hr) as Hi. destruct (iblock_range st sb geo n Hrange) as (_ & Hib & _).
  unfold iload, geti, seti. kstep. rewrite (proj1 (ic_refs _ _ _ Hic i Hr)), Hn.
  eapply ses_bread; [done|lia|set_solver|by rewrite size_empty|]. intros j s1 Hh Hs1 Hf1 _. kstep. eapply ses_getdata; [done|done|lia|].
  kstep. eapply (ses_brelse st sz _ ({[IBLOCK n]} ∪ ∅) V L j (IBLOCK n)); [by apply ses_set_icache|by apply holds_set_icache|].
  intros s2 Hs2 Hf2 _. kstep. replace (({[IBLOCK n]} ∪ ∅) ∖ {[IBLOCK n]} : gset Z) with (∅ : gset Z) in Hs2 by set_solver.
  set (s3 := set_icache _ s2).
  assert (E3 : k_icache s3 = alter (fun p => set_iflags (fun fl => setf fl I_VALID) (load_dinode (disk_inode V n) p)) i (k_icache s)).
  { cbn -[alter]. rewrite (lframe_icache _ _ Hf2). cbn -[alter]. by rewrite (lframe_icache _ _ Hf1), list_alter_alter. }
  assert (Hf3 : iframe s s3).
  { transitivity s1; [by apply lframe_iframe|]. etransitivity; [apply iframe_seti|]. etransitivity; [by apply lframe_iframe|apply iframe_seti]. }
  set (g := fun p => _) in E3.
  assert (Hsl : forall j, slot s3 j = if decide (j = i) then g (slot s i) else slot s j) by (intros k; rewrite E3; by apply slot_alter).
  assert (Href : forall j m, refers s j m -> refers s3 j m).
  { intros k m [Hk Hm]. split; rewrite Hsl; by destruct (decide (k = i)) as [->|]. }
  split; [split; [by apply ses_set_icache|split; [by rewrite (iframe_locks _ _ Hf3)|]]|split; [by apply Href|split; [|by split]]].
  - eapply (rep_same s s3 B (Some i) (Some i) i g); [done|done|done|done|done|done| |done|].
    + cbn. rewrite (proj2 (iflags_valid _)). by apply (ic_busy _ _ _ Hic).
    + intros _. rewrite Hn. unfold g. cbn. by destruct (disk_inode V n).
  - rewrite Hsl, decide_True by done. unfold g. cbn. by destruct (disk_inode V n).
Qed.

(** [ilock] loads the inode; the rest of the code sees what the disk has. *)
Lemma wp_ilock s B i n : fs_ready s B None -> refers s i n -> 0 <= n < sb_ninodes sb -> d_type (disk_inode V n) <> 0 ->
  wp (ilock i) (fun _ s' => fs_ready s' B (Some i) /\ refers s' i n /\ dinode_of (slot s' i) = disk_inode V n /\
    iframe s s' /\ (forall j m, refers s j m -> refers s' j m)) s.
Proof.
  intros (Hs & Hl & Hic) [Hr Hn] Hrange Hty. pose proof (slot_len s i Hr) as Hi.
  unfold ilock. unfold geti at 1 2 3, seti at 1. kstep. rewrite (proj2 (Z.ltb_ge _ _)) by lia. kstep. apply wp_acquire; [done|]. kstep.
  cbn [k_icache acquired set_locks set_cpu]. rewrite (ic_busy _ _ _ Hic i Hr), bool_decide_false by done. kstep.
  apply leave_icache; [done..|]. intros s1 Hs1 Hl1 Hic1 Hf1. kstep. destruct (iflags_busy (i_flags (slot s i))) as (Hb1 & Hb2 & _).
  assert (Hsl : forall j, slot s1 j = if decide (j = i) then set_iflags (fun fl => setf fl I_BUSY) (slot s i) else slot s j)
    by (intros j; rewrite Hic1; by apply slot_alter).
  assert (Href : forall j m, refers s j m -> refers s1 j m).
  { intros j m [Hj Hm]. split; rewrite Hsl; by destruct (decide (j = i)) as [->|]. }
  assert (Hv1 : has (i_flags (slot s1 i)) I_VALID = has (i_flags (slot s i)) I_VALID) by by rewrite Hsl, decide_True.
  assert (Hr1 : fs_ready s1 B (Some i)).
  { split; [done|]. split; [done|]. eapply (rep_same s s1 B None (Some i) i); [done..|by rewrite bool_decide_true| |].
    - intros j Hj. split; [done|congruence].
    - cbn. rewrite Hb2. by apply (ic_valid _ _ _ Hic). }
  rewrite Hv1. destruct (has (i_flags (slot s i)) I_VALID) eqn:Ev; cbn [negb].
  - kstep. split; [done|]. split; [by apply Href|]. split; [|by split]. rewrite Hsl, decide_True by done.
    rewrite <- Hn. by apply (ic_valid _ _ _ Hic).
  - assert (Hrest : wp (iload i ;; ip <- geti i ;; if i_type ip =? 0 then panic "ilock: no type" else ret tt)
      (fun _ s' => fs_ready s' B (Some i) /\ refers s' i n /\ dinode_of (slot s' i) = disk_inode V n /\
         iframe s s' /\ (forall j m, refers s j m -> refers s' j m)) s1).
    { kstep. eapply wp_mono; [by apply (wp_iload s1 B i n); [|apply Href|]|]. intros [] s2 (H1 & H2 & H3 & H4 & H5). unfold geti. kstep.
      rewrite (proj2 (Z.eqb_neq (i_type _) 0)) by (by rewrite <- H3 in Hty). kstep. split; [done|]. split; [done|]. split; [done|]. split; [by transitivity s1|]. intros j m Hj. by apply H5, Href. }
    revert Hrest. clear. unfold iload, geti, gets, wp, bind. destruct (bread _ _ s1) as [bp s2| | | | |]; try done.
    destruct (getdata bp s2) as [d s3| | | | |]; try done. unfold seti, modify. by destruct (brelse bp _).
Qed.

Lemma wp_iunlock s B i n : fs_ready s B (Some i) -> refers s i n ->
  wp (iunlock i) (fun _ s' => fs_ready s' B None /\ iframe s s' /\ (forall j m, refers s j m -> refers s' j m)) s.
Proof.
  intros (Hs & Hl & Hic) [Hr Hn]. pose proof (slot_len s i Hr) as Hi. pose proof (tx_quiet _ _ _ (se_txn _ _ _ _ _ _ Hs)) as [Hok Hb Hp].
  destruct (iflags_busy (i_flags (slot s i))) as (_ & _ & Hb1 & Hb2).
  unfold iunlock, geti, seti. kstep. rewrite (ic_busy _ _ _ Hic i Hr), bool_decide_true, (proj2 (Z.ltb_ge _ _)) by (done || lia). cbn [negb orb].
  kstep. apply wp_acquire; [done|]. kstep. apply wp_wakeup.
  { by apply cpu_ok_acquired. }
  { cbn. by rewrite lookup_insert_ne. }
  intros s1 Hc1 Hf1 Hp1 _. apply (leave_icache_frame s _ (alter (set_iflags (fun fl => clrf fl I_BUSY)) i)); [done|done| |done|done|].
  { etrans; [|exact Hc1]. by apply ctx_same. }
  intros s' Hs' Hl' Hic' Hf'.
  assert (Hsl : forall j, slot s' j = if decide (j = i) then set_iflags (fun fl => clrf fl I_BUSY) (slot s i) else slot s j)
    by (intros j; rewrite Hic'; by apply slot_alter).
  split; [|split; [done|]].
  - split; [done|]. split; [done|]. eapply (rep_same s s' B (Some i) None i); [done..| | |].
    + cbn. by rewrite Hb1, bool_decide_false.
    + intros j Hj. split; [congruence|done].
    + cbn. rewrite Hb2. by apply (ic_valid _ _ _ Hic).
  - intros j m [Hj Hm]. split; rewrite Hsl; by destruct (decide (j = i)) as [->|].
Qed.

(** [iput] of an inode with a directory entry. *)
Lemma wp_iput s B lk i n : fs_ready s B lk -> refers s i n -> (lk = Some i -> 1 < B n) -> d_nlink (disk_inode V n) <> 0 ->
  wp (iput i) (fun _ s' => fs_ready s' (bump n (-1) B) lk /\ iframe s s' /\
    (forall j m, refers s j m -> bump n (-1) B m <> 0 -> refers s' j m)) s.
Proof.
  intros (Hs & Hl & Hic) [Hr Hn] Hlk Hnl. pose proof (slot_len s i Hr) as Hi.
  unfold iput, geti, seti. kstep. apply wp_acquire; [done|]. kstep. cbn [k_icache acquired set_locks set_cpu].
  assert ((i_ref (slot s i) =? 1) && has (i_flags (slot s i)) I_VALID && (i_nlink (slot s i) =? 0) = false) as ->.
  { destruct (has (i_flags (slot s i)) I_VALID) eqn:Ev; [|by rewrite andb_false_r]. rewrite andb_false_iff. right. apply Z.eqb_neq.
    pose proof (ic_valid _ _ _ Hic i Hr Ev) as E. rewrite Hn in E. by rewrite <- E in Hnl. }
  kstep. apply leave_icache; [done..|]. intros s' Hs' Hl' Hic' Hf'.
  assert (Hrep : icache_rep s' (bump n (-1) B) lk).
  { apply (rep_less s s' B lk i n); [done..| |done]. intros E. destruct (ic_refs _ _ _ Hic i Hr) as [_ <-]. rewrite Hn. by apply Hlk. }
  split; [by split|]. split; [done|]. intros j m [Hj Hm] HB.
  assert (Hnum : i_inum (slot s' j) = m) by (rewrite Hic', slot_alter by done; by destruct (decide (j = i)) as [->|]).
  split; [|done]. rewrite Hic', slot_alter by done. destruct (decide (j = i)) as [->|]; [|done]. cbn.
  destruct (ic_refs _ _ _ Hic i Hr) as [_ H]. unfold bump in HB. rewrite Hm in H. rewrite (proj2 (Z.eqb_eq m n)) in HB by congruence. lia.
Qed.

(** ** Directories *)

(** The entries of a directory with contents [C]. *)
Definition dirents (C : bytes) : list dirent := (fun k => dirent_dec (slice C (16 * k) 16)) <$> seq 0 (length C / 16).

(** The entry is in use and has this name. *)
Definition names (name : bytes) (de : dirent) : bool :=
  negb (de_inum de =? 0) && bool_decide (cstr (take DIRSIZ name) = cstr (take DIRSIZ (de_name de))).
Definition dir_find (name C : bytes) : option Z := de_inum <$> List.find (names name) (dirents C).

Lemma rep_ext s s' B lk : k_icache s' = k_icache s -> icache_rep s B lk -> icache_rep s' B lk.
Proof. intros E []. split; by rewrite ?E. Qed.

Lemma ready_lframe s s' B lk : fs_ready s B lk -> lframe s s' -> ses s' ∅ V L -> fs_ready s' B lk.
Proof.
  intros (Hs & Hl & Hic) Hf Hs'. split; [done|]. split; [by rewrite (ctx_locks _ _ (lf_ctx _ _ Hf))|].
  by apply (rep_ext s); [apply lframe_icache|].
Qed.

Lemma refers_lframe s s' j m : lframe s s' -> refers s j m -> refers s' j m.
Proof. intros Hf. unfold refers. by rewrite (lframe_icache _ _ Hf). Qed.

(** Directory [n], locked in slot [dp]. *)
Record locked_dir (s : kst) (B : Z -> Z) (dp : nat) (n : Z) (C : bytes) : Prop := {
  ld_ready : fs_ready s B (Some dp);
  ld_refers : refers s dp n;
  ld_inode : dinode_of (slot s dp) = disk_inode V n;
  ld_type : d_type (disk_inode V n) = T_DIR;
  ld_disk : on_disk V n C;
  ld_whole : (length C mod 16 = 0)%nat
}.

Lemma locked_size s B dp n C : locked_dir s B dp n C -> i_size (slot s dp) = Z.of_nat (length C).
Proof. intros []. rewrite <- (od_size _ _ _ _ _ ld_disk0), <- ld_inode0. done. Qed.

Lemma locked_lframe s s' B dp n C : locked_dir s B dp n C -> lframe s s' -> ses s' ∅ V L -> locked_dir s' B dp n C.
Proof.
  intros [] Hf Hs'. split; [by eapply ready_lframe|by eapply refers_lframe| |done..]. by rewrite (lframe_icache _ _ Hf).
Qed.

(** Reading an entry. *)
Lemma wp_read_dirent s B dp n C k : locked_dir s B dp n C -> (16 * k + 16 <= length C)%nat ->
  wp (read_dirent dp (16 * Z.of_nat k)) (fun de s' => de = dirent_dec (slice C (16 * k) 16) /\ lframe s s' /\ ses s' ∅ V L) s.
Proof.
  intros Hd Hk. pose proof (locked_size _ _ _ _ _ Hd) as Hsz. destruct Hd as [(Hs & Hl & Hic) [Hr Hn] Hino Hty Hdisk Hw].
  assert (Hin : has_inode s dp (d_addrs (disk_inode V n))).
  { split; [by apply (ic_refs _ _ _ Hic)|]. by rewrite <- Hino. }
  assert (Ht : i_type (slot s dp) <> T_DEV) by (change (d_type (dinode_of (slot s dp)) <> T_DEV); by rewrite Hino, Hty).
  unfold read_dirent. kstep. replace (16 * Z.of_nat k) with (Z.of_nat (16 * k)) by lia.
  eapply wp_mono; [apply (readi_at st sz sb geo one_bitmap big_log small_disk s V L dp (d_addrs (disk_inode V n)) C (16 * k) DESZ); try done; [apply Hdisk|lia]|].
  intros r s' (-> & Hf & Hs'). change (Z.to_nat DESZ) with 16%nat. replace (16 `min` (length C - 16 * k))%nat with 16%nat by lia.
  change (Z.of_nat 16 =? DESZ) with true. kstep. done.
Qed.

Lemma dirents_at C k : (16 * k + 16 <= length C)%nat -> drop k (dirents C) = dirent_dec (slice C (16 * k) 16) :: drop (S k) (dirents C).
Proof.
  intros Hk. apply drop_S. unfold dirents. rewrite list_lookup_fmap, lookup_seq_lt; [done|].
  pose proof (Nat.div_mod_eq (length C) 16). pose proof (Nat.mod_upper_bound (length C) 16). lia.
Qed.

Lemma dir_length s B dp n C : locked_dir s B dp n C -> exists m, length C = (16 * m)%nat /\ (m <= 4480)%nat.
Proof.
  intros []. destruct ld_disk0 as [_ Hrep]. destruct (fr_blocks _ _ _ _ _ Hrep) as [_ Hmx _ _ _ _ _ _]. rewrite MAXFILE_val in Hmx.
  pose proof (nblk_range (Z.of_nat (length C)) ltac:(lia)). exists (length C / 16)%nat. pose proof (Nat.div_mod_eq (length C) 16). lia.
Qed.

(** What a lookup in a directory leaves. *)
Definition found (s : kst) (B : Z -> Z) (dp : nat) (o : option dirent) (r : option (nat * Z)) (s' : kst) : Prop :=
  iframe s s' /\ (forall j m, refers s j m -> refers s' j m) /\
  match o with
  | None => r = None /\ fs_ready s' B (Some dp) /\ lframe s s'
  | Some de => exists j off, r = Some (j, off) /\ fs_ready s' (bump (de_inum de) 1 B) (Some dp) /\ refers s' j (de_inum de)
  end.

Lemma found_later s s1 B dp o r s' : lframe s s1 -> found s1 B dp o r s' -> found s B dp o r s'.
Proof.
  intros Hf (H1 & H2 & H3). split; [|split].
  - transitivity s1; [by apply lframe_iframe|done].
  - intros j m Hj. by apply H2, (refers_lframe s).
  - destruct o; [done|]. destruct H3 as (-> & H3 & H4). split; [done|]. split; [done|]. by transitivity s1.
Qed.

Lemma wp_dirlookup_loop name U fuel s B dp n C k : locked_dir s B dp n C ->
  (forall m, B m <> 0 -> m ∈ U) -> (length U < NINODE)%nat -> (length C < 16 * (k + fuel))%nat -> (16 * k <= length C)%nat ->
  wp (dirlookup_loop dp name fuel (16 * Z.of_nat k)) (found s B dp (List.find (names name) (drop k (dirents C)))) s.
Proof.
  revert s k. induction fuel as [|fuel IH]; intros s k Hd HU HUl Hfuel Hk; [lia|].
  destruct (dir_length _ _ _ _ _ Hd) as (m & Hm & Hmax). unfold dirlookup_loop; fold dirlookup_loop. unfold geti at 1. kstep.
  rewrite (locked_size _ _ _ _ _ Hd). destruct (decide (k = m)) as [->|Hne].
  { rewrite (proj2 (Z.ltb_ge _ _)) by lia. kstep. rewrite drop_ge by (unfold dirents; rewrite length_fmap, length_seq, Hm, Nat.mul_comm, Nat.div_mul; lia).
    split; [done|]. split; [done|]. split; [done|]. split; [apply Hd|done]. }
  rewrite (proj2 (Z.ltb_lt _ _)) by lia. kstep. eapply wp_mono; [apply (wp_read_dirent s B dp n C k Hd); lia|].
  intros de s1 (Hde & Hf1 & Hs1). rewrite (dirents_at C k) by lia. rewrite <- Hde. cbn [List.find].
  pose proof (locked_lframe s s1 B dp n C Hd Hf1 Hs1) as Hd1. unfold names at 1.
  assert (Hnext : wp (dirlookup_loop dp name fuel (u32 (16 * Z.of_nat k + DESZ)))
    (found s B dp (List.find (names name) (drop (S k) (dirents C)))) s1).
  { unfold DESZ. rewrite u32_small by lia. replace (16 * Z.of_nat k + 16) with (16 * Z.of_nat (S k)) by lia.
    eapply wp_mono; [apply (IH s1 (S k) Hd1 HU HUl); lia|]. intros r s'. by apply found_later. }
  destruct (Z.eqb_spec (de_inum de) 0) as [|Hnz]; [done|]. cbn [negb andb].
  destruct (Z.eqb_spec (namecmp name (de_name de)) 0) as [Ecmp|Ecmp]; unfold namecmp in Ecmp; rewrite strncmp_eq in Ecmp;
    [rewrite bool_decide_true by done|rewrite bool_decide_false by done; done].
  unfold geti. kstep. destruct Hd1 as [Hr1 [Hp1 Hn1] ? ? ? ?]. rewrite (proj1 (ic_refs _ _ _ (proj2 (proj2 Hr1)) dp Hp1)).
  eapply wp_mono; [by apply (wp_iget s1 B (Some dp) (de_inum de) U)|]. intros j s2 (H1 & H2 & H3 & H4). kstep.
  apply (found_later s s1); [done|]. split; [done|]. split; [done|]. by exists j, (16 * Z.of_nat k).
Qed.

Lemma wp_dirlookup name U s B dp n C : locked_dir s B dp n C ->
  (forall m, B m <> 0 -> m ∈ U) -> (length U < NINODE)%nat ->
  wp (dirlookup dp name) (found s B dp (List.find (names name) (dirents C))) s.
Proof.
  intros Hd HU HUl. unfold dirlookup, geti. kstep. pose proof (locked_size _ _ _ _ _ Hd) as Hsz.
  assert (i_type (slot s dp) = T_DIR) as -> by (destruct Hd; by rewrite <- ld_type0, <- ld_inode0).
  rewrite Z.eqb_refl. cbn [negb]. destruct (dir_length _ _ _ _ _ Hd) as (m & Hm & Hmax).
  apply (wp_dirlookup_loop name U _ s B dp n C 0 Hd HU HUl); [|lia]. rewrite Hsz. unfold entries, DESZ.
  rewrite Hm, Nat2Z.inj_mul, Z.mul_comm, Z.div_mul by done. lia.
Qed.

(** ** The walk *)

(** The directories of the disk and what they name, by inode number. *)
Record tree_ok (F : gmap Z bytes) : Prop := {
  tr_inode : forall n C, F !! n = Some C ->
    0 <= n < sb_ninodes sb /\ d_type (disk_inode V n) <> 0 /\ d_nlink (disk_inode V n) <> 0;
  tr_dir : forall n C, F !! n = Some C -> d_type (disk_inode V n) = T_DIR -> on_disk V n C /\ (length C mod 16 = 0)%nat;
  tr_closed : forall n C name m, F !! n = Some C -> d_type (disk_inode V n) = T_DIR -> dir_find name C = Some m -> is_Some (F !! m)
}.

(** Following the words of a path from inode [n]. *)
Fixpoint follow (F : gmap Z bytes) (n : Z) (ws : list bytes) : option Z :=
  match ws with
  | [] => Some n
  | w :: ws => if d_type (disk_inode V n) =? T_DIR then m ← dir_find w (F !!! n); follow F m ws else None
  end.

(** The directory of the last word, and that word. *)
Fixpoint parent (F : gmap Z bytes) (n : Z) (ws : list bytes) : option (Z * bytes) :=
  match ws with
  | [] => None
  | w :: ws =>
    if d_type (disk_inode V n) =? T_DIR then
      match ws with [] => Some (n, take DIRSIZ w) | _ => m ← dir_find w (F !!! n); parent F m ws end
    else None
  end.

Lemma parent_cons F n w ws : parent F n (w :: ws) =
  if d_type (disk_inode V n) =? T_DIR then
    if bool_decide (ws = []) then Some (n, take DIRSIZ w) else m ← dir_find w (F !!! n); parent F m ws
  else None.
Proof. cbn [parent]. by destruct ws. Qed.

Lemma names_take w de : names (take DIRSIZ w) de = names w de.
Proof. unfold names. by rewrite take_take, Nat.min_id. Qed.

Lemma find_ext {A} (f g : A -> bool) l : (forall x, f x = g x) -> List.find f l = List.find g l.
Proof. intros H. induction l as [|x l IH]; [done|]. cbn. by rewrite H, IH. Qed.

Lemma ready_ext s B B' lk : (forall m, B' m = B m) -> fs_ready s B lk -> fs_ready s B' lk.
Proof.
  intros HB (Hs & Hl & []). split; [done|]. split; [done|]. split; try done.
  - intros i Hi. rewrite HB. by apply ic_refs0.
  - intros n. rewrite HB. apply ic_all0.
Qed.

Lemma wp_iunlockput s B i n : fs_ready s B (Some i) -> refers s i n -> d_nlink (disk_inode V n) <> 0 ->
  wp (iunlockput i) (fun _ s' => fs_ready s' (bump n (-1) B) None /\ iframe s s' /\
    (forall j m, refers s j m -> bump n (-1) B m <> 0 -> refers s' j m)) s.
Proof.
  intros Hs Hr Hn. unfold iunlockput. kstep. eapply wp_mono; [by apply (wp_iunlock s B i n)|]. intros [] s1 (H1 & H2 & H3).
  eapply wp_mono; [by apply (wp_iput s1 B None i n); [|apply H3| |]|]. intros [] s2 (H4 & H5 & H6). split; [done|].
  split; [by transitivity s1|]. intros j m Hj. by apply H6, H3.
Qed.

(** What a walk leaves: the inode found, with one more reference to it. *)
Definition resolved (s : kst) (B : Z -> Z) (o : option Z) (r : option nat) (s' : kst) : Prop :=
  iframe s s' /\
  match o with
  | None => r = None /\ fs_ready s' B None
  | Some m => exists i, r = Some i /\ refers s' i m /\ fs_ready s' (bump m 1 B) None
  end.

Lemma wp_idup B s i n : fs_ready s B None -> refers s i n ->
  wp (idup i) (fun r s' => r = i /\ fs_ready s' (bump n 1 B) None /\ refers s' i n /\ iframe s s') s.
Proof.
  intros (Hs & Hl & Hic) [Hr Hn]. pose proof (slot_len s i Hr) as Hi. unfold idup, seti. kstep. apply wp_acquire; [done|]. kstep.
  apply leave_icache; [done..|]. intros s' Hs' Hl' Hic' Hf'. kstep. split; [done|]. split; [split; [done|]; split; [done|]; by apply (rep_more s s' B None i n)|].
  split; [|done]. split; rewrite Hic', slot_alter, decide_True by done; [cbn; lia|done].
Qed.

Section walk.
Context (F : gmap Z bytes) (tree : tree_ok F).
Context (B : Z -> Z) (B_pos : forall m, 0 <= B m) (U : list Z) (BU : forall m, B m <> 0 -> m ∈ U) (U_room : (length U + 1 < NINODE)%nat).

Lemma bump_back n m : bump n (-1) (bump n 1 B) m = B m.
Proof. unfold bump. destruct (m =? n); lia. Qed.

Lemma bump_step n m k : bump n (-1) (bump m 1 (bump n 1 B)) k = bump m 1 B k.
Proof. unfold bump. destruct (k =? n), (k =? m); lia. Qed.

(** The walk ends at an inode that is not a directory, or has no such entry. *)
Lemma wp_give_up s0 s ip n (name : bytes) : iframe s0 s -> fs_ready s (bump n 1 B) (Some ip) -> refers s ip n -> d_nlink (disk_inode V n) <> 0 ->
  wp (iunlockput ip ;; ret (None : option nat, name)) (fun r s' => r = (None, name) /\ resolved s0 B None None s') s.
Proof.
  intros Hf Hs Hr Hn. kstep. eapply wp_mono; [by apply (wp_iunlockput s (bump n 1 B) ip n)|]. intros [] s' (H1 & H2 & _). kstep.
  split; [done|]. split; [by transitivity s|]. split; [done|]. eapply ready_ext; [|exact H1]. intros m. by rewrite bump_back.
Qed.

(** One step down: the lookup of a word in a locked directory. *)
Lemma wp_descend s0 s ip n C w (nm : bytes) (k : nat -> K (option nat * bytes)) Q :
  iframe s0 s -> fs_ready s (bump n 1 B) (Some ip) -> refers s ip n -> dinode_of (slot s ip) = disk_inode V n ->
  F !! n = Some C -> d_type (disk_inode V n) = T_DIR ->
  (forall m j s', dir_find w C = Some m -> is_Some (F !! m) -> iframe s0 s' -> fs_ready s' (bump m 1 B) None -> refers s' j m -> wp (k j) Q s') ->
  (forall s', dir_find w C = None -> resolved s0 B None None s' -> Q (None, nm) s') ->
  wp (r <- dirlookup ip (take DIRSIZ w) ;;
      match r with
      | None => iunlockput ip ;; ret (None, nm)
      | Some (next, _) => iunlockput ip ;; k next
      end) Q s.
Proof.
  intros Hf Hs Hr Hino HC Hdir Hk Hno. destruct (tr_inode F tree n C HC) as (_ & _ & Hnl). destruct (tr_dir F tree n C HC Hdir) as [Hdisk Hmod].
  kstep. eapply wp_mono; [apply (wp_dirlookup (take DIRSIZ w) (n :: U) s (bump n 1 B) ip n C); [by split| |cbn; lia]|].
  { intros m Hm. unfold bump in Hm. apply elem_of_cons. destruct (Z.eqb_spec m n) as [E|_]; [by left|]. right. by apply BU. }
  intros r s2 (Hf2 & Href2 & Hr2). rewrite (find_ext _ (names w)) in Hr2 by apply names_take.
  pose proof (tr_closed F tree n C w) as Hcl. unfold dir_find in *.
  destruct (List.find (names w) (dirents C)) as [de|]; cbn [fmap option_fmap option_map] in *.
  - destruct Hr2 as (j & off & -> & Hs2 & Hj). kstep.
    eapply wp_mono; [by apply (wp_iunlockput s2 (bump (de_inum de) 1 (bump n 1 B)) ip n); [|apply Href2|]|]. intros [] s3 (Hs3 & Hf3 & Href3).
    assert (Hb : forall k, bump (de_inum de) 1 B k = bump n (-1) (bump (de_inum de) 1 (bump n 1 B)) k) by (intros; by rewrite bump_step).
    apply (Hk (de_inum de)); [done|by apply Hcl| |by eapply ready_ext|].
    + transitivity s2; [|done]. by transitivity s.
    + apply Href3; [done|]. rewrite <- Hb. unfold bump. rewrite Z.eqb_refl. specialize (B_pos (de_inum de)). lia.
  - destruct Hr2 as (-> & Hs2 & _). eapply wp_mono; [apply (wp_give_up s0 s2 ip n nm); [by transitivity s|done|by apply Href2|done]|].
    intros r s' [-> Hres]. by apply Hno.
Qed.

Lemma resolved_later s s1 o r s' : iframe s s1 -> resolved s1 B o r s' -> resolved s B o r s'.
Proof. intros Hf [H1 H2]. split; [by transitivity s1|done]. Qed.

Lemma wp_namex_loop fuel s ip n path name : fs_ready s (bump n 1 B) None -> refers s ip n -> is_Some (F !! n) -> (length path <= fuel)%nat ->
  wp (namex_loop fuel ip path false name) (fun r => resolved s B (follow F n (components path)) r.1) s.
Proof.
  revert s ip n path name. induction fuel as [|fuel IH]; intros s ip n path name Hs Hr [C HC] Hlen; cbn [namex_loop];
    pose proof (skipelem_components path) as Hsk; destruct (skipelem path) as [[rest nm]|]; try (destruct Hsk as (w & -> & -> & Hlr); lia).
  1, 3: rewrite Hsk; kstep; split; [done|]; by exists ip.
  destruct Hsk as (w & -> & -> & Hlr). cbn [follow]. destruct (tr_inode F tree n C HC) as (Hrange & Hty & Hnl).
  kstep. eapply wp_mono; [by apply (wp_ilock s (bump n 1 B) ip n)|]. intros [] s1 (Hs1 & Hr1 & Hino & Hf1 & _). unfold geti at 1. kstep.
  replace (i_type (slot s1 ip)) with (d_type (disk_inode V n)) by by rewrite <- Hino.
  destruct (Z.eqb_spec (d_type (disk_inode V n)) T_DIR) as [Hdir|Hnd]; cbn [negb andb].
  2: { eapply wp_mono; [by apply (wp_give_up s s1 ip n)|]. by intros r s' [-> Hres]. }
  rewrite (lookup_total_correct _ _ _ HC). apply (wp_descend s s1 ip n C w); [done..| |].
  - intros m j s' -> Hm Hf Hs' Hj. eapply wp_mono; [apply (IH s' j m rest); [done..|lia]|]. intros r s2. by apply resolved_later.
  - by intros s' ->.
Qed.

Lemma wp_namex_loop_parent fuel s ip n path name : fs_ready s (bump n 1 B) None -> refers s ip n -> is_Some (F !! n) -> (length path <= fuel)%nat ->
  wp (namex_loop fuel ip path true name) (fun r s' => resolved s B (fst <$> parent F n (components path)) r.1 s' /\
    forall m w, parent F n (components path) = Some (m, w) -> r.2 = w) s.
Proof.
  revert s ip n path name. induction fuel as [|fuel IH]; intros s ip n path name Hs Hr [C HC] Hlen; cbn [namex_loop];
    pose proof (skipelem_components path) as Hsk; pose proof (skipelem_rest path) as Hrest;
    destruct (tr_inode F tree n C HC) as (Hrange & Hty & Hnl);
    destruct (skipelem path) as [[rest nm]|]; try (destruct Hsk as (w & -> & -> & Hlr); lia).
  1, 3: rewrite Hsk; kstep; (eapply wp_mono; [by apply (wp_iput s (bump n 1 B) None ip n)|]); intros [] s' (H1 & H2 & _); kstep;
    (split; [|done]); (split; [done|]); (split; [done|]); (eapply ready_ext; [|exact H1]); intros m; by rewrite bump_back.
  specialize (Hrest rest nm eq_refl). destruct Hsk as (w & -> & -> & Hlr).
  kstep. eapply wp_mono; [by apply (wp_ilock s (bump n 1 B) ip n)|]. intros [] s1 (Hs1 & Hr1 & Hino & Hf1 & _). unfold geti at 1. kstep.
  replace (i_type (slot s1 ip)) with (d_type (disk_inode V n)) by by rewrite <- Hino.
  rewrite parent_cons. destruct (Z.eqb_spec (d_type (disk_inode V n)) T_DIR) as [Hdir|Hnd]; cbn [negb andb].
  2: { eapply wp_mono; [by apply (wp_give_up s s1 ip n)|]. by intros r s' [-> Hres]. }
  destruct (Z.eqb_spec (chr rest) 0) as [Hz|Hz].
  { rewrite bool_decide_true by by apply Hrest. kstep. eapply wp_mono; [by apply (wp_iunlock s1 (bump n 1 B) ip n)|].
    intros [] s2 (Hs2 & Hf2 & Href2). kstep. split; [|by intros m w' [= <- <-]]. split; [by transitivity s1|]. exists ip. cbn. split; [done|].
    split; [by apply Href2|done]. }
  rewrite bool_decide_false by (by rewrite <- Hrest). rewrite (lookup_total_correct _ _ _ HC). apply (wp_descend s s1 ip n C w); [done..| |].
  - intros m j s' -> Hm Hf Hs' Hj. eapply wp_mono; [apply (IH s' j m rest); [done..|lia]|]. intros r s2 [H1 H2]. split; [by apply (resolved_later s s')|done].
  - by intros s' ->.
Qed.
End walk.

(** The inode a path starts from: the root, or the directory of the process. *)
Definition starts_at (s : kst) (path : bytes) (n : Z) : Prop :=
  if chr path =? SLASH then n = ROOTINO
  else exists i c, c_proc (k_cpu s) = Some i /\ p_cwd (k_procs s !!! i) = Some c /\ refers s c n.

Lemma rep_nonneg s B lk m : icache_rep s B lk -> 0 <= B m.
Proof.
  intros Hic. destruct (decide (B m = 0)) as [->|Hm]; [done|]. destruct (ic_all _ _ _ Hic m Hm) as (i & Hr & <-).
  destruct (ic_refs _ _ _ Hic i Hr) as [_ ->]. lia.
Qed.

(** The start of a walk: a reference to where it starts. *)
Lemma wp_start F s B U path n (par : bool) Q : tree_ok F -> fs_ready s B None -> (forall m, B m <> 0 -> m ∈ U) -> (length U + 1 < NINODE)%nat ->
  starts_at s path n ->
  (forall ip s1, fs_ready s1 (bump n 1 B) None -> refers s1 ip n -> iframe s s1 -> wp (namex_loop (length path) ip path par []) Q s1) ->
  wp (namex path par) Q s.
Proof.
  intros Ht Hs HU HUl Hst HQ. unfold namex, starts_at in *. destruct (chr path =? SLASH).
  - subst n. kstep. eapply wp_mono; [apply (wp_iget s B None ROOTINO U Hs HU); lia|]. intros ip s1 (H1 & H2 & H3 & _). by apply HQ.
  - destruct Hst as (i & c & Hi & Hc & Hr). unfold myproc, getp. kstep. rewrite Hi. kstep. rewrite Hc.
    eapply wp_mono; [by apply (wp_idup B s c n)|]. intros ip s1 (-> & H1 & H2 & H3). by apply HQ.
Qed.

(** C4. Path names. On a disk whose directories make up [F], with the inode
    cache holding the references [B] and two free slots: [namei] follows the
    words of the path from the root or from the process's directory. If they
    lead to inode [m] it returns [m] with one more reference to it, and 0
    otherwise; in both cases every other count of references is as before, no
    inode is left locked and nothing is written. [nameiparent] does the same for
    all words but the last, which it returns. *)
Theorem namei_resolves F s B U path n : tree_ok F -> fs_ready s B None -> (forall m, B m <> 0 -> m ∈ U) -> (length U + 2 <= NINODE)%nat ->
  starts_at s path n -> is_Some (F !! n) ->
  wp (namei path) (resolved s B (follow F n (components path))) s /\
  wp (nameiparent path) (fun r s' => resolved s B (fst <$> parent F n (components path)) r.1 s' /\
    forall m w, parent F n (components path) = Some (m, w) -> r.2 = w) s.
Proof.
  intros Ht Hs HU HUl Hst HF. assert (HB : forall m, 0 <= B m) by (intros m; by apply (rep_nonneg s B None), Hs). split.
  - unfold namei. kstep. apply (wp_start F s B U path n); [done..|lia|done|]. intros ip s1 Hs1 Hr1 Hf1.
    eapply wp_mono; [by apply (wp_namex_loop F Ht B HB U HU ltac:(lia) _ s1 ip n)|]. intros [r w] s' Hres. kstep. by apply (resolved_later B s s1).
  - unfold nameiparent. apply (wp_start F s B U path n); [done..|lia|done|]. intros ip s1 Hs1 Hr1 Hf1.
    eapply wp_mono; [by apply (wp_namex_loop_parent F Ht B HB U HU ltac:(lia) _ s1 ip n)|]. intros r s' [Hres Hw].
    split; [by apply (resolved_later B s s1)|done].
Qed.
End dirs.
