(* ===== verification/FsLink.v ===== *)
(** * Adding a name to a directory ([dirlink] in kernel/fs.c)

    [dirlink] puts an entry into the first slot of a directory that is not in
    use, or at its end. The theorem gives the directory afterwards, on the
    contents of the disk and in terms of the names that are found in it. *)

From stdpp Require Import prelude gmap strings.
From S2P Require Import Prelude Kernel Spinlock Sched Bio Cache Log LogCrash StringC Fs FsLayout FsBlock FsFile FsRw FsCrash FsDir.

(** ** Entries *)

Definition new_entry (name : bytes) (inum : Z) : bytes := dirent_enc (Dirent inum (strncpy name DIRSIZ)).

(** The slot [dirlink] takes. *)
Definition free_entry (C : bytes) : nat :=
  match list_find (fun de => de_inum de = 0) (dirents C) with Some (k, _) => k | None => length (dirents C) end.

(** The directory with the entry added. *)
Definition linked (C name : bytes) (inum : Z) : bytes := splice C (16 * free_entry C) (new_entry name inum).

Lemma length_new_entry name inum : length (new_entry name inum) = 16%nat.
Proof. unfold new_entry, dirent_enc. cbn [de_inum de_name]. by rewrite length_app, length_le_bytes, strncpy_length. Qed.

Lemma length_dirents C : length (dirents C) = (length C / 16)%nat.
Proof. unfold dirents. by rewrite length_fmap, length_seq. Qed.

Lemma dirents_lookup C k : dirents C !! k = if decide (k < length C / 16)%nat then Some (dirent_dec (slice C (16 * k) 16)) else None.
Proof.
  unfold dirents. rewrite list_lookup_fmap. case_decide; [by rewrite lookup_seq_lt|]. by rewrite lookup_seq_ge by lia.
Qed.

Lemma free_entry_le C : (free_entry C <= length C / 16)%nat.
Proof.
  unfold free_entry. destruct (list_find _ _) as [[k de]|] eqn:E; [|by rewrite length_dirents].
  apply list_find_Some in E as (Hk%lookup_lt_Some & _). rewrite length_dirents in Hk. lia.
Qed.

(** Reading back a write inside a list or at its end. *)
Lemma slice_splice_at {A} (l : list A) o bs : (o <= length l)%nat -> slice (splice l o bs) o (length bs) = bs.
Proof.
  intros. unfold splice. rewrite slice_app_r by len. rewrite slice_app_l by len.
  replace (o - length (take o l))%nat with O by len. apply slice_full.
Qed.

Lemma slice_splice_apart {A} (l : list A) o bs o' n : (o <= length l)%nat -> (o' + n <= o \/ o + length bs <= o')%nat ->
  slice (splice l o bs) o' n = slice l o' n.
Proof.
  intros Hl [Hlt|Hge]; unfold splice.
  - rewrite slice_app_l by len. unfold slice. rewrite <- (take_drop o l) at 2. rewrite drop_app_le by len. by rewrite take_app_le by len.
  - rewrite app_assoc, slice_app_r by len. unfold slice. rewrite drop_drop. f_equal. f_equal. len.
Qed.

(** The entries of a directory with the entry in slot [k] replaced or added. *)
Lemma dirents_linked C name inum k : (length C mod 16 = 0)%nat -> (k <= length C / 16)%nat -> 0 <= inum < 2 ^ 16 ->
  dirents (splice C (16 * k) (new_entry name inum)) = take k (dirents C) ++ Dirent inum (strncpy name DIRSIZ) :: drop (S k) (dirents C).
Proof.
  intros Hm Hk Hi. pose proof (Nat.div_mod_eq (length C) 16) as Hd. set (m := (length C / 16)%nat) in *.
  assert (Hl : length (splice C (16 * k) (new_entry name inum)) = (16 * max m (S k))%nat).
  { unfold splice. rewrite !length_app, length_take, length_drop, length_new_entry. lia. }
  apply list_eq. intros j. rewrite dirents_lookup, Hl, (Nat.mul_comm 16), Nat.div_mul by done.
  destruct (decide (j = k)) as [->|Hne].
  - rewrite decide_True by lia. rewrite lookup_app_r by (rewrite length_take, length_dirents; lia).
    rewrite length_take, length_dirents. fold m. replace (k - k `min` m)%nat with 0%nat by lia. cbn [lookup list_lookup]. f_equal.
    rewrite <- (length_new_entry name inum) at 3. rewrite slice_splice_at by lia.
    unfold new_entry. apply dirent_dec_enc; [done|]. apply strncpy_length.
  - destruct (decide (j < k)%nat) as [Hjk|Hjk].
    + rewrite decide_True by lia. rewrite lookup_app_l by (rewrite length_take, length_dirents; lia). rewrite lookup_take_lt by lia.
      rewrite dirents_lookup, decide_True by lia. by rewrite slice_splice_apart by (rewrite ?length_new_entry; lia).
    + rewrite lookup_app_r by (rewrite length_take, length_dirents; lia). rewrite length_take, length_dirents. fold m.
      replace (j - k `min` m)%nat with (S (j - S k)) by lia. rewrite lookup_cons, lookup_drop.
      replace (S k + (j - S k))%nat with j by lia. rewrite dirents_lookup. fold m. destruct (decide (j < m)%nat).
      * rewrite decide_True by lia. by rewrite slice_splice_apart by (rewrite ?length_new_entry; lia).
      * by rewrite decide_False by lia.
Qed.

(** ** Names *)

Lemma find_app {A} (f : A -> bool) l1 l2 : List.find f (l1 ++ l2) = match List.find f l1 with Some x => Some x | None => List.find f l2 end.
Proof. induction l1 as [|x l1 IH]; [done|]. cbn. destruct (f x); [done|apply IH]. Qed.

(** The new entry has the new name. *)
Lemma names_new name inum other : inum <> 0 ->
  names other (Dirent inum (strncpy name DIRSIZ)) = bool_decide (cstr (take DIRSIZ other) = cstr (take DIRSIZ name)).
Proof.
  intros Hi. unfold names. cbn [de_inum de_name]. rewrite (proj2 (Z.eqb_neq _ _)) by done. cbn [negb andb].
  by rewrite (take_ge (strncpy name DIRSIZ)), cstr_strncpy by (by rewrite strncpy_length).
Qed.

(** What the slot taken held. *)
Lemma free_entry_split C : exists l1 l2 old, dirents C = l1 ++ old ++ l2 /\ length l1 = free_entry C /\
  (old = [] /\ l2 = [] \/ exists de, old = [de] /\ de_inum de = 0).
Proof.
  unfold free_entry. destruct (list_find _ _) as [[k de]|] eqn:E.
  - apply list_find_Some in E as (Hk & H0 & _). exists (take k (dirents C)), (drop (S k) (dirents C)), [de].
    split; [by rewrite <- (take_drop_middle _ _ _ Hk) at 1|]. split; [|eauto]. apply lookup_lt_Some in Hk. rewrite length_take. lia.
  - exists (dirents C), [], []. by rewrite !app_nil_r; auto.
Qed.

(** The new name is found, and every other as before. *)
Lemma dir_find_linked C name inum other : (length C mod 16 = 0)%nat -> 0 < inum < 2 ^ 16 -> dir_find name C = None ->
  dir_find other (linked C name inum) =
  if bool_decide (cstr (take DIRSIZ other) = cstr (take DIRSIZ name)) then Some inum else dir_find other C.
Proof.
  intros Hm Hi Hno. unfold linked, dir_find in *. rewrite dirents_linked by (first [done|apply free_entry_le|lia]).
  apply fmap_None in Hno. destruct (free_entry_split C) as (l1 & l2 & old & E & El & Hold). rewrite E in *.
  rewrite <- El, take_app_length. assert (drop (S (length l1)) (l1 ++ old ++ l2) = l2) as ->.
  { replace (S (length l1)) with (length l1 + 1)%nat by lia. rewrite <- drop_drop, drop_app_length. by destruct Hold as [[-> ->]|(de & -> & _)]. }
  rewrite find_app in Hno |- *. cbn [List.find]. rewrite names_new by lia. case_bool_decide as Hn.
  - assert (Hall : forall de, names other de = names name de) by (intros de; unfold names; by rewrite Hn).
    rewrite !(find_ext (names other) (names name)) by done. by destruct (List.find (names name) l1).
  - rewrite find_app, (find_app _ old). destruct (List.find (names other) l1); [done|].
    destruct Hold as [[-> ->]|(de & -> & H0)]; [done|]. cbn. unfold names at 2. by rewrite H0.
Qed.

(** ** [dirlink] *)

Section link.
Context (st sz : Z) (sb : superblock) (geo : fs_geo st sb).
Context (one_bitmap : sb_size sb <= BPB) (big_log : 9 <= sz) (small_disk : st < 2 ^ 31).
Context `{DO : DevOps}.
Context (V : Z -> bytes).
Notation ses := (ses st sz).
Notation locked_dir := (locked_dir st sz sb V []).
Notation fs_ready := (fs_ready st sz V []).
Notation can_write := (can_write st sz sb).

Lemma no_log_room : (length ([] : list Z) < NBUF)%nat.
Proof. unfold NBUF. cbn. lia. Qed.

(** The search for a free slot. *)
Lemma wp_dirlink_loop fuel s B dp n C k : locked_dir s B dp n C -> (length C < 16 * (k + fuel))%nat -> (16 * k <= length C)%nat ->
  Forall (fun de => de_inum de <> 0) (take k (dirents C)) ->
  wp (dirlink_loop dp fuel (16 * Z.of_nat k)) (fun r s' => r = 16 * Z.of_nat (free_entry C) /\ lframe s s' /\ ses s' ∅ V []) s.
Proof.
  revert s k. induction fuel as [|fuel IH]; intros s k Hd Hfuel Hk Hall; [lia|].
  assert (exists m, length C = (16 * m)%nat /\ (m <= 4480)%nat) as (m & Hm & Hmax) by (by apply (dir_length st sz sb V [] no_log_room s B dp n)). unfold dirlink_loop; fold dirlink_loop. unfold geti at 1. kstep.
  erewrite locked_size by exact Hd. assert (Hlen : length (dirents C) = m) by (rewrite length_dirents, Hm, Nat.mul_comm, Nat.div_mul; lia).
  destruct (decide (k = m)) as [->|Hne].
  { rewrite (proj2 (Z.ltb_ge _ _)) by lia. kstep. unfold free_entry. rewrite take_ge in Hall by lia. rewrite (proj2 (list_find_None _ _) Hall), Hlen.
    split; [done|]. split; [done|]. apply Hd. }
  rewrite (proj2 (Z.ltb_lt _ _)) by lia. kstep. eapply wp_mono; [apply (wp_read_dirent st sz sb geo one_bitmap big_log small_disk V [] no_log_room s B dp n C k Hd); lia|].
  intros de s1 (Hde & Hf1 & Hs1). assert (Hlk : dirents C !! k = Some de) by (rewrite dirents_lookup, decide_True by (rewrite <- length_dirents, Hlen; lia); by rewrite Hde).
  destruct (Z.eqb_spec (de_inum de) 0) as [H0|H0].
  - kstep. split; [|done]. unfold free_entry. rewrite (proj2 (list_find_Some _ _ k de)); [done|]. split; [done|]. split; [done|].
    intros j y Hj Hlt. rewrite Forall_lookup in Hall. apply (Hall j). by rewrite lookup_take_lt.
  - unfold DESZ. replace (16 * Z.of_nat k + 16) with (16 * Z.of_nat (S k)) by lia.
    eapply wp_mono; [apply (IH s1 (S k)); [by eapply locked_lframe|lia..|]|].
    + rewrite (take_S_r _ _ _ Hlk). apply Forall_app. split; [done|]. by constructor.
    + intros r s' (-> & Hf & Hs'). split; [done|]. split; [by transitivity s1|done].
Qed.

Lemma can_write_lframe s s' i inum addrs C o k src : can_write s V i inum addrs C o k src -> lframe s s' -> ses s' ∅ V [] ->
  can_write s' V i inum addrs C o k src.
Proof.
  intros [H1 H2 H3 [] H5 H6 H7 H8 H9] Hf Hs'. pose proof (lframe_icache _ _ Hf) as E. split; [done|by eapply lframe_in_trans|done| |done..].
  split; rewrite ?E; done.
Qed.

Lemma written_lframe s s1 i inum addrs C C' s' : lframe s s1 -> written st sz sb s1 V i inum addrs C C' s' -> written st sz sb s V i inum addrs C C' s'.
Proof. intros Hf [H1 H2]. split; [|done]. transitivity s1; [by apply lframe_iframe|done]. Qed.

(** C5. Adding a name. In a transaction that has logged nothing, on a locked
    directory for whose growth, if it must grow, the free blocks the bitmap
    gives first are data blocks: if the name is there already [dirlink]
    returns -1 and changes no reference; otherwise it returns 0, the disk is
    that of a write of the directory (no other file changes), and in the new
    contents the name leads to the inode given, every other name where it led. *)
Theorem dirlink_adds s B U dp n addrs C name inum : locked_dir s B dp n C -> (forall m, B m <> 0 -> m ∈ U) -> (length U < NINODE)%nat ->
  0 < inum < 2 ^ 16 -> (forall m, dir_find name C = Some m -> d_nlink (disk_inode V m) <> 0) ->
  can_write s V dp n addrs C (16 * free_entry C) 16 (new_entry name inum) ->
  wp (dirlink dp name inum) (fun r s' =>
    if dir_find name C then r = -1 /\ fs_ready s' B (Some dp)
    else r = 0 /\ written st sz sb s V dp n addrs C (linked C name inum) s' /\
      forall other, dir_find other (linked C name inum) =
        if bool_decide (cstr (take DIRSIZ other) = cstr (take DIRSIZ name)) then Some inum else dir_find other C) s.
Proof.
  intros Hd HU HUl Hi Hnl Hcw. unfold dirlink. kstep.
  eapply wp_mono; [by apply (wp_dirlookup st sz sb geo one_bitmap big_log small_disk V [] no_log_room name U s B dp n C)|].
  intros r s1 (Hf1 & Href1 & Hr1). unfold dir_find in Hnl |- * at 1. destruct (List.find (names name) (dirents C)) as [de|] eqn:Efind; cbn [fmap option_fmap option_map] in *.
  - destruct Hr1 as (j & off & -> & Hs1 & Hj). kstep.
    assert (Hone : Some dp = Some j -> 1 < bump (de_inum de) 1 B (de_inum de)).
    { intros [= <-]. destruct (ld_refers _ _ _ _ _ _ _ _ _ _ Hd) as [Hr Hn]. destruct (Href1 dp n ltac:(by split)) as [_ Hn1].
      destruct (ic_refs _ _ _ _ (proj2 (proj2 (ld_ready _ _ _ _ _ _ _ _ _ _ Hd))) dp Hr) as [_ HB]. destruct Hj as [_ Hj]. rewrite <- Hj, Hn1, <- Hn.
      unfold bump. rewrite Z.eqb_refl. lia. }
    eapply wp_mono; [by apply (wp_iput st sz V [] no_log_room s1 _ (Some dp) j (de_inum de) Hs1 Hj Hone), Hnl|].
    intros [] s' (Hs' & _). kstep. split; [done|]. eapply ready_ext; [|exact Hs']. intros m. unfold bump. destruct (m =? de_inum de); lia.
  - destruct Hr1 as (-> & Hs1 & Hlf1). pose proof (locked_lframe _ _ _ _ _ _ _ _ _ _ _ Hd Hlf1 (proj1 Hs1)) as Hd1. unfold geti. kstep.
    erewrite locked_size by exact Hd1. pose proof (ld_whole _ _ _ _ _ _ _ _ _ _ Hd) as Hw. pose proof (Nat.div_mod_eq (length C) 16).
    eapply wp_mono; [apply (wp_dirlink_loop _ s1 B dp n C 0 Hd1); [|lia|done]|].
    { unfold entries, DESZ. replace (Z.of_nat (length C) / 16) with (Z.of_nat (length C / 16)) by (by rewrite Nat2Z.inj_div). lia. }
    intros r s2 (-> & Hf2 & Hs2). assert (Hf : lframe s s2) by by transitivity s1.
    replace (16 * Z.of_nat (free_entry C)) with (Z.of_nat (16 * free_entry C)) by lia.
    kstep. eapply wp_mono; [apply (can_writei st sz sb geo one_bitmap big_log small_disk s2 V dp n addrs C (16 * free_entry C) 16 (new_entry name inum));
      by eapply can_write_lframe|]. intros r s' [-> Hwr]. cbn. kstep. split; [done|].
    rewrite take_ge in Hwr by (by rewrite length_new_entry). split; [by eapply written_lframe|]. intros other. apply dir_find_linked; [done..|].
    unfold dir_find. by rewrite Efind.
Qed.
End link.
