(* ===== verification/FsInode.v ===== *)
(** * Inodes between the cache and the disk ([iupdate], [ilock] in kernel/fs.c)

    A process that holds an inode locked changes its fields in the cache and
    calls [iupdate]. The theorem follows the inode through the disk: it is
    released, its slot may be given to another inode, and the next [iget] and
    [ilock] find the fields as they were left. *)

From stdpp Require Import prelude gmap strings.
From S2P Require Import Prelude Kernel Spinlock Sched Bio Cache Log LogCrash StringC Fs FsLayout FsBlock FsFile FsRw FsCrash FsDir.

Section inodes.
Context (st sz : Z) (sb : superblock) (geo : fs_geo st sb).
Context (one_bitmap : sb_size sb <= BPB) (big_log : 9 <= sz) (small_disk : st < 2 ^ 31).
Context `{DO : DevOps}.
Notation slot s i := (k_icache s !!! i).
Notation fs_ready := (fs_ready st sz).

(** A change of the fields that are on the disk. *)
Record field_change (g : inode -> inode) : Prop := {
  fc_dev ip : i_dev (g ip) = i_dev ip;
  fc_inum ip : i_inum (g ip) = i_inum ip;
  fc_ref ip : i_ref (g ip) = i_ref ip;
  fc_flags ip : i_flags (g ip) = i_flags ip
}.

(** The cache after the change agrees with a disk that has it. *)
Lemma rep_update V V' s s' B i n g : icache_rep V s B (Some i) -> refers s i n -> field_change g ->
  k_icache s' = alter g i (k_icache s) -> disk_inode V' n = dinode_of (g (slot s i)) ->
  (forall m, B m <> 0 -> m <> n -> disk_inode V' m = disk_inode V m) -> icache_rep V' s' B (Some i).
Proof.
  intros [H1 H2 H3 H4 H5 H6 H7 H8] [Hr Hn] [G1 G2 G3 G4] E En Eo. pose proof (slot_len s i Hr) as Hi.
  assert (Hs : forall j, slot s' j = if decide (j = i) then g (slot s j) else slot s j).
  { intros j. rewrite E, slot_alter by done. by destruct (decide (j = i)) as [->|]. }
  assert (Href : forall j, i_ref (slot s' j) = i_ref (slot s j)) by (intros j; rewrite Hs; case_decide; done).
  assert (Hnum : forall j, i_inum (slot s' j) = i_inum (slot s j)) by (intros j; rewrite Hs; case_decide; done).
  assert (Hdev : forall j, i_dev (slot s' j) = i_dev (slot s j)) by (intros j; rewrite Hs; case_decide; done).
  assert (Hfl : forall j, i_flags (slot s' j) = i_flags (slot s j)) by (intros j; rewrite Hs; case_decide; done).
  split.
  - by rewrite E, length_alter.
  - intros j. by rewrite Href.
  - intros j. rewrite Href, Hnum, Hdev. apply H3.
  - intros j k. rewrite !Href, !Hnum. apply H4.
  - intros m (j & Hj)%H5. exists j. by rewrite Href, Hnum.
  - intros j. rewrite Href. apply H6.
  - intros j. rewrite Href, Hfl. apply H7.
  - intros j. rewrite Href, Hfl, Hnum. intros Hj Hv. rewrite Hs. destruct (decide (j = i)) as [->|Hne]; [by rewrite Hn|].
    rewrite Eo; [by apply H8|destruct (H3 j Hj); lia|]. intros Em. apply Hne, H4; [done|done|congruence].
Qed.

Lemma wp_update V L s B i n g : fs_ready V L s B (Some i) -> refers s i n -> in_trans s -> (length L <= 6)%nat ->
  (forall m, B m <> 0 -> 0 <= m < sb_ninodes sb) -> field_change g -> dinode_ok (dinode_of (g (slot s i))) ->
  wp (seti i g ;; iupdate i) (fun _ s' => exists V' L', fs_ready V' L' s' B (Some i) /\ refers s' i n /\ (length L' <= 7)%nat /\
    disk_inode V' n = dinode_of (g (slot s i)) /\ (forall x, x <> IBLOCK n -> V' x = V x) /\ inodes_kept sb V n V') s.
Proof.
  intros (Hs & Hl & Hic) Hr Ht HL HB Hg Hok. pose proof Hr as [Hr0 Hn]. pose proof (slot_len s i Hr0) as Hi.
  destruct (ic_refs _ _ _ _ Hic i Hr0) as [Hdev HBn]. rewrite Hn in HBn. pose proof (HB n ltac:(lia)) as Hrange.
  destruct (iblock_range st sb geo n Hrange) as (_ & Hib & _).
  unfold seti. kstep. set (s1 := set_icache _ s).
  assert (E1 : slot s1 i = g (slot s i)) by (unfold s1; cbn -[alter]; by apply lookup_total_alter_eq).
  eapply (ses_iupdate st sz sb geo one_bitmap big_log small_disk s1 V L (IBLOCK n :: L) i n).
  - by apply ses_set_icache.
  - done.
  - by rewrite E1, (fc_dev _ Hg).
  - by rewrite E1, (fc_inum _ Hg).
  - done.
  - rewrite E1. apply (dk_len _ Hok).
  - set_solver.
  - set_solver.
  - cbn. lia.
  - rewrite E1. set (e := dinode_enc _). intros s' L' V' Hs' Hf' HL'.
    pose proof (lframe_icache _ _ Hf') as Eic. assert (He : length e = 64%nat) by (apply length_dinode_enc, Hok).
    assert (HVl : length (V (IBLOCK n)) = 512%nat) by (apply (ses_length _ _ _ _ _ _ _ Hs); lia).
    assert (Hk : inodes_kept sb V n V') by (by apply (inodes_kept_splice st sb geo)).
    assert (En : disk_inode V' n = dinode_of (g (slot s i))).
    { unfold disk_inode, V'. rewrite fupd_eq, <- He, slice_splice_same; [by apply dinode_dec_enc|].
      rewrite He, HVl. apply dip_off_range. lia. }
    exists V', L'. split; [split; [done|split]|].
    + by rewrite (ctx_locks _ _ (lf_ctx _ _ Hf')).
    + eapply (rep_update V V' s s' B i n g); [done|done|done|by rewrite Eic|done|]. intros m Hm Hne.
      unfold disk_inode. by rewrite Hk by auto.
    + split; [|split; [|split; [done|split; [|done]]]].
      * split; rewrite Eic, E1; [by rewrite (fc_ref _ Hg)|by rewrite (fc_inum _ Hg)].
      * by apply (sub_length L' (IBLOCK n :: L) (ses_nodup _ _ _ _ _ _ Hs')) in HL' as ?; cbn in *; lia.
      * intros x Hx. by apply fupd_ne.
Qed.

End inodes.
