(* ===== verification/Mkfs.v ===== *)
(** * The tool that makes the disk image (mkfs/mkfs.c)

    [mkfs] writes the super block, the inodes, the bitmap, the directories of
    the system and the files it is given to an image, sector by sector. The
    model has the image, the counters of the tool, and one definition per
    function; a failed [assert], read or [open] ends the program. The files
    of the host are an argument.

    The theorem: what it leaves is a disk of the kernel's file system, with
    an empty log, on which exactly the directories and the files given are
    found, each with its contents. The bitmap it writes leaves the log free,
    behind the data blocks: a write takes blocks of the log only when the data
    blocks run out, and the theorems about writes and crashes ask for no more
    than the data blocks that are left. *)

From stdpp Require Import prelude gmap strings.
From S2P Require Import Prelude Kernel Spinlock Sched Bio Cache Log LogCrash StringC Fs FsLayout FsBlock FsFile FsRw FsCrash.

Definition nblocks : Z := 1970.
Definition nlog : Z := 10.
Definition ninodes : Z := 200.
Definition mkfs_size : Z := 2009.

(** The sectors of the image, how many it has so far, and the counters. *)
Record mk := Mk { mk_img : Z -> bytes; mk_secs : Z; mk_freeblock : Z; mk_usedblocks : Z; mk_freeinode : Z }.

(** The numbers are written with the low byte first, and the host is a PC. *)
Definition xshort (x : Z) : Z := le_val [u8 x; u8 (Z.shiftr x 8)].
Definition xint (x : Z) : Z := le_val [u8 x; u8 (Z.shiftr x 8); u8 (Z.shiftr x 16); u8 (Z.shiftr x 24)].

Definition assert (c : bool) : M mk unit := if c then ret tt else panic "assert".

Definition wsect (sec : Z) (buf : bytes) : M mk unit :=
  modify (fun s => Mk (fupd (mk_img s) sec buf) (Z.max (mk_secs s) (sec + 1)) (mk_freeblock s) (mk_usedblocks s) (mk_freeinode s)).
Definition rsect (sec : Z) : M mk bytes :=
  n <- gets mk_secs ;;
  if sec <? n then gets (fun s => mk_img s sec) else panic "read".

Definition i2b (inum : Z) : Z := inum / IPB + 2.

Definition winode (inum : Z) (ip : dinode) : M mk unit :=
  let bn := i2b inum in
  buf <- rsect bn ;;
  wsect bn (splice buf (dip_off inum) (dinode_enc ip)).
Definition rinode (inum : Z) : M mk dinode :=
  let bn := i2b inum in
  buf <- rsect bn ;;
  ret (dinode_dec (slice buf (dip_off inum) 64)).

Definition mk_ialloc (type : Z) : M mk Z :=
  inum <- gets mk_freeinode ;;
  modify (fun s => Mk (mk_img s) (mk_secs s) (mk_freeblock s) (mk_usedblocks s) (u32 (mk_freeinode s + 1))) ;;
  winode inum (Dinode (xshort type) 0 0 (xshort 1) (xint 0) (replicate 13 0)) ;;
  ret inum.

(** The bits of the first [used] blocks. *)
Fixpoint used_bits (n : nat) (i : Z) (buf : bytes) : bytes :=
  match n with
  | O => buf
  | S n => used_bits n (i + 1)
      (<[Z.to_nat (i / 8) := u8 (Z.lor (buf !!! Z.to_nat (i / 8)) (Z.shiftl 1 (i mod 8)))]> buf)
  end.

Definition mk_balloc (used : Z) : M mk unit :=
  assert (used <? 512 * 8) ;;
  wsect (ninodes / IPB + 3) (used_bits (Z.to_nat used) 0 (replicate 512 0)).

(** [freeblock++] and [usedblocks++]. *)
Definition next_block : M mk Z :=
  b <- gets mk_freeblock ;;
  modify (fun s => Mk (mk_img s) (mk_secs s) (u32 (b + 1)) (u32 (mk_usedblocks s + 1)) (mk_freeinode s)) ;;
  ret b.

Definition set_daddr (k v : Z) (d : dinode) : dinode :=
  Dinode (d_type d) (d_major d) (d_minor d) (d_nlink d) (d_size d) (<[Z.to_nat k := v]> (d_addrs d)).
Definition set_dsize (v : Z) (d : dinode) : dinode :=
  Dinode (d_type d) (d_major d) (d_minor d) (d_nlink d) v (d_addrs d).

(** Entry [k] of the addresses, with a block of its own. *)
Definition own_addr (k : Z) (din : dinode) : M mk dinode :=
  if xint (d_addrs din !!! Z.to_nat k) =? 0 then b <- next_block ;; ret (set_daddr k (xint b) din) else ret din.

(** The sector of block [fbn] of the file. *)
Definition iappend_block (fbn : Z) (din : dinode) : M mk (Z * dinode) :=
  if fbn <? NDIRECT then
    din <- own_addr fbn din ;;
    ret (xint (d_addrs din !!! Z.to_nat fbn), din)
  else
    din <- own_addr NDIRECT din ;;
    let a := xint (d_addrs din !!! Z.to_nat NDIRECT) in
    indirect <- rsect a ;;
    indirect <- (if ind_get indirect (fbn - NDIRECT) =? 0 then
                   b <- next_block ;;
                   let indirect := put32 indirect (Z.to_nat (4 * (fbn - NDIRECT))) (xint b) in
                   wsect a indirect ;;
                   ret indirect
                 else ret indirect) ;;
    ret (xint (ind_get indirect (fbn - NDIRECT)), din).

Fixpoint iappend_loop (fuel : nat) (p : bytes) (off : Z) (din : dinode) : M mk (Z * dinode) :=
  if Z.of_nat (length p) <=? 0 then ret (off, din) else
  match fuel with
  | O => fun _ => NoFuel
  | S fuel =>
    let fbn := off / 512 in
    assert (fbn <? MAXFILE) ;;
    ' (x, din) <- iappend_block fbn din ;;
    let n1 := Z.min (Z.of_nat (length p)) ((fbn + 1) * 512 - off) in
    buf <- rsect x ;;
    wsect x (splice buf (Z.to_nat (off - fbn * 512)) (take (Z.to_nat n1) p)) ;;
    iappend_loop fuel (drop (Z.to_nat n1) p) (u32 (off + n1)) din
  end.

Definition iappend (inum : Z) (p : bytes) : M mk unit :=
  din <- rinode inum ;;
  ' (off, din) <- iappend_loop (length p) p (xint (d_size din)) din ;;
  winode inum (set_dsize (xint off) din).

(** A zeroed [struct dirent] with its number and its name copied in. *)
Definition mk_dirent (inum : Z) (name : bytes) : bytes :=
  dirent_enc (Dirent (xshort inum) (strncpy name DIRSIZ)).

Definition adddir (name : bytes) (parino : Z) : M mk Z :=
  inum <- mk_ialloc T_DIR ;;
  iappend parino (mk_dirent inum name) ;;
  iappend inum (mk_dirent inum (str ".")) ;;
  iappend inum (mk_dirent parino (str "..")) ;;
  ret inum.

Fixpoint zero_sectors (n : nat) (i : Z) : M mk unit :=
  match n with O => ret tt | S n => wsect i (replicate 512 0) ;; zero_sectors n (i + 1) end.

(** [read] in pieces of 512 bytes. *)
Fixpoint copy_in (fuel : nat) (inum : Z) (data : bytes) : M mk unit :=
  match data with
  | [] => ret tt
  | _ => match fuel with
         | O => fun _ => NoFuel
         | S fuel => iappend inum (take 512 data) ;; copy_in fuel inum (drop 512 data)
         end
  end.

(** The directory of a file by the first character of its name. *)
Definition place (binino sbinino homeino etcino : Z) (name : bytes) : Z * bytes :=
  match name with
  | 95 :: name => (binino, name)
  | 33 :: name => (sbinino, name)
  | 46 :: name => (homeino, name)
  | _ => (etcino, name)
  end.

Fixpoint add_files (binino sbinino homeino etcino : Z) (files : list (bytes * option bytes)) : M mk unit :=
  match files with
  | [] => ret tt
  | (_, None) :: _ => panic "open"
  | (arg, Some data) :: files =>
    let (dir, name) := place binino sbinino homeino etcino arg in
    inum <- mk_ialloc T_FILE ;;
    iappend dir (mk_dirent inum name) ;;
    copy_in (length data) inum data ;;
    add_files binino sbinino homeino etcino files
  end.

Definition mkfs_main (files : list (bytes * option bytes)) : M mk unit :=
  let bitblocks := mkfs_size / (512 * 8) + 1 in
  modify (fun s => Mk (mk_img s) (mk_secs s) (ninodes / IPB + 3 + bitblocks) (ninodes / IPB + 3 + bitblocks) (mk_freeinode s)) ;;
  usedblocks <- gets mk_usedblocks ;;
  assert (nblocks + usedblocks + nlog =? mkfs_size) ;;
  zero_sectors (Z.to_nat (nblocks + usedblocks + nlog)) 0 ;;
  wsect 1 (splice (replicate 512 0) 0 (concat (le_bytes 4 <$> [xint mkfs_size; xint nblocks; xint ninodes; xint nlog]))) ;;
  rootino <- mk_ialloc T_DIR ;;
  assert (rootino =? ROOTINO) ;;
  iappend rootino (mk_dirent rootino (str ".")) ;;
  iappend rootino (mk_dirent rootino (str "..")) ;;
  binino <- adddir (str "bin") rootino ;;
  devino <- adddir (str "dev") rootino ;;
  etcino <- adddir (str "etc") rootino ;;
  homeino <- adddir (str "root") rootino ;;
  procino <- adddir (str "proc") rootino ;;
  sbinino <- adddir (str "sbin") rootino ;;
  usrino <- adddir (str "usr") rootino ;;
  usrbinino <- adddir (str "bin") usrino ;;
  shareino <- adddir (str "share") usrino ;;
  localino <- adddir (str "local") usrino ;;
  localbinino <- adddir (str "bin") localino ;;
  usrsbinino <- adddir (str "sbin") usrino ;;
  localsbinino <- adddir (str "sbin") localino ;;
  add_files binino sbinino homeino etcino files ;;
  din <- rinode rootino ;;
  let off := xint (d_size din) in
  let off := u32 ((off / BSIZE + 1) * BSIZE) in
  winode rootino (set_dsize (xint off) din) ;;
  usedblocks <- gets mk_usedblocks ;;
  mk_balloc usedblocks.

(** ** The image as a disk of the kernel *)

Definition mkfs_sb : superblock := Superblock mkfs_size nblocks ninodes nlog.
Definition LOG_START : Z := mkfs_size - nlog.
Notation st := 1999.
Notation sb := mkfs_sb.
Notation data_block := (data_block st sb).
Notation used := (used sb).

Lemma mkfs_geo : fs_geo st sb.
Proof. split; vm_compute; done. Qed.
#[local] Hint Resolve mkfs_geo : core.

Lemma data_block_mk b : data_block b <-> 29 <= b < 1999.
Proof. done. Qed.

Lemma is_bitmap_mk b : is_bitmap sb b <-> b = 28.
Proof.
  assert (forall k, 0 <= k < 2009 -> bblock sb k = 28) as E.
  { intros k Hk. rewrite (bblock_eq st sb mkfs_geo) by lia. change BPB with 4096. rewrite Z.div_small by lia. done. }
  split; [intros (k & Hk & ->); by apply E|intros ->]. exists 0. split; [done|]. by rewrite E.
Qed.

(** *** The bits *)

Lemma used_bits_S n i buf : used_bits (S n) i buf = set_bit (used_bits n i buf) (i + Z.of_nat n).
Proof.
  revert i buf. induction n as [|n IH]; intros i buf.
  - cbn [used_bits]. by rewrite Z.add_0_r.
  - change (used_bits (S (S n)) i buf) with (used_bits (S n) (i + 1) (set_bit buf i)).
    rewrite IH. change (used_bits (S n) i buf) with (used_bits n (i + 1) (set_bit buf i)). f_equal. lia.
Qed.

Lemma length_used_bits n i buf : length (used_bits n i buf) = length buf.
Proof. revert i buf. induction n as [|n IH]; intros i buf; cbn; [done|]. by rewrite IH, length_insert. Qed.

Definition bits (f : Z) : bytes := used_bits (Z.to_nat f) 0 zeros.

Lemma length_bits f : length (bits f) = 512%nat.
Proof. unfold bits. rewrite length_used_bits. apply length_zeros. Qed.

Lemma bits_S f : 0 <= f -> bits (f + 1) = set_bit (bits f) f.
Proof.
  intros Hf. unfold bits. replace (Z.to_nat (f + 1)) with (S (Z.to_nat f)) by lia. rewrite used_bits_S. f_equal. lia.
Qed.

Lemma bits_set f b : 0 <= f <= 4096 -> 0 <= b < 4096 -> bit_set (bits f) b = (b <? f).
Proof.
  intros [Hf Hf']. revert Hf'. pattern f. apply natlike_ind; [| |done].
  - intros _ Hb. change (bits 0) with zeros. unfold bit_set, byte_at.
    assert (zeros !!! Z.to_nat (b / 8) = 0) as ->.
    { unfold zeros. rewrite lookup_total_replicate_2; [done|].
      assert (b / 8 < 512) by (apply Z.div_lt_upper_bound; lia). pose proof (Z.div_pos b 8). lia. }
    rewrite Z.land_0_l. cbn. lia.
  - intros x Hx IH Hx' Hb. change (Z.succ x) with (x + 1). rewrite bits_S by done.
    assert (x / 8 < 512) by (apply Z.div_lt_upper_bound; lia). pose proof (Z.div_pos x 8).
    rewrite bit_set_set by (rewrite ?length_bits; lia). rewrite IH by lia. lia.
Qed.

(** *** Numbers *)

Lemma xint_id x : 0 <= x < 2 ^ 32 -> xint x = x.
Proof.
  intros Hx. unfold xint. replace [_; _; _; _] with (le_bytes 4 x).
  - rewrite le_val_bytes. by apply Z.mod_small.
  - cbn [le_bytes]. unfold u8. rewrite !Z.shiftr_div_pow2, !Zdiv_Zdiv by done. done.
Qed.

Lemma xshort_id x : 0 <= x < 2 ^ 16 -> xshort x = x.
Proof.
  intros Hx. unfold xshort. replace [_; _] with (le_bytes 2 x).
  - rewrite le_val_bytes. by apply Z.mod_small.
  - cbn [le_bytes]. unfold u8. by rewrite !Z.shiftr_div_pow2 by done.
Qed.

(** *** The image while the files are written

    [V] is the image with the bitmap that [mk_balloc] writes at the end. *)
Record mk_inv (s : mk) (V : Z -> bytes) : Prop := {
  mi_view x : 0 <= x < st -> V x = if x =? 28 then bits (mk_freeblock s) else mk_img s x;
  mi_secs : mk_secs s = mkfs_size;
  mi_used : mk_usedblocks s = mk_freeblock s;
  mi_free : 29 <= mk_freeblock s <= st;
  mi_len x : 0 <= x < mkfs_size -> length (mk_img s x) = 512%nat;
  mi_zero x : mk_freeblock s <= x < mkfs_size -> mk_img s x = zeros
}.

Lemma mi_512 s V : mk_inv s V -> blocks_512 st V.
Proof.
  intros [] b Hb. rewrite mi_view0 by done. destruct (b =? 28); [apply length_bits|]. apply mi_len0.
  unfold mkfs_size. lia.
Qed.

Lemma mi_bit s V b : mk_inv s V -> 0 <= b < st -> used V b = (b <? mk_freeblock s).
Proof.
  intros [] Hb. unfold FsBlock.used.
  assert (bblock sb b = 28) as -> by (apply is_bitmap_mk; exists b; split; [cbn; unfold mkfs_size; lia|done]).
  rewrite mi_view0 by done. cbn [Z.eqb Pos.eqb]. change BPB with 4096. rewrite Z.mod_small by lia.
  apply bits_set; lia.
Qed.

Lemma mi_img s V x : mk_inv s V -> 0 <= x < st -> x <> 28 -> mk_img s x = V x.
Proof. intros [] Hx Hne. rewrite mi_view0 by done. by destruct (Z.eqb_spec x 28). Qed.

(** A sector is written. *)
Lemma mi_write s V x d : mk_inv s V -> 0 <= x < mk_freeblock s -> x <> 28 -> length d = 512%nat ->
  mk_inv (Mk (fupd (mk_img s) x d) (Z.max (mk_secs s) (x + 1)) (mk_freeblock s) (mk_usedblocks s) (mk_freeinode s)) (fupd V x d).
Proof.
  intros [] Hx Hne Hd. split; cbn; try done.
  - intros y Hy. unfold fupd. destruct (Z.eqb_spec y 28) as [->|].
    + rewrite decide_False by done. rewrite mi_view0 by done. done.
    + rewrite mi_view0 by done. destruct (Z.eqb_spec y 28); done.
  - rewrite mi_secs0. unfold mkfs_size in *. lia.
  - intros y Hy. unfold fupd. case_decide; [done|by apply mi_len0].
  - intros y Hy. unfold fupd. case_decide; [lia|by apply mi_zero0].
Qed.

Lemma wp_rsect s V x Q : mk_inv s V -> 0 <= x < st -> x <> 28 -> Q (V x) s -> wp (rsect x) Q s.
Proof.
  intros Hi Hx Hne HQ. unfold rsect. kstep. rewrite (mi_secs _ _ Hi).
  destruct (Z.ltb_spec x mkfs_size); [|unfold mkfs_size in *; lia]. kstep. by rewrite (mi_img s V).
Qed.

(** A block is taken. *)
Lemma wp_next_block s V Q : mk_inv s V -> mk_freeblock s < st ->
  (let b := mk_freeblock s in
   let s' := Mk (mk_img s) (mk_secs s) (b + 1) (b + 1) (mk_freeinode s) in
   data_block b -> used V b = false -> mk_inv s' (alloc_view sb V b) -> Q b s') ->
  wp next_block Q s.
Proof.
  intros Hi Hlt HQ. pose proof Hi as []. unfold next_block. kstep. rewrite mi_used0, !u32_small by lia.
  apply HQ; [apply data_block_mk; lia|rewrite (mi_bit s) by (done || lia); lia|].
  split; cbn; try done; [|lia|].
  - intros x Hx. unfold alloc_view, fupd.
    assert (bblock sb (mk_freeblock s) = 28) as -> by (apply is_bitmap_mk; exists (mk_freeblock s); split; [cbn; unfold mkfs_size; lia|done]).
    case_decide as E; [subst x; rewrite mi_zero0 by (unfold mkfs_size; lia); by destruct (Z.eqb_spec (mk_freeblock s) 28); [lia|]|].
    destruct (Z.eqb_spec x 28) as [->|Hne].
    + rewrite decide_True by done. rewrite mi_view0 by done. cbn [Z.eqb Pos.eqb].
      change BPB with 4096. rewrite Z.mod_small, <- bits_S by lia. done.
    + rewrite decide_False by done. rewrite mi_view0 by done. by destruct (Z.eqb_spec x 28).
  - intros x Hx. apply mi_zero0. lia.
Qed.

(** *** A block of the file *)

(** The blocks a file of [n] blocks takes, its indirect block included. *)
Definition bcost (n : Z) : Z := n + (if NDIRECT <? n then 1 else 0).

(** Block [k] of the file is [x]: it was there, or it is new. *)
Record blocked (V : Z -> bytes) (addrs : list Z) (n k : Z) (V' : Z -> bytes) (addrs' : list Z) (x : Z) : Prop := {
  bl_blocks : file_blocks st sb V' addrs' (Z.max n (k + 1));
  bl_new : fblk V' addrs' k = x;
  bl_old : forall j, 0 <= j < n -> fblk V' addrs' j = fblk V addrs j /\ V' (fblk V addrs j) = V (fblk V addrs j);
  bl_zero : k = n -> V' x = zeros;
  bl_fresh : k < n \/ used V x = false;
  bl_ind : indirect addrs' = indirect addrs \/ data_block (indirect addrs') /\ used V (indirect addrs') = false;
  bl_used : forall y, 0 <= y < sb_size sb -> used V y = true -> used V' y = true;
  bl_keep : forall y, ~ is_bitmap sb y -> (data_block y -> used V y = true) -> y <> indirect addrs -> V' y = V y
}.

Lemma blocked_refl V addrs n k : file_blocks st sb V addrs n -> 0 <= k < n -> blocked V addrs n k V addrs (fblk V addrs k).
Proof. intros Hfb Hk. split; try done; [by replace (Z.max n (k + 1)) with n by lia|lia|left; lia|by left]. Qed.

Lemma appended_blocked V addrs n V' addrs' b : appended st sb V addrs n V' addrs' b -> blocked V addrs n n V' addrs' b.
Proof. intros []. split; try done; [by replace (Z.max n (n + 1)) with (n + 1) by lia|by right]. Qed.

Definition set_daddrs (l : list Z) (d : dinode) : dinode :=
  Dinode (d_type d) (d_major d) (d_minor d) (d_nlink d) (d_size d) l.

Lemma file_addr V addrs n k : file_blocks st sb V addrs n -> 0 <= k < 13 -> xint (addrs !!! Z.to_nat k) = addrs !!! Z.to_nat k.
Proof.
  intros Hfb Hk. apply xint_id. pose proof (addrs_range st sb mkfs_geo ltac:(done) _ _ _ Hfb) as Hr.
  rewrite Forall_lookup in Hr. destruct Hfb. apply (Hr (Z.to_nat k)). apply list_lookup_lookup_total_lt. lia.
Qed.

Lemma set_daddrs_id d : set_daddrs (d_addrs d) d = d.
Proof. by destruct d. Qed.

Lemma block_nonzero V addrs n k : file_blocks st sb V addrs n -> 0 <= k < n -> (fblk V addrs k =? 0) = false.
Proof. intros Hfb Hk. apply (nonzero_data st sb mkfs_geo). by apply (fb_data _ _ _ _ _ Hfb). Qed.

(** A direct block. *)
Lemma wp_block_direct s V din n k Q : mk_inv s V -> file_blocks st sb V (d_addrs din) n -> 0 <= k <= n -> k < NDIRECT ->
  mk_freeblock s + (bcost (Z.max n (k + 1)) - bcost n) <= st ->
  (forall x s' V' addrs', mk_inv s' V' -> mk_freeblock s' = mk_freeblock s + (bcost (Z.max n (k + 1)) - bcost n) ->
     mk_freeinode s' = mk_freeinode s -> blocked V (d_addrs din) n k V' addrs' x ->
     Q (x, set_daddrs addrs' din) s') ->
  wp (iappend_block k din) Q s.
Proof.
  intros Hi Hfb Hk Hd Hfit HQ. pose proof NDIRECT_val as HN. unfold iappend_block, own_addr.
  rewrite (proj2 (Z.ltb_lt _ _) Hd), (file_addr _ _ _ _ Hfb) by lia. kstep.
  assert (d_addrs din !!! Z.to_nat k = fblk V (d_addrs din) k) as Ek
    by (unfold fblk; by rewrite (proj2 (Z.ltb_lt _ _) Hd)).
  destruct (decide (k = n)) as [->|Hne].
  - rewrite Ek, (fb_none _ _ _ _ _ Hfb) by (rewrite MAXFILE_val; lia). cbn [Z.eqb]. kstep.
    assert (bcost (Z.max n (n + 1)) - bcost n = 1) as Ec.
    { unfold bcost. replace (Z.max n (n + 1)) with (n + 1) by lia.
      destruct (Z.ltb_spec NDIRECT n), (Z.ltb_spec NDIRECT (n + 1)); lia. }
    apply (wp_next_block s V); [done|lia|]. intros b s' Hb Hu Hi'. kstep.
    pose proof (direct_append st sb mkfs_geo V (d_addrs din) n b (mi_512 _ _ Hi) Hfb Hd Hb Hu) as Hap.
    pose proof (proj1 (data_block_mk b) Hb). rewrite (xint_id b) by lia.
    replace (xint (d_addrs (set_daddr n b din) !!! Z.to_nat n)) with b.
    + apply (HQ b s' _ (<[Z.to_nat n := b]> (d_addrs din)) Hi'); [by rewrite Ec|done|by apply appended_blocked].
    + cbn [set_daddr d_addrs]. rewrite list_lookup_total_insert_eq by (rewrite (fb_len _ _ _ _ _ Hfb); lia).
      rewrite xint_id; lia.
  - rewrite Ek, (block_nonzero _ _ _ _ Hfb) by lia. kstep. rewrite (file_addr _ _ _ _ Hfb), Ek by lia.
    pose proof (HQ (fblk V (d_addrs din) k) s V (d_addrs din)) as HQ'. rewrite set_daddrs_id in HQ'.
    apply HQ'; [done| |done|apply blocked_refl; [done|lia]]. replace (Z.max n (k + 1)) with n by lia. lia.
Qed.

(** A block behind the direct ones; the indirect block [a] is there. *)
Lemma wp_block_indirect {A} s V addrs n k a (m : Z -> M mk A) Q : mk_inv s V -> (k = n /\ ready st sb V addrs n \/ k < n /\ file_blocks st sb V addrs n) ->
  NDIRECT <= k <= n -> k < MAXFILE -> a = indirect addrs -> data_block a -> used V a = true ->
  (k = n -> mk_freeblock s < st) ->
  (forall x s' V', mk_inv s' V' -> mk_freeblock s' = mk_freeblock s + (if k =? n then 1 else 0) ->
     mk_freeinode s' = mk_freeinode s -> blocked V addrs n k V' addrs x -> wp (m x) Q s') ->
  wp (rsect a) (fun indirect => wp (
      indirect <- (if ind_get indirect (k - NDIRECT) =? 0 then
                     b <- next_block ;;
                     let indirect := put32 indirect (Z.to_nat (4 * (k - NDIRECT))) (xint b) in
                     wsect a indirect ;;
                     ret indirect
                   else ret indirect) ;;
      m (xint (ind_get indirect (k - NDIRECT)))) Q) s.
Proof.
  intros Hi Hor Hk Hmax -> Hda Hua Hlt HQ. pose proof NDIRECT_val as HN. pose proof MAXFILE_val as HM.
  set (a := indirect addrs) in *. pose proof (proj1 (data_block_mk a) Hda) as Ha.
  apply (wp_rsect s V); [done|lia|lia|]. kstep.
  assert (ind_get (V a) (k - NDIRECT) = fblk V addrs k) as Ek by (symmetry; apply (fblk_ind st sb mkfs_geo); [lia|done]).
  rewrite Ek. destruct Hor as [[-> Hr]|[Hkn Hfb]].
  - rewrite Z.eqb_refl in HQ. rewrite (rd_none _ _ _ _ _ Hr) by lia. cbn [Z.eqb]. kstep.
    apply (wp_next_block s V); [done|auto|]. intros b s' Hb Hu Hi'. unfold wsect. kstep.
    pose proof (proj1 (data_block_mk b) Hb) as Hb'. rewrite (xint_id b) by lia.
    pose proof (mi_512 _ _ Hi) as HV. assert (length (V a) = 512%nat) as Hl by (apply HV; lia).
    destruct (alloc_keeps st sb mkfs_geo V b a HV Hb Hu Hda Hua) as (Hab & Va & _).
    pose proof (indirect_append st sb mkfs_geo V addrs n b HV Hr ltac:(done) Hb Hu) as Hap.
    rewrite ind_get_put; [|done|change NINDIRECT with 128; lia..|lia]. rewrite Z.eqb_refl, xint_id by lia.
    assert (a < mk_freeblock s) as Haf by (rewrite (mi_bit s V) in Hua by (done || lia); lia).
    eapply HQ; [|done|done|apply appended_blocked, Hap].
    unfold indirect_view. fold a. rewrite Va. apply (mi_write s' (alloc_view sb V b) a); [done| |lia|].
    + unfold s'; cbn; unfold b; lia.
    + rewrite length_put32; lia.
  - destruct (fb_data _ _ _ _ _ Hfb k) as [Hdk _]; [lia|].
    pose proof (proj1 (data_block_mk _) Hdk). rewrite (nonzero_data st sb mkfs_geo _ Hdk). kstep. rewrite Ek, xint_id by lia.
    destruct (Z.eqb_spec k n); [lia|]. apply (HQ _ s V); [done|lia|done|]. apply blocked_refl; [done|lia].
Qed.

(** Two allocations: the first block behind the direct ones brings the
    indirect block with it. *)
Lemma blocked_cross V addrs a V' x : blocks_512 st V -> file_blocks st sb V addrs NDIRECT -> data_block a -> used V a = false ->
  let addrs1 := <[Z.to_nat NDIRECT := a]> addrs in
  blocked (alloc_view sb V a) addrs1 NDIRECT NDIRECT V' addrs1 x -> blocked V addrs NDIRECT NDIRECT V' addrs1 x.
Proof.
  intros HV Hfb Hda Hua addrs1 [B1 B2 B3 B4 B5 B6 B7 B8].
  destruct (ready_alloc st sb mkfs_geo V addrs a HV Hfb Hda Hua) as (Ei & Hr & Hold). fold addrs1 in Ei, Hr, Hold.
  assert (forall y, 0 <= y < sb_size sb -> used V y = true -> used (alloc_view sb V a) y = true) as Hu.
  { intros y Hy Huy. rewrite (alloc_used st sb mkfs_geo), Huy by (done || by apply (data_range st sb mkfs_geo)). done. }
  split; try done.
  - intros j Hj. destruct (B3 j Hj) as [E1 E2], (Hold j Hj) as [E3 E4]. rewrite E3 in E1, E2. by rewrite E2, E4.
  - right. destruct B5 as [?|B5]; [lia|]. destruct (used V x) eqn:E; [|done]. rewrite Hu in B5; [done| |done].
    apply (data_range st sb mkfs_geo). rewrite <- B2. apply (fb_data _ _ _ _ _ B1). rewrite NDIRECT_val. lia.
  - right. by rewrite Ei.
  - intros y Hy Huy. by apply B7, Hu.
  - intros y Hnb Hdy _. assert (y <> a) as Hya by (intros ->; specialize (Hdy Hda); congruence).
    rewrite B8; [apply (alloc_same sb); [done|done|by apply (data_range st sb mkfs_geo)]|done| |congruence].
    intros Hd. apply Hu; [by apply (data_range st sb mkfs_geo)|by apply Hdy].
Qed.

Lemma wp_iappend_block s V din n k Q : mk_inv s V -> file_blocks st sb V (d_addrs din) n -> 0 <= k <= n -> k < MAXFILE ->
  mk_freeblock s + (bcost (Z.max n (k + 1)) - bcost n) <= st ->
  (forall x s' V' addrs', mk_inv s' V' -> mk_freeblock s' = mk_freeblock s + (bcost (Z.max n (k + 1)) - bcost n) ->
     mk_freeinode s' = mk_freeinode s -> blocked V (d_addrs din) n k V' addrs' x ->
     Q (x, set_daddrs addrs' din) s') ->
  wp (iappend_block k din) Q s.
Proof.
  intros Hi Hfb Hk Hmax Hfit HQ. pose proof NDIRECT_val as HN. pose proof MAXFILE_val as HM.
  destruct (Z.ltb_spec k NDIRECT) as [Hd|Hd]; [by apply (wp_block_direct s V din n)|].
  unfold iappend_block, own_addr. rewrite (proj2 (Z.ltb_ge _ _) Hd), (file_addr _ _ _ _ Hfb) by lia. kstep.
  fold (indirect (d_addrs din)). destruct (decide (n = NDIRECT)) as [->|Hne].
  - assert (k = NDIRECT) as -> by lia.
    assert (bcost (Z.max NDIRECT (NDIRECT + 1)) - bcost NDIRECT = 2) as Ec by done. rewrite Ec in Hfit, HQ.
    rewrite (fb_noind _ _ _ _ _ Hfb) by lia. cbn [Z.eqb]. kstep.
    apply (wp_next_block s V); [done|lia|]. intros a s' Ha Hu Hi'. kstep.
    pose proof (proj1 (data_block_mk a) Ha) as Ha'. rewrite (xint_id a) by lia.
    pose proof (mi_512 _ _ Hi) as HV.
    destruct (ready_alloc st sb mkfs_geo V (d_addrs din) a HV Hfb Ha Hu) as (Ei & Hr & _).
    cbn [set_daddr d_addrs]. fold (indirect (<[Z.to_nat NDIRECT := a]> (d_addrs din))). rewrite Ei, xint_id by lia.
    change (set_daddr NDIRECT a din) with (set_daddrs (<[Z.to_nat NDIRECT := a]> (d_addrs din)) din).
    destruct (rd_ind _ _ _ _ _ Hr) as [_ Hua]. rewrite Ei in Hua.
    apply (wp_block_indirect s' (alloc_view sb V a) (<[Z.to_nat NDIRECT := a]> (d_addrs din)) NDIRECT NDIRECT a
      (fun x => ret (x, set_daddrs (<[Z.to_nat NDIRECT := a]> (d_addrs din)) din))); try done; [by left|intros _; unfold s'; cbn; unfold a; lia|].
    intros x s2 V2 Hi2 Hf2 Hn2 Hbl. kstep. apply (HQ x s2 V2); [done| |done|by apply blocked_cross].
    rewrite Hf2. unfold s'. cbn. unfold a. lia.
  - destruct (fb_ind _ _ _ _ _ Hfb ltac:(lia)) as [Hda Hua]. pose proof (proj1 (data_block_mk _) Hda).
    rewrite (nonzero_data st sb mkfs_geo _ Hda). kstep. rewrite (file_addr _ _ _ _ Hfb) by lia.
    assert (bcost (Z.max n (k + 1)) - bcost n = if k =? n then 1 else 0) as Ec.
    { unfold bcost. rewrite !(proj2 (Z.ltb_lt NDIRECT _)) by lia. destruct (Z.eqb_spec k n); lia. }
    apply (wp_block_indirect s V (d_addrs din) n k _ (fun x => ret (x, din))); try (done || lia).
    + destruct (decide (k = n)) as [->|]; [left; split; [done|apply blocks_ready; [done|lia]]|right; split; [lia|done]].
    + intros ->. rewrite Z.eqb_refl in Ec. lia.
    + intros x s2 V2 Hi2 Hf2 Hn2 Hbl. kstep. pose proof (HQ x s2 V2 (d_addrs din)) as HQ'. rewrite set_daddrs_id in HQ'.
      apply HQ'; [done|by rewrite Hf2, Ec|done|done].
Qed.

Lemma blocked_wstep V addrs n k V' addrs' x d : blocked V addrs n k V' addrs' x -> 0 <= k <= n ->
  file_blocks st sb (fupd V' x d) addrs' (Z.max n (k + 1)) ->
  wstep st sb V addrs n (fupd V' x d) addrs' (Z.max n (k + 1)).
Proof.
  intros [] Hk Hfb2. assert (data_block x) as Hdx.
  { rewrite <- bl_new0. apply (fb_data _ _ _ _ _ bl_blocks0). lia. }
  pose proof (fblk_data st sb V' addrs' (Z.max n (k + 1)) k x d bl_blocks0 ltac:(lia) bl_new0) as Ef.
  split.
  - intros y Hy Hu. rewrite (used_ext sb V'); [by apply bl_used0|]. apply fupd_ne. intros E.
    apply (data_not_bitmap st sb mkfs_geo x Hdx). rewrite <- E. by exists y.
  - intros y Hnb Hdy Hyk Hyi. rewrite fupd_ne; [by apply bl_keep0|]. intros ->. destruct bl_fresh0 as [Hlt|Hf].
    + apply (Hyk k); [lia|]. rewrite <- bl_new0. apply bl_old0. lia.
    + rewrite Hdy in Hf; done.
  - intros j Hj. rewrite Ef. destruct (decide (j < n)) as [Hlt|Hge].
    + left. split; [lia|]. apply bl_old0. lia.
    + right. assert (j = k) as -> by lia. rewrite bl_new0. split; [done|]. by destruct bl_fresh0; [lia|].
  - done.
Qed.

(** *** The loop of [iappend]

    The rest of the last block of a file is zero. *)
Definition pad (C : bytes) : bytes := C ++ replicate (Z.to_nat (512 * nblk (Z.of_nat (length C))) - length C) 0.

Lemma nblk_len (C : bytes) : (length C <= Z.to_nat (512 * nblk (Z.of_nat (length C))))%nat.
Proof. destruct (nblk_range (Z.of_nat (length C))) as [?|[? ?]]; lia. Qed.

Lemma length_pad C : length (pad C) = Z.to_nat (512 * nblk (Z.of_nat (length C))).
Proof. unfold pad. rewrite length_app, length_replicate. pose proof (nblk_len C). lia. Qed.

Lemma nblk_nonneg n : 0 <= n -> 0 <= nblk n.
Proof. intros Hn. apply Z.div_pos; lia. Qed.

Lemma nblk_full k : 0 <= k -> nblk (512 * k) = k.
Proof. intros Hk. unfold nblk. symmetry. apply (Z.div_unique _ _ _ 511); lia. Qed.

Lemma nblk_pad C : nblk (Z.of_nat (length (pad C))) = nblk (Z.of_nat (length C)).
Proof.
  rewrite length_pad. pose proof (nblk_nonneg (Z.of_nat (length C)) ltac:(lia)). rewrite Z2Nat.id by lia. by apply nblk_full.
Qed.

Lemma splice_end {A} (C Z w : list A) : splice (C ++ Z) (length C) w = C ++ w ++ drop (length w) Z.
Proof. unfold splice. rewrite take_app_length. do 2 f_equal. rewrite <- drop_drop, drop_app_length. done. Qed.

(** The bytes of the last block after [w] has been put behind [C]. *)
Definition tail_block (C w : bytes) : bytes :=
  if Z.of_nat (length C) / 512 <? nblk (Z.of_nat (length C)) then w else splice zeros 0 w.

Lemma pad_app C w : w <> [] -> (length C mod 512 + length w <= 512)%nat ->
  pad (C ++ w) = splice (pad C) (length C) (tail_block C w).
Proof.
  intros Hw Hfit. assert (0 < length w)%nat as Hwl by (destruct w; cbn; [done|lia]).
  destruct (off_split (length C)) as [Ek _]. pose proof (Nat.div_mod_eq (length C) 512) as Hdm.
  pose proof (Nat.mod_upper_bound (length C) 512 ltac:(lia)) as Hmb. set (k := (length C / 512)%nat) in *.
  assert (nblk (Z.of_nat (length (C ++ w))) = Z.of_nat k + 1) as En by (rewrite length_app; apply nblk_of; lia).
  unfold tail_block, pad. rewrite Ek, En, splice_end, length_app, <- app_assoc. f_equal.
  destruct (Z.ltb_spec (Z.of_nat k) (nblk (Z.of_nat (length C)))) as [Hlt|Hge].
  - rewrite drop_replicate. do 2 f_equal. destruct (nblk_range (Z.of_nat (length C)) ltac:(lia)); lia.
  - assert (Z.of_nat (length C) = 512 * nblk (Z.of_nat (length C)) /\ length C = (512 * k)%nat) as [E1 E2].
    { destruct (nblk_range (Z.of_nat (length C)) ltac:(lia)); lia. }
    unfold splice, zeros. rewrite take_0, !drop_replicate. cbn [app]. rewrite <- app_assoc, <- replicate_add.
    do 2 f_equal. rewrite length_app, length_replicate. lia.
Qed.

Lemma splice_all {A} (l w : list A) : length w = length l -> splice l 0 w = w.
Proof. intros H. unfold splice. rewrite take_0, drop_ge by lia. apply app_nil_r. Qed.

(** One piece, into the block found for it. *)
Lemma round_rep V addrs C V1 addrs1 x w :
  let n := nblk (Z.of_nat (length C)) in let k := Z.of_nat (length C) / 512 in
  file_rep st sb V addrs (pad C) -> blocked V addrs n k V1 addrs1 x -> blocks_512 st V1 ->
  w <> [] -> (length C mod 512 + length w <= 512)%nat ->
  let V2 := fupd V1 x (splice (V1 x) (length C mod 512) w) in
  file_rep st sb V2 addrs1 (pad (C ++ w)) /\ wstep st sb V addrs n V2 addrs1 (nblk (Z.of_nat (length (C ++ w)))).
Proof.
  intros n k Hrep Hbl H512 Hw Hfit V2. destruct (off_split (length C)) as [Ek _].
  pose proof (Nat.div_mod_eq (length C) 512) as Hdm. pose proof (Nat.mod_upper_bound (length C) 512 ltac:(lia)) as Hmb.
  assert (0 < length w)%nat as Hwl by (destruct w; cbn; [done|lia]).
  assert (0 <= k <= n) as Hkn by (unfold n, k; rewrite Ek; destruct (nblk_range (Z.of_nat (length C)) ltac:(lia)); lia).
  assert (nblk (Z.of_nat (length (C ++ w))) = Z.max n (k + 1)) as En.
  { rewrite length_app, (nblk_of _ (k + 1)) by (unfold k; rewrite Ek; lia).
    destruct (nblk_range (Z.of_nat (length C)) ltac:(lia)) as [?|[? ?]]; unfold n, k in *; rewrite ?Ek in *; lia. }
  assert (V2 = fupd V1 x (splice (V1 x) (length C mod 512) (tail_block C w)) /\ tail_block C w <> [] /\
    (length C mod 512 + length (tail_block C w) <= 512)%nat) as (E2 & Hw2 & Hfit2).
  { unfold V2, tail_block. fold k n. destruct (Z.ltb_spec k n) as [|Hge]; [done|].
    assert (k = n) as Ekn by lia. assert (length C mod 512 = 0)%nat as ->.
    { unfold n, k in *; rewrite Ek in *. destruct (nblk_range (Z.of_nat (length C)) ltac:(lia)); lia. }
    rewrite (bl_zero _ _ _ _ _ _ _ Hbl Ekn). assert (length (splice zeros 0 w) = 512%nat) as Hl.
    { rewrite length_splice; rewrite length_zeros; [done|lia]. }
    split_and!; [|intros E; by rewrite E in Hl|lia]. f_equal. symmetry. apply splice_all. by rewrite length_zeros. }
  assert (file_rep st sb V2 addrs1 (pad (C ++ w))) as Hrep2.
  { rewrite pad_app, E2 by done. apply (write_piece st sb mkfs_geo V addrs); rewrite ?nblk_pad; try done.
    - rewrite length_pad. apply nblk_len.
    - apply (bl_blocks _ _ _ _ _ _ _ Hbl).
    - apply (bl_new _ _ _ _ _ _ _ Hbl).
    - apply (bl_old _ _ _ _ _ _ _ Hbl). }
  split; [done|]. rewrite En. apply blocked_wstep; [done|done|]. rewrite <- En, <- nblk_pad. apply Hrep2.
Qed.

Lemma bcost_mono a b : a <= b -> bcost a <= bcost b.
Proof. intros H. unfold bcost. destruct (Z.ltb_spec NDIRECT a), (Z.ltb_spec NDIRECT b); lia. Qed.

Lemma nblk_mono a b : a <= b -> nblk a <= nblk b.
Proof. intros H. apply Z.div_le_mono; lia. Qed.

Notation nb C := (nblk (Z.of_nat (length C))).

Lemma iappend_loop_spec fuel p s V C din Q : mk_inv s V -> file_rep st sb V (d_addrs din) (pad C) ->
  (length p <= fuel)%nat -> Z.of_nat (length (C ++ p)) <= MAXFILE * 512 ->
  mk_freeblock s + (bcost (nb (C ++ p)) - bcost (nb C)) <= st ->
  (forall s' V' addrs', mk_inv s' V' -> mk_freeblock s' = mk_freeblock s + (bcost (nb (C ++ p)) - bcost (nb C)) ->
     mk_freeinode s' = mk_freeinode s -> file_rep st sb V' addrs' (pad (C ++ p)) ->
     wstep st sb V (d_addrs din) (nb C) V' addrs' (nb (C ++ p)) ->
     Q (Z.of_nat (length (C ++ p)), set_daddrs addrs' din) s') ->
  wp (iappend_loop fuel p (Z.of_nat (length C)) din) Q s.
Proof.
  revert p s V C din. induction fuel as [|fuel IH]; intros p s V C din Hi Hrep Hfuel Hmax Hfit HQ.
  - destruct p; [|cbn in Hfuel; lia]. cbn. kstep. rewrite app_nil_r in *.
    pose proof (HQ s V (d_addrs din)) as HQ'. rewrite set_daddrs_id in HQ'. apply HQ'; [done|lia|done|done|apply wstep_refl].
  - cbn [iappend_loop]. destruct (Z.leb_spec (Z.of_nat (length p)) 0) as [H0|H0].
    { destruct p; [|cbn in H0; lia]. kstep. rewrite app_nil_r in *.
      pose proof (HQ s V (d_addrs din)) as HQ'. rewrite set_daddrs_id in HQ'. apply HQ'; [done|lia|done|done|apply wstep_refl]. }
    set (k := Z.of_nat (length C) / 512). set (n1 := Z.min (Z.of_nat (length p)) ((k + 1) * 512 - Z.of_nat (length C))).
    set (w := take (Z.to_nat n1) p). pose proof MAXFILE_val as HM. rewrite length_app in Hmax.
    pose proof (Z.div_mod (Z.of_nat (length C)) 512 ltac:(lia)) as Hdm. fold k in Hdm.
    pose proof (Z.mod_pos_bound (Z.of_nat (length C)) 512 ltac:(lia)) as Hmb.
    destruct (off_split (length C)) as [_ Em].
    assert (0 < n1) as Hn1 by lia. assert (Z.of_nat (length w) = n1) as Hwl by (unfold w; rewrite length_take; lia).
    assert (w <> []) as Hw by (intros E; rewrite E in Hwl; cbn in Hwl; lia).
    assert ((length C mod 512 + length w <= 512)%nat) as Hwfit by lia.
    assert (C ++ p = (C ++ w) ++ drop (Z.to_nat n1) p) as Ep by (unfold w; by rewrite <- app_assoc, take_drop).
    assert (nb (C ++ w) = Z.max (nb C) (k + 1)) as En.
    { rewrite length_app, (nblk_of _ (k + 1)) by lia. destruct (nblk_range (Z.of_nat (length C)) ltac:(lia)) as [?|[? ?]]; lia. }
    assert (nb (C ++ w) <= nb (C ++ p)) as Hnm by (apply nblk_mono; rewrite Ep, (length_app (C ++ w)); lia).
    pose proof (bcost_mono _ _ Hnm) as Hcm.
    unfold assert at 1. destruct (Z.ltb_spec k MAXFILE) as [_|?]; [|lia]. kstep.
    pose proof (fr_blocks _ _ _ _ _ Hrep) as Hfb. rewrite nblk_pad in Hfb.
    apply (wp_iappend_block s V din (nb C) k); [done|done| |lia|rewrite <- En; lia|].
    { destruct (nblk_range (Z.of_nat (length C)) ltac:(lia)) as [?|[? ?]]; lia. }
    intros x s1 V1 addrs1 Hi1 Hf1 Hn1' Hbl. rewrite <- En in Hf1. kstep.
    destruct (round_rep V (d_addrs din) C V1 addrs1 x w Hrep Hbl (mi_512 _ _ Hi1) Hw Hwfit) as [Hrep2 Hst].
    destruct (fb_data _ _ _ _ _ (bl_blocks _ _ _ _ _ _ _ Hbl) k) as [Hdx Hux]; [lia|].
    rewrite (bl_new _ _ _ _ _ _ _ Hbl) in Hdx, Hux. pose proof (proj1 (data_block_mk x) Hdx) as Hx.
    apply (wp_rsect s1 V1); [done|lia|lia|]. unfold wsect. kstep. fold w.
    replace (Z.to_nat (Z.of_nat (length C) - k * 512)) with (length C mod 512)%nat by lia.
    replace (u32 (Z.of_nat (length C) + n1)) with (Z.of_nat (length (C ++ w))) by (rewrite length_app, u32_small; lia).
    rewrite (mi_bit s1 V1) in Hux by (done || lia).
    assert (length (V1 x) = 512%nat) as Hlx by (apply (mi_512 _ _ Hi1); lia).
    eapply (IH _ _ (fupd V1 x (splice (V1 x) (length C mod 512) w)) (C ++ w) (set_daddrs addrs1 din)).
    + apply mi_write; [done|lia|lia|]. rewrite length_splice; [done|lia].
    + done.
    + rewrite length_drop. lia.
    + rewrite <- Ep, length_app. lia.
    + cbn [mk_freeblock]. rewrite <- Ep. lia.
    + rewrite <- Ep. cbn [mk_freeblock mk_freeinode]. intros s' V' addrs' Hi' Hf' Hn' Hrep' Hst'.
      eapply (HQ s' V' addrs'); [done|lia|congruence|done|]. by eapply (wstep_trans st sb mkfs_geo).
Qed.

(** *** The files *)

Record mk_fs (s : mk) (V : Z -> bytes) (F : gmap Z bytes) (K : gmap Z Z) : Prop := {
  mf_inv : mk_inv s V;
  mf_rep : fs_rep st sb V F;
  mf_pad i C : F !! i = Some C -> file_rep st sb V (d_addrs (disk_inode V i)) (pad C);
  mf_ok i C : F !! i = Some C -> dinode_ok (disk_inode V i);
  mf_kind i C : F !! i = Some C -> K !! i = Some (d_type (disk_inode V i)) /\ d_nlink (disk_inode V i) = 1;
  mf_dom i C : F !! i = Some C -> 1 <= i < mk_freeinode s;
  mf_ino : 1 <= mk_freeinode s <= ninodes;
  mf_sb : sb_dec (V 1) = sb
}.

Lemma iblock_mk i : 0 <= i < ninodes -> IBLOCK i = i2b i /\ 2 <= IBLOCK i < 28.
Proof.
  intros Hi. unfold ninodes in Hi. destruct (iblock_range st sb mkfs_geo i Hi) as (E & ? & Hnb & Hnd).
  rewrite E. unfold i2b. split; [done|]. change IPB with 8. assert (i / 8 < 25) by (apply Z.div_lt_upper_bound; lia).
  pose proof (Z.div_pos i 8). lia.
Qed.

Lemma file_rep_unpad V addrs C : file_rep st sb V addrs (pad C) -> file_rep st sb V addrs C.
Proof.
  intros [Hfb HC]. rewrite nblk_pad in Hfb. split; [done|]. intros o Ho. rewrite <- HC.
  - unfold pad. by rewrite lookup_app_l.
  - unfold pad. rewrite length_app. lia.
Qed.

(** The step of the file system when the inode is written last. *)
Lemma mk_fs_update s V F K V1 inum addrs C C' d n t s2 :
  mk_fs s V F K -> 1 <= inum < ninodes -> file_rep st sb V addrs (pad C) ->
  (forall j D x, j <> inum -> F !! j = Some D -> file_owns V j D x -> ~ owns V addrs (nb C) x) ->
  wstep st sb V addrs (nb C) V1 (d_addrs d) (nb C') -> file_rep st sb V1 (d_addrs d) (pad C') -> blocks_512 st V1 ->
  dinode_ok d -> d_size d = Z.of_nat (length C') -> n = dip_off inum -> d_type d = t -> d_nlink d = 1 ->
  let V2 := fupd V1 (IBLOCK inum) (splice (V1 (IBLOCK inum)) n (dinode_enc d)) in
  mk_inv s2 V2 -> mk_freeinode s2 = Z.max (mk_freeinode s) (inum + 1) ->
  mk_fs s2 V2 (<[inum := C']> F) (<[inum := t]> K).
Proof.
  intros Hfs Hin Hrep Hap Hst Hrep1 H512 Hd Hsz -> Ht Hnl V2 Hi2 Hfi. unfold ninodes in Hin.
  destruct (iblock_mk inum) as [_ Hib]; [unfold ninodes; lia|].
  destruct (iblock_range st sb mkfs_geo inum) as (_ & _ & Hnb & Hnd); [cbn; unfold ninodes; lia|].
  assert (length (dinode_enc d) = 64%nat) as Hle by (apply length_dinode_enc, Hd).
  pose proof (dip_off_range inum ltac:(lia)) as Hdo. assert (length (V1 (IBLOCK inum)) = 512%nat) as Hl1 by (apply H512; lia).
  assert (disk_inode V2 inum = d) as Ed.
  { unfold disk_inode, V2. rewrite fupd_eq. rewrite <- Hle at 1. rewrite slice_splice_same by lia. by apply dinode_dec_enc. }
  assert (forall x, x <> IBLOCK inum -> V2 x = V1 x) as HV2 by (intros; by apply fupd_ne).
  pose proof (fr_blocks _ _ _ _ _ Hrep) as Hfb. rewrite nblk_pad in Hfb.
  pose proof (fr_blocks _ _ _ _ _ Hrep1) as Hfb1. rewrite nblk_pad in Hfb1.
  assert (forall l D, file_rep st sb V1 l D -> file_rep st sb V2 l D) as Hext.
  { intros l D. apply (file_rep_ext st sb mkfs_geo). intros x [Hx|Hx]; apply HV2; by intros ->. }
  assert (write_kept st sb V inum addrs (nb C) V2) as Hwk.
  { intros x ? ? ? ? Hx. rewrite HV2 by done. by apply (sw_keep _ _ _ _ _ _ _ _ Hst). }
  assert (inodes_kept sb V inum V2) as Hik.
  { intros j Hj Hne. unfold V2. rewrite (inodes_kept_splice st sb mkfs_geo V1 inum) by (done || cbn; unfold ninodes; lia).
    destruct (iblock_range st sb mkfs_geo j Hj) as (_ & ? & ? & ?).
    rewrite (wstep_meta st sb V addrs (nb C) V1 (d_addrs d) (nb C')); [done..|lia]. }
  assert (forall x, 0 <= x < sb_size sb -> used V x = true -> used V2 x = true) as Hu.
  { intros x Hx Hux. rewrite (used_ext sb V1); [by apply (sw_used _ _ _ _ _ _ _ _ Hst)|]. apply HV2.
    intros E. apply Hnb. rewrite <- E. by exists x. }
  assert (fs_rep st sb V2 (<[inum := C']> F)) as Hfs2.
  { apply (fs_rep_update st sb mkfs_geo V V2 inum addrs C); try done.
    - apply Hfs.
    - by apply file_rep_unpad.
    - cbn. unfold ninodes. lia.
    - split; rewrite Ed; [done|]. by apply file_rep_unpad, Hext.
    - intros x. unfold file_owns. rewrite Ed. intros Hx. eapply (wstep_owns st sb mkfs_geo); [done|done|done|].
      destruct Hx as [(k & Hk & ->)|Hx]; [|by right]. left. exists k. split; [done|]. apply fblk_ext. intros Hnz.
      apply HV2. intros E. apply Hnd. rewrite <- E. by eapply (ind_data st sb). }
  assert (forall j D, j <> inum -> F !! j = Some D -> disk_inode V2 j = disk_inode V j) as Edj.
  { intros j D Hne Hj. unfold disk_inode. destruct (mf_dom _ _ _ _ Hfs _ _ Hj). pose proof (mf_ino _ _ _ _ Hfs).
    unfold ninodes in *. rewrite Hik; [done|cbn; unfold ninodes; lia|done]. }
  split; [done|done|..].
  - intros j D [[<- <-]|[Hne HD]]%lookup_insert_Some; [rewrite Ed; by apply Hext|].
    rewrite (Edj j D) by done. eapply (file_rep_own st sb V); [|by apply (mf_pad _ _ _ _ Hfs)].
    rewrite nblk_pad. apply (owned_kept st sb mkfs_geo V V2 inum addrs C j D); try done.
    + by apply file_rep_unpad.
    + cbn. unfold ninodes. lia.
    + intros x. by apply (Hap j D x).
    + by apply (fs_file _ _ _ _ (mf_rep _ _ _ _ Hfs)).
  - intros j D [[<- <-]|[Hne HD]]%lookup_insert_Some; [by rewrite Ed|]. rewrite (Edj j D) by done. by apply (mf_ok _ _ _ _ Hfs j D).
  - intros j D [[<- <-]|[Hne HD]]%lookup_insert_Some; [rewrite Ed, lookup_insert_eq; by rewrite Ht|].
    rewrite (Edj j D), lookup_insert_ne by done. by apply (mf_kind _ _ _ _ Hfs j D).
  - intros j D [[<- <-]|[Hne HD]]%lookup_insert_Some; [lia|]. pose proof (mf_dom _ _ _ _ Hfs j D HD). lia.
  - pose proof (mf_ino _ _ _ _ Hfs). unfold ninodes in *. lia.
  - rewrite HV2 by lia. rewrite <- (mf_sb _ _ _ _ Hfs). f_equal. apply (wstep_meta st sb V addrs (nb C) V1 (d_addrs d) (nb C')); try done.
    + intros ?%is_bitmap_mk. lia.
    + unfold FsBlock.data_block. vm_compute. by intros [? _].
Qed.

(** ** The tree of files

    The specification: the contents and the type by inode number, the next
    inode and the next block. *)
Record tree := Tree { t_files : gmap Z bytes; t_kinds : gmap Z Z; t_next : Z; t_blocks : Z }.

Definition t_alloc (type : Z) (t : tree) : tree :=
  Tree (<[t_next t := []]> (t_files t)) (<[t_next t := type]> (t_kinds t)) (t_next t + 1) (t_blocks t).

Definition t_append (i : Z) (l : bytes) (t : tree) : tree :=
  let C := default [] (t_files t !! i) in
  Tree (<[i := C ++ l]> (t_files t)) (t_kinds t) (t_next t) (t_blocks t + (bcost (nb (C ++ l)) - bcost (nb C))).

(** It fits on the disk. *)
Definition fits (t : tree) : Prop :=
  t_next t <= ninodes /\ t_blocks t <= LOG_START /\
  map_Forall (fun _ C => Z.of_nat (length C) <= MAXFILE * BSIZE) (t_files t).

Definition models (s : mk) (t : tree) : Prop :=
  exists V, mk_fs s V (t_files t) (t_kinds t) /\ mk_freeinode s = t_next t /\ mk_freeblock s = t_blocks t.

Lemma t_append_blocks i l t : t_blocks t <= t_blocks (t_append i l t).
Proof.
  cbn. set (C := default [] _).
  assert (nb C <= nb (C ++ l)) as H by (apply nblk_mono; rewrite length_app; lia). apply bcost_mono in H. lia.
Qed.

Lemma fits_append i l t : fits (t_append i l t) -> fits t.
Proof.
  intros (Hn & Hb & Hs). pose proof (t_append_blocks i l t). split_and!; [done|lia|].
  intros j C HC. cbn in Hs. destruct (decide (j = i)) as [->|Hne].
  - specialize (Hs i (C ++ l)). rewrite HC in Hs. cbn in Hs. rewrite lookup_insert_eq, length_app in Hs. specialize (Hs eq_refl). lia.
  - apply (Hs j C). by rewrite lookup_insert_ne.
Qed.

Lemma fits_alloc type t : t_files t !! t_next t = None -> fits (t_alloc type t) -> fits t.
Proof.
  intros HN (Hn & Hb & Hs). cbn in *. split_and!; [lia|done|].
  intros j C HC. apply (Hs j C). rewrite lookup_insert_ne; [done|congruence].
Qed.

Lemma file_rep_nil V : file_rep st sb V (replicate 13 0) [].
Proof.
  assert (forall k, 0 <= k < MAXFILE -> fblk V (replicate 13 0) k = 0) as E0.
  { intros k Hk. unfold fblk. change (indirect (replicate 13 0)) with 0. cbn [Z.eqb].
    destruct (Z.ltb_spec k NDIRECT) as [Hlt|]; [|done]. rewrite NDIRECT_val in Hlt. apply lookup_total_replicate_2. lia. }
  pose proof MAXFILE_val. pose proof NDIRECT_val. split; [|cbn; lia]. change (nb (@nil Z)) with 0.
  split; try done; intros; try lia.
Qed.

Lemma dinode_ok_set d addrs (n : Z) V k : dinode_ok d -> file_blocks st sb V addrs k -> 0 <= n < 2 ^ 32 ->
  dinode_ok (set_dsize n (set_daddrs addrs d)).
Proof.
  intros [] Hfb Hn. split; cbn; try done; [by apply Hfb|]. by eapply (addrs_range st sb mkfs_geo).
Qed.

(** [winode] when [d] is to be the inode. *)
Lemma wp_winode s V inum d Q : mk_inv s V -> 0 <= inum < ninodes ->
  (let V2 := fupd V (IBLOCK inum) (splice (V (IBLOCK inum)) (dip_off inum) (dinode_enc d)) in
   forall s', mk_inv s' V2 -> mk_freeinode s' = mk_freeinode s -> mk_freeblock s' = mk_freeblock s -> Q tt s') ->
  dinode_ok d -> wp (winode inum d) Q s.
Proof.
  intros Hi Hin HQ Hd. destruct (iblock_mk inum Hin) as [E Hib]. unfold winode. rewrite <- E. kstep.
  apply (wp_rsect s V); [done|lia|lia|]. unfold wsect. kstep. pose proof (mi_free _ _ Hi).
  apply HQ; [|done|done]. apply mi_write; [done|lia|lia|].
  assert (length (V (IBLOCK inum)) = 512%nat) as Hl by (apply (mi_512 _ _ Hi); lia).
  pose proof (dip_off_range inum ltac:(lia)). rewrite length_splice; [done|]. rewrite length_dinode_enc by apply Hd. lia.
Qed.

(** The counters other than those of the image do not matter to it. *)
Lemma mi_freeinode s V n : mk_inv s V -> mk_inv (Mk (mk_img s) (mk_secs s) (mk_freeblock s) (mk_usedblocks s) n) V.
Proof. by intros []. Qed.

Lemma pad_nil : pad [] = [].
Proof. done. Qed.

Lemma ialloc_sim s t type : models s t -> 0 <= type < 2 ^ 15 -> fits (t_alloc type t) ->
  wp (mk_ialloc type) (fun i s' => i = t_next t /\ models s' (t_alloc type t)) s.
Proof.
  intros (V & Hfs & En & Eb) Ht Hfit. pose proof (mf_ino _ _ _ _ Hfs) as Hino. pose proof (mf_inv _ _ _ _ Hfs) as Hi.
  destruct Hfit as (Hn & _). cbn [t_alloc t_next] in Hn. unfold ninodes in *.
  unfold mk_ialloc. rewrite (xshort_id type), (xshort_id 1), (xint_id 0) by lia. kstep. rewrite u32_small, En by lia.
  set (d := Dinode type 0 0 1 0 (replicate 13 0)).
  assert (dinode_ok d) as Hd.
  { split; [|done|done|by apply Forall_replicate]. cbn. repeat constructor; lia. }
  apply (wp_winode _ V); [by apply mi_freeinode|unfold ninodes; lia| |done].
  intros V2 s' Hi2 Hf2 Hb2. kstep. split; [done|]. exists V2. cbn [t_alloc t_files t_kinds t_next t_blocks].
  rewrite Hf2, Hb2. cbn [mk_freeinode mk_freeblock]. split_and!; [|done|done].
  apply (mk_fs_update s V _ _ V (t_next t) (replicate 13 0) [] [] d (dip_off (t_next t))); try done.
  - unfold ninodes. lia.
  - rewrite pad_nil. apply file_rep_nil.
  - intros j D x _ _ _ [(k & Hk & _)|[Hk _]]; change (nb (@nil Z)) with 0 in Hk; [lia|rewrite NDIRECT_val in Hk; lia].
  - apply wstep_refl.
  - rewrite pad_nil. apply file_rep_nil.
  - by apply (mi_512 s).
  - rewrite Hf2. cbn. lia.
Qed.

Lemma iappend_sim s t i l C : models s t -> t_files t !! i = Some C -> fits (t_append i l t) ->
  wp (iappend i l) (fun _ s' => models s' (t_append i l t)) s.
Proof.
  intros (V & Hfs & En & Eb) HC (Hn & Hb & Hs). pose proof (mf_inv _ _ _ _ Hfs) as Hi.
  unfold t_append in *. rewrite HC in *. cbn [from_option id t_files t_blocks t_next t_kinds] in *.
  specialize (Hs i (C ++ l) (lookup_insert_eq _ _ _)). cbv beta in Hs. change BSIZE with 512 in Hs.
  pose proof (mf_dom _ _ _ _ Hfs _ _ HC) as Hdom. pose proof (mf_ino _ _ _ _ Hfs) as Hino. unfold ninodes in *.
  destruct (iblock_mk i) as [Ei Hib]; [unfold ninodes; lia|]. unfold iappend, rinode. rewrite <- Ei. kstep.
  apply (wp_rsect s V); [done|lia|lia|]. kstep. change (dinode_dec (slice (V (IBLOCK i)) (dip_off i) 64)) with (disk_inode V i).
  set (din := disk_inode V i). destruct (fs_file _ _ _ _ (mf_rep _ _ _ _ Hfs) i C HC) as [_ [Hsz _]]. fold din in Hsz.
  pose proof (mf_ok _ _ _ _ Hfs _ _ HC) as Hok. fold din in Hok. rewrite xint_id, Hsz by apply Hok.
  pose proof MAXFILE_val as HM. unfold LOG_START, mkfs_size, nlog in Hb.
  pose proof (mf_pad _ _ _ _ Hfs _ _ HC) as Hpad. fold din in Hpad.
  apply (iappend_loop_spec (length l) l s V C din); [done|done|done|lia|lia|].
  intros s1 V1 addrs1 Hi1 Hb1 Hf1 Hrep1 Hst1. kstep. rewrite xint_id by lia.
  pose proof (fr_blocks _ _ _ _ _ Hrep1) as Hfb1.
  set (d := set_dsize (Z.of_nat (length (C ++ l))) (set_daddrs addrs1 din)).
  assert (dinode_ok d) as Hd by (eapply dinode_ok_set; [done|done|lia]).
  destruct (mf_kind _ _ _ _ Hfs _ _ HC) as [HK HL]. fold din in HK, HL.
  apply (wp_winode _ V1); [done|unfold ninodes; lia| |done]. intros V2 s' Hi2 Hf2 Hb2.
  exists V2. cbn [t_files t_kinds t_next t_blocks]. split_and!; [|congruence|lia].
  rewrite <- (insert_id (t_kinds t) i (d_type din)) by done.
  apply (mk_fs_update s V _ _ V1 i (d_addrs din) C (C ++ l) d (dip_off i)); try done.
  - unfold ninodes. lia.
  - intros j D x Hne HD Hx. by apply (fs_apart _ _ _ _ (mf_rep _ _ _ _ Hfs) j i D C x).
  - by apply (mi_512 s1).
  - lia.
Qed.

(** *** Directories and files *)

Definition dirent_of (i : Z) (name : bytes) : bytes := dirent_enc (Dirent i (strncpy name DIRSIZ)).

Lemma mk_dirent_of i name : 0 <= i < 2 ^ 16 -> mk_dirent i name = dirent_of i name.
Proof. intros Hi. unfold mk_dirent, dirent_of. by rewrite xshort_id. Qed.

Definition t_adddir (name : bytes) (par : Z) (t : tree) : tree :=
  let i := t_next t in
  t_append i (dirent_of par (str "..")) (t_append i (dirent_of i (str "."))
    (t_append par (dirent_of i name) (t_alloc T_DIR t))).

(** The files by inode number are those below the next number. *)
Definition twf (t : tree) : Prop := forall i, is_Some (t_files t !! i) <-> 1 <= i < t_next t.

Lemma twf_alloc type t : twf t -> 1 <= t_next t -> twf (t_alloc type t).
Proof.
  unfold twf. intros H Hn i. cbn. destruct (decide (i = t_next t)) as [->|Hne].
  - rewrite lookup_insert_eq. split; [lia|eauto].
  - rewrite lookup_insert_ne, H by done. lia.
Qed.

Lemma twf_append i l t : twf t -> 1 <= i < t_next t -> twf (t_append i l t).
Proof.
  unfold twf. intros H Hi j. cbn. destruct (decide (j = i)) as [->|Hne]; [rewrite lookup_insert_eq; split; eauto|].
  by rewrite lookup_insert_ne, H.
Qed.

Lemma fits_alloc_wf type t : twf t -> fits (t_alloc type t) -> fits t.
Proof.
  intros Hwf. apply fits_alloc. destruct (t_files t !! t_next t) as [C|] eqn:E; [|done].
  destruct (proj1 (Hwf (t_next t))); [eauto|lia].
Qed.

Lemma t_append_app i l1 l2 t : t_append i l2 (t_append i l1 t) = t_append i (l1 ++ l2) t.
Proof.
  unfold t_append. cbn. rewrite lookup_insert_eq. cbn. rewrite insert_insert_eq, <- app_assoc. f_equal. lia.
Qed.

Lemma t_append_nil i t : is_Some (t_files t !! i) -> t_append i [] t = t.
Proof.
  intros [C HC]. unfold t_append. rewrite HC. cbn. rewrite app_nil_r, insert_id by done. destruct t. cbn. f_equal. lia.
Qed.

(** A step of [mkfs] on a tree that is well formed. *)
Definition tree_at (s : mk) (t : tree) : Prop := models s t /\ twf t /\ 1 <= t_next t.

Lemma tree_ialloc s t type : tree_at s t -> 0 <= type < 2 ^ 15 -> fits (t_alloc type t) ->
  wp (mk_ialloc type) (fun i s' => i = t_next t /\ tree_at s' (t_alloc type t)) s.
Proof.
  intros (Hm & Hwf & Hn) Ht Hfit. eapply wp_mono; [by apply (ialloc_sim s t)|]. intros i s' [-> Hm']. split; [done|].
  split_and!; [done|by apply twf_alloc|cbn; lia].
Qed.

Lemma tree_iappend s t i l : tree_at s t -> 1 <= i < t_next t -> fits (t_append i l t) ->
  wp (iappend i l) (fun _ s' => tree_at s' (t_append i l t)) s.
Proof.
  intros (Hm & Hwf & Hn) Hi Hfit. destruct (proj2 (Hwf i) Hi) as [C HC].
  eapply wp_mono; [by apply (iappend_sim s t i l C)|]. intros [] s' Hm'. split_and!; [done|by apply twf_append|done].
Qed.

Lemma tree_adddir s t name par : tree_at s t -> 1 <= par < t_next t -> fits (t_adddir name par t) ->
  wp (adddir name par) (fun i s' => i = t_next t /\ tree_at s' (t_adddir name par t)) s.
Proof.
  intros Ht Hp Hfit. unfold t_adddir in *. set (i := t_next t) in *.
  pose proof (fits_append _ _ _ Hfit) as Hf3. pose proof (fits_append _ _ _ Hf3) as Hf2. pose proof (fits_append _ _ _ Hf2) as Hf1.
  assert (1 <= i < 2 ^ 15) as Hi by (destruct Hf1 as [Hf1 _]; cbn in Hf1; unfold ninodes, i in *; lia).
  unfold adddir. kstep. eapply wp_mono; [by apply (tree_ialloc s t T_DIR)|]. intros ? s1 [-> H1]. fold i. kstep.
  rewrite !mk_dirent_of by lia.
  eapply wp_mono; [apply (tree_iappend s1 _ par _ H1); [cbn; lia|done]|]. intros [] s2 H2. kstep.
  eapply wp_mono; [apply (tree_iappend s2 _ i _ H2); [cbn; lia|done]|]. intros [] s3 H3. kstep.
  eapply wp_mono; [apply (tree_iappend s3 _ i _ H3); [cbn; lia|done]|]. intros [] s4 H4. by kstep.
Qed.

Lemma tree_copy_in fuel s t i data : tree_at s t -> 1 <= i < t_next t -> (length data <= fuel)%nat -> fits (t_append i data t) ->
  wp (copy_in fuel i data) (fun _ s' => tree_at s' (t_append i data t)) s.
Proof.
  revert s t data. induction fuel as [|fuel IH]; intros s t data Ht Hi Hl Hfit.
  - destruct data; [|cbn in Hl; lia]. cbn. kstep. rewrite t_append_nil; [done|]. by apply Ht.
  - destruct data as [|b data']; [cbn; kstep; rewrite t_append_nil; [done|]; by apply Ht|].
    set (data := b :: data') in *.
    change (copy_in (S fuel) i data) with (iappend i (take 512 data) ;; copy_in fuel i (drop 512 data)). kstep.
    rewrite <- (take_drop 512 data), <- t_append_app in Hfit. pose proof (fits_append _ _ _ Hfit) as Hf1.
    eapply wp_mono; [by apply (tree_iappend s t i)|]. intros [] s1 H1.
    eapply wp_mono; [apply (IH s1 _ (drop 512 data) H1); [done| |done]|].
    + rewrite length_drop. unfold data in *. cbn in *. lia.
    + intros [] s2 H2. by rewrite t_append_app, take_drop in H2.
Qed.

(** The number of the directory a name goes to, as [mkfs_main] numbers them. *)
Notation place_of := (place 2 7 5 4).

Definition t_file (t : tree) (f : bytes * bytes) : tree :=
  let i := t_next t in
  t_append i f.2 (t_append (place_of f.1).1 (dirent_of i (place_of f.1).2) (t_alloc T_FILE t)).

Lemma place_dir name : 2 <= (place_of name).1 <= 7.
Proof. unfold place. repeat case_match; cbn; lia. Qed.

Lemma twf_file t f : twf t -> 15 <= t_next t -> twf (t_file t f) /\ t_next (t_file t f) = t_next t + 1.
Proof.
  intros Hwf Hn. pose proof (place_dir f.1). split; [|done]. unfold t_file.
  apply twf_append; [apply twf_append; [apply twf_alloc; [done|lia]|cbn; lia]|cbn; lia].
Qed.

Lemma fits_file t f : twf t -> fits (t_file t f) -> fits t.
Proof. intros Hwf H. by eapply fits_alloc_wf, fits_append, fits_append. Qed.

Lemma fits_files files t : twf t -> 15 <= t_next t -> fits (foldl t_file t files) -> fits t.
Proof.
  revert t. induction files as [|f files IH]; intros t Hwf Hn; cbn; [done|]. intros H.
  destruct (twf_file t f Hwf Hn) as [Hwf' Hn']. apply (fits_file t f Hwf). apply IH; [done|lia|done].
Qed.

Lemma tree_add_files files s t : tree_at s t -> 15 <= t_next t -> fits (foldl t_file t files) ->
  wp (add_files 2 7 5 4 ((fun f => (f.1, Some f.2)) <$> files)) (fun _ s' => tree_at s' (foldl t_file t files)) s.
Proof.
  revert s t. induction files as [|[arg data] files IH]; intros s t Ht Hn Hfit; [cbn; by kstep|].
  pose proof Ht as (_ & Hwf & _). destruct (twf_file t (arg, data) Hwf Hn) as [Hwf' Hn'].
  cbn [foldl] in Hfit. pose proof (fits_files files _ Hwf' ltac:(lia) Hfit) as Hf3.
  pose proof (fits_append _ _ _ Hf3) as Hf2. pose proof (fits_append _ _ _ Hf2) as Hf1.
  pose proof (place_dir arg) as Hp. cbn [fst snd] in *.
  assert (15 <= t_next t < 2 ^ 15) as Hi by (destruct Hf1 as [Hf1 _]; cbn in Hf1; unfold ninodes in *; lia).
  cbn [fmap list_fmap add_files fst snd]. destruct (place_of arg) as [dir name] eqn:Ep. cbn [fst snd] in *. kstep.
  eapply wp_mono; [by apply (tree_ialloc s t T_FILE)|]. intros ? s1 [-> H1]. kstep. rewrite mk_dirent_of by lia.
  eapply wp_mono; [apply (tree_iappend s1 _ dir _ H1); [cbn; lia|done]|]. intros [] s2 H2. kstep.
  unfold t_file in Hf3. cbn [fst snd] in Hf3. rewrite Ep in Hf3.
  eapply wp_mono; [apply (tree_copy_in (length data) s2 _ (t_next t) data H2); [cbn; lia|done|done]|]. intros [] s3 H3. 
  assert (t_file t (arg, data) = t_append (t_next t) data (t_append dir (dirent_of (t_next t) name) (t_alloc T_FILE t))) as E
    by (unfold t_file; cbn [fst snd]; by rewrite Ep).
  cbn [foldl]. rewrite E in *. apply IH; [done|lia|done].
Qed.

(** ** [main] *)

Lemma zero_sectors_spec n i s : 0 <= i -> mk_secs s = i ->
  wp (zero_sectors n i) (fun _ s' => (forall x, mk_img s' x = if (i <=? x) && (x <? i + Z.of_nat n) then zeros else mk_img s x) /\
    mk_secs s' = i + Z.of_nat n /\ mk_freeblock s' = mk_freeblock s /\ mk_usedblocks s' = mk_usedblocks s /\
    mk_freeinode s' = mk_freeinode s) s.
Proof.
  revert i s. induction n as [|n IH]; intros i s Hi Hs.
  - cbn [zero_sectors]. kstep. split_and!; [|lia|done..]. intros x.
    destruct (Z.leb_spec i x), (Z.ltb_spec x (i + Z.of_nat 0)); cbn [andb]; (done || lia).
  - cbn [zero_sectors]. unfold wsect. kstep. eapply wp_mono; [apply IH; cbn; lia|].
    intros [] s' (Hx & H1 & H2 & H3 & H4). cbn [mk_img mk_secs mk_freeblock mk_usedblocks mk_freeinode] in *.
    split_and!; [|lia|done..]. intros x. rewrite Hx. destruct (decide (x = i)) as [->|Hne].
    + rewrite fupd_eq. rewrite (proj2 (Z.leb_le i i)), (proj2 (Z.ltb_lt i (i + Z.of_nat (S n)))) by lia. by case_match.
    + rewrite fupd_ne by done.
      replace ((i + 1 <=? x) && (x <? i + 1 + Z.of_nat n)) with ((i <=? x) && (x <? i + Z.of_nat (S n))); [done|].
      apply eq_iff_eq_true. rewrite !andb_true_iff, !Z.leb_le, !Z.ltb_lt. lia.
Qed.

(** The tree before the first inode, and the directories of the system. *)
Definition t_empty : tree := Tree ∅ ∅ 1 29.
Definition t_root : tree :=
  t_append 1 (dirent_of 1 (str "..")) (t_append 1 (dirent_of 1 (str ".")) (t_alloc T_DIR t_empty)).
Definition mkfs_dirs : list (bytes * Z) :=
  [(str "bin", 1); (str "dev", 1); (str "etc", 1); (str "root", 1); (str "proc", 1); (str "sbin", 1); (str "usr", 1);
   (str "bin", 8); (str "share", 8); (str "local", 8); (str "bin", 11); (str "sbin", 8); (str "sbin", 11)].
Definition t_dirs : tree := foldl (fun t d => t_adddir d.1 d.2 t) t_root mkfs_dirs.

#[export] Instance fits_dec t : Decision (fits t).
Proof. unfold fits. apply _. Defined.

Lemma t_dirs_fit : fits t_dirs.
Proof. apply (bool_decide_unpack _). vm_compute. done. Qed.

(** The image with its super block and no inode. *)
Lemma empty_tree s : mk_secs s = mkfs_size -> mk_freeblock s = 29 -> mk_usedblocks s = 29 -> mk_freeinode s = 1 ->
  (forall x, 0 <= x < mkfs_size -> x <> 1 -> mk_img s x = zeros) -> length (mk_img s 1) = 512%nat ->
  sb_dec (mk_img s 1) = sb -> tree_at s t_empty.
Proof.
  intros Hs Hb Hu Hi Hz Hl Hsb. split_and!; [|intros i; cbn; rewrite lookup_empty; split; [by intros []|lia]|done].
  exists (fun x => if x =? 28 then bits 29 else mk_img s x). split_and!; [|done|done]. cbn [t_empty t_files t_kinds]. split; try done.
  - split; try done; rewrite ?Hb; try lia.
    + done.
    + intros x Hx. destruct (decide (x = 1)) as [->|]; [done|]. rewrite Hz by done. apply length_zeros.
    + intros x Hx. apply Hz; lia.
  - unfold ninodes. lia.
Qed.

(** The size of the root directory is rounded up; the bytes are there. *)
Definition t_fixroot (t : tree) : tree :=
  Tree (<[1 := pad (default [] (t_files t !! 1))]> (t_files t)) (t_kinds t) (t_next t) (t_blocks t).

Lemma pad_pad C : pad (pad C) = pad C.
Proof.
  unfold pad at 1. rewrite nblk_pad, length_pad, Nat.sub_diag. apply app_nil_r.
Qed.

Lemma fixroot_sim s t C : tree_at s t -> t_files t !! 1 = Some C -> Z.of_nat (length C) mod 512 <> 0 -> fits t ->
  wp (din <- rinode 1 ;;
      winode 1 (set_dsize (xint (u32 ((xint (d_size din) / BSIZE + 1) * BSIZE))) din)) (fun _ s' => models s' (t_fixroot t)) s.
Proof.
  intros ((V & Hfs & En & Eb) & Hwf & Hn) HC Hm (Hn' & Hb & Hs). specialize (Hs 1 C HC). cbv beta in Hs. change BSIZE with 512 in *.
  pose proof (mf_inv _ _ _ _ Hfs) as Hi. pose proof MAXFILE_val as HM.
  destruct (iblock_mk 1) as [Ei Hib]; [done|]. unfold rinode. rewrite <- Ei. kstep.
  apply (wp_rsect s V); [done|lia|lia|]. kstep. change (dinode_dec (slice (V (IBLOCK 1)) (dip_off 1) 64)) with (disk_inode V 1).
  set (din := disk_inode V 1). destruct (fs_file _ _ _ _ (mf_rep _ _ _ _ Hfs) 1 C HC) as [_ [Hsz _]]. fold din in Hsz.
  pose proof (mf_ok _ _ _ _ Hfs _ _ HC) as Hok. fold din in Hok. rewrite (xint_id (d_size din)), Hsz by apply Hok.
  pose proof (Z.div_mod (Z.of_nat (length C)) 512 ltac:(lia)) as Hdm. pose proof (Z.mod_pos_bound (Z.of_nat (length C)) 512 ltac:(lia)).
  set (k := Z.of_nat (length C) / 512) in *.
  assert (nb C = k + 1) as En' by (apply nblk_of; lia).
  assert (u32 ((k + 1) * 512) = Z.of_nat (length (pad C))) as -> by (rewrite length_pad, En', u32_small; lia).
  assert (0 <= Z.of_nat (length (pad C)) < 2 ^ 32) as Hlp by (rewrite length_pad, En'; lia).
  rewrite xint_id by done. set (d := set_dsize (Z.of_nat (length (pad C))) din).
  assert (dinode_ok d) as Hd by (destruct Hok; by split).
  destruct (mf_kind _ _ _ _ Hfs _ _ HC) as [HK HL]. fold din in HK, HL.
  pose proof (mf_pad _ _ _ _ Hfs _ _ HC) as Hpad. fold din in Hpad.
  apply (wp_winode _ V); [done|done| |done]. intros V2 s' Hi2 Hf2 Hb2.
  exists V2. unfold t_fixroot. rewrite HC. cbn [from_option id t_files t_kinds t_next t_blocks]. split_and!; [|congruence|congruence].
  rewrite <- (insert_id (t_kinds t) 1 (d_type din)) by done.
  destruct (proj1 (Hwf 1)) as [_ Hlt]; [by eexists|].
  apply (mk_fs_update s V _ _ V 1 (d_addrs din) C (pad C) d (dip_off 1)); try done.
  - intros j D x Hne HD Hx. by apply (fs_apart _ _ _ _ (mf_rep _ _ _ _ Hfs) j 1 D C x).
  - rewrite nblk_pad. apply wstep_refl.
  - by rewrite pad_pad.
  - by apply (mi_512 s).
  - lia.
Qed.

Lemma root_kept files t C : twf t -> 15 <= t_next t -> t_files t !! 1 = Some C ->
  t_files (foldl t_file t files) !! 1 = Some C.
Proof.
  revert t. induction files as [|f files IH]; intros t Hwf Hn HC; [done|]. cbn [foldl].
  destruct (twf_file t f Hwf Hn) as [Hwf' Hn']. apply IH; [done|lia|]. pose proof (place_dir f.1).
  unfold t_file, t_append. cbn. rewrite !lookup_insert_ne by lia. done.
Qed.

(** The bitmap gives the data blocks that no file has, then the log. *)
Lemma mi_room s V : mk_inv s V -> has_room st sb V (st - mk_freeblock s).
Proof.
  intros Hi. pose proof (mi_free _ _ Hi) as Hf. set (f := mk_freeblock s) in *.
  assert (forall x, 0 <= x < st -> used V x = (x <? f)) as Hu by (intros x Hx; by apply mi_bit).
  assert (free_blocks sb V = seqZ f (st - f) ++ filter (fun b => used V b = false) (seqZ st 10)) as E.
  { unfold free_blocks. change (sb_size sb) with 2009. replace 2009 with (f + (st - f + 10)) by lia.
    rewrite !seqZ_app, !filter_app by lia. replace (0 + f + (st - f)) with st by lia. change (0 + f) with f.
    rewrite (filter_none _ (seqZ 0 f)), (filter_all _ (seqZ f (st - f))); [done|..];
      apply Forall_forall; intros x Hx%elem_of_seqZ; rewrite Hu by lia; lia. }
  split; [rewrite E, length_app, length_seqZ; lia|]. rewrite E, take_app_length' by (rewrite length_seqZ; lia).
  apply Forall_forall. intros x Hx%elem_of_seqZ. apply data_block_mk. lia.
Qed.

(** The end: the bitmap. *)
Lemma balloc_image s t : models s t ->
  wp (usedblocks <- gets mk_usedblocks ;; mk_balloc usedblocks) (fun _ s' =>
    fs_rep st sb (mk_img s') (t_files t) /\
    (forall i C, t_files t !! i = Some C -> t_kinds t !! i = Some (d_type (disk_inode (mk_img s') i))) /\
    sb_dec (mk_img s' 1) = sb /\ (forall x, st <= x < mkfs_size -> mk_img s' x = zeros) /\ mk_secs s' = mkfs_size /\
    has_room st sb (mk_img s') (st - t_blocks t)) s.
Proof.
  intros (V & Hfs & _ & Eb). pose proof (mf_inv _ _ _ _ Hfs) as Hi. pose proof Hi as [].
  kstep. unfold mk_balloc, assert, wsect. rewrite mi_used0. destruct (Z.ltb_spec (mk_freeblock s) (512 * 8)); [|lia]. kstep.
  cbn [mk_img mk_secs]. change (ninodes / IPB + 3) with 28. fold zeros. fold (bits (mk_freeblock s)).
  assert (forall x, 0 <= x < st -> fupd (mk_img s) 28 (bits (mk_freeblock s)) x = V x) as HV.
  { intros x Hx. rewrite mi_view0 by done. unfold fupd. destruct (Z.eqb_spec x 28); [by rewrite decide_True|by rewrite decide_False]. }
  split_and!.
  - eapply (fs_rep_ext st sb mkfs_geo); [exact HV|apply Hfs].
  - intros i C HC. destruct (mf_kind _ _ _ _ Hfs _ _ HC) as [-> _]. unfold disk_inode.
    pose proof (mf_dom _ _ _ _ Hfs _ _ HC). pose proof (mf_ino _ _ _ _ Hfs). unfold ninodes in *.
    destruct (iblock_mk i) as [_ ?]; [unfold ninodes; lia|]. by rewrite HV by lia.
  - rewrite HV by lia. apply Hfs.
  - intros x Hx. rewrite fupd_ne by lia. apply mi_zero0. lia.
  - rewrite mi_secs0. unfold mkfs_size. lia.
  - rewrite <- Eb. pose proof (mi_room _ _ Hi) as Hroom. unfold has_room in *. erewrite free_ext; [exact Hroom|].
    intros x ->%is_bitmap_mk. by apply HV.
Qed.

(** *** The files given *)

Lemma length_strncpy name n : length (strncpy name n) = n.
Proof.
  revert name. induction n as [|n IH]; intros name; [done|]. cbn. f_equal. case_match; [apply length_replicate|apply IH].
Qed.

Lemma length_dirent_of i name : length (dirent_of i name) = 16%nat.
Proof. unfold dirent_of, dirent_enc. cbn [de_inum de_name]. by rewrite length_app, length_le_bytes, length_strncpy. Qed.

(** The directories hold whole entries. *)
Definition whole (t : tree) : Prop := forall i C, 2 <= i <= 7 -> t_files t !! i = Some C -> (length C mod 16 = 0)%nat.

(** A file of the tree is only ever appended to, and only a directory is. *)
Lemma t_file_at t f i C : twf t -> 15 <= t_next t -> t_files t !! i = Some C ->
  t_files (t_file t f) !! i = Some (if i =? (place_of f.1).1 then C ++ dirent_of (t_next t) (place_of f.1).2 else C).
Proof.
  intros Hwf Hn HC. pose proof (place_dir f.1). destruct (proj1 (Hwf i)) as [? Hlt]; [by eexists|].
  unfold t_file, t_append. cbn. rewrite (lookup_insert_ne _ (t_next t) i) by lia.
  destruct (Z.eqb_spec i (place_of f.1).1) as [->|Hne].
  - rewrite lookup_insert_eq, lookup_insert_ne by lia. by rewrite HC.
  - rewrite !lookup_insert_ne by lia. done.
Qed.

Lemma t_file_new t f : twf t -> 15 <= t_next t -> t_files (t_file t f) !! t_next t = Some f.2.
Proof.
  intros Hwf Hn. pose proof (place_dir f.1). unfold t_file, t_append. cbn.
  rewrite lookup_insert_eq, lookup_insert_ne, lookup_insert_eq by lia. done.
Qed.

Lemma whole_file t f : twf t -> 15 <= t_next t -> whole t -> whole (t_file t f).
Proof.
  intros Hwf Hn Hw i C' Hi. destruct (proj2 (Hwf i)) as [C HC]; [lia|]. rewrite (t_file_at t f i C) by done.
  intros [= <-]. specialize (Hw i C Hi HC). case_match; [|done]. rewrite length_app, length_dirent_of.
  by rewrite Nat.Div0.add_mod, Hw.
Qed.

Lemma files_grow files t i C : twf t -> 15 <= t_next t -> t_files t !! i = Some C ->
  exists l, t_files (foldl t_file t files) !! i = Some (C ++ l) /\ (15 <= i -> l = []).
Proof.
  revert t C. induction files as [|f files IH]; intros t C Hwf Hn HC; [exists []; by rewrite app_nil_r|]. cbn [foldl].
  destruct (twf_file t f Hwf Hn) as [Hwf' Hn']. pose proof (t_file_at t f i C Hwf Hn HC) as E. pose proof (place_dir f.1).
  destruct (IH (t_file t f) _ Hwf' ltac:(lia) E) as (l & Hl & Hl0). rewrite Hl. destruct (Z.eqb_spec i (place_of f.1).1).
  - exists (dirent_of (t_next t) (place_of f.1).2 ++ l). rewrite <- app_assoc. split; [done|lia].
  - eauto.
Qed.

(** The file number [k] of the arguments has its contents and its entry. *)
Definition installed (F : gmap Z bytes) (i : Z) (f : bytes * bytes) : Prop :=
  F !! i = Some f.2 /\
  exists l1 l2, F !! (place_of f.1).1 = Some (l1 ++ dirent_of i (place_of f.1).2 ++ l2) /\ (length l1 mod 16 = 0)%nat.

Lemma files_installed files t k f : twf t -> 15 <= t_next t -> whole t -> files !! k = Some f ->
  installed (t_files (foldl t_file t files)) (t_next t + Z.of_nat k) f.
Proof.
  revert t k. induction files as [|g files IH]; intros t k Hwf Hn Hw Hk; [done|]. cbn [foldl].
  destruct (twf_file t g Hwf Hn) as [Hwf' Hn']. pose proof (whole_file t g Hwf Hn Hw) as Hw'. destruct k as [|k].
  - cbn in Hk. injection Hk as ->. rewrite Z.add_0_r. pose proof (place_dir f.1) as Hp. split.
    + destruct (files_grow files (t_file t f) (t_next t) f.2 Hwf' ltac:(lia) (t_file_new t f Hwf Hn)) as (l & -> & Hl).
      by rewrite Hl, app_nil_r by done.
    + destruct (proj2 (Hwf (place_of f.1).1)) as [C HC]; [lia|]. pose proof (t_file_at t f _ C Hwf Hn HC) as E.
      rewrite Z.eqb_refl in E. destruct (files_grow files (t_file t f) _ _ Hwf' ltac:(lia) E) as (l & -> & _).
      exists C, l. rewrite <- app_assoc. split; [done|]. by apply (Hw (place_of f.1).1).
  - replace (t_next t + Z.of_nat (S k)) with (t_next (t_file t g) + Z.of_nat k) by lia.
    apply IH; [done|lia|done|done].
Qed.

(** What [mkfs] makes of the files. *)
Definition mkfs_tree (files : list (bytes * bytes)) : tree := foldl t_file t_dirs files.

Lemma t_dirs_whole : whole t_dirs.
Proof.
  assert (map_Forall (fun _ C => length C mod 16 = 0)%nat (t_files t_dirs)) as H
    by (apply (bool_decide_unpack _); vm_compute; done).
  intros i C _ HC. by apply (H i C).
Qed.

Lemma t_dirs_root : exists C, t_files t_dirs !! 1 = Some C /\ length C = 144%nat.
Proof. eexists. split; [vm_compute; reflexivity|done]. Qed.

(** One directory of the system: the number it gets is known. *)
Ltac dir_step :=
  match goal with
  | H : tree_at ?s ?t |- wp (adddir ?name ?par) _ ?s =>
    eapply wp_mono; [apply (tree_adddir s t name par H); [vm_compute; done|apply (bool_decide_unpack _); vm_compute; done]|];
    let i := fresh "i" in let s' := fresh "s" in let E := fresh "E" in let H' := fresh "Ht" in
    intros i s' [E H']; vm_compute in E; subst i; clear H; kstep
  end.

Lemma mkfs_dirs_spec s (Q : unit -> mk -> Prop) (m : Z -> Z -> Z -> Z -> M mk unit) : tree_at s t_root ->
  (forall s', tree_at s' t_dirs -> wp (m 2 7 5 4) Q s') ->
  wp (binino <- adddir (str "bin") 1 ;;
      devino <- adddir (str "dev") 1 ;;
      etcino <- adddir (str "etc") 1 ;;
      homeino <- adddir (str "root") 1 ;;
      procino <- adddir (str "proc") 1 ;;
      sbinino <- adddir (str "sbin") 1 ;;
      usrino <- adddir (str "usr") 1 ;;
      usrbinino <- adddir (str "bin") usrino ;;
      shareino <- adddir (str "share") usrino ;;
      localino <- adddir (str "local") usrino ;;
      localbinino <- adddir (str "bin") localino ;;
      usrsbinino <- adddir (str "sbin") usrino ;;
      localsbinino <- adddir (str "sbin") localino ;;
      m binino sbinino homeino etcino) Q s.
Proof.
  intros Ht HQ. kstep. do 13 dir_step. by apply HQ.
Qed.

(** Up to the root directory. *)
Lemma mkfs_start s (Q : unit -> mk -> Prop) (m : Z -> M mk unit) : mk_secs s = 0 -> mk_freeinode s = 1 ->
  (forall s', tree_at s' t_root -> wp (m 1) Q s') ->
  wp (zero_sectors (Z.to_nat (nblocks + 29 + nlog)) 0 ;;
      wsect 1 (splice (replicate 512 0) 0 (concat (le_bytes 4 <$> [xint mkfs_size; xint nblocks; xint ninodes; xint nlog]))) ;;
      rootino <- mk_ialloc T_DIR ;;
      assert (rootino =? ROOTINO) ;;
      iappend rootino (mk_dirent rootino (str ".")) ;;
      iappend rootino (mk_dirent rootino (str "..")) ;; m rootino) Q
    (Mk (mk_img s) (mk_secs s) 29 29 (mk_freeinode s)).
Proof.
  intros Hs Hf HQ. kstep. eapply wp_mono; [by apply zero_sectors_spec|].
  intros [] s1 (Hx & H1 & H2 & H3 & H4). cbn [mk_freeblock mk_usedblocks mk_freeinode mk_img] in *. unfold wsect. kstep.
  match goal with |- wp _ _ ?s' => assert (tree_at s' t_empty) as Ht end.
  { apply empty_tree; cbn [mk_img mk_secs mk_freeblock mk_usedblocks mk_freeinode]; [by rewrite H1|done|done|congruence|..].
    - intros x Hx0 Hne. rewrite fupd_ne, Hx by done. unfold mkfs_size in Hx0.
      rewrite (proj2 (Z.leb_le 0 x)), (proj2 (Z.ltb_lt x _)); [done|unfold nblocks, nlog; lia|lia].
    - rewrite fupd_eq. vm_compute. done.
    - rewrite fupd_eq. vm_compute. done. }
  eapply wp_mono; [apply (tree_ialloc _ _ T_DIR Ht); [done|apply (bool_decide_unpack _); vm_compute; done]|].
  intros i s2 [-> Ht2]. change (t_next t_empty) with 1. change (1 =? ROOTINO) with true. unfold assert. kstep.
  rewrite !mk_dirent_of by done.
  eapply wp_mono; [apply (tree_iappend _ _ 1 _ Ht2); [done|apply (bool_decide_unpack _); vm_compute; done]|].
  intros [] s3 Ht3. kstep.
  eapply wp_mono; [apply (tree_iappend _ _ 1 _ Ht3); [done|apply (bool_decide_unpack _); vm_compute; done]|].
  intros [] s4 Ht4. by apply HQ.
Qed.

(** C3. [mkfs] makes the file system the kernel expects. Run on an empty image
    and a list of host files that fit (at most 200 inodes, 1970 blocks, 140
    blocks a file), it ends without a failed assertion, and the image is a
    disk on which exactly the directories of the system and the files given
    are found, each with its contents, its type and blocks of its own that the
    bitmap marks as used; file number [k] is inode [15 + k] and has an entry
    in the directory its name asks for; the super block is the one the kernel
    reads and the log is empty; and the blocks [balloc] finds first are the
    data blocks that no file has, so that a write has room for as many. *)
Theorem mkfs_makes_fs (files : list (bytes * bytes)) (s : mk)
    (Hempty : mk_secs s = 0) (Hbss : mk_freeinode s = 1) (Hfit : fits (mkfs_tree files)) :
  wp (mkfs_main ((fun f => (f.1, Some f.2)) <$> files)) (fun _ s' =>
    let F := t_files (t_fixroot (mkfs_tree files)) in
    fs_rep LOG_START mkfs_sb (mk_img s') F /\
    (forall i C, F !! i = Some C -> t_kinds (mkfs_tree files) !! i = Some (d_type (disk_inode (mk_img s') i))) /\
    (forall k f, files !! k = Some f -> installed F (15 + Z.of_nat k) f) /\
    sb_dec (mk_img s' 1) = mkfs_sb /\
    (forall x, LOG_START <= x < mkfs_size -> mk_img s' x = zeros) /\ mk_secs s' = mkfs_size /\
    has_room LOG_START mkfs_sb (mk_img s') (LOG_START - t_blocks (mkfs_tree files))) s.
Proof.
  unfold mkfs_main. do 2 kstep1. cbv beta zeta. kstep1. kstep1. cbn [mk_usedblocks]. kstep1. unfold assert at 1.
  change (ninodes / IPB + 3 + (mkfs_size / (512 * 8) + 1)) with 29. change (nblocks + 29 + nlog =? mkfs_size) with true.
  apply wp_ret. eapply (mkfs_start s); [done|done|]. intros s1 Ht1. eapply (mkfs_dirs_spec s1); [done|].
  intros s2 Ht2. apply wp_bind. pose proof Ht2 as (_ & Hwf & _).
  eapply wp_mono; [by apply (tree_add_files files s2 t_dirs)|]. intros [] s3 Ht3.
  destruct t_dirs_root as (C & HC & HlC). pose proof (root_kept files t_dirs C Hwf ltac:(done) HC) as HC3.
  apply wp_bind2'. eapply wp_mono; [apply (fixroot_sim s3 _ C Ht3 HC3); [by rewrite HlC|done]|]. intros [] s4 Hm4.
  eapply wp_mono; [by apply (balloc_image s4)|]. intros [] s5 (H1 & H2 & H3 & H4 & H5 & H6). split_and!; try done.
  intros k f Hk. destruct (files_installed files t_dirs k f Hwf ltac:(done) t_dirs_whole Hk) as [Hd (l1 & l2 & Hl & Hl1)].
  pose proof (place_dir f.1). unfold t_fixroot. cbn [t_files]. change (t_next t_dirs) with 15 in *.
  split; [rewrite lookup_insert_ne by lia; done|]. exists l1, l2. by rewrite lookup_insert_ne by lia.
Qed.

Lemma mkfs_makes_fs_witness : exists s' : mk,
  let files := [(str "_sh", [127; 69; 76; 70]); (str "passwd", str "root:x:0")] in
  wp (mkfs_main ((fun f => (f.1, Some f.2)) <$> files)) (fun _ s' =>
    let F := t_files (t_fixroot (mkfs_tree files)) in
    fs_rep LOG_START mkfs_sb (mk_img s') F /\
    (forall i C, F !! i = Some C -> t_kinds (mkfs_tree files) !! i = Some (d_type (disk_inode (mk_img s') i))) /\
    (forall k f, files !! k = Some f -> installed F (15 + Z.of_nat k) f) /\
    sb_dec (mk_img s' 1) = mkfs_sb /\
    (forall x, LOG_START <= x < mkfs_size -> mk_img s' x = zeros) /\ mk_secs s' = mkfs_size /\
    has_room LOG_START mkfs_sb (mk_img s') (LOG_START - t_blocks (mkfs_tree files))) s'.
Proof.
  exists (Mk (fun _ => []) 0 0 0 1). apply mkfs_makes_fs; [done|done|apply (bool_decide_unpack _); vm_compute; done].
Defined.
