(* ===== verification/Console.v ===== *)
(** * Console output (kernel/tty.c, kernel/uart.c)

    The output half of tty.c: [printint], [cprintf], the CGA screen and
    [consputc]. The screen is the video memory by cell with the cursor register
    of the hardware; the serial port is reached through its registers. *)

From stdpp Require Import prelude gmap strings.
From S2P Require Import Prelude Kernel Port Spinlock.

Definition NEWLINE : Z := 10.
Definition BACKSPACE : Z := 256.

Definition COM1 : Z := 0x3f8.

Section uart.
Context `{PO : Ports}.

(** The wait of [uartputc] for the transmitter, of at most [n] rounds;
    [microdelay] does nothing. *)
Fixpoint uart_wait (n : nat) : K unit :=
  match n with
  | O => ret tt
  | S n => st <- inb (COM1 + 5) ;; if has st 0x20 then ret tt else uart_wait n
  end.

Definition uartputc (c : Z) : K unit :=
  u <- gets k_uart ;;
  if negb (cbool u) then ret tt else
  uart_wait 128 ;;
  outb (COM1 + 0) c.
End uart.

(** The screen: video memory and cursor. *)
Definition cga := (gmap Z Z * Z)%type.

Definition crt_at (m : gmap Z Z) (k : Z) : Z := default 0 (m !! k).

(** [memmove(crt, crt+80, sizeof(crt[0])*23*80)], cell by cell. *)
Definition scroll_cells (m : gmap Z Z) : gmap Z Z :=
  foldl (fun m' k => <[k := crt_at m (k + 80)]> m') m (seqZ 0 (23 * 80)).

(** [memset(crt+pos, 0, sizeof(crt[0])*(24*80 - pos))]. *)
Definition clear_cells (m : gmap Z Z) (pos n : Z) : gmap Z Z :=
  foldl (fun m k => <[pos + k := 0]> m) m (seqZ 0 n).

(** [cgaputc]; [legacy] is the configuration with LEGACY_FB=1. The size given
    to [memset] is unsigned, so it must not be negative. *)
Definition cga_put (legacy : bool) (c : Z) (g : cga) : option cga :=
  let '(m, pos) := g in
  let '(m, pos) :=
    if c =? NEWLINE then (m, pos + (80 - pos mod 80))
    else if c =? BACKSPACE then (m, if 0 <? pos then pos - 1 else pos)
    else if negb legacy then (<[pos := Z.lor (Z.shiftl 15 8) (Z.land c 255)]> m, pos + 1)
    else (<[pos := Z.lor (Z.land c 255) 0x700]> m, pos + 1) in
  let finish '(m, pos) :=
    (<[pos := if negb legacy then Z.lor 32 (Z.shiftl 15 8) else Z.lor 32 0x700]> m,
     u8 (Z.shiftr pos 8) * 256 + u8 pos) in
  if legacy && (24 <=? pos / 80) then
    let pos := pos - 80 in
    if 24 * 80 <? pos then None
    else Some (finish (clear_cells (scroll_cells m) pos (24 * 80 - pos), pos))
  else Some (finish (m, pos)).

(** The build configuration's LEGACY_FB (build-config.mk: n). *)
Definition LEGACY_FB : bool := false.

Definition cgaputc (c : Z) : K unit :=
  g <- gets (fun s => cga_put LEGACY_FB c (k_crt s, k_pos s)) ;;
  match g with
  | None => fault
  | Some (m, pos) => modify (set_crt (fun _ => m)) ;; modify (set_pos (fun _ => pos))
  end.

(** [clear]: an empty screen with the cursor at its start. *)
Definition clear : K unit :=
  modify (set_pos (fun _ => 0)) ;;
  modify (set_crt (fun m => clear_cells m 0 2000)).

Section console.
Context `{PO : Ports}.

Definition consputc (c : Z) : K unit :=
  p <- gets k_panicked ;;
  if cbool p then cli ;; fun _ => Hang else
  (if c =? BACKSPACE then uartputc 8 ;; uartputc 32 ;; uartputc 8 else uartputc c) ;;
  cgaputc c.

(** The digits of [x], least significant first; [x] has 32 bits. *)
Definition digits : bytes := str "0123456789abcdef".

Fixpoint digits_of (fuel : nat) (x base : Z) : bytes :=
  match fuel with
  | O => []
  | S fuel =>
    (digits !!! Z.to_nat (x mod base)) ::
    (if x / base =? 0 then [] else digits_of fuel (x / base) base)
  end.

(** [printint]: the characters it prints, in order. *)
Definition printint_chars (xx base : Z) (sign : bool) : bytes :=
  let neg := sign && (xx <? 0) in
  let x := if neg then u32 (- xx) else u32 xx in
  reverse (digits_of 32 x base ++ (if neg then [45] else [])).

Fixpoint consputs (l : bytes) : K unit :=
  match l with
  | [] => ret tt
  | c :: l => consputc c ;; consputs l
  end.

(** The characters are put into [buf[16]] first: more do not fit. *)
Definition printint (xx base : Z) (sign : bool) : K unit :=
  let buf := printint_chars xx base sign in
  if bool_decide (length buf <= 16)%nat then consputs buf else fault.

(** An argument of [cprintf]: a word, or a pointer to a string. *)
Inductive carg := CInt (z : Z) | CStr (s : bytes) | CNull.

Definition arg_word (args : list carg) : option (Z * list carg) :=
  match args with
  | CInt z :: args => Some (z, args)
  | CNull :: args => Some (0, args)
  | _ => None
  end.
Definition arg_string (args : list carg) : option (bytes * list carg) :=
  match args with
  | CStr s :: args => Some (s, args)
  | CNull :: args => Some (str "(null)", args)
  | _ => None
  end.

(** The loop of [cprintf]; an argument of the wrong kind is undefined. *)
Fixpoint cprintf_loop (fmt : bytes) (args : list carg) : K unit :=
  match fmt with
  | [] => ret tt
  | c :: fmt =>
    if negb (c =? 37) then consputc c ;; cprintf_loop fmt args else
    match fmt with
    | [] => ret tt
    | c :: fmt =>
      if c =? 100 then
        match arg_word args with
        | Some (z, args) => printint (s32 z) 10 true ;; cprintf_loop fmt args
        | None => fault
        end
      else if (c =? 120) || (c =? 112) then
        match arg_word args with
        | Some (z, args) => printint (s32 z) 16 false ;; cprintf_loop fmt args
        | None => fault
        end
      else if c =? 115 then
        match arg_string args with
        | Some (s, args) => consputs s ;; cprintf_loop fmt args
        | None => fault
        end
      else if c =? 37 then consputc 37 ;; cprintf_loop fmt args
      else consputc 37 ;; consputc c ;; cprintf_loop fmt args
    end
  end.

Definition cprintf (fmt : bytes) (args : list carg) : K unit :=
  locking <- gets k_locking ;;
  when cbool locking do acquire LCons ;;
  cprintf_loop fmt args ;;
  when cbool locking do release LCons.
End console.

(** ** Numbers *)

(** The value of a digit and of a string of digits, most significant first. *)
Definition digit_value (c : Z) : Z := if c <? 97 then c - 48 else c - 87.
Definition digits_value (base : Z) (l : bytes) : Z :=
  foldl (fun v c => v * base + digit_value c) 0 l.
Definition number_value (base : Z) (l : bytes) : Z :=
  match l with
  | 45 :: l => - digits_value base l
  | _ => digits_value base l
  end.

Lemma digit_value_at k : 0 <= k < 16 -> digit_value (digits !!! Z.to_nat k) = k /\ digits !!! Z.to_nat k <> 45.
Proof.
  intros Hk. assert (forallb (fun k => (digit_value (digits !!! Z.to_nat k) =? k) &&
    negb (digits !!! Z.to_nat k =? 45)) (seqZ 0 16) = true) as H by (vm_compute; reflexivity).
  rewrite forallb_forall in H. specialize (H k).
  rewrite andb_true_iff, Z.eqb_eq, negb_true_iff, Z.eqb_neq in H. apply H.
  apply list_elem_of_In, elem_of_seqZ. lia.
Qed.

Lemma digits_value_snoc base l c : digits_value base (l ++ [c]) = digits_value base l * base + digit_value c.
Proof. unfold digits_value. by rewrite foldl_app. Qed.

Lemma digits_of_value fuel x base :
  2 <= base <= 16 -> 0 <= x < base ^ Z.of_nat fuel -> digits_value base (reverse (digits_of fuel x base)) = x.
Proof.
  intros Hb. revert x. induction fuel as [|fuel IH]; intros x Hx; [cbn in *; lia|]. cbn [digits_of].
  rewrite reverse_cons, digits_value_snoc. pose proof (Z.mod_pos_bound x base).
  destruct (digit_value_at (x mod base)) as [-> _]; [lia|].
  pose proof (Z.div_mod x base). rewrite Nat2Z.inj_succ, Z.pow_succ_r in Hx by lia.
  assert (0 <= x / base < base ^ Z.of_nat fuel) as Hq.
  { split; [apply Z.div_pos; lia|]. apply Z.div_lt_upper_bound; lia. }
  destruct (Z.eqb_spec (x / base) 0) as [E|E]; [|rewrite IH by done; lia].
  cbn. rewrite E in *. lia.
Qed.

Lemma digits_of_length fuel x base k :
  2 <= base -> 0 <= x < base ^ Z.of_nat (S k) -> (length (digits_of fuel x base) <= S k)%nat.
Proof.
  intros Hb. revert x k. induction fuel as [|fuel IH]; intros x k Hx; cbn [digits_of length]; [lia|].
  destruct (Z.eqb_spec (x / base) 0) as [E|E]; cbn; [lia|].
  destruct k as [|k].
  - exfalso. apply E. apply Z.div_small. rewrite Z.pow_1_r in Hx. lia.
  - rewrite Nat2Z.inj_succ, Z.pow_succ_r in Hx by lia. apply le_n_S, IH.
    split; [apply Z.div_pos; lia|]. apply Z.div_lt_upper_bound; lia.
Qed.

Lemma digits_of_long fuel x base k :
  2 <= base -> (k < fuel)%nat -> base ^ Z.of_nat k <= x -> (k < length (digits_of fuel x base))%nat.
Proof.
  intros Hb. revert x k. induction fuel as [|fuel IH]; intros x k Hf Hx; [lia|]. cbn [digits_of length].
  destruct k as [|k]; [lia|]. rewrite Nat2Z.inj_succ, Z.pow_succ_r in Hx by lia.
  pose proof (Z.pow_pos_nonneg base (Z.of_nat k) ltac:(lia) ltac:(lia)).
  assert (base ^ Z.of_nat k <= x / base) as Hq by (apply Z.div_le_lower_bound; lia).
  destruct (Z.eqb_spec (x / base) 0); [lia|]. specialize (IH (x / base) k ltac:(lia) Hq). lia.
Qed.

Lemma digits_of_no_minus fuel x base c :
  2 <= base <= 16 -> c ∈ digits_of fuel x base -> c <> 45.
Proof.
  intros Hb. revert x. induction fuel as [|fuel IH]; intros x; cbn [digits_of]; [by intros ?%not_elem_of_nil|].
  intros [->|Hc]%elem_of_cons.
  - apply digit_value_at. pose proof (Z.mod_pos_bound x base). lia.
  - destruct (_ =? 0); [by apply not_elem_of_nil in Hc|]. by eapply IH.
Qed.

Lemma number_value_pos base l : 45 ∉ l -> number_value base l = digits_value base l.
Proof.
  intros Hl. destruct l as [|c l]; [done|]. destruct (decide (c = 45)) as [->|].
  - exfalso. apply Hl. apply elem_of_cons. by left.
  - cbn. destruct c as [|p|p]; try done. do 6 (destruct p as [p|p|]; try done).
Qed.

(** The digits are those of the number; from base 8 on they fit [buf]. *)
Lemma printint_chars_value xx base (sign : bool) :
  2 <= base <= 16 -> - 2 ^ 31 <= xx < 2 ^ 31 ->
  number_value base (printint_chars xx base sign) = (if sign then xx else u32 xx) /\
  (8 <= base -> (length (printint_chars xx base sign) <= 16)%nat).
Proof.
  intros Hb Hx. unfold printint_chars. set (neg := sign && (xx <? 0)).
  set (x := if neg then u32 (- xx) else u32 xx).
  assert (0 <= x < 2 ^ 32) as Hxr by (unfold x; destruct neg; apply u32_range).
  assert (0 <= x < base ^ Z.of_nat 32) as Hx32.
  { split; [lia|]. change (Z.of_nat 32) with 32. pose proof (Z.pow_le_mono_l 2 base 32). lia. }
  rewrite reverse_app. split.
  - destruct neg eqn:E.
    + apply andb_true_iff in E as [-> E%Z.ltb_lt]. change (reverse [45]) with [45]. cbn [app number_value].
      rewrite digits_of_value by done. unfold x. rewrite u32_small by lia. lia.
    + cbn [reverse app]. change (reverse []) with (@nil Z). cbn [app].
      rewrite number_value_pos, digits_of_value by (done || (rewrite elem_of_reverse;
        intros Hin; by apply (digits_of_no_minus 32 x base 45))).
      unfold x. destruct sign; [|done]. cbn in E. apply Z.ltb_ge in E. by rewrite u32_small by lia.
  - intros H8. assert (length (digits_of 32 x base) <= 11)%nat as Hl.
    { apply digits_of_length; [lia|]. change (Z.of_nat 11) with 11.
      pose proof (Z.pow_le_mono_l 8 base 11). lia. }
    rewrite length_app, !length_reverse.
    apply (Nat.le_trans _ (1 + 11)); [|lia].
    apply Nat.add_le_mono; [destruct neg; cbn; lia|exact Hl].
Qed.

(** C36. What [printint] prints is the number. In a base from 8 to 16 (the
    kernel uses 10 and 16), for every 32-bit value, it puts characters on the
    console that, read back as a numeral with an optional minus sign, give the
    signed argument, or the unsigned one when [sign] is 0, and that fit the 16
    bytes of [buf]; in base 2 it writes past the end of [buf] for every
    unsigned value from 2^16 on. *)
Theorem printint_value `{PO : Ports} xx base (sign : bool) :
  - 2 ^ 31 <= xx < 2 ^ 31 ->
  (8 <= base <= 16 -> exists l, printint xx base sign = consputs l /\
     number_value base l = (if sign then xx else u32 xx) /\ (length l <= 16)%nat) /\
  (2 ^ 16 <= u32 xx -> printint xx 2 false = fault).
Proof.
  intros Hx. split.
  - intros Hb. destruct (printint_chars_value xx base sign) as [Hv Hl]; [lia..|]. specialize (Hl ltac:(lia)).
    exists (printint_chars xx base sign). unfold printint. by rewrite bool_decide_true.
  - intros Hbig. unfold printint. rewrite bool_decide_false; [done|]. unfold printint_chars. cbn [andb].
    rewrite app_nil_r, length_reverse. pose proof (u32_range xx) as Hu. apply Nat.lt_nge.
    eapply (digits_of_long 32 _ 2 16); [lia..|]. change (Z.of_nat 16) with 16. lia.
Qed.

#[local] Instance silent_ports : Ports := { port_in _ _ := 0; port_ins _ _ _ := []; mmio_in _ _ := 0 }.

Lemma printint_value_witness :
  printint (- 2 ^ 31) 10 true = consputs (str "-2147483648") /\
  ((8 <= 10 <= 16 -> exists l, printint (- 2 ^ 31) 10 true = consputs l /\
     number_value 10 l = - 2 ^ 31 /\ (length l <= 16)%nat) /\
   (2 ^ 16 <= u32 (- 2 ^ 31) -> printint (- 2 ^ 31) 2 false = fault)).
Proof. split; [reflexivity|]. apply (printint_value (- 2 ^ 31) 10 true). lia. Defined.

(** ** The screen *)

Fixpoint cga_puts (legacy : bool) (l : bytes) (g : cga) : option cga :=
  match l with
  | [] => Some g
  | c :: l => match cga_put legacy c g with Some g => cga_puts legacy l g | None => None end
  end.

Lemma cursor_bytes pos : 0 <= pos < 2 ^ 16 -> u8 (Z.shiftr pos 8) * 256 + u8 pos = pos.
Proof.
  intros Hp. unfold u8. rewrite Z.shiftr_div_pow2 by lia. change (2 ^ 8) with 256.
  pose proof (Z.div_mod pos 256). rewrite (Z.mod_small (pos / 256)); [lia|].
  split; [apply Z.div_pos; lia|]. apply Z.div_lt_upper_bound; lia.
Qed.

Lemma cga_put_legacy c g :
  0 <= snd g < 24 * 80 -> exists g', cga_put true c g = Some g' /\ 0 <= snd g' < 24 * 80.
Proof.
  destruct g as [m pos]. cbn [snd]. intros Hp. unfold cga_put. cbn [negb andb].
  destruct (if c =? NEWLINE then _ else _) as [m1 pos1] eqn:E.
  assert (0 <= pos1 <= 24 * 80) as H1.
  { pose proof (Z.mod_pos_bound pos 80). pose proof (Z.div_mod pos 80).
    assert (pos + (80 - pos mod 80) <= 24 * 80).
    { assert (pos / 80 < 24) by (apply Z.div_lt_upper_bound; lia). lia. }
    destruct (c =? NEWLINE); [injection E as <- <-; lia|].
    destruct (c =? BACKSPACE); injection E as <- <-; [destruct (Z.ltb_spec 0 pos); lia|lia]. }
  clear E. destruct (Z.leb_spec 24 (pos1 / 80)) as [Hs|Hs].
  - destruct (Z.ltb_spec (24 * 80) (pos1 - 80)); [lia|]. eexists. split; [done|]. cbn [snd].
    assert (24 * 80 <= pos1) by (pose proof (Z.mul_div_le pos1 80); lia). rewrite cursor_bytes by lia. lia.
  - eexists. split; [done|]. cbn [snd]. rewrite cursor_bytes by lia.
    pose proof (Z.div_mod pos1 80). pose proof (Z.mod_pos_bound pos1 80). lia.
Qed.

(** C38. With LEGACY_FB the console scrolls: whatever is printed, the cursor
    stays inside the 24 rows and every call succeeds. *)
Theorem cga_legacy_scrolls l g :
  0 <= snd g < 24 * 80 -> exists g', cga_puts true l g = Some g' /\ 0 <= snd g' < 24 * 80.
Proof.
  revert g. induction l as [|c l IH]; intros g Hg; cbn [cga_puts]; [by eexists|].
  destruct (cga_put_legacy c g Hg) as (g' & -> & Hg'). by apply IH.
Qed.

Lemma cga_legacy_scrolls_witness :
  exists g', cga_puts true (replicate 30 NEWLINE) (∅, 0) = Some g' /\ 0 <= snd g' < 24 * 80.
Proof. apply cga_legacy_scrolls. cbn. lia. Defined.

Lemma cga_put_newline m n :
  0 <= n < 800 -> exists m', cga_put LEGACY_FB NEWLINE (m, 80 * n) = Some (m', 80 * (n + 1)).
Proof.
  intros Hn. unfold cga_put. cbn [Z.eqb NEWLINE negb andb LEGACY_FB Pos.eqb].
  rewrite (Z.mul_comm 80 n), Z.mod_mul by lia. eexists. f_equal. f_equal.
  rewrite cursor_bytes; lia.
Qed.

(** C40. In the build's configuration the console never scrolls: each newline
    moves the cursor down a row, past the 25 rows of the screen. *)
Theorem cga_never_scrolls n :
  (n <= 800)%nat ->
  exists m, cga_puts LEGACY_FB (replicate n NEWLINE) (∅, 0) = Some (m, 80 * Z.of_nat n).
Proof.
  enough (forall m k, 0 <= k -> k + Z.of_nat n <= 800 -> exists m',
    cga_puts LEGACY_FB (replicate n NEWLINE) (m, 80 * k) = Some (m', 80 * (k + Z.of_nat n))) as H.
  { intros Hn. destruct (H ∅ 0) as [m' E]; [lia..|]. rewrite Z.mul_0_r, Z.add_0_l in E. by eexists. }
  induction n as [|n IH]; intros m k Hk Hn; cbn [replicate cga_puts].
  - exists m. f_equal. f_equal. lia.
  - destruct (cga_put_newline m k) as [m1 ->]; [lia|].
    destruct (IH m1 (k + 1)) as [m2 ->]; [lia..|]. exists m2. f_equal. f_equal. lia.
Qed.

Lemma cga_never_scrolls_witness :
  exists m, cga_puts LEGACY_FB (replicate 30 NEWLINE) (∅, 0) = Some (m, 80 * Z.of_nat 30).
Proof. apply cga_never_scrolls. lia. Defined.

