(* ===== verification/Kalloc.v ===== *)
(** * The page allocator (kernel/kalloc.c)

    Memory is a map from page addresses to the 4096 bytes of the page; the
    free list runs through the first word of the free pages, as in C. The
    linker's symbols [end] and [data] are given by the class [Layout]. *)

From stdpp Require Import prelude gmap strings.
From S2P Require Import Prelude Kernel Spinlock.

(** include/memlayout.h and include/mmu.h *)
Definition EXTMEM : Z := 0x100000.
Definition PHYSTOP : Z := 0xE000000.
Definition DEVSPACE : Z := 0xFE000000.
Definition KERNBASE : Z := 0x80000000.
Definition KERNLINK : Z := KERNBASE + EXTMEM.
Definition PGSIZE : Z := 4096.
Definition v2p (a : Z) : Z := u32 (a - KERNBASE).
Definition p2v (a : Z) : Z := u32 (a + KERNBASE).
Definition PGROUNDDOWN (a : Z) : Z := Z.land a (Z.lnot (PGSIZE - 1)).
Definition PGROUNDUP (sz : Z) : Z := PGROUNDDOWN (u32 (sz + PGSIZE - 1)).

(** The symbols [end] and [data] of kernel.ld, and the addresses of the code
    [trapret] and [forkret]. *)
Class Layout := { kend : Z; kdata : Z; ktrapret : Z; kforkret : Z }.

(** Memory accesses of the kernel through its direct mapping. A word that
    leaves the page is outside the object. *)
Definition page_get (a : Z) : K bytes :=
  p <- gets (fun s => k_pm s !! a) ;;
  match p with Some p => ret p | None => fault end.
Definition page_set (a : Z) (d : bytes) : K unit :=
  _ <- page_get a ;; modify (set_pm (<[a := d]>)).

Definition rd32 (a : Z) : K Z :=
  p <- page_get (PGROUNDDOWN a) ;;
  if PGSIZE <? a mod PGSIZE + 4 then fault else
  ret (get32 p (Z.to_nat (a mod PGSIZE))).
Definition wr32 (a v : Z) : K unit :=
  p <- page_get (PGROUNDDOWN a) ;;
  if PGSIZE <? a mod PGSIZE + 4 then fault else
  page_set (PGROUNDDOWN a) (put32 p (Z.to_nat (a mod PGSIZE)) v).

Definition kmem_eta (m : kmem) : kmem := Kmem (km_use_lock m) (km_freelist m).
Definition set_use_lock (f : Z -> Z) (m : kmem) : kmem := ltac:(setfield kmem_eta km_use_lock f m).
Definition set_freelist (f : Z -> Z) (m : kmem) : kmem := ltac:(setfield kmem_eta km_freelist f m).

Section kalloc.
Context `{LY : Layout}.

Definition kfree (v : Z) : K unit :=
  if negb (v mod PGSIZE =? 0) || (v <? kend) || (PHYSTOP <=? v2p v) then panic "kfree" else
  page_set v (replicate 4096 1) ;;
  use_lock <- gets (fun s => km_use_lock (k_kmem s)) ;;
  when cbool use_lock do acquire LKmem ;;
  next <- gets (fun s => km_freelist (k_kmem s)) ;;
  wr32 v next ;;
  modify (set_kmem (set_freelist (fun _ => v))) ;;
  use_lock <- gets (fun s => km_use_lock (k_kmem s)) ;;
  when cbool use_lock do release LKmem.

Definition kalloc : K Z :=
  use_lock <- gets (fun s => km_use_lock (k_kmem s)) ;;
  when cbool use_lock do acquire LKmem ;;
  r <- gets (fun s => km_freelist (k_kmem s)) ;;
  (if cbool r then
     next <- rd32 r ;;
     modify (set_kmem (set_freelist (fun _ => next)))
   else ret tt) ;;
  use_lock <- gets (fun s => km_use_lock (k_kmem s)) ;;
  when cbool use_lock do release LKmem ;;
  ret r.

(** [for(; p + PGSIZE <= vend; p += PGSIZE) kfree(p)] *)
Fixpoint freerange_loop (fuel : nat) (p vend : Z) : K unit :=
  if u32 (p + PGSIZE) <=? vend then
    match fuel with
    | O => fun _ => NoFuel
    | S fuel => kfree p ;; freerange_loop fuel (u32 (p + PGSIZE)) vend
    end
  else ret tt.

Definition freerange (vstart vend : Z) : K unit :=
  freerange_loop (Z.to_nat ((vend - vstart) / PGSIZE + 1)) (PGROUNDUP vstart) vend.

Definition kinit1 (vstart vend : Z) : K unit :=
  initlock LKmem ;;
  modify (set_kmem (set_use_lock (fun _ => 0))) ;;
  freerange vstart vend.

Definition kinit2 (vstart vend : Z) : K unit :=
  freerange vstart vend ;;
  modify (set_kmem (set_use_lock (fun _ => 1))).
End kalloc.

(** ** The free list *)

Lemma pgrounddown_spec a : PGROUNDDOWN a = a - a mod PGSIZE.
Proof.
  unfold PGROUNDDOWN. change (PGSIZE - 1) with (Z.ones 12). rewrite <- Z.ldiff_land, Z.ldiff_ones_r by lia.
  rewrite Z.shiftl_mul_pow2, Z.shiftr_div_pow2 by lia. change (2 ^ 12) with PGSIZE.
  pose proof (Z.div_mod a PGSIZE). unfold PGSIZE in *. lia.
Qed.

Lemma pgrounddown_aligned a : a mod PGSIZE = 0 -> PGROUNDDOWN a = a.
Proof. rewrite pgrounddown_spec. lia. Qed.

(** [l] are the pages on the list that starts at [a]. *)
Fixpoint chain (pm : gmap Z bytes) (a : Z) (l : list Z) : Prop :=
  match l with
  | [] => a = 0
  | x :: l => a = x /\ 0 < x < 2 ^ 32 /\ x mod PGSIZE = 0 /\
    exists p, pm !! x = Some p /\ length p = 4096%nat /\ chain pm (get32 p 0) l
  end.

Lemma chain_insert pm a l v d : v ∉ l -> chain pm a l -> chain (<[v := d]> pm) a l.
Proof.
  revert a. induction l as [|x l IH]; intros a Hv; cbn; [done|].
  intros (-> & Hx & Hm & p & Hp & Hl & Hc). split_and!; try done; [lia..|].
  apply not_elem_of_cons in Hv as [Hv Hvl]. exists p. rewrite lookup_insert_ne by done. auto.
Qed.

Lemma chain_hd pm a l : chain pm a l -> 0 <= hd 0 l < 2 ^ 32.
Proof. destruct l; cbn; [lia|]. intros (-> & H & _). lia. Qed.

(** The contents of a page on the free list that is followed by [next]. *)
Definition free_page (next : Z) : bytes := put32 (replicate 4096 1) 0 next.

Lemma chain_free pm x next l :
  pm !! x = Some (free_page next) -> 0 <= next < 2 ^ 32 -> 0 < x < 2 ^ 32 -> x mod PGSIZE = 0 ->
  chain pm next l -> chain pm x (x :: l).
Proof.
  intros Hx Hn Hr Hm Hl. split_and!; try done; [lia..|]. exists (free_page next).
  unfold free_page in *. rewrite get32_put32, u32_small by (done || len).
  split_and!; [done|by len|done].
Qed.

Record kmem_ok (s : kst) (l : list Z) : Prop := {
  ko_chain : chain (k_pm s) (km_freelist (k_kmem s)) l;
  ko_nodup : NoDup l
}.

(** Only the allocator's variables, the pages and the CPU differ. *)
Notation kmem_frame := (keeps [FCpu; FLocks; FKmem; FPm]).

Lemma kmem_lock s Q :
  cpu_ok s -> k_locks s !! LKmem = None ->
  (forall s1, k_kmem s1 = k_kmem s -> k_pm s1 = k_pm s -> kmem_frame s s1 ->
     (s1 = s \/ s1 = acquired LKmem s) ->
     (cbool (km_use_lock (k_kmem s)) = true -> s1 = acquired LKmem s) ->
     (cbool (km_use_lock (k_kmem s)) = false -> s1 = s) -> Q tt s1) ->
  wp (when cbool (km_use_lock (k_kmem s)) do acquire LKmem) Q s.
Proof.
  intros Hcpu Hlk HQ. destruct (cbool _) eqn:E.
  - apply wp_acquire; [done|]. apply HQ; try done; [keeps_tac|by right].
  - kstep. apply HQ; try done. by left.
Qed.

(** The end of the critical section of [kalloc] and [kfree]. *)
Lemma kmem_unlock s s1 s2 Q (u : Z) :
  cpu_ok s -> k_locks s !! LKmem = None ->
  (cbool u = true -> s1 = acquired LKmem s) -> (cbool u = false -> s1 = s) ->
  ctx s1 s2 -> kmem_frame s s2 ->
  (forall s3, ctx s s3 -> kmem_frame s s3 -> k_kmem s3 = k_kmem s2 -> k_pm s3 = k_pm s2 -> Q tt s3) ->
  wp (when cbool u do release LKmem) Q s2.
Proof.
  intros Hcpu Hlk H1 H2 Hc Hf HQ. destruct (cbool u).
  - rewrite H1 in Hc by done. apply (wp_release_ctx _ _ s); [done..|]. intros Hctx.
    apply HQ; try done. etrans; [done|keeps_tac].
  - kstep. rewrite H2 in Hc by done. by apply HQ.
Qed.

Lemma rd32_page s a p Q :
  a mod PGSIZE = 0 -> k_pm s !! a = Some p -> Q (get32 p 0) s -> wp (rd32 a) Q s.
Proof.
  intros Ha Hp HQ. unfold rd32, page_get. rewrite pgrounddown_aligned, Ha by done.
  kstep. rewrite Hp. kstep. by destruct (Z.ltb_spec PGSIZE (0 + 4)).
Qed.

Lemma kalloc_spec s l :
  kmem_ok s l -> cpu_ok s -> k_locks s !! LKmem = None ->
  wp kalloc (fun r s' => ctx s s' /\ kmem_frame s s' /\ k_pm s' = k_pm s /\
    km_use_lock (k_kmem s') = km_use_lock (k_kmem s) /\
    r = hd 0 l /\ kmem_ok s' (tail l)) s.
Proof.
  intros [Hc Hnd] Hcpu Hlk. unfold kalloc. kstep.
  apply kmem_lock; [done..|]. intros s1 Hk1 Hp1 Hf1 _ Ht Hn. kstep. rewrite Hk1.
  destruct l as [|x l]; cbn in Hc.
  - rewrite Hc. cbn [cbool Z.eqb negb]. kstep. rewrite Hk1.
    eapply (kmem_unlock s s1); try done. intros s3 Hc3 Hf3 Hk3 Hp3. kstep.
    split_and!; try done; try congruence. split; [|done]. cbn. congruence.
  - destruct Hc as (-> & Hx & Hm & p & Hp & Hlen & Hch).
    assert (cbool x = true) as -> by (unfold cbool; destruct (Z.eqb_spec x 0); [lia|done]).
    kstep. eapply rd32_page; [done|by rewrite Hp1|]. kstep.
    set (s2 := set_kmem _ s1). assert (km_use_lock (k_kmem s2) = km_use_lock (k_kmem s)) as ->.
    { cbn. by rewrite Hk1. }
    eapply (kmem_unlock s s1 s2); try done; [etrans; [done|keeps_tac]|].
    intros s3 Hc3 Hf3 Hk3 Hp3. kstep. apply NoDup_cons in Hnd as [_ Hnd].
    split_and!; try done; try (by rewrite Hp3); [by rewrite Hk3; cbn; rewrite Hk1|].
    split; [|done]. rewrite Hk3, Hp3. cbn. by rewrite Hp1.
Qed.

Lemma wr32_page s a p v Q :
  a mod PGSIZE = 0 -> k_pm s !! a = Some p ->
  Q tt (set_pm (<[a := put32 p 0 v]>) s) -> wp (wr32 a v) Q s.
Proof.
  intros Ha Hp HQ. unfold wr32, page_set, page_get. rewrite pgrounddown_aligned, Ha by done.
  kstep. rewrite Hp. kstep. destruct (Z.ltb_spec PGSIZE (0 + 4)); [done|]. kstep. rewrite Hp. by kstep.
Qed.

Section kalloc_specs.
Context `{LY : Layout}.

(** The pages [kfree] accepts. *)
Definition kpage (v : Z) : Prop :=
  v mod PGSIZE = 0 /\ KERNBASE <= v < KERNBASE + PHYSTOP /\ kend <= v.

Lemma kpage_range v : kpage v -> 0 < v < 2 ^ 32.
Proof. unfold kpage, KERNBASE, PHYSTOP. lia. Qed.

Lemma kfree_spec s l v :
  kmem_ok s l -> cpu_ok s -> k_locks s !! LKmem = None ->
  kpage v -> v ∉ l -> is_Some (k_pm s !! v) ->
  wp (kfree v) (fun _ s' => ctx s s' /\ kmem_frame s s' /\
    k_pm s' = <[v := free_page (hd 0 l)]> (k_pm s) /\
    km_use_lock (k_kmem s') = km_use_lock (k_kmem s) /\ kmem_ok s' (v :: l)) s.
Proof.
  intros [Hc Hnd] Hcpu Hlk Hv Hvl [p0 Hp0].
  pose proof (chain_hd _ _ _ Hc) as Hhd. pose proof (kpage_range v Hv) as Hr.
  destruct Hv as (Hm & Hb & He). unfold kfree. rewrite Hm, Z.eqb_refl.
  assert (v2p v = v - KERNBASE) as Hv2p.
  { unfold v2p. apply u32_small. unfold KERNBASE, PHYSTOP in *. lia. }
  rewrite (proj2 (Z.ltb_ge _ _)), (proj2 (Z.leb_gt _ _)) by lia. cbn [negb orb].
  unfold page_set, page_get. kstep. rewrite Hp0. kstep.
  set (s0 := set_pm _ s).
  assert (hd 0 l = km_freelist (k_kmem s)) as Hh by (destruct l; cbn in Hc; naive_solver).
  apply (kmem_lock s0); [done..|]. intros s1 Hk1 Hp1 Hf1 _ Ht Hn. kstep.
  assert (k_pm s1 !! v = Some (replicate 4096 1)) as Hpv by (rewrite Hp1; cbn; by rewrite lookup_insert_eq).
  eapply wr32_page; [done..|]. kstep. set (s2 := set_kmem _ _).
  assert (km_use_lock (k_kmem s2) = km_use_lock (k_kmem s0)) as -> by (cbn; by rewrite Hk1).
  assert (k_pm s2 = <[v := free_page (hd 0 l)]> (k_pm s)) as Hp2.
  { cbn. rewrite Hp1, Hk1, Hh. cbn. by rewrite insert_insert_eq. }
  eapply (kmem_unlock s0 s1 s2); try done; [etrans; [done|keeps_tac]|].
  intros s3 Hc3 Hf3 Hk3 Hp3. rewrite Hp2 in Hp3. split_and!; try done.
  { etrans; [|exact Hc3]. by apply ctx_same. }
  { etrans; [|exact Hf3]. keeps_tac. }
  { by rewrite Hk3; cbn; rewrite Hk1. }
  split; [|by constructor]. rewrite Hp3, Hk3. rewrite Hh.
  eapply chain_free; [apply lookup_insert_eq|rewrite <- Hh; lia|lia|done|]. by apply chain_insert.
Qed.

(** ** Sequences of operations

    The abstract allocator is the list of free pages: an allocation takes its
    head, a free puts the page in front. *)

Inductive mop := OAlloc | OFree (v : Z).

Definition run_mop (o : mop) : K (option Z) :=
  match o with
  | OAlloc => r <- kalloc ;; ret (Some r)
  | OFree v => kfree v ;; ret None
  end.

Fixpoint run_mops (os : list mop) : K (list (option Z)) :=
  match os with
  | [] => ret []
  | o :: os => r <- run_mop o ;; rs <- run_mops os ;; ret (r :: rs)
  end.

Definition abs_mop (o : mop) (l : list Z) : option Z * list Z :=
  match o with
  | OAlloc => (Some (hd 0 l), tail l)
  | OFree v => (None, v :: l)
  end.

Fixpoint abs_mops (os : list mop) (l : list Z) : list (option Z) * list Z :=
  match os with
  | [] => ([], l)
  | o :: os => let '(r, l1) := abs_mop o l in let '(rs, l2) := abs_mops os l1 in (r :: rs, l2)
  end.

(** Frees are of pages of memory that are not on the list. *)
Fixpoint legal (pm : gmap Z bytes) (os : list mop) (l : list Z) : Prop :=
  match os with
  | [] => True
  | o :: os =>
    match o with OAlloc => True | OFree v => kpage v /\ v ∉ l /\ v ∈ dom pm end /\
    legal pm os (abs_mop o l).2
  end.

Lemma legal_dom pm pm' os l : dom pm = dom pm' -> legal pm os l -> legal pm' os l.
Proof.
  intros Hd. revert l. induction os as [|o os IH]; intros l; [done|]. cbn.
  rewrite Hd. intros [Ho Hl]. split; [done|]. by apply IH.
Qed.

Lemma mop_spec s l o os :
  kmem_ok s l -> cpu_ok s -> k_locks s !! LKmem = None -> legal (k_pm s) (o :: os) l ->
  wp (run_mop o) (fun r s' => ctx s s' /\ r = (abs_mop o l).1 /\ kmem_ok s' (abs_mop o l).2 /\
    legal (k_pm s') os (abs_mop o l).2) s.
Proof.
  intros Hk Hcpu Hlk [Ho Hl]. destruct o as [|v]; cbn [run_mop abs_mop fst snd]; kstep.
  - eapply wp_mono; [by apply kalloc_spec|]. intros r s' (Hc & _ & Hpm & _ & -> & Hk').
    kstep. by rewrite Hpm.
  - destruct Ho as (Hv & Hvl & Hd). apply elem_of_dom in Hd as Hs.
    eapply wp_mono; [by apply kfree_spec|]. intros [] s' (Hc & _ & Hpm & _ & Hk').
    kstep. split_and!; try done. eapply legal_dom, Hl. rewrite Hpm, dom_insert_L. set_solver.
Qed.

(** C17. The page allocator refines a stack of pages: any sequence of calls of
    kalloc and kfree, in which the pages freed are page-aligned kernel pages
    that are not free already, returns (without panic or fault) exactly what
    the abstract allocator returns, ends with the abstract allocator's free
    list threaded through memory, and returns all locks. In particular a page
    is never handed out twice without being freed in between. *)
Theorem kalloc_refines_stack s l os :
  kmem_ok s l -> cpu_ok s -> k_locks s !! LKmem = None -> legal (k_pm s) os l ->
  wp (run_mops os) (fun rs s' => ctx s s' /\ rs = (abs_mops os l).1 /\
    kmem_ok s' (abs_mops os l).2) s.
Proof.
  revert s l. induction os as [|o os IH]; intros s l Hk Hcpu Hlk Hl; [by kstep|].
  cbn [run_mops abs_mops]. kstep. eapply wp_mono; [by eapply mop_spec|].
  intros r s1 (Hc1 & Hr & Hk1 & Hl1). destruct (abs_mop o l) as [r' l1]. cbn in *. subst r'.
  kstep. eapply wp_mono; [apply (IH _ l1); try done|].
  { by apply (ctx_cpu_ok s). }
  { by rewrite (ctx_locks _ _ Hc1). }
  intros rs s2 (Hc2 & -> & Hk2). destruct (abs_mops os l1) as [rs l2]. kstep.
  split_and!; try done. by etrans.
Qed.

(** ** Initialisation *)

(** [n] pages from [p] on, the last one first. *)
Fixpoint pages_down (p : Z) (n : nat) (l : list Z) : list Z :=
  match n with
  | O => l
  | S n => pages_down (p + PGSIZE) n (p :: l)
  end.

Lemma freerange_loop_spec fuel n s l p vend :
  kmem_ok s l -> cpu_ok s -> k_locks s !! LKmem = None -> (n <= fuel)%nat ->
  p + PGSIZE * Z.of_nat n <= vend < p + PGSIZE * (Z.of_nat n + 1) ->
  0 <= p -> vend + PGSIZE < 2 ^ 32 ->
  (forall i : Z, 0 <= i < Z.of_nat n ->
     kpage (p + PGSIZE * i) /\ p + PGSIZE * i ∉ l /\ p + PGSIZE * i ∈ dom (k_pm s)) ->
  wp (freerange_loop fuel p vend) (fun _ s' => ctx s s' /\ kmem_frame s s' /\
    km_use_lock (k_kmem s') = km_use_lock (k_kmem s) /\
    dom (k_pm s') = dom (k_pm s) /\ kmem_ok s' (pages_down p n l)) s.
Proof.
  revert n s l p. induction fuel as [|fuel IH]; intros n s l p Hk Hcpu Hlk Hn Hr Hp Hv Hpg;
    unfold PGSIZE in *; cbn [freerange_loop]; rewrite u32_small by (unfold PGSIZE; lia).
  { assert (n = 0%nat) as -> by lia. rewrite (proj2 (Z.leb_gt _ _)) by (unfold PGSIZE; lia). by kstep. }
  destruct n as [|n].
  { rewrite (proj2 (Z.leb_gt _ _)) by (unfold PGSIZE; lia). by kstep. }
  rewrite (proj2 (Z.leb_le _ _)) by (unfold PGSIZE; lia). kstep.
  destruct (Hpg 0) as (H1 & H2 & H3); [lia|]. rewrite Z.mul_0_r, Z.add_0_r in *.
  eapply wp_mono; [apply (kfree_spec _ l); try done; by apply elem_of_dom|].
  intros [] s1 (Hc1 & Hf1 & Hpm & Hu & Hk1).
  assert (dom (k_pm s1) = dom (k_pm s)) as Hd by (rewrite Hpm, dom_insert_L; set_solver).
  cbn [pages_down]. eapply wp_mono; [apply (IH n _ (p :: l)); try done; try (unfold PGSIZE; lia)|].
  { by apply (ctx_cpu_ok s). }
  { by rewrite (ctx_locks _ _ Hc1). }
  { intros i Hi. rewrite Hd. destruct (Hpg (i + 1)) as (G1 & G2 & G3); [lia|].
    replace (p + 4096 * (i + 1)) with (p + PGSIZE + 4096 * i) in * by (unfold PGSIZE; lia).
    split_and!; try done. apply not_elem_of_cons. split; [unfold PGSIZE; lia|done]. }
  intros [] s2 (Hc2 & Hf2 & Hu2 & Hd2 & Hk2).
  split_and!; [by etrans|by etrans|congruence|congruence|done].
Qed.

Lemma pgroundup_spec a : 0 <= a -> a + PGSIZE <= 2 ^ 32 ->
  PGROUNDUP a mod PGSIZE = 0 /\ a <= PGROUNDUP a < a + PGSIZE.
Proof.
  intros. unfold PGROUNDUP. rewrite u32_small by (unfold PGSIZE in *; lia).
  rewrite pgrounddown_spec. unfold PGSIZE in *.
  pose proof (Z.mod_pos_bound (a + 4096 - 1) 4096). split; [|lia].
  by rewrite Zminus_mod_idemp_r, Z.sub_diag.
Qed.

(** C29. kinit2 terminates and leaves on the free list, besides what kinit1
    had put there, exactly the whole pages between the addresses given, with
    locking turned on; kinit2 (and the loop of freerange) needs no panic:
    every page it frees passes the checks of kfree. *)
Theorem kinit2_frees_range s l vstart vend :
  kmem_ok s l -> cpu_ok s -> k_locks s !! LKmem = None ->
  KERNBASE <= vstart <= vend -> kend <= vstart -> PGROUNDUP vstart <= vend <= KERNBASE + PHYSTOP ->
  (forall p, p mod PGSIZE = 0 -> vstart <= p -> p + PGSIZE <= vend ->
     p ∉ l /\ p ∈ dom (k_pm s)) ->
  wp (kinit2 vstart vend) (fun _ s' => ctx s s' /\ km_use_lock (k_kmem s') = 1 /\
    kmem_ok s' (pages_down (PGROUNDUP vstart) (Z.to_nat ((vend - PGROUNDUP vstart) / PGSIZE)) l)) s.
Proof.
  intros Hk Hcpu Hlk Hb He Hv Hpg.
  destruct (pgroundup_spec vstart) as [Hal Hup]; [unfold KERNBASE, PHYSTOP, PGSIZE in *; lia..|].
  unfold KERNBASE, PHYSTOP in *.
  pose proof (Z.div_pos (vend - PGROUNDUP vstart) PGSIZE).
  pose proof (Z.mod_pos_bound (vend - PGROUNDUP vstart) PGSIZE).
  pose proof (Z.div_mod (vend - PGROUNDUP vstart) PGSIZE).
  assert ((vend - PGROUNDUP vstart) / PGSIZE <= (vend - vstart) / PGSIZE).
  { apply Z.div_le_mono; unfold PGSIZE; lia. }
  unfold kinit2, freerange. kstep. unfold PGSIZE in *.
  eapply wp_mono; [apply (freerange_loop_spec _ (Z.to_nat ((vend - PGROUNDUP vstart) / PGSIZE)) _ l);
    unfold PGSIZE; try done; try lia|].
  - intros i Hi. assert ((PGROUNDUP vstart + 4096 * i) mod 4096 = 0) as Hm.
    { by rewrite Z.mul_comm, Z_mod_plus_full. }
    split; [split_and!; unfold KERNBASE, PHYSTOP, PGSIZE; try done; lia|]. apply Hpg; [done|lia..].
  - intros [] s' (Hc & _ & _ & _ & Hk'). kstep. split_and!; [|done|].
    + etrans; [exact Hc|]. by apply ctx_same.
    + destruct Hk'. by split.
Qed.
End kalloc_specs.

(** ** Witnesses *)

#[local] Instance demo_layout : Layout := { kend := KERNBASE + 0x100000; kdata := KERNBASE + 0x108000;
  ktrapret := KERNBASE + 0x101000; kforkret := KERNBASE + 0x102000 }.
Definition demo_pages (n : nat) : gmap Z bytes :=
  list_to_map ((fun i => (KERNBASE + 0x200000 + 4096 * Z.of_nat i, replicate 4096 0)) <$> seq 0 n).
Definition demo_mem : kst := set_pm (fun _ => demo_pages 3) kst0.

Lemma kinit2_frees_range_witness :
  wp (kinit2 (KERNBASE + 0x1ff001) (KERNBASE + 0x203abc)) (fun _ s' => km_use_lock (k_kmem s') = 1 /\
    kmem_ok s' [KERNBASE + 0x202000; KERNBASE + 0x201000; KERNBASE + 0x200000]) demo_mem.
Proof.
  eapply wp_mono; [apply (kinit2_frees_range demo_mem []); try done|].
  - split; constructor.
  - intros p Hm H1 H2. split; [apply not_elem_of_nil|]. unfold KERNBASE, PGSIZE in *.
    assert (p = 0x80200000 \/ p = 0x80201000 \/ p = 0x80202000) as [-> | [-> | ->]].
    { apply Z.mod_divide in Hm as [k ->]; lia. }
    all: apply elem_of_dom; by exists (replicate 4096 0).
  - intros [] s' (_ & H1 & H2). split; [done|]. exact H2.
Defined.

Definition demo_free : kst :=
  set_kmem (fun _ => Kmem 1 (KERNBASE + 0x201000))
    (set_pm (fun _ => {[ KERNBASE + 0x201000 := free_page (KERNBASE + 0x200000);
                         KERNBASE + 0x200000 := free_page 0 ]}) kst0).

Lemma kalloc_refines_stack_witness :
  wp (run_mops [OAlloc; OAlloc; OFree (KERNBASE + 0x201000); OAlloc; OAlloc])
    (fun rs s' => rs = [Some (KERNBASE + 0x201000); Some (KERNBASE + 0x200000); None;
      Some (KERNBASE + 0x201000); Some 0]) demo_free.
Proof.
  eapply wp_mono; [apply (kalloc_refines_stack demo_free [KERNBASE + 0x201000; KERNBASE + 0x200000]); try done|].
  - split; [|by apply (bool_decide_unpack _); vm_compute].
    do 2 (eapply chain_free; [reflexivity|done..|]). done.
  - cbn [legal abs_mop snd]. split_and!; try done. cbn [tail]. apply not_elem_of_nil.
  - intros rs s' (_ & -> & _). done.
Defined.
