(* ===== verification/Mp.v ===== *)
(** * The processors of the machine (kernel/mp.c)

    [mpinit] finds the multiprocessor tables of the BIOS in memory, checks
    their signatures and sums and walks the entries of the configuration
    table. Memory is a function of the (virtual) address, the value of the
    port of the interrupt mode register an argument; what [cprintf] prints is
    left out.

    The theorems: on the table that lists any entries of the five known types,
    [mpinit] records exactly the processors, in order, the boot processor and
    the I/O APIC; a ninth processor is written behind [cpus]; and an entry of
    another type makes the loop go round for ever, so that the code that
    falls back to one processor is never reached. *)

From stdpp Require Import prelude strings.
From S2P Require Import Prelude Kernel Port Kalloc.

(** The variables of the file, and the writes to ports. *)
Record mps := Mps {
  mp_cpus : list (Z * Z); mp_bcpu : Z; mp_ismp : Z; mp_ncpu : Z; mp_ioapicid : Z; mp_lapic : Z; mp_out : list (Z * Z) }.

Definition NCPU : Z := 8.
Definition MP_SIZE : Z := 16.
Definition MPCONF_SIZE : Z := 44.
Definition MPPROC_SIZE : Z := 20.
Definition MPIOAPIC_SIZE : Z := 8.
Definition MPBOOT : Z := 2.

Definition mpbcpu : M mps Z := gets mp_bcpu.

Section tables.
Context (m : Z -> Z) (imcr : Z).

(** The bytes at [a]. *)
Definition rd (a : Z) (n : nat) : bytes := (fun k => m (a + Z.of_nat k)) <$> seq 0 n.

Definition sum (addr : Z) (len : Z) : Z := u8 (foldl Z.add 0 (rd addr (Z.to_nat len))).

Fixpoint mpsearch1_loop (fuel : nat) (p e : Z) : option Z :=
  match fuel with
  | O => None
  | S fuel =>
    if p <? e then
      if bool_decide (rd p 4 = str "_MP_") && (sum p MP_SIZE =? 0) then Some p
      else mpsearch1_loop fuel (p + MP_SIZE) e
    else None
  end.
Definition mpsearch1 (a len : Z) : option Z :=
  let addr := p2v a in mpsearch1_loop (Z.to_nat len) addr (addr + len).

Definition mpsearch : option Z :=
  let bda := p2v 1024 in
  let p := Z.shiftl (Z.lor (Z.shiftl (m (bda + 15)) 8) (m (bda + 14))) 4 in
  let found :=
    if negb (p =? 0) then mpsearch1 p 1024
    else mpsearch1 (u32 (Z.lor (Z.shiftl (m (bda + 20)) 8) (m (bda + 19)) * 1024 - 1024)) 1024 in
  match found with Some mp => Some mp | None => mpsearch1 983040 65536 end.

(** [struct mp] and [struct mpconf]. *)
Definition mp_physaddr (mp : Z) : Z := le_val (rd (mp + 4) 4).
Definition mp_imcrp (mp : Z) : Z := m (mp + 12).
Definition conf_length (c : Z) : Z := le_val (rd (c + 4) 2).
Definition conf_version (c : Z) : Z := m (c + 6).
Definition conf_lapicaddr (c : Z) : Z := le_val (rd (c + 36) 4).

Definition mpconfig : option (Z * Z) :=
  match mpsearch with
  | None => None
  | Some mp =>
    if mp_physaddr mp =? 0 then None else
    let conf := p2v (mp_physaddr mp) in
    if negb (bool_decide (rd conf 4 = str "PCMP")) then None else
    if negb (conf_version conf =? 1) && negb (conf_version conf =? 4) then None else
    if negb (sum conf (conf_length conf) =? 0) then None else
    Some (mp, conf)
  end.

Definition set_cpu (n id apicid : Z) : M mps unit := fun s =>
  if (0 <=? n) && (n <? NCPU) then
    Ok tt (Mps (<[Z.to_nat n := (id, apicid)]> (mp_cpus s)) (mp_bcpu s) (mp_ismp s) (mp_ncpu s) (mp_ioapicid s) (mp_lapic s) (mp_out s))
  else Fault.
Definition upd (f : mps -> mps) : M mps unit := modify f.

Fixpoint mpinit_loop (fuel : nat) (p e : Z) : M mps unit :=
  if negb (p <? e) then ret tt else
  match fuel with
  | O => fun _ => NoFuel
  | S fuel =>
    match m p with
    | 0 =>
      n <- gets mp_ncpu ;;
      (if negb (Z.land (m (p + 3)) MPBOOT =? 0)
       then upd (fun s => Mps (mp_cpus s) n (mp_ismp s) (mp_ncpu s) (mp_ioapicid s) (mp_lapic s) (mp_out s)) else ret tt) ;;
      set_cpu n n (m (p + 1)) ;;
      upd (fun s => Mps (mp_cpus s) (mp_bcpu s) (mp_ismp s) (n + 1) (mp_ioapicid s) (mp_lapic s) (mp_out s)) ;;
      mpinit_loop fuel (p + MPPROC_SIZE) e
    | 2 =>
      upd (fun s => Mps (mp_cpus s) (mp_bcpu s) (mp_ismp s) (mp_ncpu s) (m (p + 1)) (mp_lapic s) (mp_out s)) ;;
      mpinit_loop fuel (p + MPIOAPIC_SIZE) e
    | 1 | 3 | 4 => mpinit_loop fuel (p + 8) e
    | _ =>
      upd (fun s => Mps (mp_cpus s) (mp_bcpu s) 0 (mp_ncpu s) (mp_ioapicid s) (mp_lapic s) (mp_out s)) ;;
      mpinit_loop fuel p e
    end
  end.

Definition mpinit (fuel : nat) : M mps unit :=
  upd (fun s => Mps (mp_cpus s) 0 (mp_ismp s) (mp_ncpu s) (mp_ioapicid s) (mp_lapic s) (mp_out s)) ;;
  match mpconfig with
  | None => ret tt
  | Some (mp, conf) =>
    upd (fun s => Mps (mp_cpus s) (mp_bcpu s) 1 (mp_ncpu s) (mp_ioapicid s) (conf_lapicaddr conf) (mp_out s)) ;;
    mpinit_loop fuel (conf + MPCONF_SIZE) (conf + conf_length conf) ;;
    ismp <- gets mp_ismp ;;
    if ismp =? 0 then
      upd (fun s => Mps (mp_cpus s) (mp_bcpu s) (mp_ismp s) 1 0 0 (mp_out s))
    else if negb (mp_imcrp mp =? 0) then
      upd (fun s => Mps (mp_cpus s) (mp_bcpu s) (mp_ismp s) (mp_ncpu s) (mp_ioapicid s) (mp_lapic s)
                      (mp_out s ++ [(34, 112); (35, Z.lor imcr 1)]))
    else ret tt
  end.
End tables.

(** ** The search *)

Definition is_mp (m : Z -> Z) (p : Z) : Prop := rd m p 4 = str "_MP_" /\ sum m p MP_SIZE = 0.

(** [mpsearch1] returns the first structure on a 16-byte boundary of the range. *)
Lemma mpsearch1_first m fuel p e : e - p <= 16 * Z.of_nat fuel ->
  match mpsearch1_loop m fuel p e with
  | Some q => exists k, 0 <= k /\ q = p + MP_SIZE * k /\ q < e /\ is_mp m q /\ forall j, 0 <= j < k -> ~ is_mp m (p + MP_SIZE * j)
  | None => forall k, 0 <= k -> p + MP_SIZE * k < e -> ~ is_mp m (p + MP_SIZE * k)
  end.
Proof.
  unfold MP_SIZE at 1 2 3 4. revert p. induction fuel as [|fuel IH]; intros p Hf; cbn [mpsearch1_loop]; [intros; lia|].
  destruct (Z.ltb_spec p e) as [Hlt|Hge]; [|intros; lia].
  destruct (bool_decide (rd m p 4 = str "_MP_") && (sum m p MP_SIZE =? 0)) eqn:E.
  - apply andb_true_iff in E as [E1%bool_decide_eq_true E2%Z.eqb_eq]. exists 0. split_and!; [done|lia|done|by split|lia].
  - assert (~ is_mp m p) as Hno.
    { intros [H1 H2]. rewrite bool_decide_eq_true_2, H2 in E by done. done. }
    assert (forall j, 0 <= j -> (forall i, 0 <= i < j -> ~ is_mp m (p + 16 + 16 * i)) ->
      forall i, 0 <= i < j + 1 -> ~ is_mp m (p + 16 * i)) as Hshift.
    { intros j Hj Hall i Hi. destruct (decide (i = 0)) as [->|]; [by rewrite Z.mul_0_r, Z.add_0_r|].
      replace (p + 16 * i) with (p + 16 + 16 * (i - 1)) by lia. apply Hall. lia. }
    specialize (IH (p + MP_SIZE)). unfold MP_SIZE in IH at 1. specialize (IH ltac:(lia)). unfold MP_SIZE in IH.
    unfold MP_SIZE at 1. destruct (mpsearch1_loop m fuel (p + 16) e) as [q|].
    + destruct IH as (k & Hk & -> & ? & ? & Hall). exists (k + 1). split_and!; [lia|lia|done|done|]. by apply Hshift.
    + intros k Hk Hke. apply (Hshift k Hk); [|lia]. intros i Hi. apply IH; lia.
Qed.

(** ** The entries of the configuration table *)

Inductive mpentry :=
| EProc (apicid version flags : Z) (rest : bytes)
| EIoapic (apicno : Z) (rest : bytes)
| EOther (type : Z) (rest : bytes).

Definition entry_enc (e : mpentry) : bytes :=
  match e with
  | EProc apicid version flags rest => [0; apicid; version; flags] ++ rest
  | EIoapic apicno rest => [2; apicno] ++ rest
  | EOther type rest => type :: rest
  end.

Definition entry_ok (e : mpentry) : Prop :=
  match e with
  | EProc _ _ _ rest => length rest = 16%nat
  | EIoapic _ rest => length rest = 6%nat
  | EOther type rest => (type = 1 \/ type = 3 \/ type = 4) /\ length rest = 7%nat
  end.

(** What the table says: the processors in order, the number of the last one
    marked for booting, the last I/O APIC. *)
Fixpoint apics (es : list mpentry) : list Z :=
  match es with
  | [] => []
  | EProc apicid _ _ _ :: es => apicid :: apics es
  | _ :: es => apics es
  end.
Fixpoint boot_cpu (es : list mpentry) (n b : Z) : Z :=
  match es with
  | [] => b
  | EProc _ _ flags _ :: es => boot_cpu es (n + 1) (if negb (Z.land flags MPBOOT =? 0) then n else b)
  | _ :: es => boot_cpu es n b
  end.
Fixpoint last_ioapic (es : list mpentry) (d : Z) : Z :=
  match es with
  | [] => d
  | EIoapic no _ :: es => last_ioapic es no
  | _ :: es => last_ioapic es d
  end.

(** Processor [k] has number [k]. *)
Definition listed (n : Z) (l : list Z) : list (Z * Z) := imap (fun k a => (n + Z.of_nat k, a)) l.

Definition walked (s : mps) (es : list mpentry) : mps :=
  let n := mp_ncpu s in
  Mps (splice (mp_cpus s) (Z.to_nat n) (listed n (apics es))) (boot_cpu es n (mp_bcpu s)) (mp_ismp s)
    (n + Z.of_nat (length (apics es))) (last_ioapic es (mp_ioapicid s)) (mp_lapic s) (mp_out s).

Lemma rd_app m p a b : rd m p (a + b) = rd m p a ++ rd m (p + Z.of_nat a) b.
Proof.
  unfold rd. rewrite seq_app, fmap_app. f_equal. cbn [Nat.add].
  rewrite <- (Nat.add_0_l a) at 1. rewrite Nat.add_comm. rewrite <- fmap_add_seq, <- list_fmap_compose.
  apply list_fmap_ext. intros i x _. cbn. f_equal. lia.
Qed.

Lemma rd_split m p l1 l2 : rd m p (length (l1 ++ l2)) = l1 ++ l2 ->
  rd m p (length l1) = l1 /\ rd m (p + Z.of_nat (length l1)) (length l2) = l2.
Proof.
  rewrite length_app, rd_app. apply app_inj_1. unfold rd. by rewrite length_fmap, length_seq.
Qed.

Lemma rd_lookup m p l k b : rd m p (length l) = l -> l !! k = Some b -> m (p + Z.of_nat k) = b.
Proof.
  intros E Hk. rewrite <- E in Hk. unfold rd in Hk. apply list_lookup_fmap_Some in Hk as (j & -> & Hj).
  apply lookup_seq in Hj as [-> _]. done.
Qed.

Lemma splice_cons {A} (C : list A) n x l : (n < length C)%nat -> splice (<[n := x]> C) (S n) l = splice C n (x :: l).
Proof.
  intros Hn. unfold splice. rewrite drop_insert_lt by lia.
  rewrite (take_S_r _ n x) by (apply list_lookup_insert_eq; lia). rewrite take_insert_ge by lia.
  rewrite <- app_assoc. cbn. by rewrite Nat.add_succ_r.
Qed.

Lemma listed_cons n a l : listed n (a :: l) = (n, a) :: listed (n + 1) l.
Proof.
  unfold listed. cbn. rewrite Z.add_0_r. f_equal. apply imap_ext. intros i x _. cbn. f_equal. lia.
Qed.

(** One entry of a known type. *)
Lemma mpinit_entry m fuel p e s en : p < e -> entry_ok en -> rd m p (length (entry_enc en)) = entry_enc en ->
  0 <= mp_ncpu s -> mp_ncpu s + Z.of_nat (length (apics [en])) <= NCPU -> length (mp_cpus s) = Z.to_nat NCPU ->
  exists s1, mpinit_loop m (S fuel) p e s = mpinit_loop m fuel (p + Z.of_nat (length (entry_enc en))) e s1 /\
    (forall es, walked s (en :: es) = walked s1 es) /\ length (mp_cpus s1) = Z.to_nat NCPU /\
    mp_ncpu s1 = mp_ncpu s + Z.of_nat (length (apics [en])).
Proof.
  intros Hp Hok Hrd Hn0 Hn Hl. cbn [mpinit_loop]. rewrite (proj2 (Z.ltb_lt _ _) Hp). cbn [negb].
  assert (forall k b, entry_enc en !! k = Some b -> m (p + Z.of_nat k) = b) as Hm by (intros; by eapply rd_lookup).
  destruct en as [apicid version flags rest|apicno rest|type rest]; cbn in Hok.
  - assert (m (p + 0) = 0 /\ m (p + 1) = apicid /\ m (p + 3) = flags) as (H0 & H1 & H3)
      by (split_and!; [apply (Hm 0%nat)|apply (Hm 1%nat)|apply (Hm 3%nat)]; done).
    cbn in Hn. rewrite Z.add_0_r in H0. rewrite H0, H1, H3.
    replace (Z.of_nat (length (entry_enc (EProc apicid version flags rest)))) with MPPROC_SIZE by (cbn; rewrite Hok; done).
    unfold bind, gets, upd, modify, ret, set_cpu.
    destruct (negb (Z.land flags MPBOOT =? 0)) eqn:Eb; cbn [mp_ncpu mp_cpus];
      rewrite (proj2 (Z.leb_le _ _) Hn0), (proj2 (Z.ltb_lt (mp_ncpu s) NCPU)) by lia; cbn [andb].
    all: eexists; split; [reflexivity|]; cbn [mp_ncpu mp_cpus mp_bcpu mp_ismp mp_ioapicid mp_lapic mp_out];
      split; [|split; [by rewrite length_insert|done]]; intros es; unfold walked; cbn [apics boot_cpu last_ioapic mp_ncpu mp_cpus mp_bcpu mp_ismp mp_ioapicid mp_lapic mp_out];
      rewrite Eb, listed_cons; f_equal; [|cbn; lia];
      replace (Z.to_nat (mp_ncpu s + 1)) with (S (Z.to_nat (mp_ncpu s))) by lia; symmetry; apply splice_cons; unfold NCPU in *; lia.
  - assert (m (p + 0) = 2 /\ m (p + 1) = apicno) as (H0 & H1) by (split; [apply (Hm 0%nat)|apply (Hm 1%nat)]; done).
    rewrite Z.add_0_r in H0.
    rewrite H0, H1. replace (Z.of_nat (length (entry_enc (EIoapic apicno rest)))) with MPIOAPIC_SIZE by (cbn; rewrite Hok; done).
    eexists. split; [reflexivity|]. split_and!; [done|done|cbn; lia].
  - assert (m (p + 0) = type) as H0 by (by apply (Hm 0%nat)). rewrite Z.add_0_r in H0. rewrite H0. destruct Hok as [Ht Hr].
    replace (Z.of_nat (length (entry_enc (EOther type rest)))) with 8 by (cbn; rewrite Hr; done).
    exists s. split; [by destruct Ht as [->|[->| ->]]|]. split_and!; [done|done|cbn; lia].
Qed.

Lemma mpinit_entries m es fuel p s e : Forall entry_ok es ->
  rd m p (length (concat (entry_enc <$> es))) = concat (entry_enc <$> es) -> p + Z.of_nat (length (concat (entry_enc <$> es))) <= e ->
  0 <= mp_ncpu s -> mp_ncpu s + Z.of_nat (length (apics es)) <= NCPU -> length (mp_cpus s) = Z.to_nat NCPU ->
  mpinit_loop m (length es + fuel) p e s =
  mpinit_loop m fuel (p + Z.of_nat (length (concat (entry_enc <$> es)))) e (walked s es).
Proof.
  intros Hok. revert p s. induction Hok as [|en es Hen Hes IH]; intros p s Hrd He Hn0 Hn Hl.
  - cbn [fmap list_fmap concat length Nat.add]. rewrite Z.add_0_r. f_equal. unfold walked. destruct s. cbn. f_equal; [|lia].
    unfold splice. cbn. by rewrite Nat.add_0_r, take_drop.
  - cbn [fmap list_fmap concat] in Hrd, He |- *. pose proof (rd_split _ _ _ _ Hrd) as [Hr1 Hr2].
    rewrite length_app in He |- *. assert (0 < length (entry_enc en))%nat as Hpos by (destruct en; cbn; lia).
    assert (length (apics (en :: es)) = length (apics [en]) + length (apics es))%nat as Hla by (by destruct en).
    destruct (mpinit_entry m (length es + fuel) p e s en) as (s1 & E1 & Hw & Hl1 & Hn1); [lia|done|done|done|lia|done|].
    cbn [length Nat.add]. rewrite E1, Hw, IH by (done || lia). f_equal. lia.
Qed.

Lemma mpinit_unknown m fuel p e s : p < e -> 4 < m p -> mpinit_loop m fuel p e s = NoFuel.
Proof.
  intros Hp Hm. revert s. induction fuel as [|fuel IH]; intros s; cbn [mpinit_loop]; rewrite (proj2 (Z.ltb_lt _ _) Hp); cbn [negb]; [done|].
  destruct (m p) as [|q|q]; [lia| |lia]. do 3 (destruct q as [q|q|]; try lia); apply IH.
Qed.

(** Whatever entries come before it. *)
Lemma mpinit_spins m es fuel p s e : Forall entry_ok es ->
  rd m p (length (concat (entry_enc <$> es))) = concat (entry_enc <$> es) ->
  let q := p + Z.of_nat (length (concat (entry_enc <$> es))) in q < e -> 4 < m q ->
  0 <= mp_ncpu s -> mp_ncpu s + Z.of_nat (length (apics es)) <= NCPU -> length (mp_cpus s) = Z.to_nat NCPU ->
  mpinit_loop m fuel p e s = NoFuel.
Proof.
  intros Hok. revert fuel p s. induction Hok as [|en es Hen Hes IH]; intros fuel p s Hrd q Hq Hm Hn0 Hn Hl; unfold q in *; clear q.
  - cbn in Hq, Hm. rewrite Z.add_0_r in Hq, Hm. by apply mpinit_unknown.
  - cbn [fmap list_fmap concat] in Hrd, Hq, Hm. pose proof (rd_split _ _ _ _ Hrd) as [Hr1 Hr2]. rewrite length_app in Hq, Hm.
    assert (length (apics (en :: es)) = length (apics [en]) + length (apics es))%nat as Hla by (by destruct en).
    destruct fuel as [|fuel]; [cbn; rewrite (proj2 (Z.ltb_lt p e)) by lia; done|].
    destruct (mpinit_entry m fuel p e s en) as (s1 & -> & _ & Hl1 & Hn1); [lia|done|done|done|lia|done|].
    apply IH; [done| | |lia|lia|done]; [lia|]. replace (p + Z.of_nat (length (entry_enc en)) + Z.of_nat (length (concat (entry_enc <$> es))))
      with (p + Z.of_nat (length (entry_enc en) + length (concat (entry_enc <$> es)))) by lia. done.
Qed.

(** C30. [mpinit] reads the configuration table of the BIOS. When the table
    found is a list of entries of the five known types with at most eight
    processors, it ends with exactly those processors in [cpus], numbered in
    order, their count, the boot processor (the last one marked, or the
    first), the last I/O APIC and the address of the local APIC. When an entry
    of another type follows, it does not fall back to one processor, as the
    code behind the loop intends: it never ends. *)
Theorem mpinit_table (m : Z -> Z) (imcr : Z) (s : mps) (mp conf : Z) (es : list mpentry) (fuel : nat)
    (Hconf : mpconfig m = Some (mp, conf)) (Hok : Forall entry_ok es) (Hcpus : Z.of_nat (length (apics es)) <= NCPU)
    (Htable : rd m (conf + MPCONF_SIZE) (length (concat (entry_enc <$> es))) = concat (entry_enc <$> es))
    (Hlen : length (mp_cpus s) = Z.to_nat NCPU) (Hbss : mp_ncpu s = 0) :
  let e := MPCONF_SIZE + Z.of_nat (length (concat (entry_enc <$> es))) in
  (conf_length m conf = e -> (length es <= fuel)%nat ->
     wp (mpinit m imcr fuel) (fun _ s' =>
       mp_ismp s' = 1 /\ mp_ncpu s' = Z.of_nat (length (apics es)) /\
       mp_cpus s' = listed 0 (apics es) ++ drop (length (apics es)) (mp_cpus s) /\
       mp_bcpu s' = boot_cpu es 0 0 /\ mp_ioapicid s' = last_ioapic es (mp_ioapicid s) /\
       mp_lapic s' = conf_lapicaddr m conf) s) /\
  (e < conf_length m conf -> 4 < m (conf + e) -> forall fuel, mpinit m imcr fuel s = NoFuel).
Proof.
  intros e. unfold mpinit. rewrite Hconf. split.
  - intros Hle Hfuel. unfold upd. kstep. rewrite Hle. unfold wp at 1.
    replace fuel with (length es + (fuel - length es))%nat by lia.
    rewrite mpinit_entries; cbn [mp_ncpu mp_cpus]; rewrite ?Hbss; try done; [|unfold e; lia].
    replace (conf + MPCONF_SIZE + Z.of_nat (length (concat (entry_enc <$> es)))) with (conf + e) by (unfold e; lia).
    set (s1 := walked _ es).
    assert (mpinit_loop m (fuel - length es) (conf + e) (conf + e) s1 = Ok tt s1) as ->.
    { destruct (fuel - length es)%nat; cbn [mpinit_loop]; by rewrite Z.ltb_irrefl. }
    change (mp_ismp s1) with 1. cbn [Z.eqb]. kstep.
    assert (mp_cpus s1 = listed 0 (apics es) ++ drop (length (apics es)) (mp_cpus s)) as Ec.
    { unfold s1, walked, splice. cbn [mp_cpus mp_ncpu]. rewrite ?Hbss. cbn [Z.to_nat take app Nat.add].
      unfold listed. by rewrite length_imap. }
    assert (mp_ncpu s1 = Z.of_nat (length (apics es)) /\ mp_bcpu s1 = boot_cpu es 0 0) as [En Eb].
    { unfold s1, walked. cbn [mp_ncpu mp_bcpu]. by rewrite ?Hbss. }
    destruct (negb (mp_imcrp m mp =? 0)); kstep; cbn [mp_cpus mp_ncpu mp_ismp mp_bcpu mp_ioapicid mp_lapic]; done.
  - intros He Hm fuel'. unfold bind, upd, modify. rewrite (mpinit_spins m es); cbn [mp_ncpu mp_cpus]; rewrite ?Hbss; try done.
    + unfold e in He. lia.
    + by replace (conf + MPCONF_SIZE + Z.of_nat (length (concat (entry_enc <$> es)))) with (conf + e) by (unfold e; lia).
Qed.

(** A table with two processors, the second for booting, and an I/O APIC. *)
Definition demo_entries : list mpentry :=
  [EProc 7 20 1 (replicate 16 0); EProc 9 20 3 (replicate 16 0); EIoapic 5 (replicate 6 0)].
Definition with_sum (l : bytes) (k : nat) : bytes := <[k := u8 (- foldl Z.add 0 l)]> l.
Definition demo_conf : bytes :=
  with_sum (str "PCMP" ++ le_bytes 2 92 ++ [4; 0] ++ replicate 28 0 ++ le_bytes 4 0xfee00000 ++ replicate 4 0 ++
            concat (entry_enc <$> demo_entries)) 7.
Definition demo_mp : bytes := with_sum (str "_MP_" ++ le_bytes 4 0x9000 ++ [1; 4; 0; 0; 0; 0; 0; 0]) 10.
Definition demo_bios (a : Z) : Z :=
  let at_ (base : Z) (l : bytes) := if base <=? a then l !! Z.to_nat (a - base) else None in
  match at_ (p2v 0x9fc00) demo_mp with
  | Some b => b
  | None => match at_ (p2v 0x9000) demo_conf with
            | Some b => b
            | None => default 0 (at_ (p2v 0x40e) [0xc0; 0x9f])
            end
  end.

Lemma mpinit_table_witness :
  let s := Mps (replicate 8 (0, 0)) 0 0 0 0 0 [] in
  wp (mpinit demo_bios 0 3) (fun _ s' =>
    mp_ismp s' = 1 /\ mp_ncpu s' = Z.of_nat (length (apics demo_entries)) /\
    mp_cpus s' = listed 0 (apics demo_entries) ++ drop (length (apics demo_entries)) (mp_cpus s) /\
    mp_bcpu s' = boot_cpu demo_entries 0 0 /\ mp_ioapicid s' = last_ioapic demo_entries (mp_ioapicid s) /\
    mp_lapic s' = conf_lapicaddr demo_bios (p2v 0x9000)) s.
Proof.
  intros s.
  assert (mpconfig demo_bios = Some (p2v 0x9fc00, p2v 0x9000)) as H1 by (vm_compute; reflexivity).
  assert (Forall entry_ok demo_entries) as H2 by (repeat constructor).
  assert (Z.of_nat (length (apics demo_entries)) <= NCPU) as H3 by (vm_compute; done).
  assert (rd demo_bios (p2v 0x9000 + MPCONF_SIZE) (length (concat (entry_enc <$> demo_entries))) =
    concat (entry_enc <$> demo_entries)) as H4 by (vm_compute; reflexivity).
  assert (conf_length demo_bios (p2v 0x9000) = MPCONF_SIZE + Z.of_nat (length (concat (entry_enc <$> demo_entries)))) as H5
    by (vm_compute; reflexivity).
  exact (proj1 (mpinit_table demo_bios 0 s (p2v 0x9fc00) (p2v 0x9000) demo_entries 3 H1 H2 H3 H4 eq_refl eq_refl) H5 (le_n 3)).
Defined.
