(* ===== verification/Vm.v ===== *)
(** * Virtual memory (kernel/vm.c)

    Page directories and page tables are pages of memory, read and written
    word by word as in C; an entry is the 32-bit word the hardware walks.
    The operations are those of vm.c except [seginit], which is in [Segment];
    of the task state [switchuvm] sets, the stack of the process is kept.
    [translate] is the hardware's walk; [VmMap] relates what [mappages] writes
    to it, and [TypingVm] shows that every operation keeps the types. *)

From stdpp Require Import prelude gmap strings.
From S2P Require Import Prelude Kernel Port Spinlock Sched Bio Log StringC Fs Console Kalloc.

(** ** Entries (include/mmu.h) *)

Definition NPDENTRIES : Z := 1024.
Definition NPTENTRIES : Z := 1024.
Definition PTXSHIFT : Z := 12.
Definition PDXSHIFT : Z := 22.
Definition PDX (va : Z) : Z := Z.land (Z.shiftr va PDXSHIFT) 0x3FF.
Definition PTX (va : Z) : Z := Z.land (Z.shiftr va PTXSHIFT) 0x3FF.
Definition PTE_P : Z := 0x001.
Definition PTE_W : Z := 0x002.
Definition PTE_U : Z := 0x004.
Definition PTE_ADDR (pte : Z) : Z := Z.land pte (Z.lnot 0xFFF).
Definition PTE_FLAGS (pte : Z) : Z := Z.land pte 0xFFF.
Definition SEG_KDATA : Z := 2.

(** ** Bytes at kernel addresses

    A transfer that leaves the page is outside the object. *)
Definition kread (a n : Z) : K bytes :=
  p <- page_get (PGROUNDDOWN a) ;;
  if PGSIZE <? a mod PGSIZE + n then fault else
  ret (slice p (Z.to_nat (a mod PGSIZE)) (Z.to_nat n)).
Definition kwrite (a : Z) (bs : bytes) : K unit :=
  if (length bs =? 0)%nat then ret tt else
  p <- page_get (PGROUNDDOWN a) ;;
  if PGSIZE <? a mod PGSIZE + Z.of_nat (length bs) then fault else
  page_set (PGROUNDDOWN a) (splice p (Z.to_nat (a mod PGSIZE)) bs).
(** [memset(a, 0, PGSIZE)] *)
Definition kzero (a : Z) : K unit := kwrite a (replicate 4096 0).

Section vm.
Context `{LY : Layout} `{PO : Ports} `{DO : DevOps}.

(** The address of the entry for [va], or 0. *)
Definition walkpgdir (pgdir va : Z) (alloc : bool) : K Z :=
  let pde := u32 (pgdir + 4 * PDX va) in
  e <- rd32 pde ;;
  if has e PTE_P then ret (u32 (p2v (PTE_ADDR e) + 4 * PTX va)) else
  if negb alloc then ret 0 else
  pgtab <- kalloc ;;
  if pgtab =? 0 then ret 0 else
  kzero pgtab ;;
  wr32 pde (Z.lor (Z.lor (Z.lor (v2p pgtab) PTE_P) PTE_W) PTE_U) ;;
  ret (u32 (pgtab + 4 * PTX va)).

Fixpoint mappages_loop (fuel : nat) (pgdir a last pa perm : Z) : K Z :=
  match fuel with
  | O => fun _ => NoFuel
  | S fuel =>
    pte <- walkpgdir pgdir a true ;;
    if pte =? 0 then ret (-1) else
    e <- rd32 pte ;;
    if has e PTE_P then panic "remap" else
    wr32 pte (Z.lor (Z.lor pa perm) PTE_P) ;;
    if a =? last then ret 0 else
    mappages_loop fuel pgdir (u32 (a + PGSIZE)) last (u32 (pa + PGSIZE)) perm
  end.

Definition mappages (pgdir va size pa perm : Z) : K Z :=
  let a := PGROUNDDOWN va in
  let last := PGROUNDDOWN (u32 (va + size - 1)) in
  mappages_loop (Z.to_nat (u32 (last - a) / PGSIZE + 1)) pgdir a last pa perm.

Record kmap_entry := Kmap { km_virt : Z; km_phys_start : Z; km_phys_end : Z; km_perm : Z }.

Definition kmap : list kmap_entry :=
  [Kmap KERNBASE 0 EXTMEM PTE_W;
   Kmap KERNLINK (u32 (KERNLINK - KERNBASE)) (u32 (kdata - KERNBASE)) 0;
   Kmap kdata (u32 (kdata - KERNBASE)) PHYSTOP PTE_W;
   Kmap DEVSPACE DEVSPACE 0 PTE_W].

Fixpoint map_all (pgdir : Z) (l : list kmap_entry) : K bool :=
  match l with
  | [] => ret true
  | k :: l =>
    r <- mappages pgdir (km_virt k) (u32 (km_phys_end k - km_phys_start k)) (km_phys_start k) (km_perm k) ;;
    if r <? 0 then ret false else map_all pgdir l
  end.

Definition setupkvm : K Z :=
  pgdir <- kalloc ;;
  if pgdir =? 0 then ret 0 else
  kzero pgdir ;;
  if DEVSPACE <? p2v PHYSTOP then panic "PHYSTOP too high" else
  ok <- map_all pgdir kmap ;;
  ret (if (ok : bool) then pgdir else 0).

(** [lcr3] *)
Definition lcr3 (v : Z) : K unit := modify (set_cr3 (fun _ => v)).

Definition switchkvm : K unit :=
  d <- gets k_kpgdir ;; lcr3 (v2p d).

Definition kvmalloc : K unit :=
  d <- setupkvm ;;
  modify (set_kpgdir (fun _ => d)) ;;
  switchkvm.

Definition switchuvm (p : nat) : K unit :=
  pushcli ;;
  i <- myproc ;;
  me <- getp i ;;
  modify (set_tss (fun _ => (Z.shiftl SEG_KDATA 3, u32 (p_kstack me + KSTACKSIZE)))) ;;
  pp <- getp p ;;
  if p_pgdir pp =? 0 then panic "switchuvm: no pgdir" else
  lcr3 (v2p (p_pgdir pp)) ;;
  popcli.

(** [init] is the code that the build links in as _binary_initcode. *)
Definition inituvm (pgdir : Z) (init : bytes) (sz : Z) : K unit :=
  if PGSIZE <=? sz then panic "inituvm: more than a page" else
  mem <- kalloc ;;
  kzero mem ;;
  _ <- mappages pgdir 0 PGSIZE (v2p mem) (Z.lor PTE_W PTE_U) ;;
  kwrite mem (take (Z.to_nat sz) init).

Fixpoint loaduvm_loop (fuel : nat) (pgdir addr : Z) (ip : nat) (offset sz i : Z) : K Z :=
  if i <? sz then
    match fuel with
    | O => fun _ => NoFuel
    | S fuel =>
      pte <- walkpgdir pgdir (u32 (addr + i)) false ;;
      if pte =? 0 then panic "loaduvm: address should exist" else
      e <- rd32 pte ;;
      let pa := PTE_ADDR e in
      let n := if sz - i <? PGSIZE then sz - i else PGSIZE in
      ' (r, bs) <- readi ip (u32 (offset + i)) n ;;
      kwrite (p2v pa) bs ;;
      if negb (u32 r =? n) then ret (-1) else
      loaduvm_loop fuel pgdir addr ip offset sz (u32 (i + PGSIZE))
    end
  else ret 0.

Definition loaduvm (pgdir addr : Z) (ip : nat) (offset sz : Z) : K Z :=
  if negb (addr mod PGSIZE =? 0) then panic "loaduvm: addr must be page aligned" else
  loaduvm_loop (Z.to_nat (sz / PGSIZE + 1)) pgdir addr ip offset sz 0.

Fixpoint deallocuvm_loop (fuel : nat) (pgdir a oldsz : Z) : K unit :=
  if a <? oldsz then
    match fuel with
    | O => fun _ => NoFuel
    | S fuel =>
      pte <- walkpgdir pgdir a false ;;
      if pte =? 0 then
        deallocuvm_loop fuel pgdir (u32 (u32 (a + (NPTENTRIES - 1) * PGSIZE) + PGSIZE)) oldsz
      else
        e <- rd32 pte ;;
        (if has e PTE_P then
           let pa := PTE_ADDR e in
           if pa =? 0 then panic "kfree" else
           kfree (p2v pa) ;;
           wr32 pte 0
         else ret tt) ;;
        deallocuvm_loop fuel pgdir (u32 (a + PGSIZE)) oldsz
    end
  else ret tt.

Definition deallocuvm (pgdir oldsz newsz : Z) : K Z :=
  if oldsz <=? newsz then ret (s32 oldsz) else
  deallocuvm_loop (Z.to_nat (oldsz / PGSIZE + 1)) pgdir (PGROUNDUP newsz) oldsz ;;
  ret (s32 newsz).

Fixpoint allocuvm_loop (fuel : nat) (pgdir a oldsz newsz : Z) : K Z :=
  if a <? newsz then
    match fuel with
    | O => fun _ => NoFuel
    | S fuel =>
      mem <- kalloc ;;
      if mem =? 0 then
        cprintf (str "allocuvm out of memory" ++ [NEWLINE]) [] ;;
        _ <- deallocuvm pgdir newsz oldsz ;;
        ret 0
      else
        kzero mem ;;
        _ <- mappages pgdir a PGSIZE (v2p mem) (Z.lor PTE_W PTE_U) ;;
        allocuvm_loop fuel pgdir (u32 (a + PGSIZE)) oldsz newsz
    end
  else ret (s32 newsz).

Definition allocuvm (pgdir oldsz newsz : Z) : K Z :=
  if KERNBASE <=? newsz then ret 0 else
  if newsz <? oldsz then ret (s32 oldsz) else
  allocuvm_loop (Z.to_nat (newsz / PGSIZE + 1)) pgdir (PGROUNDUP oldsz) oldsz newsz.

(** The loop over the [n] last entries of the directory. *)
Fixpoint freevm_loop (pgdir : Z) (n : nat) (i : Z) : K unit :=
  match n with
  | O => ret tt
  | S n =>
    e <- rd32 (u32 (pgdir + 4 * i)) ;;
    (when has e PTE_P do kfree (p2v (PTE_ADDR e))) ;;
    freevm_loop pgdir n (i + 1)
  end.

Definition freevm (pgdir : Z) : K unit :=
  if pgdir =? 0 then panic "freevm: no pgdir" else
  _ <- deallocuvm pgdir KERNBASE 0 ;;
  freevm_loop pgdir (Z.to_nat NPDENTRIES) 0 ;;
  kfree pgdir.

Definition clearpteu (pgdir uva : Z) : K unit :=
  pte <- walkpgdir pgdir uva false ;;
  if pte =? 0 then panic "clearpteu" else
  e <- rd32 pte ;;
  wr32 pte (clrf e PTE_U).

Fixpoint copyuvm_loop (fuel : nat) (pgdir d i sz : Z) : K bool :=
  if i <? sz then
    match fuel with
    | O => fun _ => NoFuel
    | S fuel =>
      pte <- walkpgdir pgdir i false ;;
      if pte =? 0 then panic "copyuvm: pte should exist" else
      e <- rd32 pte ;;
      if negb (has e PTE_P) then panic "copyuvm: page not present" else
      let pa := PTE_ADDR e in
      let flags := PTE_FLAGS e in
      mem <- kalloc ;;
      if mem =? 0 then ret false else
      bs <- kread (p2v pa) PGSIZE ;;
      kwrite mem bs ;;
      r <- mappages d i PGSIZE (v2p mem) flags ;;
      if r <? 0 then ret false else
      copyuvm_loop fuel pgdir d (u32 (i + PGSIZE)) sz
    end
  else ret true.

Definition copyuvm (pgdir sz : Z) : K Z :=
  d <- setupkvm ;;
  if d =? 0 then ret 0 else
  ok <- copyuvm_loop (Z.to_nat (sz / PGSIZE + 1)) pgdir d 0 sz ;;
  if (ok : bool) then ret d else freevm d ;; ret 0.

(** The entry is read even when there is none (a null pointer is followed). *)
Definition uva2ka (pgdir uva : Z) : K Z :=
  pte <- walkpgdir pgdir uva false ;;
  e <- rd32 pte ;;
  if negb (has e PTE_P) then ret 0 else
  if negb (has e PTE_U) then ret 0 else
  ret (p2v (PTE_ADDR e)).

(** [buf] is what is still to be copied; its length is [len]. *)
Fixpoint copyout_loop (fuel : nat) (pgdir va : Z) (buf : bytes) (len : Z) : K Z :=
  if 0 <? len then
    match fuel with
    | O => fun _ => NoFuel
    | S fuel =>
      let va0 := PGROUNDDOWN va in
      pa0 <- uva2ka pgdir va0 ;;
      if pa0 =? 0 then ret (-1) else
      let n := Z.min (PGSIZE - (va - va0)) len in
      kwrite (u32 (pa0 + (va - va0))) (take (Z.to_nat n) buf) ;;
      copyout_loop fuel pgdir (u32 (va0 + PGSIZE)) (drop (Z.to_nat n) buf) (len - n)
    end
  else ret 0.

Definition copyout (pgdir va : Z) (p : bytes) (len : Z) : K Z :=
  copyout_loop (Z.to_nat (len / PGSIZE + 2)) pgdir va p len.
End vm.

(** ** The hardware's walk

    [translate pm cr3 va] is the kernel address of the byte that the virtual
    address [va] is mapped to, with the entry that maps it. *)
Definition pm_word (pm : gmap Z bytes) (a : Z) : option Z :=
  p ← pm !! PGROUNDDOWN a; Some (get32 p (Z.to_nat (a mod PGSIZE))).

Definition translate (pm : gmap Z bytes) (cr3 va : Z) : option (Z * Z) :=
  pde ← pm_word pm (p2v cr3 + 4 * PDX va);
  if negb (has pde PTE_P) then None else
  pte ← pm_word pm (p2v (PTE_ADDR pde) + 4 * PTX va);
  if negb (has pte PTE_P) then None else
  Some (u32 (p2v (PTE_ADDR pte) + va mod PGSIZE), pte).

(** Accesses of the kernel to user addresses, byte by byte through the page
    table in force; an address that is not mapped faults. *)
Definition uload (va : Z) : K Z :=
  o <- gets (fun s => translate (k_pm s) (k_cr3 s) va) ;;
  match o with
  | None => fault
  | Some (a, _) => p <- page_get (PGROUNDDOWN a) ;; ret (p !!! Z.to_nat (a mod PGSIZE))
  end.
Definition ustore (va v : Z) : K unit :=
  o <- gets (fun s => translate (k_pm s) (k_cr3 s) va) ;;
  match o with
  | None => fault
  | Some (a, e) =>
    if negb (has e PTE_W) then fault else
    p <- page_get (PGROUNDDOWN a) ;;
    page_set (PGROUNDDOWN a) (<[Z.to_nat (a mod PGSIZE) := u8 v]> p)
  end.
Fixpoint ubytes (va : Z) (n : nat) : K bytes :=
  match n with
  | O => ret []
  | S n => b <- uload va ;; l <- ubytes (u32 (va + 1)) n ;; ret (b :: l)
  end.
Fixpoint ustores (va : Z) (bs : bytes) : K unit :=
  match bs with
  | [] => ret tt
  | b :: bs => ustore va b ;; ustores (u32 (va + 1)) bs
  end.
Definition uword (va : Z) : K Z := l <- ubytes va 4 ;; ret (le_val l).
