(* ===== verification/VmMap.v ===== *)
(** * Page tables (kernel/vm.c)

    What [walkpgdir] and [mappages] do to the translation of addresses. A
    directory is well formed when its entries point to page tables of their
    own; then the table of an address space is a function from pages to
    entries, [pte_at], and [mappages] extends this function on the range it is
    given and nowhere else, while the directory stays well formed and the
    pages it takes come off the free list. *)

From stdpp Require Import prelude gmap strings.
From S2P Require Import Prelude Kernel Port Spinlock Sched Bio Log StringC Fs Console Kalloc Vm.

(** ** Words of a page *)

(** Word [i] of the page at [T]. *)
Definition pgword (pm : gmap Z bytes) (T i : Z) : Z :=
  match pm !! T with Some p => get32 p (Z.to_nat (4 * i)) | None => 0 end.

(** A page that can hold a table. *)
Definition tpage (pm : gmap Z bytes) (T : Z) : Prop :=
  T mod PGSIZE = 0 /\ KERNBASE <= T < KERNBASE + PHYSTOP /\
  exists p, pm !! T = Some p /\ length p = 4096%nat.

Definition put_word (T i v : Z) : gmap Z bytes -> gmap Z bytes :=
  alter (fun p => put32 p (Z.to_nat (4 * i)) v) T.

Lemma slot_addr T i : T mod PGSIZE = 0 -> KERNBASE <= T < KERNBASE + PHYSTOP -> 0 <= i < 1024 ->
  u32 (T + 4 * i) = T + 4 * i /\ PGROUNDDOWN (T + 4 * i) = T /\ (T + 4 * i) mod PGSIZE = 4 * i.
Proof.
  intros Hm HT Hi. assert ((T + 4 * i) mod PGSIZE = 4 * i) as E.
  { rewrite <- Zplus_mod_idemp_l, Hm. apply Z.mod_small. unfold PGSIZE. lia. }
  rewrite pgrounddown_spec, E. unfold KERNBASE, PHYSTOP in *. split_and!; [apply u32_small|..]; lia.
Qed.

Lemma alter_as_insert (pm : gmap Z bytes) T p f : pm !! T = Some p -> alter f T pm = <[T := f p]> pm.
Proof.
  intros Hp. apply map_eq. intros k. destruct (decide (k = T)) as [->|].
  - by rewrite lookup_alter_eq, lookup_insert_eq, Hp.
  - by rewrite lookup_alter_ne, lookup_insert_ne.
Qed.

Lemma rd_word s T i Q : tpage (k_pm s) T -> 0 <= i < 1024 -> Q (pgword (k_pm s) T i) s ->
  wp (rd32 (u32 (T + 4 * i))) Q s.
Proof.
  intros (Hm & HT & p & Hp & Hl) Hi HQ. destruct (slot_addr T i Hm HT Hi) as (-> & E1 & E2).
  unfold rd32, page_get. kstep. rewrite E1, E2. kstep. rewrite Hp. kstep.
  destruct (Z.ltb_spec PGSIZE (4 * i + 4)); [unfold PGSIZE in *; lia|]. kstep.
  unfold pgword in HQ. by rewrite Hp in HQ.
Qed.

Lemma wr_word s T i v Q : tpage (k_pm s) T -> 0 <= i < 1024 -> Q tt (set_pm (put_word T i v) s) ->
  wp (wr32 (u32 (T + 4 * i)) v) Q s.
Proof.
  intros (Hm & HT & p & Hp & Hl) Hi HQ. destruct (slot_addr T i Hm HT Hi) as (-> & E1 & E2).
  unfold wr32, page_set, page_get. kstep. rewrite E1, E2. kstep. rewrite Hp. kstep.
  destruct (Z.ltb_spec PGSIZE (4 * i + 4)); [unfold PGSIZE in *; lia|]. kstep. rewrite Hp. kstep.
  unfold set_pm, put_word in *. by erewrite alter_as_insert in HQ by exact Hp.
Qed.

Lemma pgword_put pm T i v T' j : tpage pm T -> 0 <= i < 1024 -> 0 <= j < 1024 ->
  pgword (put_word T i v pm) T' j = if decide (T' = T /\ j = i) then u32 v else pgword pm T' j.
Proof.
  intros (_ & _ & p & Hp & Hl) Hi Hj. unfold pgword, put_word.
  destruct (decide (T' = T)) as [->|Hne].
  - rewrite lookup_alter_eq, Hp. cbn [fmap option_fmap option_map]. destruct (decide (j = i)) as [->|Hji].
    + rewrite decide_True by done. apply get32_put32. lia.
    + rewrite decide_False by naive_solver. apply get32_put32_ne; lia.
  - rewrite lookup_alter_ne by done. by rewrite decide_False by naive_solver.
Qed.

Lemma tpage_put pm T i v T' : tpage pm T -> 0 <= i < 1024 -> tpage pm T' -> tpage (put_word T i v pm) T'.
Proof.
  intros (_ & _ & p & Hp & Hl) Hi (Hm & HT & p' & Hp' & Hl'). split; [done|]. split; [done|]. unfold put_word.
  destruct (decide (T' = T)) as [->|Hne].
  - rewrite lookup_alter_eq, Hp. eexists. split; [done|]. rewrite length_put32; [done|]. lia.
  - rewrite lookup_alter_ne by done. eauto.
Qed.

(** ** Entries *)

Lemma lor_below n a b : 0 <= n -> 0 <= a < 2 ^ n -> 0 <= b < 2 ^ n -> 0 <= Z.lor a b < 2 ^ n.
Proof.
  intros Hn Ha Hb. assert (Z.lor a b = (Z.lor a b) mod 2 ^ n) as ->.
  { rewrite <- Z.land_ones, Z.land_lor_distr_l, !Z.land_ones, !Z.mod_small by lia. done. }
  apply Z.mod_pos_bound. lia.
Qed.

Lemma pte_parts x f : x mod PGSIZE = 0 -> 0 <= x < 2 ^ 32 -> 0 <= f < 4096 ->
  PTE_ADDR (Z.lor x f) = x /\ PTE_FLAGS (Z.lor x f) = f /\ 0 <= Z.lor x f < 2 ^ 32.
Proof.
  intros Hm Hx Hf. unfold PTE_ADDR, PTE_FLAGS. change 0xFFF with (Z.ones 12).
  assert (Z.land x (Z.ones 12) = 0) as Hlow by by rewrite Z.land_ones.
  assert (Z.land f (Z.ones 12) = f) as Hlowf.
  { rewrite Z.land_ones by lia. apply Z.mod_small. lia. }
  rewrite !Z.land_lor_distr_l, Hlow, Hlowf, Z.lor_0_l.
  rewrite <- !Z.ldiff_land. split_and!; [| done | |].
  - assert (Z.ldiff f (Z.ones 12) = 0) as ->.
    { rewrite Z.ldiff_ones_r by lia. rewrite Z.shiftr_div_pow2, Z.div_small by lia. done. }
    rewrite Z.lor_0_r. rewrite Z.ldiff_land. fold (PTE_ADDR x).
    change (PTE_ADDR x) with (PGROUNDDOWN x). by apply pgrounddown_aligned.
  - apply (lor_below 32); lia.
  - apply (lor_below 32); lia.
Qed.

(** The page table an entry of the directory points to. *)
Definition ptab (e : Z) : Z := p2v (PTE_ADDR e).

(** The entry of the page of [va]; 0 when there is no table for it. *)
Definition pte_at (pm : gmap Z bytes) (pgdir va : Z) : Z :=
  let e := pgword pm pgdir (PDX va) in
  if has e PTE_P then pgword pm (ptab e) (PTX va) else 0.

Lemma PDX_range va : 0 <= PDX va < 1024.
Proof. unfold PDX. change 0x3FF with (Z.ones 10). rewrite Z.land_ones by lia. apply Z.mod_pos_bound. lia. Qed.
Lemma PTX_range va : 0 <= PTX va < 1024.
Proof. unfold PTX. change 0x3FF with (Z.ones 10). rewrite Z.land_ones by lia. apply Z.mod_pos_bound. lia. Qed.

(** Two addresses with the same indices are in the same page. *)
Lemma page_indices va : 0 <= va < 2 ^ 32 -> va / PGSIZE = PDX va * 1024 + PTX va.
Proof.
  intros Hva. unfold PDX, PTX, PGSIZE. change 0x3FF with (Z.ones 10).
  rewrite !Z.land_ones, !Z.shiftr_div_pow2 by (unfold PDXSHIFT, PTXSHIFT; lia).
  unfold PDXSHIFT, PTXSHIFT. change (2 ^ 22) with (4096 * 1024). change (2 ^ 12) with 4096. change (2 ^ 10) with 1024.
  rewrite <- Z.div_div by lia. pose proof (Z.div_mod (va / 4096) 1024).
  rewrite (Z.mod_small (va / 4096 / 1024)); [lia|].
  split; [apply Z.div_pos; [apply Z.div_pos|]; lia|].
  apply Z.div_lt_upper_bound; [lia|]. apply Z.div_lt_upper_bound; lia.
Qed.

Lemma same_page va va' : 0 <= va < 2 ^ 32 -> 0 <= va' < 2 ^ 32 ->
  (PDX va = PDX va' /\ PTX va = PTX va') <-> va / PGSIZE = va' / PGSIZE.
Proof.
  intros H H'. rewrite !page_indices by done.
  pose proof (PTX_range va). pose proof (PTX_range va'). lia.
Qed.

(** ** Well-formed directories *)

Definition pde (pm : gmap Z bytes) (pgdir i : Z) : Z := pgword pm pgdir i.
Definition present (pm : gmap Z bytes) (pgdir i : Z) : Prop := has (pde pm pgdir i) PTE_P = true.

(** Every table of the directory is a page of its own, and none of the pages
    of the directory is on the free list [l]. *)
Record dir_ok (pm : gmap Z bytes) (pgdir : Z) (l : list Z) : Prop := {
  do_dir : tpage pm pgdir;
  do_free : pgdir ∉ l;
  do_tab : forall i, 0 <= i < 1024 -> present pm pgdir i ->
    let T := ptab (pde pm pgdir i) in tpage pm T /\ T <> pgdir /\ T ∉ l;
  do_inj : forall i j, 0 <= i < 1024 -> 0 <= j < 1024 -> present pm pgdir i -> present pm pgdir j ->
    ptab (pde pm pgdir i) = ptab (pde pm pgdir j) -> i = j
}.

(** The hardware's walk in terms of the entry. *)
Lemma translate_pte pm pgdir l va : dir_ok pm pgdir l ->
  translate pm (v2p pgdir) va =
    if has (pte_at pm pgdir va) PTE_P
    then Some (u32 (p2v (PTE_ADDR (pte_at pm pgdir va)) + va mod PGSIZE), pte_at pm pgdir va) else None.
Proof.
  intros Hok. pose proof (do_dir _ _ _ Hok) as Hdir.
  assert (forall T i, tpage pm T -> 0 <= i < 1024 -> pm_word pm (T + 4 * i) = Some (pgword pm T i)) as Hw.
  { intros T i (Hm & HT & p & Hp & Hl) Hi. destruct (slot_addr T i Hm HT Hi) as (_ & E1 & E2).
    unfold pm_word, pgword. by rewrite E1, E2, Hp. }
  assert (p2v (v2p pgdir) = pgdir) as Hpv.
  { destruct Hdir as (_ & HT & _). unfold p2v, v2p, KERNBASE, PHYSTOP in *.
    rewrite u32_small; rewrite ?u32_small; lia. }
  unfold translate, pte_at. rewrite Hpv, (Hw pgdir (PDX va) Hdir (PDX_range va)). cbn [mbind option_bind].
  destruct (has (pgword pm pgdir (PDX va)) PTE_P) eqn:E; [|done]. cbn [negb].
  destruct (do_tab _ _ _ Hok (PDX va) (PDX_range va) E) as (HT & _ & _).
  fold (ptab (pgword pm pgdir (PDX va))). unfold pde in HT.
  rewrite (Hw _ (PTX va) HT (PTX_range va)). cbn [mbind option_bind].
  by destruct (has (pgword pm (ptab (pgword pm pgdir (PDX va))) (PTX va)) PTE_P).
Qed.

Section maps.
Context `{LY : Layout} `{PO : Ports}.

(** The pages on the free list are pages of memory. *)
Definition free_ok (s : kst) (l : list Z) : Prop := kmem_ok s l /\ Forall kpage l.

Lemma kalloc_fresh s l : free_ok s l -> cpu_ok s -> k_locks s !! LKmem = None ->
  wp kalloc (fun r s' => ctx s s' /\ kmem_frame s s' /\ k_pm s' = k_pm s /\ r = hd 0 l /\ free_ok s' (tail l)) s.
Proof.
  intros [Hk Hp] Hc Hl. eapply wp_mono; [by apply kalloc_spec|].
  intros r s' (? & ? & ? & _ & ? & ?). split_and!; try done. by destruct Hp.
Qed.

Lemma kpage_tpage s x l : free_ok s (x :: l) -> tpage (k_pm s) x.
Proof.
  intros [[Hc _] Hp]. apply Forall_cons in Hp as [(Hm & HT & _) _]. destruct Hc as (_ & _ & _ & p & Hp & Hlen & _).
  split; [done|]. split; [done|]. eauto.
Qed.

(** A new, empty page table at [x] for entry [i] of the directory. *)
Definition new_table (pgdir i x : Z) (pm : gmap Z bytes) : gmap Z bytes :=
  put_word pgdir i (Z.lor (Z.lor (Z.lor (v2p x) PTE_P) PTE_W) PTE_U) (<[x := replicate 4096 0]> pm).

Lemma tpage_zero pm x T : tpage pm x -> tpage pm T -> tpage (<[x := replicate 4096 0]> pm) T.
Proof.
  intros _ (Hm & HT & p & Hp & Hl). split; [done|]. split; [done|]. destruct (decide (T = x)) as [->|].
  - rewrite lookup_insert_eq. eexists. split; [done|]. by rewrite length_replicate.
  - rewrite lookup_insert_ne by done. eauto.
Qed.

Lemma table_pde x : kpage x ->
  let e := u32 (Z.lor (Z.lor (Z.lor (v2p x) PTE_P) PTE_W) PTE_U) in has e PTE_P = true /\ ptab e = x.
Proof.
  intros (Hm & Hx & _). cbv zeta.
  assert (v2p x = x - KERNBASE) as E.
  { unfold v2p, KERNBASE, PHYSTOP in *. apply u32_small. lia. }
  assert ((x - KERNBASE) mod PGSIZE = 0) as Hm'.
  { rewrite Zminus_mod, Hm. done. }
  rewrite <- !Z.lor_assoc. change (Z.lor PTE_P (Z.lor PTE_W PTE_U)) with 7. rewrite E.
  destruct (pte_parts (x - KERNBASE) 7 Hm') as (Ha & Hf & Hr); [unfold KERNBASE, PHYSTOP in *; lia|lia|].
  rewrite u32_small by done. unfold ptab, has. rewrite Ha. split.
  - replace (Z.land (Z.lor (x - KERNBASE) 7) PTE_P) with (Z.land (PTE_FLAGS (Z.lor (x - KERNBASE) 7)) PTE_P).
    { by rewrite Hf. }
    unfold PTE_FLAGS. by rewrite <- Z.land_assoc.
  - unfold p2v. rewrite Z.sub_add. apply u32_small. unfold KERNBASE, PHYSTOP in *. lia.
Qed.
Lemma pgword_zero pm x T j : 0 <= j < 1024 ->
  pgword (<[x := replicate 4096 0]> pm) T j = if decide (T = x) then 0 else pgword pm T j.
Proof.
  intros Hj. unfold pgword. destruct (decide (T = x)) as [->|]; [|by rewrite lookup_insert_ne].
  rewrite lookup_insert_eq. unfold get32, slice. rewrite drop_replicate, take_replicate.
  replace (4 `min` (4096 - Z.to_nat (4 * j)))%nat with 4%nat by lia. done.
Qed.

Lemma new_table_word pgdir i x pm T j : tpage pm pgdir -> tpage pm x -> 0 <= i < 1024 -> 0 <= j < 1024 ->
  pgword (new_table pgdir i x pm) T j =
    if decide (T = pgdir /\ j = i) then u32 (Z.lor (Z.lor (Z.lor (v2p x) PTE_P) PTE_W) PTE_U)
    else if decide (T = x) then 0 else pgword pm T j.
Proof.
  intros Hd Hx Hi Hj. unfold new_table. rewrite pgword_put by (auto using tpage_zero).
  case_decide; [done|]. by apply pgword_zero.
Qed.

Lemma new_table_tpage pgdir i x pm T : tpage pm pgdir -> tpage pm x -> 0 <= i < 1024 -> tpage pm T ->
  tpage (new_table pgdir i x pm) T.
Proof. intros. apply tpage_put; auto using tpage_zero. Qed.

Section new_table.
Context (pm : gmap Z bytes) (pgdir i x : Z) (l : list Z).
Context (Hok : dir_ok pm pgdir (x :: l)) (Hx : tpage pm x) (Hkx : kpage x) (Hnd : NoDup (x :: l))
  (Hi : 0 <= i < 1024) (Habs : ~ present pm pgdir i).

Lemma new_pde j : 0 <= j < 1024 -> pde (new_table pgdir i x pm) pgdir j =
  if decide (j = i) then u32 (Z.lor (Z.lor (Z.lor (v2p x) PTE_P) PTE_W) PTE_U) else pde pm pgdir j.
Proof.
  intros Hj. pose proof (do_dir _ _ _ Hok). pose proof (do_free _ _ _ Hok) as Hf.
  unfold pde. rewrite new_table_word by done. destruct (decide (j = i)).
  - by rewrite decide_True.
  - rewrite decide_False by naive_solver. rewrite decide_False; [done|]. set_solver.
Qed.

(** The tables after: the old ones, and [x]. *)
Lemma new_tab j : 0 <= j < 1024 -> present (new_table pgdir i x pm) pgdir j ->
  (j = i /\ ptab (pde (new_table pgdir i x pm) pgdir j) = x) \/
  (j <> i /\ present pm pgdir j /\ ptab (pde (new_table pgdir i x pm) pgdir j) = ptab (pde pm pgdir j)).
Proof.
  intros Hj. unfold present. rewrite new_pde by done. destruct (table_pde x Hkx) as [_ E].
  destruct (decide (j = i)); [by left|by right].
Qed.

Lemma old_tab j : 0 <= j < 1024 -> present pm pgdir j ->
  tpage pm (ptab (pde pm pgdir j)) /\ ptab (pde pm pgdir j) <> pgdir /\
  ptab (pde pm pgdir j) <> x /\ ptab (pde pm pgdir j) ∉ l.
Proof. intros Hj Hp. destruct (do_tab _ _ _ Hok j Hj Hp) as (? & ? & ?). set_solver. Qed.

Lemma new_table_ok : dir_ok (new_table pgdir i x pm) pgdir l.
Proof.
  pose proof (do_dir _ _ _ Hok) as Hd. pose proof (do_free _ _ _ Hok) as Hf. constructor.
  - by apply new_table_tpage.
  - set_solver.
  - intros j Hj Hp. cbv zeta. assert (x ∉ l) as Hxl by by apply NoDup_cons in Hnd as [? _].
    destruct (new_tab j Hj Hp) as [[-> ->]|(Hne & Hp' & ->)].
    + split; [by apply new_table_tpage|]. set_solver.
    + destruct (old_tab j Hj Hp') as (? & ? & ? & ?). split; [by apply new_table_tpage|done].
  - intros j k Hj Hk Hpj Hpk E.
    destruct (new_tab j Hj Hpj) as [[Hji Ej]|(Hji & Hpj' & Ej)], (new_tab k Hk Hpk) as [[Hki Ek]|(Hki & Hpk' & Ek)];
      rewrite Ej, Ek in E; [congruence| | |by eapply (do_inj _ _ _ Hok)].
    + destruct (old_tab k Hk Hpk') as (_ & _ & ? & _). congruence.
    + destruct (old_tab j Hj Hpj') as (_ & _ & ? & _). congruence.
Qed.

Lemma new_table_pte va : pte_at (new_table pgdir i x pm) pgdir va = pte_at pm pgdir va.
Proof.
  pose proof (do_dir _ _ _ Hok) as Hd. pose proof (do_free _ _ _ Hok) as Hf.
  unfold pte_at. change (pgword ?p pgdir (PDX va)) with (pde p pgdir (PDX va)).
  rewrite new_pde by apply PDX_range. destruct (decide (PDX va = i)) as [E|].
  - destruct (table_pde x Hkx) as [-> ->]. rewrite new_table_word by (done || apply PTX_range).
    rewrite decide_False by set_solver. rewrite decide_True by done.
    unfold present in Habs. rewrite E. by destruct (has (pde pm pgdir i) PTE_P).
  - destruct (has (pde pm pgdir (PDX va)) PTE_P) eqn:Hp; [|done].
    destruct (old_tab (PDX va) (PDX_range va) Hp) as (? & ? & ? & ?).
    rewrite new_table_word by (done || apply PTX_range).
    rewrite decide_False by naive_solver. by rewrite decide_False.
Qed.
End new_table.

(** The store of an entry. *)
Definition put_pte (pgdir va v : Z) (pm : gmap Z bytes) : gmap Z bytes :=
  put_word (ptab (pde pm pgdir (PDX va))) (PTX va) v pm.

Lemma put_pte_pde pm pgdir l va v j : dir_ok pm pgdir l -> present pm pgdir (PDX va) -> 0 <= j < 1024 ->
  pde (put_pte pgdir va v pm) pgdir j = pde pm pgdir j.
Proof.
  intros Hok Hp Hj. destruct (do_tab _ _ _ Hok _ (PDX_range va) Hp) as (HT & Hne & _).
  unfold pde at 1, put_pte. rewrite pgword_put by (done || apply PTX_range).
  rewrite decide_False; [done|]. naive_solver.
Qed.

Lemma put_pte_ok pm pgdir l va v : dir_ok pm pgdir l -> present pm pgdir (PDX va) ->
  dir_ok (put_pte pgdir va v pm) pgdir l.
Proof.
  intros Hok Hp. pose proof (do_tab _ _ _ Hok _ (PDX_range va) Hp) as (HT & _ & _).
  assert (forall T, tpage pm T -> tpage (put_pte pgdir va v pm) T) as Ht.
  { intros T. apply tpage_put; [done|apply PTX_range]. }
  constructor.
  - apply Ht, Hok.
  - apply Hok.
  - intros j Hj. unfold present. rewrite (put_pte_pde _ _ l) by done. intros Hpj.
    destruct (do_tab _ _ _ Hok j Hj Hpj) as (? & ? & ?). auto.
  - intros j k Hj Hk. unfold present. rewrite !(put_pte_pde _ _ l) by done. by apply (do_inj _ _ _ Hok).
Qed.

Lemma put_pte_at pm pgdir l va v va' : dir_ok pm pgdir l -> present pm pgdir (PDX va) ->
  pte_at (put_pte pgdir va v pm) pgdir va' =
    if decide (PDX va' = PDX va /\ PTX va' = PTX va) then u32 v else pte_at pm pgdir va'.
Proof.
  intros Hok Hp. pose proof (do_tab _ _ _ Hok _ (PDX_range va) Hp) as (HT & _ & _).
  unfold pte_at. change (pgword ?p pgdir (PDX va')) with (pde p pgdir (PDX va')).
  rewrite (put_pte_pde _ _ l) by (done || apply PDX_range).
  destruct (has (pde pm pgdir (PDX va')) PTE_P) eqn:E.
  - unfold put_pte. rewrite pgword_put by (done || apply PTX_range).
    destruct (decide (PDX va' = PDX va)) as [Ed|Ed].
    + rewrite Ed. destruct (decide (PTX va' = PTX va)); [by rewrite !decide_True|by rewrite !decide_False by naive_solver].
    + rewrite !decide_False; [done|naive_solver|]. intros [Et _]. apply Ed.
      apply (do_inj _ _ _ Hok); try done; apply PDX_range.
  - rewrite decide_False; [done|]. intros [Ed _]. unfold present in Hp. congruence.
Qed.

(** ** The walk *)

(** What a step of the tables leaves: the free list has lost its first pages. *)
Record vm_step (pgdir : Z) (l : list Z) (s s' : kst) (l' : list Z) : Prop := {
  vs_ctx : ctx s s';
  vs_frame : kmem_frame s s';
  vs_free : free_ok s' l';
  vs_dir : dir_ok (k_pm s') pgdir l';
  vs_suffix : l' `suffix_of` l
}.

Record vm_ready (s : kst) (pgdir : Z) (l : list Z) : Prop := {
  vr_free : free_ok s l;
  vr_dir : dir_ok (k_pm s) pgdir l;
  vr_cpu : cpu_ok s;
  vr_lock : k_locks s !! LKmem = None
}.

Lemma vm_step_refl s pgdir l : vm_ready s pgdir l -> vm_step pgdir l s s l.
Proof. intros []. by constructor. Qed.

Lemma vm_step_ready pgdir l s s' l' : vm_ready s pgdir l -> vm_step pgdir l s s' l' -> vm_ready s' pgdir l'.
Proof.
  intros [Hf Hd Hc Hl] [Hctx Hfr Hf' Hd' _]. constructor; [done|done|by eapply ctx_cpu_ok|].
  by rewrite (ctx_locks _ _ Hctx).
Qed.

Lemma vm_step_trans pgdir s1 s2 s3 l1 l2 l3 :
  vm_step pgdir l1 s1 s2 l2 -> vm_step pgdir l2 s2 s3 l3 -> vm_step pgdir l1 s1 s3 l3.
Proof. intros [] []. constructor; try done; by etrans. Qed.

(** The pages of the tables are not on the free list. *)
Lemma free_ok_put s l T i v : free_ok s l -> T ∉ l -> free_ok (set_pm (put_word T i v) s) l.
Proof.
  intros [[Hc Hn] Hp] HT. split; [|done]. constructor; [|done]. cbn.
  unfold put_word. destruct (k_pm s !! T) as [p|] eqn:E.
  - rewrite (alter_as_insert _ _ p) by done. by apply chain_insert.
  - replace (alter _ T (k_pm s)) with (k_pm s); [done|]. symmetry. apply map_eq. intros k.
    destruct (decide (k = T)) as [->|]; [by rewrite lookup_alter_eq, E|by rewrite lookup_alter_ne].
Qed.

Lemma kzero_spec s x Q : tpage (k_pm s) x -> Q tt (set_pm (<[x := replicate 4096 0]>) s) -> wp (kzero x) Q s.
Proof.
  intros (Hm & HT & p & Hp & Hl) HQ. unfold kzero, kwrite, page_set, page_get.
  rewrite pgrounddown_aligned, Hm, length_replicate by done. cbn [Nat.eqb]. kstep. rewrite Hp. kstep.
  destruct (Z.ltb_spec PGSIZE (0 + Z.of_nat 4096)); [unfold PGSIZE in *; lia|]. kstep. rewrite Hp. kstep.
  unfold splice. rewrite take_0, length_replicate. change (Z.to_nat 0 + 4096)%nat with 4096%nat.
  rewrite drop_ge by lia. by rewrite app_nil_r.
Qed.

(** The address of the entry of [va]. *)
Definition pte_addr (pm : gmap Z bytes) (pgdir va : Z) : Z := u32 (ptab (pde pm pgdir (PDX va)) + 4 * PTX va).

Lemma pte_addr_nonzero pm pgdir l va : dir_ok pm pgdir l -> present pm pgdir (PDX va) -> pte_addr pm pgdir va <> 0.
Proof.
  intros Hok Hp. destruct (do_tab _ _ _ Hok _ (PDX_range va) Hp) as ((Hm & HT & _) & _ & _).
  unfold pte_addr. destruct (slot_addr _ (PTX va) Hm HT (PTX_range va)) as (-> & _ & _).
  pose proof (PTX_range va). unfold KERNBASE in *. lia.
Qed.

(** The walk that makes a table when there is none. *)
Definition walked (s : kst) (pgdir va : Z) (l : list Z) (r : Z) (s' : kst) : Prop :=
  exists l', vm_step pgdir l s s' l' /\
    (forall va', pte_at (k_pm s') pgdir va' = pte_at (k_pm s) pgdir va') /\
    ((r = 0 /\ l' = []) \/ (present (k_pm s') pgdir (PDX va) /\ r = pte_addr (k_pm s') pgdir va)).

Lemma walk_new s pgdir va l : vm_ready s pgdir l -> ~ present (k_pm s) pgdir (PDX va) ->
  wp (pgtab <- kalloc ;;
      if pgtab =? 0 then ret 0 else
      kzero pgtab ;;
      wr32 (u32 (pgdir + 4 * PDX va)) (Z.lor (Z.lor (Z.lor (v2p pgtab) PTE_P) PTE_W) PTE_U) ;;
      ret (u32 (pgtab + 4 * PTX va))) (walked s pgdir va l) s.
Proof.
  intros Hr Habs. pose proof Hr as [Hf Hd Hc Hl]. kstep.
  eapply wp_mono; [by apply (kalloc_fresh s l)|]. intros r s1 (Hctx & Hfr & Hpm & -> & Hf1).
  destruct l as [|x l].
  { cbn [hd Z.eqb]. kstep. exists []. split_and!; [|by rewrite Hpm|by left].
    constructor; try done. by rewrite Hpm. }
  cbn [hd tail] in *. pose proof (kpage_tpage _ _ _ Hf) as Hx. rewrite <- Hpm in Hx, Hd.
  destruct Hf as [[_ Hnd] Hkp]. assert (kpage x) as Hkx by by apply Forall_cons in Hkp as [? _].
  destruct (Z.eqb_spec x 0) as [->|_]; [by destruct (kpage_range _ Hkx)|].
  kstep. apply kzero_spec; [done|]. kstep.
  apply wr_word; [by apply tpage_zero, Hd|apply PDX_range|]. kstep.
  set (s2 := set_pm _ (set_pm _ s1)).
  assert (k_pm s2 = new_table pgdir (PDX va) x (k_pm s1)) as E2 by done.
  assert (~ present (k_pm s1) pgdir (PDX va)) as Habs1 by by rewrite Hpm.
  pose proof (new_table_ok (k_pm s1) pgdir (PDX va) x l Hd Hx Hkx Hnd (PDX_range va)) as Hok2.
  exists l. split; [constructor| split].
  - etrans; [done|by apply ctx_same].
  - etrans; [done|keeps_tac].
  - apply free_ok_put; [|pose proof (do_free _ _ _ Hd); set_solver].
    destruct Hf1 as [[Hch Hnd1] Hk1]. split; [|done]. constructor; [|done]. cbn.
    apply chain_insert; [by apply NoDup_cons in Hnd as [? _]|done].
  - rewrite E2. by apply Hok2.
  - by apply suffix_cons_r.
  - intros va'. rewrite E2, <- Hpm.
    apply (new_table_pte (k_pm s1) pgdir (PDX va) x l); try done; apply PDX_range.
  - right. unfold present, pte_addr. rewrite E2, (new_pde _ _ _ _ l) by (done || apply PDX_range).
    rewrite decide_True by done. by destruct (table_pde x Hkx) as [-> ->].
Qed.

Lemma walkpgdir_alloc s pgdir va l : vm_ready s pgdir l ->
  wp (walkpgdir pgdir va true) (walked s pgdir va l) s.
Proof.
  intros Hr. pose proof (vr_dir _ _ _ Hr) as Hd. unfold walkpgdir. kstep.
  apply rd_word; [apply Hd|apply PDX_range|]. cbn [negb].
  destruct (has (pgword (k_pm s) pgdir (PDX va)) PTE_P) eqn:E.
  - kstep. exists l. split; [by apply vm_step_refl|]. split; [done|]. by right.
  - apply walk_new; [done|]. unfold present, pde. congruence.
Qed.

(** ** Mapping a range *)

(** The entry that maps the page [k] pages into a range at [pa]. *)
Definition mapping (pa perm k : Z) : Z := u32 (Z.lor (Z.lor (u32 (pa + k * PGSIZE)) perm) PTE_P).

(** The entries after [n] pages from [a] on have been mapped. *)
Definition mapped (pm pm' : gmap Z bytes) (pgdir a n pa perm : Z) : Prop :=
  forall va, 0 <= va < 2 ^ 32 ->
    pte_at pm' pgdir va =
      if decide (a <= PGROUNDDOWN va < a + n * PGSIZE)
      then mapping pa perm ((PGROUNDDOWN va - a) / PGSIZE) else pte_at pm pgdir va.

(** All of the range, or as much as there was memory for. *)
Definition map_post (s : kst) (pgdir : Z) (l : list Z) (a n pa perm r : Z) (s' : kst) : Prop :=
  exists l' k, vm_step pgdir l s s' l' /\ mapped (k_pm s) (k_pm s') pgdir a k pa perm /\
    ((r = 0 /\ k = n) \/ (r = -1 /\ 0 <= k < n /\ l' = [])).

Lemma pgdown_div va : PGROUNDDOWN va = va / PGSIZE * PGSIZE.
Proof. rewrite pgrounddown_spec. pose proof (Z.div_mod va PGSIZE). unfold PGSIZE in *. lia. Qed.

Lemma mapped_none pm pm' pgdir a pa perm :
  (forall va, pte_at pm' pgdir va = pte_at pm pgdir va) -> mapped pm pm' pgdir a 0 pa perm.
Proof. intros H va _. rewrite decide_False by lia. apply H. Qed.

(** One page. *)
Lemma mapped_one pm pgdir l a pa perm : dir_ok pm pgdir l -> present pm pgdir (PDX a) ->
  a mod PGSIZE = 0 -> 0 <= a < 2 ^ 32 -> 0 <= pa < 2 ^ 32 ->
  mapped pm (put_pte pgdir a (Z.lor (Z.lor pa perm) PTE_P) pm) pgdir a 1 pa perm.
Proof.
  intros Hok Hp Ha Hr Hpa va Hva. rewrite (put_pte_at _ _ l) by done.
  assert ((PDX va = PDX a /\ PTX va = PTX a) <-> a <= PGROUNDDOWN va < a + 1 * PGSIZE) as Hiff.
  { rewrite same_page, pgdown_div by done. pose proof (Z.div_mod a PGSIZE). unfold PGSIZE in *. lia. }
  destruct (decide (PDX va = PDX a /\ PTX va = PTX a)) as [E|E].
  - assert (a <= PGROUNDDOWN va < a + 1 * PGSIZE) as E' by by apply Hiff. rewrite decide_True by done.
    assert ((PGROUNDDOWN va - a) / PGSIZE = 0) as -> by (apply Z.div_small; lia).
    unfold mapping. by rewrite Z.mul_0_l, Z.add_0_r, (u32_small pa).
  - rewrite decide_False; [done|]. by rewrite <- Hiff.
Qed.

Lemma mapped_trans pm1 pm2 pm3 pgdir a n pa perm : 0 <= n ->
  mapped pm1 pm2 pgdir a 1 pa perm -> mapped pm2 pm3 pgdir (a + PGSIZE) n (u32 (pa + PGSIZE)) perm ->
  mapped pm1 pm3 pgdir a (n + 1) pa perm.
Proof.
  intros Hn H1 H2 va Hva. rewrite H2, H1 by done. set (g := PGROUNDDOWN va).
  assert (0 < PGSIZE) by done.
  destruct (decide (a + PGSIZE <= g < a + PGSIZE + n * PGSIZE)).
  - rewrite decide_True by lia. unfold mapping.
    replace (g - a) with (g - (a + PGSIZE) + 1 * PGSIZE) by lia. rewrite Z.div_add by lia.
    f_equal. f_equal. f_equal. unfold u32. rewrite Zplus_mod_idemp_l. f_equal. lia.
  - destruct (decide (a <= g < a + 1 * PGSIZE)); [by rewrite decide_True by lia|by rewrite decide_False by lia].
Qed.

Lemma rd_pte s pgdir va l Q : dir_ok (k_pm s) pgdir l -> present (k_pm s) pgdir (PDX va) ->
  Q (pte_at (k_pm s) pgdir va) s -> wp (rd32 (pte_addr (k_pm s) pgdir va)) Q s.
Proof.
  intros Hok Hp HQ. destruct (do_tab _ _ _ Hok _ (PDX_range va) Hp) as (HT & _ & _).
  apply rd_word; [done|apply PTX_range|]. unfold pte_at, present, pde in *. by rewrite Hp in HQ.
Qed.

Lemma wr_pte s pgdir va l v Q : dir_ok (k_pm s) pgdir l -> present (k_pm s) pgdir (PDX va) ->
  Q tt (set_pm (put_pte pgdir va v) s) -> wp (wr32 (pte_addr (k_pm s) pgdir va) v) Q s.
Proof.
  intros Hok Hp HQ. destruct (do_tab _ _ _ Hok _ (PDX_range va) Hp) as (HT & _ & _).
  apply wr_word; [done|apply PTX_range|]. exact HQ.
Qed.

Lemma put_pte_step s pgdir va l v : vm_ready s pgdir l -> present (k_pm s) pgdir (PDX va) ->
  vm_step pgdir l s (set_pm (put_pte pgdir va v) s) l.
Proof.
  intros [Hf Hd _ _] Hp. destruct (do_tab _ _ _ Hd _ (PDX_range va) Hp) as (_ & _ & Hn). constructor.
  - by apply ctx_same.
  - keeps_tac.
  - by apply (free_ok_put s l).
  - by apply put_pte_ok.
  - done.
Qed.

(** The range is not mapped. *)
Definition unmapped (pm : gmap Z bytes) (pgdir a n : Z) : Prop :=
  forall va, 0 <= va < 2 ^ 32 -> a <= PGROUNDDOWN va < a + n * PGSIZE -> has (pte_at pm pgdir va) PTE_P = false.

(** A round of the loop, followed by [k]. *)
Lemma map_round s pgdir a pa perm l (k : K Z) Q :
  vm_ready s pgdir l -> a mod PGSIZE = 0 -> 0 <= a < 2 ^ 32 -> 0 <= pa < 2 ^ 32 ->
  has (pte_at (k_pm s) pgdir a) PTE_P = false ->
  (forall s1, vm_step pgdir l s s1 [] -> mapped (k_pm s) (k_pm s1) pgdir a 0 pa perm -> Q (-1) s1) ->
  (forall s2 l2, vm_step pgdir l s s2 l2 -> mapped (k_pm s) (k_pm s2) pgdir a 1 pa perm -> wp k Q s2) ->
  wp (pte <- walkpgdir pgdir a true ;;
      if pte =? 0 then ret (-1) else
      e <- rd32 pte ;;
      if has e PTE_P then panic "remap" else
      wr32 pte (Z.lor (Z.lor pa perm) PTE_P) ;; k) Q s.
Proof.
  intros Hr Ha Hrange Hpa Hun HQ0 HQ. kstep.
  eapply wp_mono; [by apply walkpgdir_alloc|]. intros r s1 (l1 & Hs1 & Hpte & Hr1).
  pose proof (vm_step_ready _ _ _ _ _ Hr Hs1) as Hr'. destruct Hr1 as [[-> ->]|[Hp ->]].
  { cbn [Z.eqb]. kstep. apply HQ0; [done|by apply mapped_none]. }
  pose proof (vr_dir _ _ _ Hr') as Hd.
  destruct (Z.eqb_spec (pte_addr (k_pm s1) pgdir a) 0) as [E|_]; [by eapply pte_addr_nonzero in E|].
  kstep. eapply rd_pte; [done..|]. rewrite Hpte, Hun. kstep. eapply wr_pte; [done..|].
  apply (HQ _ l1).
  - eapply vm_step_trans; [done|]. by apply put_pte_step.
  - intros va Hva. rewrite <- Hpte. by apply (mapped_one (k_pm s1) pgdir l1).
Qed.

Lemma unmapped_rest pm pm2 pgdir a n pa perm : 0 <= n -> mapped pm pm2 pgdir a 1 pa perm ->
  unmapped pm pgdir a (n + 1) -> unmapped pm2 pgdir (a + PGSIZE) n.
Proof.
  intros Hn Hm Hun va Hva Hg. assert (0 < PGSIZE) by done. rewrite Hm, decide_False by (done || lia).
  apply Hun; [done|lia].
Qed.

Lemma mappages_loop_spec n s pgdir a pa perm l :
  vm_ready s pgdir l -> a mod PGSIZE = 0 -> 0 <= a -> a + Z.of_nat (S n) * PGSIZE <= 2 ^ 32 ->
  0 <= pa < 2 ^ 32 -> unmapped (k_pm s) pgdir a (Z.of_nat (S n)) ->
  wp (mappages_loop (S n) pgdir a (a + Z.of_nat n * PGSIZE) pa perm)
    (map_post s pgdir l a (Z.of_nat (S n)) pa perm) s.
Proof.
  revert s a pa l. induction n as [|n IH]; intros s a pa l Hr Ha Ha0 Han Hpa Hun;
    assert (PGSIZE = 4096) as EP by done;
    assert (has (pte_at (k_pm s) pgdir a) PTE_P = false) as Hua
      by (apply Hun; [|rewrite pgrounddown_aligned by done]; lia);
    apply (map_round s pgdir a pa perm l); try done; try lia;
    try (intros s1 Hs1 Hm1; exists [], 0; split_and!; [done..|right; split_and!; done || lia]).
  - intros s2 l2 Hs2 Hm2. rewrite Z.mul_0_l, Z.add_0_r, Z.eqb_refl. kstep. exists l2, 1. auto.
  - intros s2 l2 Hs2 Hm2. destruct (Z.eqb_spec a (a + Z.of_nat (S n) * PGSIZE)); [lia|].
    rewrite (u32_small (a + PGSIZE)) by lia.
    replace (a + Z.of_nat (S n) * PGSIZE) with (a + PGSIZE + Z.of_nat n * PGSIZE) by lia.
    eapply wp_mono; [apply (IH s2 (a + PGSIZE) (u32 (pa + PGSIZE)) l2)|].
    + by eapply vm_step_ready.
    + rewrite <- Zplus_mod_idemp_r, Z_mod_same_full, Z.add_0_r. done.
    + lia.
    + lia.
    + apply u32_range.
    + eapply unmapped_rest; [lia|done|]. by replace (Z.of_nat (S n) + 1) with (Z.of_nat (S (S n))) by lia.
    + intros r s' (l' & k & Hs' & Hm' & Hk). exists l', (k + 1). split; [by eapply vm_step_trans|].
      split; [eapply mapped_trans; [lia|done..]|].
      destruct Hk as [[-> ->]|(-> & ? & ->)]; [left|right]; split_and!; done || lia.
Qed.

Lemma mapping_entry pa perm k : pa mod PGSIZE = 0 -> 0 <= perm < 4096 ->
  let e := mapping pa perm k in
  has e PTE_P = true /\ PTE_ADDR e = u32 (pa + k * PGSIZE) /\ PTE_FLAGS e = Z.lor perm PTE_P.
Proof.
  intros Hpa Hperm. cbv zeta. unfold mapping. rewrite <- Z.lor_assoc. set (x := u32 (pa + k * PGSIZE)).
  assert (x mod PGSIZE = 0) as Hx.
  { unfold x, u32. rewrite <- Znumtheory.Zmod_div_mod; [|done|done|by exists (2 ^ 20)].
    by rewrite Z.mod_add, Hpa. }
  assert (0 <= Z.lor perm PTE_P < 4096) as Hf by (apply (lor_below 12); unfold PTE_P; lia).
  destruct (pte_parts x (Z.lor perm PTE_P) Hx) as (Ha & Hfl & Hr); [apply u32_range|done|].
  rewrite u32_small by done. split_and!; [|done..]. unfold has.
  assert (Z.land (Z.lor x (Z.lor perm PTE_P)) PTE_P = PTE_P) as ->; [|done].
  rewrite Z.lor_assoc, Z.land_lor_distr_l, (Z.land_diag PTE_P). apply Z.bits_inj'. intros j Hj.
  rewrite Z.lor_spec, Z.land_spec. by destruct (Z.testbit PTE_P j); rewrite ?andb_true_r, ?andb_false_r, ?orb_true_r.
Qed.

(** The hardware's view of a range that has been mapped. *)
Lemma mapped_translate pm pm' pgdir l l' a k pa perm va : dir_ok pm pgdir l -> dir_ok pm' pgdir l' ->
  mapped pm pm' pgdir a k pa perm -> a mod PGSIZE = 0 -> pa mod PGSIZE = 0 -> 0 <= perm < 4096 -> 0 <= va < 2 ^ 32 ->
  if decide (a <= va < a + k * PGSIZE)
  then exists e, translate pm' (v2p pgdir) va = Some (p2v (pa + (va - a)), e) /\ PTE_FLAGS e = Z.lor perm PTE_P
  else translate pm' (v2p pgdir) va = translate pm (v2p pgdir) va.
Proof.
  intros Hd Hd' Hm Ha Hpa Hperm Hva. rewrite (translate_pte pm' _ l'), (translate_pte pm _ l), Hm by done.
  pose proof (pgdown_div va) as Eg. pose proof (Z.div_mod va PGSIZE ltac:(done)) as Ev.
  pose proof (Z.div_mod a PGSIZE ltac:(done)) as Ea. pose proof (Z.mod_pos_bound va PGSIZE ltac:(done)).
  rewrite Ha in Ea. assert (PGSIZE = 4096) as EP by done.
  destruct (decide (a <= va < a + k * PGSIZE)).
  - rewrite decide_True by lia. destruct (mapping_entry pa perm ((PGROUNDDOWN va - a) / PGSIZE) Hpa Hperm) as (-> & -> & E).
    eexists. split; [|exact E]. f_equal. f_equal. unfold p2v, u32.
    rewrite Zplus_mod_idemp_l. replace (_ mod 2 ^ 32 + KERNBASE + va mod PGSIZE)
      with ((pa + (PGROUNDDOWN va - a) / PGSIZE * PGSIZE) mod 2 ^ 32 + (KERNBASE + va mod PGSIZE)) by lia.
    rewrite Zplus_mod_idemp_l. f_equal.
    assert ((PGROUNDDOWN va - a) / PGSIZE * PGSIZE = PGROUNDDOWN va - a) as ->.
    { rewrite Eg, Ea. replace (va / PGSIZE * PGSIZE - (PGSIZE * (a / PGSIZE) + 0)) with ((va / PGSIZE - a / PGSIZE) * PGSIZE) by lia.
      by rewrite Z.div_mul. }
    lia.
  - by rewrite decide_False by lia.
Qed.

(** C12. [mappages] extends the address space by the range it is given. Let
    the directory be well formed and the range of pages that contains [va] to
    [va + size - 1] not be mapped. Then [mappages] does not panic; when it
    returns 0 the hardware translates every address of these pages to the
    physical address at the same distance from [pa], with the given
    permissions, and every other address as before. It fails only when the free
    list is used up, and then a prefix of the range has been mapped. Either way
    the directory is well formed, its tables are pages taken from the front of
    the free list, and only the page allocator and memory have changed. *)
Theorem mappages_maps s pgdir va size pa perm l :
  vm_ready s pgdir l -> 0 <= va -> 0 < size -> va + size <= 2 ^ 32 ->
  0 <= pa < 2 ^ 32 -> pa mod PGSIZE = 0 -> 0 <= perm < 4096 ->
  let a := PGROUNDDOWN va in
  let n := (PGROUNDDOWN (va + size - 1) - a) / PGSIZE + 1 in
  unmapped (k_pm s) pgdir a n ->
  wp (mappages pgdir va size pa perm) (fun r s' => exists l' k,
    vm_step pgdir l s s' l' /\ ((r = 0 /\ k = n) \/ (r = -1 /\ 0 <= k < n /\ l' = [])) /\
    forall va', 0 <= va' < 2 ^ 32 ->
      if decide (a <= va' < a + k * PGSIZE)
      then exists e, translate (k_pm s') (v2p pgdir) va' = Some (p2v (pa + (va' - a)), e) /\
             PTE_FLAGS e = Z.lor perm PTE_P
      else translate (k_pm s') (v2p pgdir) va' = translate (k_pm s) (v2p pgdir) va') s.
Proof.
  intros Hr Hva Hsz Hend Hpa Hpal Hperm a n Hun. unfold mappages. fold a.
  rewrite (u32_small (va + size - 1)) by lia.
  pose proof (pgdown_div va) as Ea. pose proof (pgdown_div (va + size - 1)) as El. fold a in Ea.
  pose proof (Z.div_le_mono va (va + size - 1) PGSIZE ltac:(done) ltac:(lia)) as Hle.
  pose proof (Z.div_lt_upper_bound (va + size - 1) PGSIZE (2 ^ 20) ltac:(done) ltac:(unfold PGSIZE; lia)) as Hlt.
  pose proof (Z.div_pos va PGSIZE Hva ltac:(done)) as Hpos. assert (PGSIZE = 4096) as EP by done.
  set (m := va `div` PGSIZE) in *. set (m' := (va + size - 1) / PGSIZE) in *.
  assert (n = m' - m + 1) as En.
  { unfold n. rewrite El, Ea. replace (m' * PGSIZE - m * PGSIZE) with ((m' - m) * PGSIZE) by lia. by rewrite Z.div_mul. }
  rewrite (u32_small (PGROUNDDOWN (va + size - 1) - a)) by lia. fold n. 
  replace (Z.to_nat n) with (S (Z.to_nat (m' - m))) by lia.
  replace (PGROUNDDOWN (va + size - 1)) with (a + Z.of_nat (Z.to_nat (m' - m)) * PGSIZE) by lia.
  eapply wp_mono; [apply (mappages_loop_spec (Z.to_nat (m' - m)) s pgdir a pa perm l); try done|].
  - rewrite Ea. by apply Z.mod_mul.
  - lia.
  - lia.
  - by replace (Z.of_nat (S (Z.to_nat (m' - m)))) with n by lia.
  - intros r s' (l' & k & Hs & Hm & Hk). exists l', k. split; [done|]. split.
    { replace (Z.of_nat (S (Z.to_nat (m' - m)))) with n in Hk by lia. done. }
    intros va' Hva'. apply (mapped_translate _ _ _ l l'); try done; [apply Hr|apply Hs|].
    rewrite Ea. by apply Z.mod_mul.
Qed.
End maps.

(** ** An empty directory and two free pages *)

#[local] Instance map_layout : Layout := { kend := KERNBASE + 0x100000; kdata := KERNBASE + 0x108000;
  ktrapret := 0; kforkret := 0 }.
Definition map_dir : Z := KERNBASE + 0x300000.
Definition map_free : list Z := [KERNBASE + 0x201000; KERNBASE + 0x200000].
Definition map_demo : kst := set_pm (<[map_dir := replicate 4096 0]>) demo_free.

Lemma map_demo_pde i : 0 <= i < 1024 -> pgword (k_pm map_demo) map_dir i = 0.
Proof. intros Hi. unfold map_demo. cbn [k_pm set_pm]. rewrite pgword_zero by done. by rewrite decide_True. Qed.

Lemma map_demo_ready : vm_ready map_demo map_dir map_free.
Proof.
  constructor.
  - split; [|repeat constructor; done]. constructor; [|by repeat constructor; set_solver].
    unfold map_demo. cbn [k_pm set_pm k_kmem]. apply chain_insert; [by vm_compute; set_solver|].
    cbn -[free_page]. split_and!; try done. eexists. split; [done|]. split; [done|].
    split_and!; try done. eexists. split; [done|]. by split.
  - constructor.
    + split; [done|]. split; [done|]. eexists. split; [apply lookup_insert_eq|]. by rewrite length_replicate.
    + vm_compute. set_solver.
    + intros i Hi Hp. unfold present, pde in Hp. by rewrite map_demo_pde in Hp.
    + intros i j Hi Hj Hp. unfold present, pde in Hp. by rewrite map_demo_pde in Hp.
  - done.
  - done.
Qed.

(** Two pages that need two page tables. *)
Lemma mappages_maps_witness :
  wp (mappages map_dir 0x3ff800 0x1000 0x500000 6) (fun r s' => exists l' k,
    vm_step map_dir map_free map_demo s' l' /\ ((r = 0 /\ k = 2) \/ (r = -1 /\ 0 <= k < 2 /\ l' = [])) /\
    forall va', 0 <= va' < 2 ^ 32 ->
      if decide (0x3ff000 <= va' < 0x3ff000 + k * PGSIZE)
      then exists e, translate (k_pm s') (v2p map_dir) va' = Some (p2v (0x500000 + (va' - 0x3ff000)), e) /\
             PTE_FLAGS e = Z.lor 6 PTE_P
      else translate (k_pm s') (v2p map_dir) va' = translate (k_pm map_demo) (v2p map_dir) va') map_demo.
Proof.
  apply (mappages_maps map_demo map_dir 0x3ff800 0x1000 0x500000 6 map_free); try done; try lia.
  - exact map_demo_ready.
  - intros va Hva _. unfold pte_at. by rewrite map_demo_pde by apply PDX_range.
Defined.

(** It has the memory it needs. *)
Example mappages_demo_ok :
  match mappages map_dir 0x3ff800 0x1000 0x500000 6 map_demo with
  | Ok r s' => r = 0 /\ km_freelist (k_kmem s') = 0 /\
      fst <$> translate (k_pm s') (v2p map_dir) 0x400010 = Some (p2v 0x501010)
  | _ => False
  end.
Proof. vm_compute. done. Qed.
