(* ===== verification/File.v ===== *)
(** * Open files and pipes (kernel/file.c, kernel/pipe.c)

    A read returns its result together with the bytes it stores at the
    caller's buffer; a write is given the bytes of the caller's buffer. A
    pipe lives in a page from the page allocator and is named by the address
    of that page.

    The theorems: the ring buffer of a pipe, with its free-running 32-bit
    counters, is a queue of at most [PIPESIZE] bytes; every interleaving of
    writers and readers delivers the bytes written in order. *)

From stdpp Require Import prelude gmap strings.
From S2P Require Import Prelude Ring Kernel Port Spinlock Sched Bio Log StringC Fs Console Kalloc Vm.

Definition file_eta (f : file) : file :=
  File (f_type f) (f_ref f) (f_readable f) (f_writable f) (f_pipe f) (f_ip f) (f_off f).
Definition set_ftype (g : ftype -> ftype) (f : file) : file := ltac:(setfield file_eta f_type g f).
Definition set_fref (g : Z -> Z) (f : file) : file := ltac:(setfield file_eta f_ref g f).
Definition set_readable (g : Z -> Z) (f : file) : file := ltac:(setfield file_eta f_readable g f).
Definition set_writable (g : Z -> Z) (f : file) : file := ltac:(setfield file_eta f_writable g f).
Definition set_fpipe (g : Z -> Z) (f : file) : file := ltac:(setfield file_eta f_pipe g f).
Definition set_fip (g : option nat -> option nat) (f : file) : file := ltac:(setfield file_eta f_ip g f).
Definition set_foff (g : Z -> Z) (f : file) : file := ltac:(setfield file_eta f_off g f).

Definition file0 : file := File FD_NONE 0 0 0 0 None 0.
#[export] Instance file_inhabited : Inhabited file := populate file0.

Definition getf (i : nat) : K file := gets (fun s => k_ftable s !!! i).
Definition setf_ (i : nat) (g : file -> file) : K unit := modify (set_ftable (alter g i)).

Definition pipe_eta (p : pipe) : pipe :=
  Pipe (pi_data p) (pi_nread p) (pi_nwrite p) (pi_readopen p) (pi_writeopen p).
Definition set_pdata (g : bytes -> bytes) (p : pipe) : pipe := ltac:(setfield pipe_eta pi_data g p).
Definition set_nread (g : Z -> Z) (p : pipe) : pipe := ltac:(setfield pipe_eta pi_nread g p).
Definition set_nwrite (g : Z -> Z) (p : pipe) : pipe := ltac:(setfield pipe_eta pi_nwrite g p).
Definition set_readopen (g : Z -> Z) (p : pipe) : pipe := ltac:(setfield pipe_eta pi_readopen g p).
Definition set_writeopen (g : Z -> Z) (p : pipe) : pipe := ltac:(setfield pipe_eta pi_writeopen g p).

(** Access to the pipe at address [a]; there must be one. *)
Definition getpipe (a : Z) : K pipe :=
  o <- gets (fun s => k_pipes s !! a) ;;
  match o with Some p => ret p | None => fault end.
Definition setpipe (a : Z) (g : pipe -> pipe) : K unit :=
  p <- getpipe a ;; modify (set_pipes (<[a := g p]>)).

(** ** file.c *)

Definition fileinit : K unit := initlock LFtable.

Definition filealloc : K (option nat) :=
  acquire LFtable ;;
  fs <- gets k_ftable ;;
  match list_find (fun f => f_ref f = 0) fs with
  | Some (i, _) => setf_ i (set_fref (fun _ => 1)) ;; release LFtable ;; ret (Some i)
  | None => release LFtable ;; ret None
  end.

Definition filedup (f : nat) : K nat :=
  acquire LFtable ;;
  x <- getf f ;;
  if f_ref x <? 1 then panic "filedup" else
  setf_ f (set_fref (fun n => n + 1)) ;;
  release LFtable ;;
  ret f.

Section files.
Context `{LY : Layout} `{PO : Ports} `{DO : DevOps}.

(** ** pipe.c *)

Definition pipeclose (p writable : Z) : K unit :=
  acquire (LPipe p) ;;
  (if cbool writable then
     setpipe p (set_writeopen (fun _ => 0)) ;;
     wakeup (CPipeRead p)
   else
     setpipe p (set_readopen (fun _ => 0)) ;;
     wakeup (CPipeWrite p)) ;;
  x <- getpipe p ;;
  if (pi_readopen x =? 0) && (pi_writeopen x =? 0) then
    release (LPipe p) ;;
    modify (set_pipes (delete p)) ;;
    kfree p
  else release (LPipe p).

(** [p->data[p->nwrite++ % PIPESIZE] = c] *)
Definition pipe_put (c : Z) (p : pipe) : pipe :=
  set_nwrite (fun n => u32 (n + 1))
    (set_pdata (<[Z.to_nat (pi_nwrite p mod PIPESIZE) := c]>) p).
Definition pipe_full (p : pipe) : bool := pi_nwrite p =? u32 (pi_nread p + PIPESIZE).
Definition pipe_empty (p : pipe) : bool := pi_nread p =? pi_nwrite p.
(** [p->data[p->nread++ % PIPESIZE]] *)
Definition pipe_next (p : pipe) : Z := pi_data p !!! Z.to_nat (pi_nread p mod PIPESIZE).
Definition pipe_skip (p : pipe) : pipe := set_nread (fun n => u32 (n + 1)) p.

(** The loop that waits for room; false when the write gives up. A pass that
    sleeps ends the control path, so that one pass is all a path runs; the
    fuel stands for the passes after it. *)
Fixpoint pipewrite_wait (fuel : nat) (p : Z) : K bool :=
  x <- getpipe p ;;
  if pipe_full x then
    i <- myproc ;;
    me <- getp i ;;
    if (pi_readopen x =? 0) || cbool (p_killed me) then
      release (LPipe p) ;; ret false
    else
      wakeup (CPipeRead p) ;;
      sleep (CPipeWrite p) (LPipe p) ;;
      match fuel with O => fun _ => NoFuel | S fuel => pipewrite_wait fuel p end
  else ret true.

(** The loop of [pipewrite] on the bytes that are left. *)
Fixpoint pipewrite_loop (p : Z) (src : bytes) : K bool :=
  match src with
  | [] => ret true
  | c :: src =>
    ok <- pipewrite_wait 1 p ;;
    if negb ok then ret false else
    setpipe p (pipe_put c) ;;
    pipewrite_loop p src
  end.

Definition pipewrite (p : Z) (addr : bytes) (n : Z) : K Z :=
  acquire (LPipe p) ;;
  ok <- pipewrite_loop p (take (Z.to_nat n) addr) ;;
  if negb ok then ret (-1) else
  wakeup (CPipeRead p) ;;
  release (LPipe p) ;;
  ret n.

Fixpoint piperead_loop (p : Z) (n : nat) : K bytes :=
  match n with
  | O => ret []
  | S n =>
    x <- getpipe p ;;
    if pipe_empty x then ret [] else
    setpipe p pipe_skip ;;
    l <- piperead_loop p n ;;
    ret (pipe_next x :: l)
  end.

Fixpoint piperead_wait (fuel : nat) (p : Z) : K bool :=
  x <- getpipe p ;;
  if pipe_empty x && cbool (pi_writeopen x) then
    i <- myproc ;;
    me <- getp i ;;
    if cbool (p_killed me) then release (LPipe p) ;; ret false
    else
      sleep (CPipeRead p) (LPipe p) ;;
      match fuel with O => fun _ => NoFuel | S fuel => piperead_wait fuel p end
  else ret true.

Definition piperead (p n : Z) : K (Z * bytes) :=
  acquire (LPipe p) ;;
  ok <- piperead_wait 1 p ;;
  if negb ok then ret (-1, []) else
  l <- piperead_loop p (Z.to_nat n) ;;
  wakeup (CPipeWrite p) ;;
  release (LPipe p) ;;
  ret (Z.of_nat (length l), l).

Definition fileclose (f : nat) : K unit :=
  acquire LFtable ;;
  x <- getf f ;;
  if f_ref x <? 1 then panic "fileclose" else
  setf_ f (set_fref (fun n => n - 1)) ;;
  ff <- getf f ;;
  if 0 <? f_ref ff then release LFtable else
  setf_ f (set_fref (fun _ => 0)) ;;
  setf_ f (set_ftype (fun _ => FD_NONE)) ;;
  release LFtable ;;
  match f_type ff with
  | FD_PIPE => pipeclose (f_pipe ff) (f_writable ff)
  | FD_INODE =>
    begin_trans ;;
    match f_ip ff with None => fault | Some ip => iput ip end ;;
    commit_trans
  | FD_NONE => ret tt
  end.

(** sizeof(struct spinlock), the offset of [data] in the page of a pipe. *)
Definition SPINLOCK_SIZE : nat := 52.

Definition pipealloc : K (Z * option nat * option nat) :=
  let bad (f0 f1 : option nat) :=
    match f0 with Some f => fileclose f | None => ret tt end ;;
    match f1 with Some f => fileclose f | None => ret tt end ;;
    ret (-1, f0, f1) in
  f0 <- filealloc ;;
  match f0 with
  | None => bad f0 None
  | Some r =>
    f1 <- filealloc ;;
    match f1 with
    | None => bad f0 f1
    | Some w =>
      p <- kalloc ;;
      if p =? 0 then bad f0 f1 else
      pg <- page_get p ;;
      modify (set_pipes (<[p := Pipe (slice pg SPINLOCK_SIZE (Z.to_nat PIPESIZE)) 0 0 1 1]>)) ;;
      initlock (LPipe p) ;;
      setf_ r (fun f => set_fpipe (fun _ => p) (set_writable (fun _ => 0) (set_readable (fun _ => 1)
                 (set_ftype (fun _ => FD_PIPE) f)))) ;;
      setf_ w (fun f => set_fpipe (fun _ => p) (set_writable (fun _ => 1) (set_readable (fun _ => 0)
                 (set_ftype (fun _ => FD_PIPE) f)))) ;;
      ret (0, f0, f1)
    end
  end.

(** ** Reading and writing files *)

(** [f->ip], which the code follows. *)
Definition file_ip (x : file) : K nat :=
  match f_ip x with Some ip => ret ip | None => fault end.

Definition filestat (f : nat) : K (Z * option stat) :=
  x <- getf f ;;
  match f_type x with
  | FD_INODE =>
    ip <- file_ip x ;;
    ilock ip ;;
    st <- stati ip ;;
    iunlock ip ;;
    ret (0, Some st)
  | _ => ret (-1, None)
  end.

Definition fileread (f : nat) (n : Z) : K (Z * bytes) :=
  x <- getf f ;;
  if f_readable x =? 0 then ret (-1, []) else
  match f_type x with
  | FD_PIPE => piperead (f_pipe x) n
  | FD_INODE =>
    ip <- file_ip x ;;
    ilock ip ;;
    x <- getf f ;;
    ' (r, bs) <- readi ip (f_off x) (u32 n) ;;
    when 0 <? r do setf_ f (set_foff (fun off => u32 (off + r))) ;;
    iunlock ip ;;
    ret (r, bs)
  | FD_NONE => panic "fileread"
  end.

Definition FILE_MAX : Z := (Z.of_nat LOGSIZE - 1 - 1 - 2) / 2 * 512.

(** Each round writes up to [FILE_MAX] bytes in a transaction of its own. *)
Fixpoint filewrite_loop (fuel : nat) (f : nat) (addr : bytes) (n i : Z) : K Z :=
  if i <? n then
    match fuel with
    | O => fun _ => NoFuel
    | S fuel =>
      let n1 := if FILE_MAX <? n - i then FILE_MAX else n - i in
      x <- getf f ;;
      begin_trans ;;
      ip <- file_ip x ;;
      ilock ip ;;
      x <- getf f ;;
      r <- writei ip (drop (Z.to_nat i) addr) (f_off x) (u32 n1) ;;
      when 0 <? r do setf_ f (set_foff (fun off => u32 (off + r))) ;;
      iunlock ip ;;
      commit_trans ;;
      if r <? 0 then ret i else
      if negb (r =? n1) then panic "short filewrite" else
      filewrite_loop fuel f addr n (i + r)
    end
  else ret i.

Definition filewrite (f : nat) (addr : bytes) (n : Z) : K Z :=
  x <- getf f ;;
  if f_writable x =? 0 then ret (-1) else
  match f_type x with
  | FD_PIPE => pipewrite (f_pipe x) addr n
  | FD_INODE =>
    i <- filewrite_loop (Z.to_nat (n / FILE_MAX + 1)) f addr n 0 ;;
    ret (if i =? n then n else -1)
  | FD_NONE => panic "filewrite"
  end.
End files.

(** ** device.c, null.c, zero.c *)

Definition DEV_TTY : Z := 1.
Definition DEV_NULL : Z := 2.
Definition DEV_ZERO : Z := 3.

Definition device_init (id : Z) (rd wr : devfn) : K Z :=
  modify (set_devs (alter (fun _ => Device 1 (Some rd) (Some wr)) (Z.to_nat id))) ;;
  ret 0.

Definition nullread (ip : nat) (n : Z) : K (Z * bytes) := ret (0, []).
Definition nullwrite (ip : nat) (buf : bytes) (n : Z) : K Z := ret n.
Definition dev_null_init : K unit := _ <- device_init DEV_NULL DNull DNull ;; ret tt.

Definition zeroread (ip : nat) (n : Z) : K (Z * bytes) := ret (n, replicate (Z.to_nat n) 0).
Definition zerowrite (ip : nat) (buf : bytes) (n : Z) : K Z := ret n.
Definition dev_zero_init : K unit := _ <- device_init DEV_ZERO DZero DZero ;; ret tt.

(** ** The pipe as a queue *)

Definition pipe_count (p : pipe) : nat := ring_count (pi_nread p) (pi_nwrite p).
(** The bytes in the pipe, the next one to read first. *)
Definition pipe_queue (p : pipe) : bytes := ring_view (pi_data p) PIPESIZE (pi_nread p) (pipe_count p).

Record pipe_ok (p : pipe) : Prop := {
  po_len : length (pi_data p) = Z.to_nat PIPESIZE;
  po_nread : 0 <= pi_nread p < 2 ^ 32;
  po_nwrite : 0 <= pi_nwrite p < 2 ^ 32;
  po_count : (pipe_count p <= Z.to_nat PIPESIZE)%nat
}.

Lemma length_pipe_queue p : length (pipe_queue p) = pipe_count p.
Proof. apply length_ring_view. Qed.
#[export] Hint Rewrite length_pipe_queue : len.

Lemma PIPESIZE_pos : 0 < PIPESIZE.
Proof. done. Qed.
Lemma PIPESIZE_div : (PIPESIZE | 2 ^ 32).
Proof. by exists 8388608. Qed.
#[local] Hint Resolve PIPESIZE_pos PIPESIZE_div : core.

Lemma pipe_nwrite p : pipe_ok p -> pi_nwrite p = u32 (pi_nread p + Z.of_nat (pipe_count p)).
Proof. intros Hok. symmetry. apply ring_count_add, Hok. Qed.

Lemma pipe_full_spec p : pipe_ok p -> pipe_full p = (pipe_count p =? Z.to_nat PIPESIZE)%nat.
Proof.
  intros Hok. unfold pipe_full. apply eq_true_iff_eq. rewrite Z.eqb_eq, Nat.eqb_eq. split.
  - intros E. unfold pipe_count, ring_count. rewrite E. unfold u32.
    rewrite Zminus_mod_idemp_l, Z.add_simpl_l. done.
  - intros E. rewrite (pipe_nwrite p), E by done. done.
Qed.

Lemma pipe_empty_spec p : pipe_ok p -> pipe_empty p = (pipe_count p =? 0)%nat.
Proof.
  intros [_ Hr Hw _]. unfold pipe_empty. apply eq_true_iff_eq. rewrite Z.eqb_eq, Nat.eqb_eq.
  symmetry. by apply ring_count_0.
Qed.

Lemma pipe_put_count p c : (pipe_count p < Z.to_nat PIPESIZE)%nat ->
  pipe_count (pipe_put c p) = S (pipe_count p).
Proof. intros Hc. apply ring_count_succ. cbn. unfold pipe_count, PIPESIZE in Hc. lia. Qed.

Lemma pipe_put_ok p c : pipe_ok p -> (pipe_count p < Z.to_nat PIPESIZE)%nat -> pipe_ok (pipe_put c p).
Proof.
  intros [] Hc. split; cbn; [by rewrite length_insert|done|apply u32_range|].
  rewrite pipe_put_count by done. lia.
Qed.

Lemma pipe_skip_ok p : pipe_ok p -> pipe_count p <> O -> pipe_ok (pipe_skip p).
Proof.
  intros [] Hc. split; [done|apply u32_range|done|].
  apply ring_count_skip in Hc. change (pipe_count p = S (pipe_count (pipe_skip p))) in Hc. lia.
Qed.

Lemma pipe_put_queue p c : pipe_ok p -> (pipe_count p < Z.to_nat PIPESIZE)%nat ->
  pipe_queue (pipe_put c p) = pipe_queue p ++ [c].
Proof.
  intros Hok Hc. unfold pipe_queue. rewrite pipe_put_count by done. cbn.
  change (Z.to_nat (pi_nwrite p mod PIPESIZE)) with (ring_slot PIPESIZE (pi_nwrite p)).
  rewrite (pipe_nwrite p), <- (Z.add_0_r (u32 _)), ring_slot_u32, (Z.add_0_r (_ + _)) by done.
  apply ring_view_snoc; [done|apply Hok|unfold PIPESIZE in *; lia].
Qed.

Lemma pipe_skip_queue p : pipe_ok p -> pipe_count p <> O ->
  pipe_queue p = pipe_next p :: pipe_queue (pipe_skip p).
Proof.
  intros Hok Hc. unfold pipe_queue, pipe_count. rewrite ring_count_skip, ring_view_cons by done.
  f_equal. cbn. by rewrite ring_view_u32.
Qed.

(** The pipe at address [p] holds the bytes [q]; [ro] and [wo] say which of
    its ends are open. *)
Definition has_pipe (s : kst) (p : Z) (q : bytes) (ro wo : Z) : Prop :=
  exists x, k_pipes s !! p = Some x /\ pipe_ok x /\ pipe_queue x = q /\
    pi_readopen x = ro /\ pi_writeopen x = wo.

(** Only the pipe at [p] differs. *)
Definition pipe_frame (p : Z) (s s' : kst) : Prop :=
  keeps [FPipes] s s' /\ delete p (k_pipes s') = delete p (k_pipes s).

#[export] Instance pipe_frame_preorder p : PreOrder (pipe_frame p).
Proof.
  split; [by split|]. intros s1 s2 s3 [H1 E1] [H2 E2]. split; [by etrans|congruence].
Qed.

Lemma has_pipe_ext s s' p q ro wo : k_pipes s' = k_pipes s -> has_pipe s p q ro wo -> has_pipe s' p q ro wo.
Proof. unfold has_pipe. by intros ->. Qed.

Lemma wp_getpipe s p x Q : k_pipes s !! p = Some x -> Q x s -> wp (getpipe p) Q s.
Proof. intros H HQ. unfold getpipe. kstep. rewrite H. by kstep. Qed.

Lemma wp_setpipe s p x g Q :
  k_pipes s !! p = Some x -> Q tt (set_pipes (<[p := g x]>) s) -> wp (setpipe p g) Q s.
Proof. intros H HQ. unfold setpipe. kstep. eapply wp_getpipe; [done|]. by kstep. Qed.

Lemma setpipe_frame s p x : pipe_frame p s (set_pipes (<[p := x]>) s).
Proof. split; [keeps_tac|]. cbn. by rewrite delete_insert_eq. Qed.

(** Bytes that fit are appended to the queue. *)
Lemma pipewrite_loop_fits s p q ro wo src :
  has_pipe s p q ro wo -> (length q + length src <= Z.to_nat PIPESIZE)%nat ->
  wp (pipewrite_loop p src) (fun ok s' => ok = true /\ pipe_frame p s s' /\
    has_pipe s' p (q ++ src) ro wo) s.
Proof.
  revert s q. induction src as [|c src IH]; intros s q Hp Hl; cbn in Hl.
  { cbn. kstep. by rewrite app_nil_r. }
  destruct Hp as (x & Hx & Hok & <- & Hro & Hwo). rewrite length_pipe_queue in Hl.
  cbn [pipewrite_loop pipewrite_wait]. kstep. eapply wp_getpipe; [done|].
  rewrite pipe_full_spec by done. rewrite (proj2 (Nat.eqb_neq _ _)) by lia. kstep. cbn [negb].
  kstep. eapply wp_setpipe; [done|].
  eapply wp_mono; [apply (IH _ (pipe_queue x ++ [c]))|].
  - exists (pipe_put c x). cbn. rewrite lookup_insert_eq. split_and!; try done.
    + apply pipe_put_ok; [done|lia].
    + apply pipe_put_queue; [done|lia].
  - len.
  - intros ok s' (-> & Hf & Hp). rewrite <- app_assoc in Hp. split_and!; try done.
    etrans; [|exact Hf]. apply setpipe_frame.
Qed.

(** A read takes what is there, up to [n] bytes. *)
Lemma piperead_loop_takes s p q ro wo n :
  has_pipe s p q ro wo ->
  wp (piperead_loop p n) (fun l s' => l = take n q /\ pipe_frame p s s' /\
    has_pipe s' p (drop n q) ro wo) s.
Proof.
  revert s q. induction n as [|n IH]; intros s q Hp; cbn [piperead_loop].
  { kstep. by rewrite take_0, drop_0. }
  destruct Hp as (x & Hx & Hok & <- & Hro & Hwo).
  kstep. eapply wp_getpipe; [done|]. rewrite pipe_empty_spec by done.
  destruct (Nat.eqb_spec (pipe_count x) 0) as [E|E].
  - assert (pipe_queue x = []) as Hq by (apply nil_length_inv; by rewrite length_pipe_queue).
    kstep. rewrite Hq. split_and!; try done. by exists x.
  - kstep. eapply wp_setpipe; [done|]. kstep. rewrite (pipe_skip_queue x) by done.
    eapply wp_mono; [apply (IH _ (pipe_queue (pipe_skip x)))|].
    + exists (pipe_skip x). cbn. rewrite lookup_insert_eq. split_and!; try done. by apply pipe_skip_ok.
    + intros l s' (-> & Hf & Hp). kstep. split_and!; try done. etrans; [|exact Hf]. apply setpipe_frame.
Qed.

(** ** Reads and writes that do not wait *)

(** The locks a pipe operation takes are free. *)
Definition pipe_idle (s : kst) (p : Z) : Prop :=
  cpu_ok s /\ k_locks s !! LPipe p = None /\ k_locks s !! LPtable = None.

Lemma pipe_idle_ctx s s' p : ctx s s' -> pipe_idle s p -> pipe_idle s' p.
Proof.
  intros Hc (H1 & H2 & H3). split_and!; [by apply (ctx_cpu_ok s)|by rewrite (ctx_locks _ _ Hc)..].
Qed.

(** The end of the critical sections: wake the other side and release. *)
Lemma wakeup_release {A} s s2 p c (k : K A) Q :
  pipe_idle s p -> ctx (acquired (LPipe p) s) s2 ->
  (forall s3, ctx s s3 -> keeps [FCpu; FLocks; FProcs] s2 s3 -> procs_same s2 s3 -> wp k Q s3) ->
  wp (wakeup c) (fun _ => wp (release (LPipe p) ;; k) Q) s2.
Proof.
  intros (Hcpu & Hl & Hpt) Hc HQ. apply wp_wakeup.
  - by apply (ctx_cpu_ok _ _ Hc), cpu_ok_acquired.
  - rewrite (ctx_locks _ _ Hc). cbn. by rewrite lookup_insert_ne.
  - intros s3 Hc3 Hf Hp _. apply sched_frame_keeps in Hf. kstep.
    apply (wp_release_ctx _ _ s); [done..|by etrans|]. intros Hc4. apply HQ; [done| |done].
    etrans; [exact Hf|]. keeps_tac.
Qed.

Notation pipe_op_frame := (keeps [FCpu; FLocks; FProcs; FPipes]).

Lemma pipe_op_post s p q ro wo s2 s3 :
  pipe_frame p (acquired (LPipe p) s) s2 -> has_pipe s2 p q ro wo ->
  keeps [FCpu; FLocks; FProcs] s2 s3 -> procs_same s2 s3 ->
  pipe_op_frame s s3 /\ procs_same s s3 /\ has_pipe s3 p q ro wo /\
  delete p (k_pipes s3) = delete p (k_pipes s).
Proof.
  intros [Hk Hd] Hp Hk3 Hs3. split_and!.
  - assert (pipe_op_frame s (acquired (LPipe p) s)) as H1 by keeps_tac. etrans; [exact H1|].
    etrans; [eapply keeps_mono; [exact Hk|set_solver]|eapply keeps_mono; [exact Hk3|set_solver]].
  - unfold procs_same in *. rewrite Hs3. by rewrite (Hk FProcs eq_refl).
  - eapply has_pipe_ext; [|exact Hp]. by apply (Hk3 FPipes).
  - by rewrite (Hk3 FPipes eq_refl : k_pipes s3 = _), Hd.
Qed.

Lemma pipe_frame_ctx p s s' : pipe_frame p s s' -> ctx s s'.
Proof. intros [Hk _]. apply ctx_same; [by apply (Hk FCpu)|by apply (Hk FLocks)]. Qed.

Lemma pipewrite_spec s p q ro wo addr n :
  pipe_idle s p -> has_pipe s p q ro wo -> 0 <= n <= Z.of_nat (length addr) ->
  Z.of_nat (length q) + n <= PIPESIZE ->
  wp (pipewrite p addr n) (fun r s' => r = n /\ ctx s s' /\ pipe_op_frame s s' /\ procs_same s s' /\
    has_pipe s' p (q ++ take (Z.to_nat n) addr) ro wo /\
    delete p (k_pipes s') = delete p (k_pipes s)) s.
Proof.
  intros Hi Hp Hn Hl. pose proof Hi as (_ & Hlk & _). unfold pipewrite. kstep.
  apply wp_acquire; [done|]. kstep.
  eapply wp_mono; [eapply (pipewrite_loop_fits _ p q ro wo);
    [by eapply has_pipe_ext|rewrite length_take; unfold PIPESIZE in *; lia]|].
  intros ok s2 (-> & Hf & Hp2). cbn [negb]. kstep.
  apply (wakeup_release s); [done|by apply (pipe_frame_ctx p)|].
  intros s3 Hc Hk Hs. kstep. pose proof (pipe_op_post _ _ _ _ _ _ _ Hf Hp2 Hk Hs). tauto.
Qed.

Lemma piperead_spec s p q ro wo n :
  pipe_idle s p -> has_pipe s p q ro wo -> (q = [] -> wo = 0) ->
  wp (piperead p n) (fun r s' => r = (Z.of_nat (length (take (Z.to_nat n) q)), take (Z.to_nat n) q) /\
    ctx s s' /\ pipe_op_frame s s' /\ procs_same s s' /\
    has_pipe s' p (drop (Z.to_nat n) q) ro wo /\
    delete p (k_pipes s') = delete p (k_pipes s)) s.
Proof.
  intros Hi Hp Hwo. pose proof Hi as (_ & Hlk & _). unfold piperead, piperead_wait. kstep.
  apply wp_acquire; [done|].
  assert (has_pipe (acquired (LPipe p) s) p q ro wo) as Hp1 by (by eapply has_pipe_ext).
  pose proof Hp1 as (x & Hx & Hok & Hq & Hr & Hw). kstep. eapply wp_getpipe; [done|].
  assert (pipe_empty x && cbool (pi_writeopen x) = false) as ->.
  { rewrite pipe_empty_spec, <- length_pipe_queue, Hq, Hw by done.
    destruct q; [|done]. by rewrite Hwo. }
  kstep. cbn [negb]. kstep. eapply wp_mono; [by apply piperead_loop_takes|].
  intros l s2 (-> & Hf & Hp2). kstep.
  apply (wakeup_release s); [done|by apply (pipe_frame_ctx p)|].
  intros s3 Hc Hk Hs. kstep. pose proof (pipe_op_post _ _ _ _ _ _ _ Hf Hp2 Hk Hs). tauto.
Qed.

(** ** Writes that wait *)

Lemma wakeup1_length c ps : length (wakeup1 c ps) = length ps.
Proof. apply length_fmap. Qed.

Lemma wakeup1_lookup c ps j x : ps !! j = Some x -> wakeup1 c ps !! j = Some
  (if bool_decide (p_state x = SLEEPING /\ p_chan x = Some c) then set_pstate (fun _ => RUNNABLE) x else x).
Proof.
  intros Hx. unfold wakeup1. rewrite list_lookup_fmap, Hx. cbn. f_equal. by rewrite <- bool_decide_and.
Qed.

(** What a path that found the pipe full leaves to the scheduler: of the
    other processes, with table [ps] before, those that wait for bytes of the
    pipe can run, and the rest is as it was. *)
Definition blocked_write (ps : list proc) (p : Z) (i : nat) (q : bytes) (ro wo : Z) (s' : kst) : Prop :=
  has_pipe s' p q ro wo /\
  (forall j x, j <> i -> ps !! j = Some x -> k_procs s' !! j = Some
    (if bool_decide (p_state x = SLEEPING /\ p_chan x = Some (CPipeRead p)) then set_pstate (fun _ => RUNNABLE) x else x)) /\
  p_state (k_procs s' !!! i) = SLEEPING /\ p_chan (k_procs s' !!! i) = Some (CPipeWrite p) /\
  k_locks s' !! LPipe p = None.

Lemma pipewrite_wait_blocks s p i q ro wo fuel :
  has_pipe s p q ro wo -> length q = Z.to_nat PIPESIZE -> ro <> 0 ->
  cpu_ok s -> c_proc (k_cpu s) = Some i -> (i < length (k_procs s))%nat ->
  p_killed (k_procs s !!! i) = 0 -> c_ncli (k_cpu s) = 1 ->
  k_locks s !! LPipe p = Some (c_id (k_cpu s)) -> k_locks s !! LPtable = None ->
  switches (pipewrite_wait fuel p) (blocked_write (k_procs s) p i q ro wo) s.
Proof.
  intros Hp Hq Hro Hcpu Hi Hil Hk Hn Hl Hpt. destruct Hp as (x & Hx & Hok & Hxq & Hxr & Hxw).
  destruct fuel; cbn [pipewrite_wait]; apply switches_bind_wp; (eapply wp_getpipe; [done|]).
  all: rewrite pipe_full_spec, <- length_pipe_queue, Hxq, Hq, Nat.eqb_refl by done.
  all: apply switches_bind_wp; unfold myproc; kstep; rewrite Hi; kstep.
  all: apply switches_bind_wp; unfold getp; kstep; rewrite Hk, Hxr, (proj2 (Z.eqb_neq _ _)) by done; cbn [orb cbool negb Z.eqb].
  all: apply switches_bind_wp; apply wp_wakeup; [done..|]; intros s3 Hc Hf _ Hp3; apply sched_frame_keeps in Hf.
  all: apply switches_bind; apply (sleep_switches _ _ _ i);
    try (rewrite ?(ctx_proc _ _ Hc), ?(ctx_ncli _ _ Hc), ?(ctx_locks _ _ Hc), ?(ctx_id _ _ Hc), ?Hp3, ?wakeup1_length; done).
  all: split; [exists x; cbn; rewrite (Hf FPipes eq_refl : k_pipes s3 = _); done|].
  all: split; [intros j y Hj Hy; cbn -[alter]; rewrite list_lookup_alter_ne by done; rewrite Hp3; by apply wakeup1_lookup|].
  all: split_and!; cbn -[alter]; rewrite ?lookup_total_alter_eq by (by rewrite Hp3, wakeup1_length); try done.
  all: by rewrite lookup_delete_eq.
Qed.

Lemma pipewrite_loop_blocks s p i q ro wo src :
  has_pipe s p q ro wo -> (Z.to_nat PIPESIZE < length q + length src)%nat -> ro <> 0 ->
  cpu_ok s -> c_proc (k_cpu s) = Some i -> (i < length (k_procs s))%nat ->
  p_killed (k_procs s !!! i) = 0 -> c_ncli (k_cpu s) = 1 ->
  k_locks s !! LPipe p = Some (c_id (k_cpu s)) -> k_locks s !! LPtable = None ->
  switches (pipewrite_loop p src) (blocked_write (k_procs s) p i (take (Z.to_nat PIPESIZE) (q ++ src)) ro wo) s.
Proof.
  revert s q. induction src as [|c src IH]; intros s q Hp Hlen Hro Hcpu Hi Hil Hk Hn Hl Hpt.
  { destruct Hp as (x & _ & [_ _ _ Hc] & <- & _). rewrite length_pipe_queue in Hlen. cbn in Hlen. lia. }
  pose proof Hp as (x & Hx & Hok & Hxq & Hxr & Hxw).
  pose proof (po_count _ Hok) as Hcnt. rewrite <- length_pipe_queue, Hxq in Hcnt.
  cbn [pipewrite_loop]. destruct (decide (length q = Z.to_nat PIPESIZE)) as [E|E].
  - apply switches_bind. rewrite take_app_le, take_ge by lia. by apply pipewrite_wait_blocks.
  - apply switches_bind_wp. cbn [pipewrite_wait]. kstep. eapply wp_getpipe; [done|].
    rewrite pipe_full_spec, <- length_pipe_queue, Hxq, (proj2 (Nat.eqb_neq _ _)) by done. kstep. cbn [negb].
    apply switches_bind_wp. eapply wp_setpipe; [done|].
    replace (q ++ c :: src) with ((q ++ [c]) ++ src) by (by rewrite <- app_assoc).
    match goal with |- switches _ _ ?s' => change (k_procs s) with (k_procs s') end. apply IH; try done; [|len; cbn in Hlen; lia].
    exists (pipe_put c x). cbn. rewrite lookup_insert_eq. subst q. rewrite length_pipe_queue in *.
    split_and!; try done; [apply pipe_put_ok|apply pipe_put_queue]; done || lia.
Qed.

(** C19. A write of more bytes than there is room for fills the pipe with the
    first of them and then waits: the control path ends in the scheduler with
    exactly [PIPESIZE] bytes in the pipe (the old ones followed by the first
    of the new), the writer asleep on the pipe's write channel, every process
    that sleeps on its read channel made runnable and no other touched, and
    the pipe's lock free for the reader. *)
Theorem pipewrite_blocks s p i q ro wo addr n :
  pipe_idle s p -> c_ncli (k_cpu s) = 0 -> has_pipe s p q ro wo -> ro <> 0 ->
  0 <= n <= Z.of_nat (length addr) -> PIPESIZE < Z.of_nat (length q) + n ->
  c_proc (k_cpu s) = Some i -> (i < length (k_procs s))%nat -> p_killed (k_procs s !!! i) = 0 ->
  switches (pipewrite p addr n)
    (blocked_write (k_procs s) p i (take (Z.to_nat PIPESIZE) (q ++ take (Z.to_nat n) addr)) ro wo) s.
Proof.
  intros (Hcpu & Hl & Hpt) Hn Hp Hro Hna Hlen Hi Hil Hk. unfold pipewrite.
  apply switches_bind_wp, wp_acquire; [done|]. change (k_procs s) with (k_procs (acquired (LPipe p) s)).
  apply switches_bind, pipewrite_loop_blocks; try done.
  - rewrite length_take. unfold PIPESIZE in *. lia.
  - by apply cpu_ok_acquired.
  - cbn. lia.
  - cbn. by rewrite lookup_insert_eq.
  - cbn. by rewrite lookup_insert_ne.
Qed.

(** ** Sequences of reads and writes *)

Inductive pop := PWrite (bs : bytes) | PRead (n : Z).

Definition run_pop (p : Z) (o : pop) : K (Z * bytes) :=
  match o with
  | PWrite bs => r <- pipewrite p bs (Z.of_nat (length bs)) ;; ret (r, [])
  | PRead n => piperead p n
  end.

Fixpoint run_pops (p : Z) (os : list pop) : K (list (Z * bytes)) :=
  match os with
  | [] => ret []
  | o :: os => r <- run_pop p o ;; rs <- run_pops p os ;; ret (r :: rs)
  end.

(** The abstract queue. *)
Definition abs_pop (o : pop) (q : bytes) : (Z * bytes) * bytes :=
  match o with
  | PWrite bs => ((Z.of_nat (length bs), []), q ++ bs)
  | PRead n => let l := take (Z.to_nat n) q in ((Z.of_nat (length l), l), drop (Z.to_nat n) q)
  end.

Fixpoint abs_pops (os : list pop) (q : bytes) : list (Z * bytes) * bytes :=
  match os with
  | [] => ([], q)
  | o :: os => let '(r, q1) := abs_pop o q in let '(rs, q2) := abs_pops os q1 in (r :: rs, q2)
  end.

(** No operation of the sequence has to wait. *)
Fixpoint no_wait (wo : Z) (os : list pop) (q : bytes) : Prop :=
  match os with
  | [] => True
  | o :: os =>
    match o with
    | PWrite bs => Z.of_nat (length q + length bs) <= PIPESIZE
    | PRead _ => q = [] -> wo = 0
    end /\ no_wait wo os (abs_pop o q).2
  end.

Definition written (o : pop) : bytes := match o with PWrite bs => bs | PRead _ => [] end.

Lemma abs_pops_stream os q :
  concat ((abs_pops os q).1.*2) ++ (abs_pops os q).2 = q ++ concat (written <$> os).
Proof.
  revert q. induction os as [|o os IH]; intros q; [cbn; by rewrite app_nil_r|].
  cbn [abs_pops]. destruct (abs_pop o q) as [r q1] eqn:E.
  specialize (IH q1). destruct (abs_pops os q1) as [rs q2]. cbn in *. rewrite <- app_assoc, IH.
  destruct o; cbn in *; simplify_eq; cbn; [by rewrite app_assoc|].
  by rewrite app_assoc, take_drop.
Qed.

Lemma run_pop_spec s p o os q ro wo :
  pipe_idle s p -> has_pipe s p q ro wo -> no_wait wo (o :: os) q ->
  wp (run_pop p o) (fun r s' => r = (abs_pop o q).1 /\ ctx s s' /\ has_pipe s' p (abs_pop o q).2 ro wo) s.
Proof.
  intros Hi Hp [Ho _]. destruct o as [bs|n]; cbn [run_pop abs_pop fst snd]; kstep.
  - eapply wp_mono; [apply (pipewrite_spec _ _ q ro wo); try done; lia|].
    intros r s' (-> & Hc & _ & _ & Hp' & _). kstep. rewrite take_ge in Hp' by lia. done.
  - eapply wp_mono; [by apply piperead_spec|]. intros r s' (-> & Hc & _ & _ & Hp' & _). done.
Qed.

(** C18. A pipe is a queue: a sequence of reads and writes none of which has
    to wait returns what the abstract queue returns (each write its length,
    each read as many of the oldest bytes as it asks for and there are), and
    the bytes read, in order, followed by the bytes still in the pipe are the
    bytes that were in the pipe followed by the bytes written. The counters
    of the ring may wrap around any number of times. *)
Theorem pipe_refines_queue s p os q ro wo :
  pipe_idle s p -> has_pipe s p q ro wo -> no_wait wo os q ->
  wp (run_pops p os) (fun rs s' => rs = (abs_pops os q).1 /\ ctx s s' /\
    has_pipe s' p (abs_pops os q).2 ro wo /\
    concat rs.*2 ++ (abs_pops os q).2 = q ++ concat (written <$> os)) s.
Proof.
  intros Hi Hp Hw. apply wp_mono with (P := fun rs s' => rs = (abs_pops os q).1 /\ ctx s s' /\
    has_pipe s' p (abs_pops os q).2 ro wo).
  2:{ intros rs s' (-> & Hc & Hp'). split_and!; try done. apply abs_pops_stream. }
  revert s q Hi Hp Hw. induction os as [|o os IH]; intros s q Hi Hp Hw; [by cbn; kstep|].
  cbn [run_pops abs_pops]. kstep. eapply wp_mono; [by eapply run_pop_spec|].
  intros r s1 (-> & Hc1 & Hp1). destruct Hw as [_ Hw]. destruct (abs_pop o q) as [r q1]. cbn in *.
  kstep. eapply wp_mono; [apply (IH _ q1); try done; by eapply pipe_idle_ctx|].
  intros rs s2 (-> & Hc2 & Hp2). kstep. destruct (abs_pops os q1) as [rs q2]. cbn in *.
  split_and!; try done. by etrans.
Qed.

(** ** Witnesses *)

(** A pipe whose counters are about to wrap, holding three bytes. *)
Definition demo_pipe : kst :=
  set_procs (fun _ => [set_pstate (fun _ => RUNNING) proc0])
    (set_cpu (fun _ => Cpu 0 0 false true (Some 0%nat))
      (set_pipes (fun _ => {[ 0x1000 := Pipe (replicate 512 7) (2 ^ 32 - 2) 1 1 1 ]}) kst0)).

Lemma demo_pipe_has : has_pipe demo_pipe 0x1000 [7; 7; 7] 1 1.
Proof. eexists. split; [reflexivity|]. by split_and!; [split; try done; vm_compute; lia|..]. Qed.

Lemma demo_pipe_idle : pipe_idle demo_pipe 0x1000.
Proof. by repeat split. Qed.

Lemma pipe_refines_queue_witness :
  wp (run_pops 0x1000 [PWrite [1; 2]; PRead 4; PWrite [3]; PRead 10])
    (fun rs s' => rs = [(2, []); (4, [7; 7; 7; 1]); (1, []); (2, [2; 3])]) demo_pipe.
Proof.
  eapply wp_mono; [apply (pipe_refines_queue demo_pipe 0x1000 _ [7; 7; 7] 1 1); [exact demo_pipe_idle|exact demo_pipe_has|]|].
  - by cbn.
  - intros rs s' (-> & _). done.
Defined.

(** An empty pipe with a reader asleep. *)
Definition demo_wait : kst :=
  set_procs (fun _ => [set_pstate (fun _ => RUNNING) proc0;
      set_chan (fun _ => Some (CPipeRead 0x1000)) (set_pstate (fun _ => SLEEPING) proc0)])
    (set_pipes (fun _ => {[ 0x1000 := Pipe (replicate 512 7) (2 ^ 32 - 2) (2 ^ 32 - 2) 1 1 ]}) demo_pipe).

Lemma pipewrite_blocks_witness :
  switches (pipewrite 0x1000 (replicate 600 9) 600)
    (blocked_write (k_procs demo_wait) 0x1000 0 (take 512 (replicate 600 9)) 1 1) demo_wait.
Proof.
  apply (pipewrite_blocks demo_wait 0x1000 0 [] 1 1 (replicate 600 9) 600); try done; try (cbn; lia).
  eexists. split; [reflexivity|]. by split_and!; [split; try done; vm_compute; lia|..].
Defined.
