(* ===== verification/Proc.v ===== *)
(** * Processes (kernel/proc.c)

    The rest of proc.c: creation, growth, exit and wait of processes, and the
    scheduler. The trap frame of a process is kept as the record [p_tf]; the
    words [allocproc] puts on the kernel stack below it are written to the
    page of the stack. The scheduler is cut at [swtch]: [scheduler_dispatch]
    is what it does before, [scheduler_return] what it does after.

    [Life] has the theorems on the scheduler, [exit] and [wait];
    [TypingSys] shows that every operation keeps the types. *)

From stdpp Require Import prelude gmap strings.
From S2P Require Import Prelude Kernel Port Spinlock Sched Bio Log StringC Fs Console Kalloc Vm File.

Definition SEG_UCODE : Z := 4.
Definition SEG_UDATA : Z := 5.
Definition DPL_USER : Z := 3.
Definition FL_IF : Z := 0x200.
(** sizeof(struct trapframe) and sizeof(struct context) *)
Definition TF_SIZE : Z := 76.
Definition CONTEXT_SIZE : Z := 20.

(** The trap frame found at offset [o] of a page. *)
Definition tf_dec (l : bytes) (o : nat) : trapframe :=
  let w k := get32 l (o + 4 * k) in
  Trapframe (w 0%nat) (w 1%nat) (w 2%nat) (w 3%nat) (w 4%nat) (w 5%nat) (w 6%nat) (w 7%nat)
    (u16 (w 8%nat)) (u16 (w 9%nat)) (u16 (w 10%nat)) (u16 (w 11%nat))
    (w 12%nat) (w 13%nat) (w 14%nat) (u16 (w 15%nat)) (w 16%nat) (w 17%nat) (u16 (w 18%nat)).

Definition tf_eta (t : trapframe) : trapframe :=
  Trapframe (tf_edi t) (tf_esi t) (tf_ebp t) (tf_oesp t) (tf_ebx t) (tf_edx t) (tf_ecx t) (tf_eax t)
    (tf_gs t) (tf_fs t) (tf_es t) (tf_ds t) (tf_trapno t) (tf_err t) (tf_eip t) (tf_cs t)
    (tf_eflags t) (tf_esp t) (tf_ss t).
Definition set_eax (f : Z -> Z) (t : trapframe) : trapframe := ltac:(setfield tf_eta tf_eax f t).
Definition set_eip (f : Z -> Z) (t : trapframe) : trapframe := ltac:(setfield tf_eta tf_eip f t).
Definition set_esp (f : Z -> Z) (t : trapframe) : trapframe := ltac:(setfield tf_eta tf_esp f t).

Definition pinit : K unit := initlock LPtable.

Section procs.
Context `{LY : Layout} `{PO : Ports} `{DO : DevOps}.

Definition allocproc : K (option nat) :=
  acquire LPtable ;;
  ps <- gets k_procs ;;
  match list_find (fun p => p_state p = UNUSED) ps with
  | None => release LPtable ;; ret None
  | Some (p, _) =>
    setp p (set_pstate (fun _ => EMBRYO)) ;;
    pid <- gets k_nextpid ;;
    setp p (set_pid (fun _ => pid)) ;;
    modify (set_nextpid (fun _ => s32 (pid + 1))) ;;
    release LPtable ;;
    kstack <- kalloc ;;
    setp p (set_kstack (fun _ => kstack)) ;;
    if kstack =? 0 then
      setp p (set_pstate (fun _ => UNUSED)) ;; ret None
    else
      let sp := u32 (kstack + KSTACKSIZE - TF_SIZE) in
      pg <- page_get (PGROUNDDOWN sp) ;;
      setp p (set_tf (fun _ => tf_dec pg (Z.to_nat (sp mod PGSIZE)))) ;;
      let sp := u32 (sp - 4) in
      wr32 sp ktrapret ;;
      let sp := u32 (sp - CONTEXT_SIZE) in
      kwrite sp (replicate (Z.to_nat CONTEXT_SIZE) 0) ;;
      wr32 (u32 (sp + 16)) kforkret ;;
      ret (Some p)
  end.

(** [initcode]: the code linked in as _binary_initcode, given as bytes. *)
Definition userinit (initcode : bytes) : K unit :=
  o <- allocproc ;;
  modify (set_initproc (fun _ => o)) ;;
  match o with
  | None => fault
  | Some p =>
    d <- setupkvm ;;
    setp p (set_pgdir (fun _ => d)) ;;
    if d =? 0 then panic "userinit: out of memory?" else
    inituvm d initcode (Z.of_nat (length initcode)) ;;
    setp p (set_sz (fun _ => PGSIZE)) ;;
    let ds := Z.lor (Z.shiftl SEG_UDATA 3) DPL_USER in
    setp p (set_tf (fun _ => Trapframe 0 0 0 0 0 0 0 0 0 0 ds ds 0 0 0
                               (Z.lor (Z.shiftl SEG_UCODE 3) DPL_USER) FL_IF PGSIZE ds)) ;;
    setp p (set_name (fun n => splice n 0 (safestrcpy (str "initcode") 16))) ;;
    cwd <- namei (str "/") ;;
    setp p (set_cwd (fun _ => cwd)) ;;
    setp p (set_pstate (fun _ => RUNNABLE))
  end.

Definition growproc (n : Z) : K Z :=
  i <- myproc ;;
  me <- getp i ;;
  let sz := p_sz me in
  r <- (if 0 <? n then
          sz <- allocuvm (p_pgdir me) sz (u32 (sz + n)) ;;
          ret (if sz =? 0 then None else Some (u32 sz))
        else if n <? 0 then
          sz <- deallocuvm (p_pgdir me) sz (u32 (sz + n)) ;;
          ret (if sz =? 0 then None else Some (u32 sz))
        else ret (Some sz)) ;;
  match r with
  | None => ret (-1)
  | Some sz =>
    setp i (set_sz (fun _ => sz)) ;;
    switchuvm i ;;
    ret 0
  end.

(** The loop over the open files of the parent. *)
Fixpoint fork_files (np : nat) (l : list (option nat)) (fd : nat) : K unit :=
  match l with
  | [] => ret tt
  | None :: l => fork_files np l (S fd)
  | Some f :: l =>
    f' <- filedup f ;;
    setp np (set_ofile (<[fd := Some f']>)) ;;
    fork_files np l (S fd)
  end.

Definition fork : K Z :=
  o <- allocproc ;;
  match o with
  | None => ret (-1)
  | Some np =>
    i <- myproc ;;
    me <- getp i ;;
    d <- copyuvm (p_pgdir me) (p_sz me) ;;
    setp np (set_pgdir (fun _ => d)) ;;
    if d =? 0 then
      child <- getp np ;;
      kfree (p_kstack child) ;;
      setp np (set_kstack (fun _ => 0)) ;;
      setp np (set_pstate (fun _ => UNUSED)) ;;
      ret (-1)
    else
      setp np (set_sz (fun _ => p_sz me)) ;;
      setp np (set_parent (fun _ => Some i)) ;;
      setp np (set_tf (fun _ => set_eax (fun _ => 0) (p_tf me))) ;;
      fork_files np (p_ofile me) 0 ;;
      match p_cwd me with
      | None => fault
      | Some cwd =>
        cwd <- idup cwd ;;
        setp np (set_cwd (fun _ => Some cwd)) ;;
        child <- getp np ;;
        setp np (set_pstate (fun _ => RUNNABLE)) ;;
        setp np (set_name (fun n => splice n 0 (safestrcpy (p_name me) 16))) ;;
        ret (p_pid child)
      end
  end.

(** [wakeup1] on a pointer that may be null. *)
Definition wakeup1_ptr (c : option chan) (ps : list proc) : list proc :=
  (fun p => if bool_decide (p_state p = SLEEPING) && bool_decide (p_chan p = c)
            then set_pstate (fun _ => RUNNABLE) p else p) <$> ps.

(** The loop that passes the children of [i] to init, over the [n] last slots. *)
Fixpoint reparent (i : nat) (init : option nat) (n j : nat) (ps : list proc) : list proc :=
  match n with
  | O => ps
  | S n =>
    let p := ps !!! j in
    let ps :=
      if bool_decide (p_parent p = Some i) then
        let ps := alter (set_parent (fun _ => init)) j ps in
        if bool_decide (p_state p = ZOMBIE) then wakeup1_ptr (CProc <$> init) ps else ps
      else ps in
    reparent i init n (S j) ps
  end.

(** The loop over the open files of the process that exits. *)
Fixpoint exit_files (i : nat) (n fd : nat) : K unit :=
  match n with
  | O => ret tt
  | S n =>
    me <- getp i ;;
    match p_ofile me !!! fd with
    | Some f => fileclose f ;; setp i (set_ofile (<[fd := None]>))
    | None => ret tt
    end ;;
    exit_files i n (S fd)
  end.

Definition exit (status : Z) : K unit :=
  o <- gets (fun s => c_proc (k_cpu s)) ;;
  init <- gets k_initproc ;;
  if bool_decide (o = init) then panic "init exiting" else
  i <- myproc ;;
  exit_files i NOFILE 0 ;;
  me <- getp i ;;
  match p_cwd me with None => fault | Some cwd => iput cwd end ;;
  setp i (set_cwd (fun _ => None)) ;;
  acquire LPtable ;;
  me <- getp i ;;
  modify (set_procs (wakeup1_ptr (CProc <$> p_parent me))) ;;
  modify (fun s => set_procs (reparent i (k_initproc s) (length (k_procs s)) 0) s) ;;
  setp i (set_pstate (fun _ => ZOMBIE)) ;;
  sched ;;
  panic "zombie exit".

(** [wait]: the scan for a child that has exited; a pass that sleeps ends the
    control path, the fuel stands for the passes after it. *)
Fixpoint wait_loop (fuel : nat) : K Z :=
  i <- myproc ;;
  ps <- gets k_procs ;;
  match list_find (fun p => p_parent p = Some i /\ p_state p = ZOMBIE) ps with
  | Some (j, p) =>
    kfree (p_kstack p) ;;
    setp j (set_kstack (fun _ => 0)) ;;
    freevm (p_pgdir p) ;;
    setp j (set_pstate (fun _ => UNUSED)) ;;
    setp j (set_pid (fun _ => 0)) ;;
    setp j (set_parent (fun _ => None)) ;;
    setp j (set_name (<[0%nat := 0]>)) ;;
    setp j (set_killed (fun _ => 0)) ;;
    release LPtable ;;
    ret (p_pid p)
  | None =>
    let havekids := existsb (fun p => bool_decide (p_parent p = Some i)) ps in
    me <- getp i ;;
    if negb havekids || cbool (p_killed me) then release LPtable ;; ret (-1) else
    sleep (CProc i) LPtable ;;
    match fuel with O => fun _ => NoFuel | S fuel => wait_loop fuel end
  end.

Definition wait : K Z := acquire LPtable ;; wait_loop 1.

(** ** The scheduler *)

(** The first runnable slot from [k] on: where the loop over the table stops. *)
Definition next_runnable (ps : list proc) (k : nat) : option nat :=
  (fun x => (k + x.1)%nat) <$> list_find (fun p => p_state p = RUNNABLE) (drop k ps).

(** The start of a pass over the table. *)
Definition scheduler_enter : K unit := sti ;; acquire LPtable.

(** From the choice of a process to [swtch]. *)
Definition scheduler_dispatch (p : nat) : K unit :=
  modify (set_cpu (set_cproc (fun _ => Some p))) ;;
  switchuvm p ;;
  setp p (set_pstate (fun _ => RUNNING)) ;;
  modify (set_current (fun _ => Some p)).

(** After [swtch] has come back. *)
Definition scheduler_return : K unit :=
  switchkvm ;;
  modify (set_cpu (set_cproc (fun _ => None))).

(** The loop over the table from slot [k] to the next [swtch], with the slot
    that is run, or to the end of the pass. *)
Definition scheduler_scan (k : nat) : K (option nat) :=
  o <- gets (fun s => next_runnable (k_procs s) k) ;;
  match o with
  | Some p => scheduler_dispatch p ;; ret (Some p)
  | None => release LPtable ;; ret None
  end.

Definition forkret : K unit :=
  release LPtable ;;
  first <- gets k_first ;;
  when cbool first do (modify (set_first (fun _ => 0)) ;; initlog).

Definition killcur : K unit :=
  o <- gets k_current ;;
  match o with
  | None => fault
  | Some i => p <- getp i ;; _ <- kill (p_pid p) ;; ret tt
  end.

Definition state_name (st : procstate) : bytes :=
  match st with
  | UNUSED => str "unused" | EMBRYO => str "embryo" | SLEEPING => str "sleep "
  | RUNNABLE => str "runble" | RUNNING => str "run   " | ZOMBIE => str "zombie"
  end.

Fixpoint procdump_loop (ps : list proc) : K unit :=
  match ps with
  | [] => ret tt
  | p :: ps =>
    (if bool_decide (p_state p = UNUSED) then ret tt else
     cprintf (str "%d %s %s") [CInt (p_pid p); CStr (state_name (p_state p)); CStr (p_name p)] ;;
     cprintf [NEWLINE] []) ;;
    procdump_loop ps
  end.

Definition procdump : K unit := ps <- gets k_procs ;; procdump_loop ps.
End procs.
