(* ===== verification/Tty.v ===== *)
(** * The terminal device (kernel/tty.c)

    The line discipline: [ttyintr] edits the current line in the ring
    [input], [ttyread] hands committed lines to readers, [ttywrite] prints.
    The devices of the system are here tied to the functions their table
    entries name ([dev_ops]).

    The theorems: the three indices of the ring keep their order and distance
    under every key and every read, and what the keys leave in the ring is
    what a line editor on lists leaves. *)

From stdpp Require Import prelude gmap strings.
From S2P Require Import Prelude Ring Kernel Port Spinlock Sched Bio Log StringC Fs Console Kalloc Vm File Proc.

Definition input_eta (x : input) : input := Input (in_buf x) (in_r x) (in_w x) (in_e x).
Definition set_inbuf (f : bytes -> bytes) (x : input) : input := ltac:(setfield input_eta in_buf f x).
Definition set_r (f : Z -> Z) (x : input) : input := ltac:(setfield input_eta in_r f x).
Definition set_w (f : Z -> Z) (x : input) : input := ltac:(setfield input_eta in_w f x).
Definition set_e (f : Z -> Z) (x : input) : input := ltac:(setfield input_eta in_e f x).

Definition INPUT_BUF : Z := 128.
(** [C(x)], Control-x *)
Definition Ctl (x : Z) : Z := x - 64.

Definition in_slot (x : input) (k : Z) : Z := in_buf x !!! Z.to_nat (k mod INPUT_BUF).

(** [while(input.e != input.w && input.buf[(input.e-1) % INPUT_BUF] != '\n')]: the ring is
    left with [e] moved back, and the number of characters rubbed out. *)
Fixpoint kill_line (fuel : nat) (x : input) : input * nat :=
  if negb (in_e x =? in_w x) && negb (in_slot x (u32 (in_e x - 1)) =? NEWLINE) then
    match fuel with
    | O => (x, O)
    | S fuel => let '(x, n) := kill_line fuel (set_e (fun e => u32 (e - 1)) x) in (x, S n)
    end
  else (x, O).

(** What a key does to the ring: the new ring, the characters echoed, and
    whether readers are woken. *)
Definition input_key (c : Z) (x : input) : input * bytes * bool :=
  if c =? Ctl 87 then
    let '(x, n) := kill_line (ring_count (in_w x) (in_e x)) x in (x, replicate n BACKSPACE, false)
  else if (c =? Ctl 72) || (c =? 127) then
    if negb (in_e x =? in_w x) then (set_e (fun e => u32 (e - 1)) x, [BACKSPACE], false)
    else (x, [], false)
  else if negb (c =? 0) && (u32 (in_e x - in_r x) <? INPUT_BUF) then
    let c := if c =? 13 then NEWLINE else c in
    let x := set_e (fun e => u32 (e + 1)) (set_inbuf (<[Z.to_nat (in_e x mod INPUT_BUF) := u8 c]>) x) in
    if (c =? NEWLINE) || (c =? Ctl 67) || (in_e x =? u32 (in_r x + INPUT_BUF))
    then (set_w (fun _ => in_e x) x, [c], true) else (x, [c], false)
  else (x, [], false).

Section tty.
Context `{LY : Layout} `{PO : Ports}.

Definition tty_key (c : Z) : K unit :=
  if c =? Ctl 80 then procdump
  else if c =? Ctl 67 then killcur
  else
    x <- gets k_input ;;
    let '(x', echo, wake) := input_key c x in
    modify (set_input (fun _ => x')) ;;
    consputs echo ;;
    when wake do wakeup CInput.

(** The loop on [getc]; the fuel bounds the number of characters it yields. *)
Fixpoint tty_keys (fuel : nat) (getc : K Z) : K unit :=
  match fuel with
  | O => fun _ => NoFuel
  | S fuel =>
    c <- getc ;;
    if 0 <=? c then tty_key c ;; tty_keys fuel getc else ret tt
  end.

Definition ttyintr (fuel : nat) (getc : K Z) : K unit :=
  acquire LInput ;;
  tty_keys fuel getc ;;
  release LInput.

(** The wait for a line; false when the process has been killed. *)
Fixpoint ttyread_wait (fuel : nat) : K bool :=
  x <- gets k_input ;;
  if in_r x =? in_w x then
    i <- myproc ;;
    me <- getp i ;;
    if cbool (p_killed me) then ret false else
    sleep CInput LInput ;;
    match fuel with O => fun _ => NoFuel | S fuel => ttyread_wait fuel end
  else ret true.

(** The loop of [ttyread]: the bytes stored, and whether it came to its end
    (it does not when the process has been killed). The characters are
    signed. *)
Fixpoint ttyread_loop (n : nat) : K (bytes * bool) :=
  match n with
  | O => ret ([], true)
  | S n =>
    ok <- ttyread_wait 1 ;;
    if negb ok then ret ([], false) else
    x <- gets k_input ;;
    modify (set_input (set_r (fun r => u32 (r + 1)))) ;;
    let c := s8 (in_slot x (in_r x)) in
    if c =? Ctl 68 then ret ([], true) else
    if c =? NEWLINE then ret ([u8 c], true) else
    ' (l, ok) <- ttyread_loop n ;;
    ret (u8 c :: l, ok)
  end.

Definition ttyread (ip : nat) (n : Z) : K (Z * bytes) :=
  iunlock ip ;;
  acquire LInput ;;
  ' (l, ok) <- ttyread_loop (Z.to_nat n) ;;
  release LInput ;;
  ilock ip ;;
  ret (if (ok : bool) then Z.of_nat (length l) else -1, l).

Definition ttywrite (ip : nat) (buf : bytes) (n : Z) : K Z :=
  iunlock ip ;;
  acquire LCons ;;
  consputs (take (Z.to_nat n) buf) ;;
  release LCons ;;
  ilock ip ;;
  ret n.

(** The device functions of the system. *)
#[export] Instance dev_ops : DevOps := {
  dev_read f ip n :=
    match f with DTty => ttyread ip n | DNull => nullread ip n | DZero => zeroread ip n end;
  dev_write f ip buf n :=
    match f with DTty => ttywrite ip buf n | DNull => nullwrite ip buf n | DZero => zerowrite ip buf n end;
  dev_exit status := exit status
}.
End tty.

(** ** The ring as a line editor *)

(** The committed bytes and the line being edited. *)
Definition committed (x : input) : bytes := ring_view (in_buf x) INPUT_BUF (in_r x) (ring_count (in_r x) (in_w x)).
Definition line (x : input) : bytes := ring_view (in_buf x) INPUT_BUF (in_w x) (ring_count (in_w x) (in_e x)).

Record input_ok (x : input) : Prop := {
  io_len : length (in_buf x) = Z.to_nat INPUT_BUF;
  io_r : 0 <= in_r x < 2 ^ 32;
  io_w : 0 <= in_w x < 2 ^ 32;
  io_e : 0 <= in_e x < 2 ^ 32;
  io_count : Z.of_nat (ring_count (in_r x) (in_w x)) + Z.of_nat (ring_count (in_w x) (in_e x)) <= INPUT_BUF
}.

(** The line editor on lists: the committed bytes, the line, the echo, and
    whether readers are woken. *)
Definition edit (c : Z) (q l : bytes) : bytes * bytes * bytes * bool :=
  if c =? Ctl 87 then (q, [], replicate (length l) BACKSPACE, false)
  else if (c =? Ctl 72) || (c =? 127) then
    if (length l =? 0)%nat then (q, l, [], false) else (q, removelast l, [BACKSPACE], false)
  else if negb (c =? 0) && (Z.of_nat (length q + length l) <? INPUT_BUF) then
    let c := if c =? 13 then NEWLINE else c in
    if (c =? NEWLINE) || (c =? Ctl 67) || (Z.of_nat (length q + length l) + 1 =? INPUT_BUF)
    then (q ++ l ++ [c], [], [c], true) else (q, l ++ [c], [c], false)
  else (q, l, [], false).

Lemma INPUT_BUF_div : (INPUT_BUF | 2 ^ 32).
Proof. by exists 33554432. Qed.
Lemma INPUT_BUF_pos : 0 < INPUT_BUF.
Proof. done. Qed.
#[local] Hint Resolve INPUT_BUF_div INPUT_BUF_pos : core.

Lemma input_count_re x : input_ok x ->
  ring_count (in_r x) (in_e x) = (ring_count (in_r x) (in_w x) + ring_count (in_w x) (in_e x))%nat.
Proof. intros [_ _ _ _ Hc]. apply ring_count_split. unfold INPUT_BUF in Hc. lia. Qed.

Lemma input_all x : input_ok x ->
  committed x ++ line x = ring_view (in_buf x) INPUT_BUF (in_r x) (ring_count (in_r x) (in_e x)).
Proof.
  intros Hok. rewrite (input_count_re x Hok), ring_view_app. unfold committed, line. f_equal.
  rewrite <- (ring_view_u32 _ INPUT_BUF_pos INPUT_BUF_div _ (in_r x + _)).
  by rewrite ring_count_add by apply Hok.
Qed.

(** Rubbing out one character. *)
Definition rubout (x : input) : input := set_e (fun e => u32 (e - 1)) x.

Lemma rubout_ok x : input_ok x -> line x <> [] ->
  input_ok (rubout x) /\ committed (rubout x) = committed x /\
  line x = line (rubout x) ++ [in_slot x (u32 (in_e x - 1))].
Proof.
  intros Hok Hne. assert (ring_count (in_w x) (in_e x) <> O) as Hc.
  { intros E. apply Hne. apply nil_length_inv. unfold line. by rewrite length_ring_view. }
  pose proof (ring_count_pred _ _ Hc) as E. destruct Hok as [Hl Hr Hw He Hn].
  split_and!; [split; try done; [apply u32_range|cbn; lia]|done|].
  unfold line at 1. rewrite E. replace (S _) with (ring_count (in_w x) (u32 (in_e x - 1)) + 1)%nat by lia.
  rewrite ring_view_app, ring_view_1. f_equal.
  f_equal. unfold in_slot. change (Z.to_nat (?k mod INPUT_BUF)) with (ring_slot INPUT_BUF k).
  rewrite <- (Z.add_0_r (in_w x + _)), <- (ring_slot_u32 _ INPUT_BUF_pos INPUT_BUF_div).
  rewrite ring_count_add by apply u32_range. by rewrite Z.add_0_r.
Qed.

Lemma kill_line_spec fuel x : input_ok x -> NEWLINE ∉ line x -> (length (line x) <= fuel)%nat ->
  let '(x', n) := kill_line fuel x in
  input_ok x' /\ committed x' = committed x /\ line x' = [] /\ n = length (line x).
Proof.
  revert x. induction fuel as [|fuel IH]; intros x Hok Hnl Hf; cbn [kill_line].
  all: pose proof (ring_count_0 _ _ (io_w x Hok) (io_e x Hok)) as H0.
  all: unfold line in Hf; rewrite length_ring_view in Hf.
  - assert (in_w x = in_e x) as E by (apply H0; lia). rewrite E, Z.eqb_refl. cbn.
    split_and!; try done; unfold line; by rewrite (proj2 H0 E).
  - destruct (Z.eqb_spec (in_e x) (in_w x)) as [E|E]; cbn [negb andb].
    { split_and!; try done; unfold line; by rewrite (proj2 H0). }
    assert (line x <> []) as Hne.
    { intros Hl. apply E. symmetry. apply H0. apply (f_equal length) in Hl.
      unfold line in Hl. by rewrite length_ring_view in Hl. }
    destruct (rubout_ok x Hok Hne) as (Hok' & Hq & Hl). rewrite Hl in Hnl.
    apply not_elem_of_app in Hnl as [Hnl Hc]. rewrite list_elem_of_singleton in Hc.
    destruct (Z.eqb_spec (in_slot x (u32 (in_e x - 1))) NEWLINE) as [|_]; [congruence|]. cbn [negb].
    specialize (IH (rubout x) Hok' Hnl). unfold rubout in IH at 2.
    destruct (kill_line fuel _) as [x' n]. destruct IH as (H1 & H2 & H3 & ->).
    { apply (f_equal length) in Hl. revert Hl. unfold line. len. }
    rewrite Hl. split_and!; try done. rewrite length_app. cbn. lia.
Qed.

(** Appending one character, when there is room. *)
Definition append (c : Z) (x : input) : input :=
  set_e (fun e => u32 (e + 1)) (set_inbuf (<[Z.to_nat (in_e x mod INPUT_BUF) := u8 c]>) x).

Lemma append_ok c x : input_ok x -> is_byte c ->
  Z.of_nat (length (committed x) + length (line x)) < INPUT_BUF ->
  input_ok (append c x) /\ committed (append c x) = committed x /\ line (append c x) = line x ++ [c].
Proof.
  intros Hok Hb Hlt. unfold committed, line in Hlt. rewrite !length_ring_view in Hlt.
  pose proof (input_count_re x Hok) as Hre. pose proof (ring_count_add (in_w x) (in_e x) (io_e x Hok)) as Hwe.
  pose proof (ring_count_add (in_r x) (in_e x) (io_e x Hok)) as Hr_e.
  destruct Hok as [Hl Hr Hw He Hn]. unfold INPUT_BUF in Hlt, Hn.
  assert (ring_count (in_w x) (u32 (in_e x + 1)) = S (ring_count (in_w x) (in_e x))) as E.
  { apply ring_count_succ. lia. }
  assert (u8 c = c) as Hc by (unfold u8; apply Z.mod_small; exact Hb).
  split_and!.
  - split; cbn; [by rewrite length_insert|done..|apply u32_range|]. rewrite E. unfold INPUT_BUF. lia.
  - unfold committed, append. cbn. rewrite <- Hr_e.
    change (Z.to_nat (?k mod INPUT_BUF)) with (ring_slot INPUT_BUF k).
    rewrite <- (Z.add_0_r (u32 _)), (ring_slot_u32 _ INPUT_BUF_pos INPUT_BUF_div), (Z.add_0_r (in_r x + _)).
    apply ring_view_insert_ne; [done|]. unfold INPUT_BUF. lia.
  - unfold line. cbn [append set_e in_e in_w in_buf set_inbuf]. rewrite E, Hc. rewrite <- Hwe at 1.
    change (Z.to_nat (?k mod INPUT_BUF)) with (ring_slot INPUT_BUF k).
    rewrite <- (Z.add_0_r (u32 _)), (ring_slot_u32 _ INPUT_BUF_pos INPUT_BUF_div), (Z.add_0_r (in_w x + _)).
    apply ring_view_snoc; [done..|]. unfold INPUT_BUF. lia.
Qed.

Lemma commit_ok x : input_ok x ->
  input_ok (set_w (fun _ => in_e x) x) /\ committed (set_w (fun _ => in_e x) x) = committed x ++ line x /\
  line (set_w (fun _ => in_e x) x) = [].
Proof.
  intros Hok. pose proof (input_count_re x Hok) as Hre. rewrite input_all by done.
  destruct Hok as [Hl Hr Hw He Hn].
  assert (ring_count (in_e x) (in_e x) = O) as H0 by (by apply ring_count_0).
  split_and!; [split; try done; cbn; rewrite H0; lia|done|].
  unfold line. cbn. by rewrite H0.
Qed.

Lemma input_full x : input_ok x ->
  (in_e x =? u32 (in_r x + INPUT_BUF)) = (Z.of_nat (length (committed x) + length (line x)) =? INPUT_BUF).
Proof.
  intros Hok. unfold committed, line. rewrite !length_ring_view, <- input_count_re by done.
  apply eq_true_iff_eq. rewrite !Z.eqb_eq. split.
  - intros E. unfold ring_count. rewrite E. unfold u32. by rewrite Zminus_mod_idemp_l, Z.add_simpl_l.
  - intros E. by rewrite <- (ring_count_add (in_r x) (in_e x)), E by apply Hok.
Qed.

Lemma input_room x : input_ok x ->
  u32 (in_e x - in_r x) = Z.of_nat (length (committed x) + length (line x)).
Proof.
  intros Hok. unfold committed, line. rewrite !length_ring_view, <- input_count_re by done.
  unfold ring_count. by rewrite Z2Nat.id by apply u32_range.
Qed.

Definition tty_sees (x : input) (q l : bytes) : Prop :=
  input_ok x /\ NEWLINE ∉ line x /\ committed x = q /\ line x = l.

Lemma input_key_edit c x q l : tty_sees x q l -> is_byte c ->
  let '(x', echo, wake) := input_key c x in
  let '(q', l', echo', wake') := edit c q l in
  tty_sees x' q' l' /\ echo = echo' /\ wake = wake'.
Proof.
  intros (Hok & Hnl & Hq & Hl) Hb. unfold input_key, edit.
  destruct (c =? Ctl 87).
  { pose proof (kill_line_spec (ring_count (in_w x) (in_e x)) x Hok Hnl) as Hk.
    destruct (kill_line _ x) as [x' n]. destruct Hk as (H1 & H2 & H3 & ->).
    { unfold line. by rewrite length_ring_view. }
    rewrite Hl. split_and!; [split_and!|..]; try done; [rewrite H3; apply not_elem_of_nil|congruence]. }
  destruct ((c =? Ctl 72) || (c =? 127)).
  { assert ((in_e x =? in_w x) = (length l =? 0)%nat) as ->.
    { apply eq_true_iff_eq. rewrite Z.eqb_eq, Nat.eqb_eq, <- Hl. unfold line. rewrite length_ring_view.
      rewrite ring_count_0 by apply Hok. done. }
    destruct (Nat.eqb_spec (length l) 0) as [E|E]; cbn [negb]; [done|].
    destruct (rubout_ok x Hok) as (H1 & H2 & H3); [intros E'; apply E; rewrite <- Hl, E'; done|].
    rewrite H3 in Hnl. apply not_elem_of_app in Hnl as [Hnl _].
    rewrite <- Hl, H3, removelast_last. split_and!; [split_and!|..]; try done; congruence. }
  rewrite (input_room x Hok), Hq, Hl. destruct (negb (c =? 0) && _) eqn:E; [|done].
  apply andb_true_iff in E as [_ Hlt]. apply Z.ltb_lt in Hlt.
  set (c' := if c =? 13 then NEWLINE else c). assert (is_byte c') as Hb'.
  { unfold c', is_byte, NEWLINE in *. destruct (c =? 13); lia. }
  fold (append c' x). destruct (append_ok c' x Hok Hb') as (H1 & H2 & H3); [by rewrite Hq, Hl|].
  change (in_r x) with (in_r (append c' x)). rewrite input_full, H2, H3, Hq, Hl by done.
  replace (Z.of_nat (length q + length (l ++ [c'])) =? INPUT_BUF) with
    (Z.of_nat (length q + length l) + 1 =? INPUT_BUF) by (rewrite length_app; cbn; f_equal; lia).
  destruct (((c' =? NEWLINE) || _) || _) eqn:E.
  - destruct (commit_ok _ H1) as (G1 & G2 & G3). rewrite H2, H3, Hq, Hl in G2.
    split_and!; [split_and!|..]; try done. rewrite G3. apply not_elem_of_nil.
  - apply orb_false_iff in E as [E _]. apply orb_false_iff in E as [E _]. apply Z.eqb_neq in E.
    split_and!; [split_and!|..]; try done; try congruence.
    rewrite H3. apply not_elem_of_app. split; [done|]. rewrite list_elem_of_singleton. congruence.
Qed.

(** ** The interrupt handler *)

(** The accesses of console output: the status register of the serial port is
    read, its data register written. *)
Definition sends (e : ioev) : Prop :=
  match e with Inb p => p = COM1 + 5 | Outb p _ => p = COM1 + 0 | _ => False end.

Definition printed (L : list kfield) (s s' : kst) : Prop :=
  keeps (FIo :: L) s s' /\ exists ext, k_io s' = k_io s ++ ext /\ Forall sends ext.

#[export] Instance printed_preorder L : PreOrder (printed L).
Proof.
  split.
  - intros s. split; [done|]. exists []. by rewrite app_nil_r.
  - intros s1 s2 s3 [K1 (e1 & E1 & F1)] [K2 (e2 & E2 & F2)]. split; [by etrans|]. exists (e1 ++ e2).
    rewrite E2, E1, app_assoc. split; [done|]. by apply Forall_app.
Qed.

Section output.
Context `{PO : Ports}.

Lemma io_printed e s : sends e -> printed [] s (set_io (fun l => l ++ [e]) s).
Proof. intros He. split; [keeps_tac|]. exists [e]. split; [done|]. by repeat constructor. Qed.

Lemma uart_wait_spec n s : wp (uart_wait n) (fun _ s' => printed [] s s') s.
Proof.
  revert s. induction n as [|n IH]; intros s; cbn [uart_wait]; unfold inb, io; kstep; [done|].
  assert (printed [] s (set_io (fun l => l ++ [Inb (COM1 + 5)]) s)) as H by (by apply io_printed).
  destruct (has _ _); kstep; [done|]. eapply wp_mono; [apply IH|]. intros [] s' H'. by etrans.
Qed.

Lemma uartputc_spec s c : wp (uartputc c) (fun _ s' => printed [] s s') s.
Proof.
  unfold uartputc, outb, io. kstep. destruct (cbool (k_uart s)); cbn [negb]; kstep; [|done].
  eapply wp_mono; [apply uart_wait_spec|]. intros [] s1 H1. kstep. etrans; [exact H1|]. by apply io_printed.
Qed.

Lemma printed_weaken L s s' : printed [] s s' -> printed L s s'.
Proof.
  intros [H He]. split; [|done]. intros f Hf. apply H. unfold has_field in *. rewrite bool_decide_eq_false in *. set_solver.
Qed.

Lemma cgaputc_spec s c : wp (cgaputc c) (fun _ s' => printed [FCrt; FPos] s s') s.
Proof.
  unfold cgaputc. kstep.
  assert (exists m pos, cga_put LEGACY_FB c (k_crt s, k_pos s) = Some (m, pos)) as (m & pos & ->).
  { unfold cga_put. cbn [LEGACY_FB negb andb]. destruct (c =? NEWLINE), (c =? BACKSPACE); eauto. }
  kstep. split; [keeps_tac|]. exists []. by rewrite app_nil_r.
Qed.

Lemma consputc_spec s c : k_panicked s = 0 -> wp (consputc c) (fun _ s' => printed [FCrt; FPos] s s') s.
Proof.
  intros Hp. unfold consputc. kstep. rewrite Hp. cbn [cbool negb Z.eqb].
  apply wp_bind, wp_mono with (P := fun _ s' => printed [] s s').
  - destruct (c =? BACKSPACE); [|apply uartputc_spec]. kstep. eapply wp_mono; [apply uartputc_spec|]. intros [] s1 H1.
    kstep. eapply wp_mono; [apply uartputc_spec|]. intros [] s2 H2.
    eapply wp_mono; [apply uartputc_spec|]. intros [] s3 H3. by do 2 (etrans; [done|]).
  - intros [] s1 H1. eapply wp_mono; [apply cgaputc_spec|]. intros [] s2 H2. etrans; [by apply printed_weaken|done].
Qed.

Lemma consputs_spec s l : k_panicked s = 0 -> wp (consputs l) (fun _ s' => printed [FCrt; FPos] s s') s.
Proof.
  revert s. induction l as [|c l IH]; intros s Hp; cbn [consputs]; kstep; [done|].
  eapply wp_mono; [by apply consputc_spec|]. intros [] s1 H1.
  eapply wp_mono; [apply IH; by rewrite (proj1 H1 FPanicked eq_refl : k_panicked s1 = _)|].
  intros [] s2 H2. by etrans.
Qed.
End output.

(** What a driver's [getc] promises to the terminal: in a state in which
    [avail] holds of the characters [cs], it yields them one after another and
    then a negative number, and only touches its device; what is printed does
    not change what it yields. *)
Class CharSource (getc : K Z) (avail : kst -> list Z -> Prop) := {
  src_next s c cs : avail s (c :: cs) ->
    wp getc (fun r s' => r = c /\ keeps [FIo; FHw] s s' /\ avail s' cs) s;
  src_end s : avail s [] ->
    wp getc (fun r s' => r < 0 /\ keeps [FIo; FHw] s s' /\ avail s' []) s;
  src_frame s s' cs ext : k_io s' = k_io s ++ ext -> Forall sends ext -> k_hw s' = k_hw s -> k_uart s' = k_uart s ->
    avail s cs -> avail s' cs
}.

Section intr.
Context `{LY : Layout} `{PO : Ports}.

(** A key that edits: neither ^P (process listing) nor ^C (kill). *)
Definition editing_key (c : Z) : Prop := is_byte c /\ c <> Ctl 80 /\ c <> Ctl 67.

(** The editor run on a sequence of keys. *)
Fixpoint edits (cs : list Z) (q l : bytes) : bytes * bytes :=
  match cs with
  | [] => (q, l)
  | c :: cs => let '(q, l, _, _) := edit c q l in edits cs q l
  end.

(** What the handler needs of its state. *)
Record tty_ready (s : kst) : Prop := {
  tr_panicked : k_panicked s = 0;
  tr_cpu : cpu_ok s;
  tr_ptable : k_locks s !! LPtable = None
}.

Lemma tty_ready_keeps L s s' : keeps L s s' -> tty_ready s ->
  has_field L FCpu = false -> has_field L FLocks = false -> has_field L FPanicked = false -> tty_ready s'.
Proof.
  intros Hk [H1 H2 H3] L1 L2 L3. pose proof (Hk _ L1) as E1. pose proof (Hk _ L2) as E2.
  pose proof (Hk _ L3) as E3. cbn in *. split; [by rewrite E3| |by rewrite E2].
  by apply (ctx_cpu_ok s); [apply ctx_same|].
Qed.

Lemma tty_key_spec s c q l :
  tty_sees (k_input s) q l -> editing_key c -> tty_ready s ->
  wp (tty_key c) (fun _ s' => ctx s s' /\ tty_ready s' /\ (exists ext, k_io s' = k_io s ++ ext /\ Forall sends ext) /\ k_hw s' = k_hw s /\
    k_uart s' = k_uart s /\ let '(q', l', _, _) := edit c q l in tty_sees (k_input s') q' l') s.
Proof.
  intros Hx (Hb & Hp & Hcc) [Hpan Hcpu Hpt]. unfold tty_key.
  rewrite (proj2 (Z.eqb_neq _ _) Hp), (proj2 (Z.eqb_neq _ _) Hcc). kstep.
  pose proof (input_key_edit c _ _ _ Hx Hb) as He.
  destruct (input_key c _) as [[x' echo] wake]. destruct (edit c q l) as [[[q' l'] echo'] wake'].
  destruct He as (Hx' & -> & ->). kstep. eapply wp_mono; [by apply consputs_spec|].
  intros [] s1 [H1 (ext & Hio & Hext)]. assert (ctx s s1) as Hc1.
  { apply ctx_same; [by apply (H1 FCpu)|by apply (H1 FLocks)]. }
  assert (tty_ready s1) as Hr1 by (eapply tty_ready_keeps; [exact H1|by split|done..]).
  assert (k_input s1 = x') as Hi by (by apply (H1 FInput)).
  assert (k_hw s1 = k_hw s) as Hhw by (by apply (H1 FHw)).
  assert (k_uart s1 = k_uart s) as Hu by (by apply (H1 FUart)).
  destruct wake'; kstep; [|rewrite Hi; split_and!; try done; by exists ext].
  destruct Hr1 as [Hp1 Hcpu1 Hpt1]. apply wp_wakeup; [done..|].
  intros s2 Hc2 Hf _ _. apply sched_frame_keeps in Hf.
  rewrite (Hf FIo eq_refl : k_io s2 = _), (Hf FHw eq_refl : k_hw s2 = _), (Hf FUart eq_refl : k_uart s2 = _),
    (Hf FInput eq_refl : k_input s2 = _), Hi.
  split_and!; try done; [by etrans| |by exists ext]. split; [by rewrite (Hf FPanicked eq_refl : k_panicked s2 = _)|
    by apply (ctx_cpu_ok s1)|by rewrite (ctx_locks _ _ Hc2)].
Qed.

Lemma tty_keys_spec getc avail `{!CharSource getc avail} s cs q l fuel :
  avail s cs -> tty_sees (k_input s) q l -> Forall editing_key cs -> tty_ready s -> (length cs < fuel)%nat ->
  wp (tty_keys fuel getc) (fun _ s' => ctx s s' /\ avail s' [] /\
    tty_sees (k_input s') (edits cs q l).1 (edits cs q l).2) s.
Proof.
  intros Ha Hx Hcs Hr Hf. revert s q l fuel Ha Hx Hr Hf.
  induction Hcs as [|c cs Hc Hcs IH]; intros s q l [|fuel] Ha Hx Hr Hf; cbn in Hf; [lia| |lia|]; cbn [tty_keys]; kstep.
  - eapply wp_mono; [by apply src_end|]. intros r s1 (Hr1 & Hk & Ha1).
    rewrite (proj2 (Z.leb_gt _ _)) by lia. kstep. rewrite (Hk FInput eq_refl : k_input s1 = _).
    split_and!; try done. apply ctx_same; [by apply (Hk FCpu)|by apply (Hk FLocks)].
  - eapply wp_mono; [by eapply src_next|]. intros r s1 (-> & Hk & Ha1).
    pose proof Hc as ((Hc0 & _) & _). rewrite (proj2 (Z.leb_le _ _)) by lia. kstep.
    assert (ctx s s1) as Hc1 by (apply ctx_same; [by apply (Hk FCpu)|by apply (Hk FLocks)]).
    eapply wp_mono; [apply (tty_key_spec s1 c q l); [by rewrite (Hk FInput eq_refl : k_input s1 = _)|done|]|].
    { eapply tty_ready_keeps; [exact Hk|done..]. }
    intros [] s2 (Hc2 & Hr2 & (ext & Hio & Hext) & Hhw & Hu & Hx2). cbn [edits]. destruct (edit c q l) as [[[q' l'] ?] ?].
    eapply wp_mono; [apply IH; [|done..|lia]|].
    { eapply src_frame; [exact Hio|exact Hext|exact Hhw|exact Hu|exact Ha1]. }
    intros [] s3 (Hc3 & Ha3 & Hx3). split_and!; try done. etrans; [exact Hc1|by etrans].
Qed.

Lemma ttyintr_edits getc avail `{!CharSource getc avail} s cs q l fuel :
  avail s cs -> tty_sees (k_input s) q l -> Forall editing_key cs -> tty_ready s ->
  k_locks s !! LInput = None -> (length cs < fuel)%nat ->
  wp (ttyintr fuel getc) (fun _ s' => ctx s s' /\ avail s' [] /\
    tty_sees (k_input s') (edits cs q l).1 (edits cs q l).2) s.
Proof.
  intros Ha Hx Hcs [Hpan Hcpu Hpt] Hin Hf. unfold ttyintr. kstep. apply wp_acquire; [done|]. kstep.
  eapply wp_mono; [apply (tty_keys_spec getc avail _ cs q l); try done|].
  - apply (src_frame s _ _ []); try done. cbn. by rewrite app_nil_r.
  - split; [done|by apply cpu_ok_acquired|cbn; by rewrite lookup_insert_ne].
  - intros [] s2 (Hc2 & Ha2 & Hx2). apply (wp_release_ctx _ _ s); [done..|]. intros Hc3.
    split_and!; try done. apply (src_frame s2 _ _ []); try done. cbn. by rewrite app_nil_r.
Qed.

(** C23. The terminal's interrupt handler is a line editor: for any driver
    that delivers a sequence of keys other than ^P and ^C, the handler leaves
    in the input ring the committed bytes and the current line that the
    editor on lists leaves (^H and DEL rub out within the line and never into
    committed input, ^W kills the line, return and newline commit it, a full
    ring commits what there is); the ring's three indices keep their order
    with at most 128 bytes between them, through the wrap-around of the
    32-bit counters; and the handler returns. *)
Theorem ttyintr_is_line_editor getc avail `{!CharSource getc avail} s cs q l fuel :
  avail s cs -> tty_sees (k_input s) q l -> Forall editing_key cs -> tty_ready s ->
  k_locks s !! LInput = None -> (length cs < fuel)%nat ->
  wp (ttyintr fuel getc) (fun _ s' => ctx s s' /\ avail s' [] /\
    tty_sees (k_input s') (edits cs q l).1 (edits cs q l).2) s.
Proof. apply ttyintr_edits. done. Qed.
End intr.

(** ** Witness

    A device that delivers a fixed sequence, one character per access. *)

Definition demo_getc (cs : list Z) : K Z :=
  n <- gets (fun s => port_reads 0 (k_io s)) ;;
  modify (set_io (fun l => l ++ [Inb 0])) ;;
  ret (default (-1) (cs !! n)).
Definition demo_avail (cs : list Z) (s : kst) (rest : list Z) : Prop := drop (port_reads 0 (k_io s)) cs = rest.

#[local] Instance demo_source cs : CharSource (demo_getc cs) (demo_avail cs).
Proof.
  split; unfold demo_avail, demo_getc.
  - intros s c cs' H. kstep. cbn. rewrite port_reads_app, <- drop_drop, H.
    apply (f_equal (fun l => l !! 0%nat)) in H. rewrite lookup_drop, Nat.add_0_r in H. rewrite H.
    split_and!; [done|keeps_tac|done].
  - intros s H. kstep. cbn. rewrite port_reads_app, <- drop_drop, H.
    apply (f_equal (fun l => l !! 0%nat)) in H. rewrite lookup_drop, Nat.add_0_r in H. rewrite H.
    split_and!; [done|keeps_tac|done].
  - intros s s' l ext -> Hext _ _. rewrite port_reads_app, (port_reads_none 0 ext), Nat.add_0_r; [done|].
    eapply Forall_impl; [exact Hext|]. intros e He ->. discriminate He.
Qed.

Definition demo_tty : kst :=
  set_input (fun _ => Input (replicate 128 0) (2 ^ 32 - 2) (2 ^ 32 - 2) (2 ^ 32 - 2)) kst0.
#[local] Instance demo_layout : Layout := { kend := 0; kdata := 0; ktrapret := 0; kforkret := 0 }.
#[local] Instance demo_silent : Ports := { port_in _ _ := 0; port_ins _ _ _ := []; mmio_in _ _ := 0 }.
(** "ls", rubbed out to "l", completed to "la" and entered; then "xy" killed. *)
Definition demo_keys : list Z := str "ls" ++ [8] ++ str "a" ++ [13] ++ str "xy" ++ [23].

Lemma ttyintr_witness :
  wp (ttyintr 20 (demo_getc demo_keys))
    (fun _ s' => tty_sees (k_input s') (str "la" ++ [10]) []) demo_tty.
Proof.
  eapply wp_mono; [apply (ttyintr_is_line_editor (demo_getc demo_keys) (demo_avail demo_keys) demo_tty
    demo_keys [] []); try done|].
  - split_and!; [split; try done; vm_compute; done|apply not_elem_of_nil|done..].
  - repeat (apply Forall_cons; split; [done|]). constructor.
  - vm_compute. lia.
  - intros [] s' (_ & _ & H). exact H.
Defined.
