(* ===== verification/FsDemo.v ===== *)
(** * A small disk

    A formatted disk of twenty blocks with two files, booted by the kernel: the
    concrete states on which the theorems about the file system are applied.
    Block 1 is the superblock, 2 and 3 hold inodes, 4 the bitmap, 5 and 6 the
    files' data, 7 to 9 are free, and 10 to 19 are the log, which the bitmap
    leaves free as the one of mkfs does. A second disk of the same shape has
    directories. *)

From stdpp Require Import prelude gmap strings.
From S2P Require Import Prelude Kernel Port Spinlock Sched Bio Cache Log LogCrash StringC Fs FsLayout FsBlock FsFile FsRw FsCrash FsDir FsLink FsInode Kalloc Tty.

Definition small_sb : superblock := Superblock 20 6 8 10.
Definition addrs_of (b : Z) : list Z := b :: replicate 12 0.
Definition small_inode (inum b size : Z) : inode := Inode ROOTDEV inum 1 I_VALID 0 T_FILE 0 0 1 size (addrs_of b).
Definition small_inodes : list inode := [small_inode 1 5 3; small_inode 2 6 1].
Definition put_inode (l : bytes) (ip : inode) : bytes := splice l (dip_off (i_inum ip)) (dinode_enc (dinode_of ip)).
Definition small_disk : list bytes :=
  [blk 0; demo_sb; fold_left put_inode small_inodes (blk 0); blk 0; splice (blk 0) 0 [0x7f];
   splice (blk 0) 0 [97; 98; 99]; splice (blk 0) 0 [120]] ++ replicate 3 (blk 0) ++ [demo_head 0] ++ replicate 9 (blk 7).

(** The kernel inside a transaction that has logged nothing. *)
Definition small_boot : kst := final initlog (boot_of small_disk small_inodes).
Definition small : kst := final begin_trans small_boot.

Definition small_files : gmap Z bytes := {[1 := [97; 98; 99]; 2 := [120]]}.

Lemma small_geo : fs_geo 10 small_sb.
Proof. split; vm_compute; repeat split; congruence. Qed.

Lemma small_booted : booted (boot_of small_disk small_inodes) small_disk.
Proof.
  apply (boot_booted small_disk small_inodes); [done|]. cbn -[splice].
  repeat (apply Forall_cons; split; [vm_compute; reflexivity|]). constructor.
Qed.

Lemma small_fresh : fresh_txn small_boot.
Proof.
  pose proof small_booted as Hb.
  assert (recovered (boot_of small_disk small_inodes) 10 10 small_boot) as [Htx Hlg Hst Hsz _ _].
  { apply (wp_final initlog (fun s' => recovered (boot_of small_disk small_inodes) 10 10 s')).
    apply (initlog_spec _ small_disk); [done| |apply head_empty_ok; [lia|done]].
    rewrite <- (bo_disk _ (bt_ok _ _ Hb)), (bt_disk _ _ Hb). by split. }
  split; try assumption; vm_compute; reflexivity.
Qed.

Lemma small_begun : fresh_txn small /\ lg_busy (k_log small) = 1.
Proof. apply begin_fresh; [apply small_fresh|vm_compute; reflexivity]. Qed.

Lemma small_ses : ses 10 10 small ∅ (lview small) [].
Proof. destruct small_begun as [[] _]. by split. Qed.

#[local] Opaque small small_boot.

(** A file of one block. *)
Lemma fblk_one V b k : 0 <= k < MAXFILE -> fblk V (addrs_of b) k = if k =? 0 then b else 0.
Proof.
  intros Hk. unfold fblk. change (indirect (addrs_of b)) with 0. change (0 =? 0) with true. cbv iota.
  destruct (Z.eqb_spec k 0) as [->|Hne]; [done|]. destruct (Z.ltb_spec k NDIRECT) as [Hlt|]; [|done].
  rewrite NDIRECT_val in Hlt. apply list_lookup_total_correct. unfold addrs_of.
  rewrite lookup_cons_ne_0 by lia. apply lookup_replicate_2. lia.
Qed.

Notation sdata := (data_block 10 small_sb).

Lemma small_file V b C : (0 < length C <= 512)%nat -> sdata b -> used small_sb V b = true ->
  take (length C) (V b) = C -> file_rep 10 small_sb V (addrs_of b) C.
Proof.
  intros HC Hb Hu Ht. assert (nblk (Z.of_nat (length C)) = 1) as En by (apply nblk_of; lia).
  pose proof (data_above _ _ small_geo b Hb) as Hb4.
  assert (forall k, 0 <= k < 1 -> fblk V (addrs_of b) k = b) as E.
  { intros k Hk. rewrite fblk_one by (rewrite MAXFILE_val; lia). by replace k with 0 by lia. }
  split; rewrite ?En.
  - split; [done|done|intros k Hk; by rewrite E| |rewrite NDIRECT_val; lia|rewrite NDIRECT_val; lia|done|lia].
    intros k Hk. rewrite fblk_one by lia. destruct (Z.eqb_spec k 0); [lia|done].
  - intros o Ho. rewrite Z.div_small, Nat.mod_small by lia. rewrite E by lia.
    rewrite <- Ht at 1. by rewrite lookup_take_lt.
Qed.

Lemma small_open i inum b C : (0 < length C <= 512)%nat -> sdata b -> used small_sb (lview small) b = true ->
  small_inodes !! i = Some (small_inode inum b (Z.of_nat (length C))) -> 0 <= inum < 8 ->
  take (length C) (lview small b) = C ->
  slice (lview small (IBLOCK inum)) (dip_off inum) 64 =
    dinode_enc (dinode_of (small_inode inum b (Z.of_nat (length C)))) ->
  open_file 10 small_sb small (lview small) i inum (addrs_of b) C.
Proof.
  intros HC Hb Hu Hi Hr Ht Hs. assert (k_icache small = small_inodes) as Ei by (vm_compute; reflexivity).
  pose proof (list_lookup_total_correct _ _ _ Hi) as Hl.
  split; rewrite ?Ei, ?Hl; [by eapply lookup_lt_Some|reflexivity|reflexivity|exact Hr|discriminate|reflexivity|
    reflexivity|by apply small_file|exact Hs].
Qed.

Lemma small_open_1 : open_file 10 small_sb small (lview small) 0 1 (addrs_of 5) [97; 98; 99].
Proof. apply small_open; [cbn; lia|vm_compute; split; congruence|vm_compute; reflexivity|reflexivity|lia|vm_compute; reflexivity..]. Qed.
Lemma small_open_2 : open_file 10 small_sb small (lview small) 1 2 (addrs_of 6) [120].
Proof. apply small_open; [cbn; lia|vm_compute; split; congruence|vm_compute; reflexivity|reflexivity|lia|vm_compute; reflexivity..]. Qed.

Lemma small_free : free_blocks small_sb (lview small) = seqZ 7 13.
Proof. vm_compute. reflexivity. Qed.

Lemma small_room V b m : free_blocks small_sb V = seqZ b (20 - b) -> 5 <= b -> b + m <= 10 -> has_room 10 small_sb V m.
Proof.
  intros E Hb Hm. split; [rewrite E, length_seqZ; lia|]. apply Forall_forall. intros x. rewrite E. intros [k Hk]%list_elem_of_lookup.
  apply lookup_take_Some in Hk as [[-> ?]%lookup_seqZ Hlt]. unfold data_block. change (_ / _ + _ / _ + 4) with 5. lia.
Qed.

Lemma small_view_sb : sb_dec (lview small 1) = small_sb.
Proof. vm_compute. reflexivity. Qed.

Lemma small_trans : in_trans small.
Proof. unfold in_trans. by rewrite (proj2 small_begun). Qed.

Lemma small_fs : fs_rep 10 small_sb (lview small) small_files.
Proof.
  assert (forall i inum addrs C, open_file 10 small_sb small (lview small) i inum addrs C ->
    on_disk 10 small_sb (lview small) inum C) as Ho by (intros *; by apply (open_on_disk _ _ small_geo)).
  assert (forall inum C, small_files !! inum = Some C -> inum = 1 /\ C = [97; 98; 99] \/ inum = 2 /\ C = [120]) as Hf.
  { intros inum C. unfold small_files. intros [[<- <-]|[_ [<- <-]%lookup_singleton_Some]]%lookup_insert_Some; auto. }
  assert (forall x, ~ (file_owns (lview small) 1 [97; 98; 99] x /\ file_owns (lview small) 2 [120] x)) as Ha.
  { intros x [[(k & Hk & Ek)|[Hn _]] [(k' & Hk' & Ek')|[Hn' _]]]; try (vm_compute in Hn || vm_compute in Hn'; discriminate).
    change (nblk _) with 1 in Hk, Hk'. replace k with 0 in Ek by lia. replace k' with 0 in Ek' by lia.
    vm_compute in Ek, Ek'. congruence. }
  split.
  - intros inum C [[-> ->]|[-> ->]]%Hf; (split; [done|]); eapply Ho; [apply small_open_1|apply small_open_2].
  - intros i j C D x [[-> ->]|[-> ->]]%Hf [[-> ->]|[-> ->]]%Hf Hne Hi Hj; [done| | |done]; by eapply Ha.
Qed.

#[local] Instance small_layout : Layout := { kend := 0; kdata := 0; ktrapret := 0; kforkret := 0 }.
#[local] Instance small_ports : Ports := { port_in _ _ := 0; port_ins _ _ _ := []; mmio_in _ _ := 0 }.

(** ** The theorems on this disk *)

Lemma balloc_takes_first_witness :
  wp (balloc ROOTDEV) (fun r s' => r = 7 /\ lframe small s' /\ exists V' L, ses 10 10 s' ∅ V' L /\
    free_blocks small_sb V' = seqZ 8 12 /\ V' 7 = zeros /\
    forall b', b' <> 7 -> ~ is_bitmap small_sb b' -> V' b' = lview small b') small.
Proof.
  apply (balloc_takes_first 10 10 small_sb small_geo small (lview small) 7 (seqZ 8 12) small_ses small_trans
    small_view_sb ltac:(lia) small_free).
  vm_compute. split; congruence.
Defined.

Lemma bfree_frees_witness :
  used small_sb (lview small) 5 = true /\
  wp (bfree ROOTDEV 5) (fun _ s' => lframe small s' /\ exists V' L, ses 10 10 s' ∅ V' L /\
    (forall b', 0 <= b' < sb_size small_sb ->
       used small_sb V' b' = used small_sb (lview small) b' && negb (b' =? 5)) /\
    forall b', ~ is_bitmap small_sb b' -> V' b' = lview small b') small.
Proof.
  assert (used small_sb (lview small) 5 = true) as Hu by (vm_compute; reflexivity). split; [exact Hu|].
  apply (bfree_frees 10 10 small_sb small_geo small (lview small) 5 small_ses small_trans small_view_sb
    ltac:(lia) ltac:(cbn; lia) Hu).
Defined.

Lemma small_can_write : can_write 10 10 small_sb small (lview small) 0 1 (addrs_of 5) [97; 98; 99] 2 600 (replicate 600 65).
Proof.
  split; [apply small_ses|apply small_trans|apply small_view_sb|apply small_open_1|cbn; lia|lia|
    by rewrite length_replicate|by vm_compute|apply (small_room _ 7); [apply small_free|lia|by vm_compute]].
Qed.

(** Six hundred bytes, which end in a second block. *)
Lemma write_then_read_witness :
  wp (_ <- writei 0 (replicate 600 65) 2 600 ;; readi 0 2 600) (fun r _ => r = (600, replicate 600 65)) small.
Proof.
  destruct small_can_write as [H1 H2 H3 H4 H5 H6 H7 H8 H9].
  apply (write_then_read 10 10 small_sb small_geo ltac:(by vm_compute) ltac:(lia) ltac:(lia)
    small (lview small) 0 1 (addrs_of 5) [97; 98; 99] 2 600 (replicate 600 65) H1 H2 H3 H4 H5 H6 H7 H8 H9).
Defined.

Lemma file_write_crash_atomic_witness :
  let F' := <[1 := splice [97; 98; 99] 2 (replicate 600 65)]> small_files in
  wp (r <- writei 0 (replicate 600 65) 2 600 ;; commit_trans ;; ret r) (fun r s' => r = 600 /\
    fs_rep 10 small_sb (dsk small) small_files /\ fs_rep 10 small_sb (dsk s') F' /\
    exists ws, k_hist s' = k_hist small ++ ws /\ k_disk s' = replay ws (k_disk small) /\
    forall m boot, booted boot (crash_disk small ws m) ->
      wp initlog (fun _ s2 => txn s2 ∅ ∅ /\
        (fs_rep 10 small_sb (dsk s2) small_files \/ fs_rep 10 small_sb (dsk s2) F')) boot) small.
Proof.
  apply (file_write_crash_atomic 10 10 small_sb small_geo ltac:(by vm_compute) ltac:(lia) ltac:(lia)
    small (lview small) small_files 0 1 (addrs_of 5) [97; 98; 99] 2 600 (replicate 600 65) small_can_write small_fs).
  - reflexivity.
  - vm_compute. reflexivity.
  - split; vm_compute; (reflexivity || congruence).
Defined.

(** ** Directories *)

Definition tree_inode (inum type b size : Z) : inode := Inode ROOTDEV inum 0 0 0 type 0 0 1 size (addrs_of b).
Definition tree_entry (inum : Z) (name : bytes) : bytes := dirent_enc (Dirent inum (strncpy name DIRSIZ)).
Definition root_dir : bytes := tree_entry 1 (str ".") ++ tree_entry 1 (str "..") ++ tree_entry 2 (str "etc").
Definition etc_dir : bytes := tree_entry 2 (str ".") ++ tree_entry 1 (str "..") ++ tree_entry 3 (str "rc").
Definition tree_inodes : list inode := [tree_inode 1 T_DIR 5 48; tree_inode 2 T_DIR 6 48; tree_inode 3 T_FILE 7 1].
Definition tree_disk : list bytes :=
  [blk 0; demo_sb; fold_left put_inode tree_inodes (blk 0); blk 0; splice (blk 0) 0 [0xff];
   splice (blk 0) 0 root_dir; splice (blk 0) 0 etc_dir; splice (blk 0) 0 [120]] ++ replicate 2 (blk 0) ++ [demo_head 0] ++ replicate 9 (blk 7).
(** The kernel inside a transaction on it. *)
Definition tree_start : kst := final initlog (boot_of tree_disk (replicate NINODE inode0)).
Definition tree : kst := final begin_trans tree_start.
Definition tree_files : gmap Z bytes := {[1 := root_dir; 2 := etc_dir; 3 := [120]]}.

Lemma tree_fresh : fresh_txn tree /\ lg_busy (k_log tree) = 1.
Proof.
  assert (Hb : booted (boot_of tree_disk (replicate NINODE inode0)) tree_disk).
  { apply boot_booted; [done|]. cbn -[splice]. repeat (apply Forall_cons; split; [vm_compute; reflexivity|]). constructor. }
  assert (recovered (boot_of tree_disk (replicate NINODE inode0)) 10 10 tree_start) as [Htx Hlg Hst Hsz _ _].
  { apply (wp_final initlog (fun s' => recovered (boot_of tree_disk (replicate NINODE inode0)) 10 10 s')).
    apply (initlog_spec _ tree_disk); [done| |apply head_empty_ok; [lia|done]].
    rewrite <- (bo_disk _ (bt_ok _ _ Hb)), (bt_disk _ _ Hb). by split. }
  apply begin_fresh; [|vm_compute; reflexivity]. split; try assumption; vm_compute; reflexivity.
Qed.

Lemma tree_icache : k_icache tree = replicate NINODE inode0.
Proof. vm_compute. reflexivity. Qed.
Lemma tree_lock : k_locks tree !! LIcache = None.
Proof. vm_compute. reflexivity. Qed.

(** The inodes of the disk. *)
Lemma tree_disk_inode : disk_inode (lview tree) 1 = dinode_of (tree_inode 1 T_DIR 5 48) /\
  disk_inode (lview tree) 2 = dinode_of (tree_inode 2 T_DIR 6 48) /\ disk_inode (lview tree) 3 = dinode_of (tree_inode 3 T_FILE 7 1).
Proof. vm_compute. repeat split. Qed.

Lemma tree_blocks : (take 48 (lview tree 5) = root_dir /\ take 48 (lview tree 6) = etc_dir) /\
  used small_sb (lview tree) 5 = true /\ used small_sb (lview tree) 6 = true.
Proof. vm_compute. repeat split. Qed.

Lemma tree_inums : de_inum <$> dirents root_dir = [1; 1; 2] /\ de_inum <$> dirents etc_dir = [2; 1; 3].
Proof. vm_compute. split; reflexivity. Qed.

#[local] Opaque tree tree_start.

Lemma tree_ready : fs_ready 10 10 (lview tree) [] tree (fun _ => 0) None.
Proof.
  split; [destruct tree_fresh as [[] _]; by split|]. split; [apply tree_lock|].
  assert (H0 : forall i, i_ref (k_icache tree !!! i) = 0).
  { intros i. rewrite tree_icache. destruct (decide (i < NINODE)%nat); [by rewrite lookup_total_replicate_2|].
    rewrite list_lookup_total_alt, lookup_ge_None_2 by (rewrite length_replicate; lia). done. }
  split; try (intros i; rewrite (H0 i); lia); done.
Qed.

Lemma tree_lookup n C : tree_files !! n = Some C -> n = 1 /\ C = root_dir \/ n = 2 /\ C = etc_dir \/ n = 3 /\ C = [120].
Proof.
  unfold tree_files. rewrite !lookup_insert_Some, lookup_singleton_Some. intros [[<- <-]|[_ [[<- <-]|[_ [<- <-]]]]]; auto.
Qed.

(** An entry of one of the directories leads to an inode of the disk. *)
Lemma tree_find name C m : C = root_dir \/ C = etc_dir -> dir_find name C = Some m -> is_Some (tree_files !! m).
Proof.
  intros HC (de & [Hin _]%find_some & ->)%fmap_Some. assert (de_inum de ∈ [1; 2; 3]) as Hm.
  { apply list_elem_of_In, (list_elem_of_fmap_2 de_inum) in Hin. destruct tree_inums as [E1 E2].
    destruct HC as [->| ->]; [rewrite E1 in Hin|rewrite E2 in Hin]; set_solver. }
  rewrite !elem_of_cons, elem_of_nil in Hm. destruct Hm as [->|[->|[->|[]]]]; by eexists.
Qed.

Lemma tree_ok_of V : disk_inode V 1 = dinode_of (tree_inode 1 T_DIR 5 48) -> disk_inode V 2 = dinode_of (tree_inode 2 T_DIR 6 48) ->
  disk_inode V 3 = dinode_of (tree_inode 3 T_FILE 7 1) ->
  take 48 (V 5) = root_dir /\ take 48 (V 6) = etc_dir -> used small_sb V 5 = true /\ used small_sb V 6 = true ->
  tree_ok 10 small_sb V tree_files.
Proof.
  intros E1 E2 E3 [B1 B2] [U1 U2].
  assert (Hr : length root_dir = 48%nat /\ length etc_dir = 48%nat) by done. destruct Hr as [L1 L2].
  assert (Hf : forall b C, length C = 48%nat -> 5 <= b < 10 -> used small_sb V b = true -> take 48 (V b) = C -> file_rep 10 small_sb V (addrs_of b) C).
  { intros b C HC Hb Hu Ht. apply small_file; [lia| |done|by rewrite HC]. unfold data_block. change (_ / _ + _ / _ + 4) with 5. lia. }
  split.
  - intros n C [[-> _]|[[-> _]|[-> _]]]%tree_lookup; rewrite ?E1, ?E2, ?E3; repeat split; vm_compute; congruence.
  - intros n C [[-> ->]|[[-> ->]|[-> _]]]%tree_lookup; [rewrite E1|rewrite E2|by rewrite E3]; intros _.
    + split; [|by rewrite L1]. split; rewrite E1; [by rewrite L1|]. by apply Hf.
    + split; [|by rewrite L2]. split; rewrite E2; [by rewrite L2|]. by apply Hf.
  - intros n C name m [[-> ->]|[[-> ->]|[-> _]]]%tree_lookup; [intros _; apply tree_find; auto..|]. by rewrite E3.
Qed.

Lemma tree_tree_ok : tree_ok 10 small_sb (lview tree) tree_files.
Proof. apply tree_ok_of; [apply tree_disk_inode..|apply tree_blocks|apply tree_blocks]. Qed.

Lemma tree_follow : follow (lview tree) tree_files 1 (components (str "/etc//rc")) = Some 3.
Proof. vm_compute. reflexivity. Qed.

Lemma namei_resolves_witness :
  wp (namei (str "/etc//rc")) (fun r s' => exists i, r = Some i /\ i_inum (k_icache s' !!! i) = 3 /\ i_ref (k_icache s' !!! i) = 1) tree.
Proof.
  destruct (namei_resolves 10 10 small_sb small_geo ltac:(by vm_compute) ltac:(lia) ltac:(lia) (lview tree) [] ltac:(unfold NBUF; cbn; lia)
    tree_files tree (fun _ => 0) [] (str "/etc//rc") 1 tree_tree_ok tree_ready ltac:(done) ltac:(unfold NINODE; cbn; lia) eq_refl ltac:(by eexists)) as [H _].
  rewrite tree_follow in H. eapply wp_mono; [exact H|]. intros r s' [_ (i & -> & [Hr Hi] & (_ & _ & Hic))]. exists i. split; [done|]. split; [done|].
  destruct (ic_refs _ _ _ _ Hic i Hr) as [_ <-]. by rewrite Hi.
Defined.

Lemma tree_sync : slice (lview tree (IBLOCK 1)) (dip_off 1) 64 = dinode_enc (dinode_of (tree_inode 1 T_DIR 5 48)).
Proof. vm_compute. reflexivity. Qed.
Lemma tree_sb : sb_dec (lview tree 1) = small_sb.
Proof. vm_compute. reflexivity. Qed.
Lemma tree_free : free_blocks small_sb (lview tree) = seqZ 8 12.
Proof. vm_compute. reflexivity. Qed.

(** The root, once locked, can be written. *)
Lemma tree_open V s i : tree_ok 10 small_sb V tree_files -> disk_inode V 1 = dinode_of (tree_inode 1 T_DIR 5 48) ->
  slice (V (IBLOCK 1)) (dip_off 1) 64 = dinode_enc (dinode_of (tree_inode 1 T_DIR 5 48)) ->
  refers s i 1 -> i_dev (k_icache s !!! i) = ROOTDEV -> dinode_of (k_icache s !!! i) = disk_inode V 1 ->
  open_file 10 small_sb s V i 1 (addrs_of 5) root_dir.
Proof.
  intros Ht E1 Es [Hr Hn] Hdev Hd. rewrite E1 in Hd. destruct (tr_dir _ _ _ _ Ht 1 root_dir eq_refl) as [[_ Hrep] _]; [by rewrite E1|].
  rewrite E1 in Hrep. pose proof (f_equal d_type Hd) as Ety. pose proof (f_equal d_size Hd) as Esz. pose proof (f_equal d_addrs Hd) as Ead.
  cbn in Ety, Esz, Ead. split; [by apply slot_len|done|done|by vm_compute|by rewrite Ety|by rewrite Esz|done|done|by rewrite Hd].
Qed.

Lemma tree_can_write_of V s i src : tree_ok 10 small_sb V tree_files -> disk_inode V 1 = dinode_of (tree_inode 1 T_DIR 5 48) ->
  slice (V (IBLOCK 1)) (dip_off 1) 64 = dinode_enc (dinode_of (tree_inode 1 T_DIR 5 48)) ->
  sb_dec (V 1) = small_sb -> free_blocks small_sb V = seqZ 8 12 ->
  fs_ready 10 10 V [] s (bump 1 1 (fun _ => 0)) (Some i) -> refers s i 1 -> in_trans s ->
  dinode_of (k_icache s !!! i) = disk_inode V 1 -> length src = 16%nat ->
  can_write 10 10 small_sb s V i 1 (addrs_of 5) root_dir 48 16 src.
Proof.
  intros Hok E1 Es Hsb Hfree (Hs & _ & Hic) Hr Ht Hd Hl.
  split; [done|done|done| |by vm_compute|lia|lia|by vm_compute|apply (small_room _ 8); [done|lia|by vm_compute]].
  apply tree_open; [done..| |done]. by apply (ic_refs _ _ _ _ Hic), Hr.
Qed.

(** Only the inode with a reference is counted. *)
Lemma bump_one n m : bump n 1 (fun _ => 0) m <> 0 -> m ∈ [n].
Proof. unfold bump. destruct (Z.eqb_spec m n) as [->|]; [set_solver|done]. Qed.

Lemma dirlink_adds_witness :
  wp (i <- iget ROOTDEV 1 ;; ilock i ;; dirlink i (str "new") 7) (fun r s' => r = 0) tree.
Proof.
  kstep. eapply wp_mono.
  { apply (wp_iget 10 10 (lview tree) [] no_log_room tree (fun _ => 0) None 1 [] tree_ready); [done|unfold NINODE; cbn; lia]. }
  intros i s1 (Hs1 & Hr1 & Hf1 & _). destruct (tr_inode _ _ _ _ tree_tree_ok 1 root_dir eq_refl) as (Hrange & Hty & Hnl).
  kstep. eapply wp_mono.
  { apply (wp_ilock 10 10 small_sb small_geo ltac:(by vm_compute) ltac:(lia) ltac:(lia) (lview tree) [] no_log_room s1 _ i 1 Hs1 Hr1 Hrange Hty). }
  intros [] s2 (Hs2 & Hr2 & Hd2 & Hf2 & _).
  assert (Ht : in_trans s2).
  { apply (iframe_in_trans s1); [done|]. apply (iframe_in_trans tree); [done|]. unfold in_trans. by rewrite (proj2 tree_fresh). }
  destruct (tr_dir _ _ _ _ tree_tree_ok 1 root_dir eq_refl) as [Ho Hm]; [by destruct tree_disk_inode as [-> _]|].
  eapply wp_mono.
  - apply (dirlink_adds 10 10 small_sb small_geo ltac:(by vm_compute) ltac:(lia) ltac:(lia) (lview tree) s2 (bump 1 1 (fun _ => 0)) [1] i 1 (addrs_of 5)
      root_dir (str "new") 7).
    + split; [done|done|done|by destruct tree_disk_inode as [-> _]|done|done].
    + apply bump_one.
    + unfold NINODE. cbn. lia.
    + lia.
    + intros m Hfind. vm_compute in Hfind. discriminate Hfind.
    + change (16 * free_entry root_dir)%nat with 48%nat. apply tree_can_write_of;
        [apply tree_tree_ok|apply tree_disk_inode|apply tree_sync|apply tree_sb|apply tree_free|exact Hs2|exact Hr2|exact Ht|exact Hd2|reflexivity].
  - intros r s'. assert (dir_find (str "new") root_dir = None) as -> by (vm_compute; reflexivity). by intros [-> _].
Defined.

Lemma tree_link ip : dinode_of ip = dinode_of (tree_inode 1 T_DIR 5 48) ->
  dinode_of (set_nlink (fun l => l + 1) ip) = Dinode T_DIR 0 0 2 48 (addrs_of 5).
Proof. destruct ip. unfold dinode_of. cbn. by intros [= -> -> -> -> -> ->]. Qed.
Lemma nlink_change f : field_change (set_nlink f).
Proof. by split. Qed.
Lemma tree_link_ok : dinode_ok (Dinode T_DIR 0 0 2 48 (addrs_of 5)).
Proof. by split; [apply (bool_decide_unpack _); vm_compute|vm_compute| |apply (bool_decide_unpack _); vm_compute]. Qed.

