(* ===== verification/Irqchip.v ===== *)
(** * Interrupt controllers and timer
      (kernel/picirq.c, kernel/ioapic.c, kernel/lapic.c, kernel/timer.c)

    Each driver as the sequence of port and register accesses it makes, with
    the variables it keeps. *)

From stdpp Require Import prelude gmap strings.
From S2P Require Import Prelude Kernel Port Console Spinlock Kalloc.

Definition T_IRQ0 : Z := 32.
Definition IRQ_TIMER : Z := 0.
Definition IRQ_KBD : Z := 1.
Definition IRQ_COM1 : Z := 4.
Definition IRQ_RTC : Z := 8.
Definition IRQ_IDE : Z := 14.
Definition IRQ_ERROR : Z := 19.
Definition IRQ_SPURIOUS : Z := 31.

(** ** picirq.c *)

Definition IO_PIC1 : Z := 0x20.
Definition IO_PIC2 : Z := 0xA0.
Definition IRQ_SLAVE : Z := 2.

Definition picsetmask (mask : Z) : K unit :=
  modify (set_hw (set_irqmask (fun _ => mask))) ;;
  outb (IO_PIC1 + 1) mask ;;
  outb (IO_PIC2 + 1) (Z.shiftr mask 8).

Definition picenable (irq : Z) : K unit :=
  irqmask <- gets (fun s => hw_irqmask (k_hw s)) ;;
  picsetmask (u16 (Z.land irqmask (Z.lnot (Z.shiftl 1 irq)))).

Definition picinit : K unit :=
  outb (IO_PIC1 + 1) 0xFF ;;
  outb (IO_PIC2 + 1) 0xFF ;;
  outb IO_PIC1 0x11 ;;
  outb (IO_PIC1 + 1) T_IRQ0 ;;
  outb (IO_PIC1 + 1) (Z.shiftl 1 IRQ_SLAVE) ;;
  outb (IO_PIC1 + 1) 0x3 ;;
  outb IO_PIC2 0x11 ;;
  outb (IO_PIC2 + 1) (T_IRQ0 + 8) ;;
  outb (IO_PIC2 + 1) IRQ_SLAVE ;;
  outb (IO_PIC2 + 1) 0x3 ;;
  outb IO_PIC1 0x68 ;;
  outb IO_PIC1 0x0a ;;
  outb IO_PIC2 0x68 ;;
  outb IO_PIC2 0x0a ;;
  irqmask <- gets (fun s => hw_irqmask (k_hw s)) ;;
  when negb (irqmask =? 0xFFFF) do picsetmask irqmask.

(** ** timer.c *)

Definition IO_TIMER1 : Z := 0x040.
Definition TIMER_FREQ : Z := 1193182.
Definition TIMER_DIV (x : Z) : Z := (TIMER_FREQ + x / 2) / x.
Definition TIMER_MODE : Z := IO_TIMER1 + 3.
Definition TIMER_SEL0 : Z := 0x00.
Definition TIMER_RATEGEN : Z := 0x04.
Definition TIMER_16BIT : Z := 0x30.

Definition timerinit : K unit :=
  outb TIMER_MODE (Z.lor (Z.lor TIMER_SEL0 TIMER_RATEGEN) TIMER_16BIT) ;;
  outb IO_TIMER1 (TIMER_DIV 100 mod 256) ;;
  outb IO_TIMER1 (TIMER_DIV 100 / 256) ;;
  picenable IRQ_TIMER.

Section apic.
Context `{PO : Ports}.

(** ** ioapic.c *)

Definition IOAPIC : Z := 0xFEC00000.
Definition REG_ID : Z := 0x00.
Definition REG_VER : Z := 0x01.
Definition REG_TABLE : Z := 0x10.
Definition INT_DISABLED : Z := 0x00010000.

(** The registers [reg] and [data] of [struct ioapic]. *)
Definition ioapicread (reg : Z) : K Z := mmio_write IOAPIC reg ;; mmio_read (IOAPIC + 16).
Definition ioapicwrite (reg data : Z) : K unit := mmio_write IOAPIC reg ;; mmio_write (IOAPIC + 16) data.

(** The loop over the [n] last interrupts. *)
Fixpoint ioapic_mask (n : nat) (i : Z) : K unit :=
  match n with
  | O => ret tt
  | S n =>
    ioapicwrite (REG_TABLE + 2 * i) (Z.lor INT_DISABLED (T_IRQ0 + i)) ;;
    ioapicwrite (REG_TABLE + 2 * i + 1) 0 ;;
    ioapic_mask n (i + 1)
  end.

Definition ioapicinit : K unit :=
  h <- gets k_hw ;;
  if hw_ismp h =? 0 then ret tt else
  v <- ioapicread REG_VER ;;
  let maxintr := Z.land (Z.shiftr v 16) 0xFF in
  v <- ioapicread REG_ID ;;
  let id := Z.land (Z.shiftr v 24) 0x0F in
  when negb (id =? hw_ioapicid h) do
    cprintf (str "ioapicinit: id isn't equal to ioapicid; not a MP" ++ [NEWLINE]) [] ;;
  ioapic_mask (Z.to_nat (maxintr + 1)) 0.

Definition ioapicenable (irq cpunum : Z) : K unit :=
  h <- gets k_hw ;;
  if hw_ismp h =? 0 then ret tt else
  ioapicwrite (REG_TABLE + 2 * irq) (T_IRQ0 + irq) ;;
  ioapicwrite (REG_TABLE + 2 * irq + 1) (Z.shiftl cpunum 24).

(** ** lapic.c *)

(** The registers, by their byte offset. *)
Definition ID : Z := 0x0020.
Definition VER : Z := 0x0030.
Definition TPR : Z := 0x0080.
Definition EOI : Z := 0x00B0.
Definition SVR : Z := 0x00F0.
Definition ENABLE : Z := 0x00000100.
Definition ESR : Z := 0x0280.
Definition ICRLO : Z := 0x0300.
Definition INIT : Z := 0x00000500.
Definition STARTUP : Z := 0x00000600.
Definition DELIVS : Z := 0x00001000.
Definition ASSERT : Z := 0x00004000.
Definition LEVEL : Z := 0x00008000.
Definition BCAST : Z := 0x00080000.
Definition ICRHI : Z := 0x0310.
Definition TIMER : Z := 0x0320.
Definition X1 : Z := 0x0000000B.
Definition PERIODIC : Z := 0x00020000.
Definition PCINT : Z := 0x0340.
Definition LINT0 : Z := 0x0350.
Definition LINT1 : Z := 0x0360.
Definition ERROR : Z := 0x0370.
Definition MASKED : Z := 0x00010000.
Definition TICR : Z := 0x0380.
Definition TDCR : Z := 0x03E0.

Definition lapic_at (reg : Z) : K Z := gets (fun s => u32 (hw_lapic (k_hw s) + reg)).

Definition lapicw (reg value : Z) : K unit :=
  a <- lapic_at reg ;;
  mmio_write a value ;;
  a <- lapic_at ID ;;
  _ <- mmio_read a ;;
  ret tt.

Fixpoint lapic_wait (fuel : nat) : K unit :=
  a <- lapic_at ICRLO ;;
  v <- mmio_read a ;;
  if has v DELIVS then match fuel with O => fun _ => NoFuel | S fuel => lapic_wait fuel end
  else ret tt.

(** [fuel] bounds the wait for the delivery of the interrupt command. *)
Definition lapicinit (fuel : nat) : K unit :=
  h <- gets k_hw ;;
  if hw_lapic h =? 0 then ret tt else
  lapicw SVR (Z.lor ENABLE (T_IRQ0 + IRQ_SPURIOUS)) ;;
  lapicw TDCR X1 ;;
  lapicw TIMER (Z.lor PERIODIC (T_IRQ0 + IRQ_TIMER)) ;;
  lapicw TICR 10000000 ;;
  lapicw LINT0 MASKED ;;
  lapicw LINT1 MASKED ;;
  a <- lapic_at VER ;;
  v <- mmio_read a ;;
  when (4 <=? Z.land (Z.shiftr v 16) 0xFF) do lapicw PCINT MASKED ;;
  lapicw ERROR (T_IRQ0 + IRQ_ERROR) ;;
  lapicw ESR 0 ;;
  lapicw ESR 0 ;;
  lapicw EOI 0 ;;
  lapicw ICRHI 0 ;;
  lapicw ICRLO (Z.lor (Z.lor BCAST INIT) LEVEL) ;;
  lapic_wait fuel ;;
  lapicw TPR 0.

(** The warning [cpunum] prints once when interrupts are enabled is left out:
    no caller enables them. *)
Definition cpunum : K Z :=
  h <- gets k_hw ;;
  if hw_lapic h =? 0 then ret 0 else
  a <- lapic_at ID ;;
  v <- mmio_read a ;;
  let id := Z.shiftr v 24 in
  ret (match list_find (fun x => x = id) (take (Z.to_nat (hw_ncpu h)) (hw_apicids h)) with
       | Some (n, _) => Z.of_nat n
       | None => 0
       end).

Definition lapiceoi : K unit :=
  h <- gets k_hw ;;
  when negb (hw_lapic h =? 0) do lapicw EOI 0.

Definition IO_RTC : Z := 0x70.

(** The two words of the warm reset vector are written to memory. *)
Definition lapicstartap (apicid addr : Z) : K unit :=
  outb IO_RTC 0xF ;;
  outb (IO_RTC + 1) 0x0A ;;
  let wrv := p2v (Z.lor (Z.shiftl 0x40 4) 0x67) in
  p <- page_get (PGROUNDDOWN wrv) ;;
  page_set (PGROUNDDOWN wrv) (splice p (Z.to_nat (wrv mod PGSIZE)) (le_bytes 2 0 ++ le_bytes 2 (Z.shiftr addr 4))) ;;
  lapicw ICRHI (Z.shiftl apicid 24) ;;
  lapicw ICRLO (Z.lor (Z.lor INIT LEVEL) ASSERT) ;;
  lapicw ICRLO (Z.lor INIT LEVEL) ;;
  lapicw ICRHI (Z.shiftl apicid 24) ;;
  lapicw ICRLO (Z.lor STARTUP (Z.shiftr addr 12)) ;;
  lapicw ICRHI (Z.shiftl apicid 24) ;;
  lapicw ICRLO (Z.lor STARTUP (Z.shiftr addr 12)).
End apic.

(** ** The interrupt mask *)

(** The value the controllers' mask registers hold: the last bytes written to
    their data ports (for accesses after initialisation, when every write to
    those ports sets the mask). *)
Definition last_out (port : Z) (l : list ioev) (v : Z) : Z :=
  foldl (fun v e => match e with Outb p x => if p =? port then x else v | _ => v end) v l.
Definition pic_mask (l : list ioev) (m1 m2 : Z) : Z :=
  last_out (IO_PIC1 + 1) l m1 + 256 * last_out (IO_PIC2 + 1) l m2.

(** picenable opens one interrupt line and no other: afterwards the
    variable irqmask and the masks in the two controllers agree, bit irq is
    clear, and every other of the sixteen bits is as it was. *)
Theorem picenable_unmasks s irq m1 m2 :
  0 <= irq < 16 -> 0 <= hw_irqmask (k_hw s) < 2 ^ 16 ->
  wp (picenable irq) (fun _ s' =>
    let m := hw_irqmask (k_hw s') in
    pic_mask (k_io s') m1 m2 = m /\
    forall j, 0 <= j < 16 -> Z.testbit m j = Z.testbit (hw_irqmask (k_hw s)) j && negb (j =? irq)) s.
Proof.
  intros Hi Hm. unfold picenable, picsetmask, outb, io. kstep. cbn.
  set (m := u16 _). assert (0 <= m < 2 ^ 16) as Hr by (apply Z.mod_pos_bound; lia). split.
  - clearbody m. unfold pic_mask, last_out. rewrite !foldl_app. cbn. unfold u8.
    assert (0 <= m / 2 ^ 8 < 2 ^ 8) by (split; [apply Z.div_pos|apply Z.div_lt_upper_bound]; lia).
    rewrite Z.shiftr_div_pow2, (Z.mod_small (m / 2 ^ 8)) by lia.
    change (IO_PIC2 + 1 =? IO_PIC1 + 1) with false. rewrite !Z.eqb_refl. cbv iota.
    pose proof (Z.div_mod m (2 ^ 8)). lia.
  - intros j Hj. unfold m, u16. rewrite Z.mod_pow2_bits_low, Z.land_spec, Z.lnot_spec, Z.shiftl_1_l by lia.
    rewrite Z.pow2_bits_eqb by lia. by rewrite (Z.eqb_sym irq j).
Qed.

Lemma picenable_unmasks_witness :
  wp (picenable IRQ_KBD) (fun _ s' =>
    let m := hw_irqmask (k_hw s') in
    pic_mask (k_io s') 0 0 = m /\
    forall j, 0 <= j < 16 -> Z.testbit m j = Z.testbit 0xFFFB j && negb (j =? IRQ_KBD)) kst0.
Proof. apply (picenable_unmasks kst0 IRQ_KBD 0 0); cbn; unfold IRQ_KBD; lia. Defined.
