(* ===== verification/Kbd.v ===== *)
(** * Keyboard and serial port (kernel/kbd.c, kernel/uart.c)

    The tables of the scan codes and the state machine of the shift keys, the
    driver of the serial port, and their interrupt handlers on top of the
    terminal of [Tty]. The theorem: what arrives on the serial line reaches the
    line editor, whole and in order. *)

From stdpp Require Import prelude gmap strings.
From S2P Require Import Prelude Ring Kernel Port Spinlock Sched Bio Log StringC Fs Console Kalloc Vm File Proc Tty Irqchip.

(** ** Key tables (kernel/include/kbd.h) *)

Definition KBSTATP : Z := 0x64.
Definition KBS_DIB : Z := 0x01.
Definition KBDATAP : Z := 0x60.
Definition SHIFT : Z := 2 ^ 0.
Definition CTL : Z := 2 ^ 1.
Definition ALT : Z := 2 ^ 2.
Definition CAPSLOCK : Z := 2 ^ 3.
Definition NUMLOCK : Z := 2 ^ 4.
Definition SCROLLLOCK : Z := 2 ^ 5.
Definition E0ESC : Z := 2 ^ 6.

(** The entry [d] of an array given by its first elements and by the
    designated ones; the others are zero. *)
Fixpoint assoc (l : list (Z * Z)) (d : Z) : option Z :=
  match l with
  | [] => None
  | (k, v) :: l => if k =? d then Some v else assoc l d
  end.
Definition table (l : list Z) (ds : list (Z * Z)) (d : Z) : Z :=
  match assoc ds d with
  | Some v => v
  | None => default 0 (l !! Z.to_nat d)
  end.

Definition shiftcode : Z -> Z :=
  table [] [(0x1D, CTL); (0x2A, SHIFT); (0x36, SHIFT); (0x38, ALT); (0x9D, CTL); (0xB8, ALT)].
Definition togglecode : Z -> Z :=
  table [] [(0x3A, CAPSLOCK); (0x45, NUMLOCK); (0x46, SCROLLLOCK)].

Definition special_keys : list (Z * Z) :=
  [(0xC8, 0xE2); (0xD0, 0xE3); (0xC9, 0xE6); (0xD1, 0xE7); (0xCB, 0xE4); (0xCD, 0xE5);
   (0x97, 0xE0); (0xCF, 0xE1); (0xD2, 0xE8); (0xD3, 0xE9)].

Definition normalmap : Z -> Z :=
  table ([0; 0x1B] ++ str "1234567890-=" ++ [8; 9] ++ str "qwertyuiop[]" ++ [10; 0] ++ str "asdfghjkl;'`"
         ++ [0] ++ str "\zxcvbnm,./" ++ [0] ++ str "*" ++ [0] ++ str " " ++ replicate 13 0
         ++ str "789-456+1230.")
    ([(0x9C, 10); (0xB5, 47)] ++ special_keys).

Definition shiftmap : Z -> Z :=
  table ([0; 27] ++ str "!@#$%^&*()_+" ++ [8; 9] ++ str "QWERTYUIOP{}" ++ [10; 0] ++ str "ASDFGHJKL:"
         ++ [34] ++ str "~" ++ [0] ++ str "|ZXCVBNM<>?" ++ [0] ++ str "*" ++ [0] ++ str " " ++ replicate 13 0
         ++ str "789-456+1230.")
    ([(0x9C, 10); (0xB5, 47)] ++ special_keys).

Definition ctlmap : Z -> Z :=
  table (replicate 16 0 ++ (Ctl <$> str "QWERTYUIOP") ++ [0; 0; 13; 0] ++ (Ctl <$> str "ASDFGHJKL")
         ++ [0; 0; 0; 0; Ctl 92] ++ (Ctl <$> str "ZXCVBNM") ++ [0; 0; u8 (Ctl 47); 0; 0])
    ([(0x9C, 13); (0xB5, u8 (Ctl 47))] ++ special_keys).

Definition charcode (shift : Z) : Z -> Z :=
  if shift =? 0 then normalmap else if shift =? 1 then shiftmap else ctlmap.

Section kbd.
Context `{LY : Layout} `{PO : Ports}.

Fixpoint kbd_wait (fuel : nat) : K unit :=
  v <- inb 0x64 ;;
  if has v 2 then match fuel with O => fun _ => NoFuel | S fuel => kbd_wait fuel end else ret tt.

(** [fuel] bounds the wait for the controller. *)
Definition setleds (fuel : nat) : K unit :=
  outb 0x60 0xED ;;
  kbd_wait fuel ;;
  leds <- gets (fun s => hw_leds (k_hw s)) ;;
  outb 0x60 leds ;;
  kbd_wait fuel.

(** What a scan code does to the shift state: the new state, and the key to
    look up unless the code is a prefix or a release. *)
Definition kbd_shift (shift data : Z) : Z * option Z :=
  if data =? 0xE0 then (setf shift E0ESC, None)
  else if has data 0x80 then
    let data := if has shift E0ESC then data else Z.land data 0x7F in
    (clrf shift (Z.lor (shiftcode data) E0ESC), None)
  else
    let '(data, shift) := if has shift E0ESC then (Z.lor data 0x80, clrf shift E0ESC) else (data, shift) in
    (Z.lxor (setf shift (shiftcode data)) (togglecode data), Some data).

(** The character of a key. *)
Definition kbd_char (shift data : Z) : Z :=
  let c := charcode (Z.land shift (Z.lor CTL SHIFT)) data in
  if has shift CAPSLOCK then
    if (97 <=? c) && (c <=? 122) then c + (65 - 97)
    else if (65 <=? c) && (c <=? 90) then c + (97 - 65) else c
  else c.

Definition kbdgetc (fuel : nat) : K Z :=
  st <- inb KBSTATP ;;
  if negb (has st KBS_DIB) then ret (-1) else
  data <- inb KBDATAP ;;
  shift <- gets (fun s => hw_shift (k_hw s)) ;;
  let '(shift', key) := kbd_shift shift data in
  modify (set_hw (set_shift (fun _ => shift'))) ;;
  match key with
  | None => ret 0
  | Some data =>
    let led m := modify (set_hw (set_leds (fun l => Z.lxor l m))) ;; setleds fuel in
    when data =? 0x3A do led 4 ;;
    when data =? 0x45 do led 2 ;;
    when data =? 0x46 do led 1 ;;
    ret (kbd_char shift' data)
  end.

Definition kbdintr (fuel : nat) : K unit := ttyintr fuel (kbdgetc fuel).

(** ** uart.c *)

Fixpoint uartputs (l : bytes) : K unit :=
  match l with
  | [] => ret tt
  | c :: l => uartputc c ;; uartputs l
  end.

Definition uartinit : K unit :=
  outb (COM1 + 2) 0 ;;
  outb (COM1 + 3) 0x80 ;;
  outb (COM1 + 0) (115200 / 9600) ;;
  outb (COM1 + 1) 0 ;;
  outb (COM1 + 3) 0x03 ;;
  outb (COM1 + 4) 0 ;;
  outb (COM1 + 1) 0x01 ;;
  st <- inb (COM1 + 5) ;;
  if st =? 0xFF then ret tt else
  modify (set_uart (fun _ => 1)) ;;
  _ <- inb (COM1 + 2) ;;
  _ <- inb (COM1 + 0) ;;
  picenable IRQ_COM1 ;;
  ioapicenable IRQ_COM1 0 ;;
  uartputs (str "Qwin UART console" ++ [NEWLINE]).

Definition uartgetc : K Z :=
  uart <- gets k_uart ;;
  if uart =? 0 then ret (-1) else
  st <- inb (COM1 + 5) ;;
  if negb (has st 0x01) then ret (-1) else
  inb (COM1 + 0).

Definition uartintr (fuel : nat) : K unit := ttyintr fuel uartgetc.

(** The rest of tty.c: registration of the terminal and its interrupt. *)
Definition dev_tty_init : K unit :=
  initlock LCons ;;
  initlock LInput ;;
  _ <- device_init DEV_TTY DTty DTty ;;
  modify (set_locking (fun _ => 1)) ;;
  picenable IRQ_KBD ;;
  ioapicenable IRQ_KBD 0.
End kbd.

(** ** The serial line as a source of characters *)

(** A serial port whose receiver, when the accesses [l0] have been made,
    holds the characters [cs]: from then on the status register has its
    data-ready bit set as long as there is one, and each read of the data
    register takes the next. *)
Class SerialLine `{PO : Ports} (l0 : list ioev) (cs : list Z) : Prop := {
  line_status ext : has (u8 (port_in (l0 ++ ext) (COM1 + 5))) 0x01 = bool_decide (port_reads (COM1 + 0) ext < length cs)%nat;
  line_data ext c : cs !! port_reads (COM1 + 0) ext = Some c -> u8 (port_in (l0 ++ ext) (COM1 + 0)) = c
}.

(** The characters of [cs] that have not been read. *)
Definition uart_avail (l0 : list ioev) (cs : list Z) (s : kst) (rest : list Z) : Prop :=
  k_uart s <> 0 /\ exists ext, k_io s = l0 ++ ext /\ drop (port_reads (COM1 + 0) ext) cs = rest.

Section serial.
Context `{LY : Layout} `{PO : Ports} (l0 : list ioev) (cs : list Z) `{!SerialLine l0 cs}.

Lemma reads_status l : port_reads (COM1 + 0) (l ++ [Inb (COM1 + 5)]) = port_reads (COM1 + 0) l.
Proof. rewrite port_reads_app, port_reads_one, decide_False; [lia|]. intros H. vm_compute in H. congruence. Qed.

Lemma reads_data l : port_reads (COM1 + 0) (l ++ [Inb (COM1 + 0)]) = S (port_reads (COM1 + 0) l).
Proof. rewrite port_reads_app, port_reads_one, decide_True by done. lia. Qed.

#[export] Instance uart_source : CharSource uartgetc (uart_avail l0 cs).
Proof.
  split; unfold uart_avail, uartgetc, inb, io.
  - intros s c rest [Hu (ext & He & Hd)]. kstep. rewrite (proj2 (Z.eqb_neq _ _) Hu). kstep. cbn. rewrite He.
    apply (f_equal (fun l => l !! 0%nat)) in Hd as Hc. rewrite lookup_drop, Nat.add_0_r in Hc. cbn in Hc.
    assert (port_reads (COM1 + 0) ext < length cs)%nat as Hlt by (apply lookup_lt_Some in Hc; lia).
    rewrite line_status, bool_decide_true by done. cbn [negb]. kstep. cbn.
    split_and!; [rewrite He, <- app_assoc; apply line_data; by rewrite reads_status|keeps_tac|done|].
    exists ((ext ++ [Inb (COM1 + 5)]) ++ [Inb (COM1 + 0)]). rewrite He, !app_assoc. split; [done|].
    rewrite reads_data, reads_status, <- Nat.add_1_r. by rewrite <- drop_drop, Hd.
  - intros s [Hu (ext & He & Hd)]. kstep. rewrite (proj2 (Z.eqb_neq _ _) Hu). kstep. cbn. rewrite He.
    apply (f_equal length) in Hd as Hl. rewrite length_drop in Hl. cbn in Hl.
    rewrite line_status, bool_decide_false by lia. cbn [negb]. kstep.
    split_and!; [done|keeps_tac|done|]. exists (ext ++ [Inb (COM1 + 5)]). cbn. rewrite He, app_assoc. split; [done|].
    by rewrite reads_status.
  - intros s s' l e Hio He _ Hu [Hu' (ext & Hext & Hd)]. split; [by rewrite Hu|]. exists (ext ++ e).
    rewrite Hio, Hext, app_assoc. split; [done|]. rewrite port_reads_app, (port_reads_none _ e), Nat.add_0_r; [done|].
    eapply Forall_impl; [exact He|]. intros x Hx ->. discriminate Hx.
Qed.

End serial.

(** A port with a ready transmitter, on which "hi" and a return arrive once the
    port has been set up: the first read of the data register, by [uartinit],
    is not theirs. *)
#[local] Instance demo_ports : Ports := {
  port_in l p := let n := port_reads (COM1 + 0) l in
    if p =? COM1 + 5 then Z.lor 0x20 (of_bool (bool_decide (1 <= n < 4)%nat)) else default 0 ([0; 104; 105; 13] !! n);
  port_ins _ _ _ := [];
  mmio_in _ _ := 0
}.
#[local] Instance demo_layout_serial : Layout := { kend := 0; kdata := 0; ktrapret := 0; kforkret := 0 }.
Definition demo_serial : kst := final uartinit (set_input (fun _ => Input (replicate 128 0) 5 5 5) kst0).

Lemma demo_serial_reads : port_reads (COM1 + 0) (k_io demo_serial) = 1%nat.
Proof. vm_compute. reflexivity. Qed.

#[local] Instance demo_line : SerialLine (k_io demo_serial) [104; 105; 13].
Proof.
  split; intros ext; cbn [port_in demo_ports]; cbv zeta; rewrite port_reads_app, demo_serial_reads; cbn [Nat.add].
  - generalize (port_reads (COM1 + 0) ext). intros n. change (COM1 + 5 =? COM1 + 5) with true. cbv iota.
    destruct (decide (n < 3)%nat); [rewrite !bool_decide_true by (cbn; lia)|rewrite !bool_decide_false by (cbn; lia)]; done.
  - generalize (port_reads (COM1 + 0) ext). intros n c H. change (COM1 + 0 =? COM1 + 5) with false. cbv iota.
    change ([0; 104; 105; 13] !! S n) with ([104; 105; 13] !! n). rewrite H. cbn.
    apply list_elem_of_lookup_2 in H. rewrite !elem_of_cons in H.
    destruct H as [-> | [-> | [-> | H]]]; [done..|]. by apply not_elem_of_nil in H.
Qed.

