(* ===== verification/Ide.v ===== *)
(** * The IDE driver (kernel/ata.c)

    The queue of requests is the list of buffers that idequeue and the
    qnext links make up. The buffer cache of this system uses the memory disk
    instead; the interrupt handler still calls [ideintr]. *)

From stdpp Require Import prelude gmap strings.
From S2P Require Import Prelude Kernel Port Spinlock Sched Bio Console Kalloc Irqchip.

Definition IDE_BSY : Z := 0x80.
Definition IDE_DRDY : Z := 0x40.
Definition IDE_DF : Z := 0x20.
Definition IDE_ERR : Z := 0x01.
Definition IDE_CMD_READ : Z := 0x20.
Definition IDE_CMD_WRITE : Z := 0x30.

Section ide.
Context `{PO : Ports}.

(** [fuel] bounds the wait for the disk. *)
Fixpoint idewait (fuel : nat) (checkerr : bool) : K Z :=
  r <- inb 0x1f7 ;;
  if negb (Z.land r (Z.lor IDE_BSY IDE_DRDY) =? IDE_DRDY) then
    match fuel with O => fun _ => NoFuel | S fuel => idewait fuel checkerr end
  else ret (if checkerr && has r (Z.lor IDE_DF IDE_ERR) then -1 else 0).

(** The loop that looks for disk 1. *)
Fixpoint ideprobe (n : nat) : K unit :=
  match n with
  | O => ret tt
  | S n =>
    r <- inb 0x1f7 ;;
    if negb (r =? 0) then modify (set_hw (set_havedisk1 (fun _ => 1))) else ideprobe n
  end.

Definition ideinit (fuel : nat) : K unit :=
  initlock LIde ;;
  picenable IRQ_IDE ;;
  ncpu <- gets (fun s => hw_ncpu (k_hw s)) ;;
  ioapicenable IRQ_IDE (ncpu - 1) ;;
  _ <- idewait fuel false ;;
  outb 0x1f6 (Z.lor 0xe0 (Z.shiftl 1 4)) ;;
  ideprobe 1000 ;;
  outb 0x1f6 (Z.lor 0xe0 (Z.shiftl 0 4)).

Definition idestart (fuel : nat) (i : nat) : K unit :=
  _ <- idewait fuel false ;;
  outb 0x3f6 0 ;;
  outb 0x1f2 1 ;;
  b <- gets (fun s => k_bc s !!! i) ;;
  outb 0x1f3 (Z.land (b_sector b) 0xff) ;;
  outb 0x1f4 (Z.land (Z.shiftr (b_sector b) 8) 0xff) ;;
  outb 0x1f5 (Z.land (Z.shiftr (b_sector b) 16) 0xff) ;;
  outb 0x1f6 (Z.lor (Z.lor 0xe0 (Z.shiftl (Z.land (b_dev b) 1) 4)) (Z.land (Z.shiftr (b_sector b) 24) 0x0f)) ;;
  if has (b_flags b) B_DIRTY then
    outb 0x1f7 IDE_CMD_WRITE ;;
    outsl 0x1f0 (b_data b)
  else outb 0x1f7 IDE_CMD_READ.

Definition ideintr (fuel : nat) : K unit :=
  acquire LIde ;;
  q <- gets (fun s => hw_idequeue (k_hw s)) ;;
  match q with
  | [] => release LIde
  | i :: rest =>
    modify (set_hw (set_idequeue (fun _ => rest))) ;;
    b <- gets (fun s => k_bc s !!! i) ;;
    (if negb (has (b_flags b) B_DIRTY) then
       r <- idewait fuel true ;;
       if 0 <=? r then
         l <- insl 0x1f0 128 ;;
         modify (set_bc (alter (set_bdata (fun d => splice d 0 l)) i))
       else ret tt
     else ret tt) ;;
    modify (set_bc (alter (set_bflags (fun fl => setf fl B_VALID)) i)) ;;
    modify (set_bc (alter (set_bflags (fun fl => clrf fl B_DIRTY)) i)) ;;
    wakeup (CBuf i) ;;
    match rest with [] => ret tt | j :: _ => idestart fuel j end ;;
    release LIde
  end.

(** The wait for the request: a pass that sleeps ends the control path. *)
Fixpoint iderw_wait (n : nat) (i : nat) : K unit :=
  b <- gets (fun s => k_bc s !!! i) ;;
  if negb (Z.land (b_flags b) (Z.lor B_VALID B_DIRTY) =? B_VALID) then
    sleep (CBuf i) LIde ;;
    match n with O => fun _ => NoFuel | S n => iderw_wait n i end
  else ret tt.

Definition iderw (fuel : nat) (i : nat) : K unit :=
  b <- gets (fun s => k_bc s !!! i) ;;
  if negb (has (b_flags b) B_BUSY) then panic "iderw: buf not busy" else
  if Z.land (b_flags b) (Z.lor B_VALID B_DIRTY) =? B_VALID then panic "iderw: nothing to do" else
  d1 <- gets (fun s => hw_havedisk1 (k_hw s)) ;;
  if negb (b_dev b =? 0) && (d1 =? 0) then panic "iderw: ide disk 1 not present" else
  acquire LIde ;;
  modify (set_hw (set_idequeue (fun q => q ++ [i]))) ;;
  q <- gets (fun s => hw_idequeue (k_hw s)) ;;
  when bool_decide (hd_error q = Some i) do idestart fuel i ;;
  iderw_wait 1 i ;;
  release LIde.
End ide.
