(* ===== verification/Rtc.v ===== *)
(** * The real-time clock (kernel/rtc.c, kernel/include/rtc.h)

    The clock's registers are read through ports; [get_date_time] turns them
    into a time stamp with [mktime]. The static variables [sdate] and [stime]
    only carry the values from the reads to their use, and are results here. *)

From stdpp Require Import prelude gmap strings.
From S2P Require Import Prelude Kernel Port Spinlock Kalloc Bio Log StringC Fs Console Vm Irqchip.

(** [bcd2dec], on an unsigned byte. *)
Definition bcd2dec (bcd : Z) : Z := Z.shiftr bcd 4 * 0xa + Z.land bcd 0xf.

(** The bit fields of [DATE] and [TIME]. *)
Record rtc_date := RtcDate { rd_dow : Z; rd_dom : Z; rd_month : Z; rd_year : Z }.
Record rtc_time := RtcTime { rt_hour : Z; rt_minute : Z; rt_second : Z }.
Definition bits (w x : Z) : Z := x mod 2 ^ w.

Record tm := Tm {
  tm_sec : Z; tm_min : Z; tm_hour : Z; tm_mday : Z; tm_mon : Z; tm_year : Z;
  tm_wday : Z; tm_yday : Z
}.

(** [mktime]; [time_t] has 64 bits, and the two sums computed in [int] stay
    within its limits up to the year 5,000,000 ([mktime_int]). *)
Definition mktime (t : tm) : Z :=
  let mon := tm_mon t - 2 in
  let '(mon, year) := if mon <=? 0 then (mon + 12, tm_year t - 1) else (mon, tm_year t) in
  ((Z.quot year 4 - Z.quot year 100 + Z.quot year 400 + Z.quot (367 * mon) 12 + tm_mday t
    + year * 365 - 719499) * 24 + tm_hour t) * 60 * 60 + tm_min t * 60 + tm_sec t.

Section rtc.
Context `{PO : Ports}.

Definition read_rtc_address (address : Z) : K Z := outb 0x70 address ;; inb 0x71.
Definition write_rtc_address (address val : Z) : K unit := outb 0x70 address ;; outb 0x71 val.

Definition get_date : K rtc_date :=
  dow <- read_rtc_address 6 ;;
  dom <- read_rtc_address 7 ;;
  month <- read_rtc_address 8 ;;
  year <- read_rtc_address 9 ;;
  ret (RtcDate (bits 3 (bcd2dec dow)) (bits 5 (bcd2dec dom)) (bits 4 (bcd2dec month))
         (bits 7 (bcd2dec year))).

Definition get_time : K rtc_time :=
  hour <- read_rtc_address 4 ;;
  minute <- read_rtc_address 2 ;;
  second <- read_rtc_address 0 ;;
  ret (RtcTime (bits 5 (bcd2dec hour)) (bits 6 (bcd2dec minute)) (bits 6 (bcd2dec second))).

Definition init_rtc : K unit :=
  _ <- get_date ;; _ <- get_time ;;
  picenable IRQ_RTC ;;
  ioapicenable IRQ_RTC 1 ;;
  _ <- read_rtc_address 0x0c ;; ret tt.

Definition update : K unit :=
  _ <- get_date ;; _ <- get_time ;; _ <- read_rtc_address 0x0c ;; ret tt.

(** [t] is the address the result is stored at, or 0. *)
Definition get_date_time (t : Z) : K Z :=
  d <- get_date ;;
  h <- get_time ;;
  let r := mktime (Tm (rt_second h) (rt_minute h) (rt_hour h) (rd_dom d) (rd_month d)
                     (rd_year d + 2000) 0 0) in
  when negb (t =? 0) do kwrite t (le_bytes 8 r) ;;
  ret r.
End rtc.

(** ** The calendar *)

Definition leap (y : Z) : bool := (y mod 4 =? 0) && (negb (y mod 100 =? 0) || (y mod 400 =? 0)).
Definition days_in_year (y : Z) : Z := if leap y then 366 else 365.
Definition days_in_month (y m : Z) : Z :=
  if m =? 2 then (if leap y then 29 else 28)
  else if (m =? 4) || (m =? 6) || (m =? 9) || (m =? 11) then 30 else 31.

(** Days from 1 January 1970 to 1 January of [1970 + n]. *)
Fixpoint days_to_year (n : nat) : Z :=
  match n with
  | O => 0
  | S n => days_to_year n + days_in_year (1970 + Z.of_nat n)
  end.
(** Days from 1 January to the first of the month [1 + n]. *)
Fixpoint days_to_month (y : Z) (n : nat) : Z :=
  match n with
  | O => 0
  | S n => days_to_month y n + days_in_month y (1 + Z.of_nat n)
  end.

Definition days_since_epoch (y m d : Z) : Z :=
  days_to_year (Z.to_nat (y - 1970)) + days_to_month y (Z.to_nat (m - 1)) + (d - 1).

Definition valid_date (t : tm) : Prop :=
  1970 <= tm_year t /\ 1 <= tm_mon t <= 12 /\ 1 <= tm_mday t <= days_in_month (tm_year t) (tm_mon t).

(** The closed form for the years. *)
Lemma leap_count y : 0 < y ->
  y / 4 - y / 100 + y / 400 =
  (y - 1) / 4 - (y - 1) / 100 + (y - 1) / 400 + (if leap y then 1 else 0).
Proof.
  intros Hy. assert (forall k, 0 < k -> y / k = (y - 1) / k + (if y mod k =? 0 then 1 else 0)) as Hk.
  { intros k Hk. pose proof (Z.div_mod y k). pose proof (Z.mod_pos_bound y k).
    destruct (Z.eqb_spec (y mod k) 0) as [E|E].
    - rewrite <- (Z.div_unique (y - 1) k (y / k - 1) (k - 1)); lia.
    - rewrite <- (Z.div_unique (y - 1) k (y / k) (y mod k - 1)); lia. }
  rewrite (Hk 4), (Hk 100), (Hk 400) by lia. unfold leap.
  pose proof (Z.div_mod y 4). pose proof (Z.div_mod y 100). pose proof (Z.div_mod y 400).
  pose proof (Z.mod_pos_bound y 4). pose proof (Z.mod_pos_bound y 100). pose proof (Z.mod_pos_bound y 400).
  destruct (Z.eqb_spec (y mod 4) 0), (Z.eqb_spec (y mod 100) 0), (Z.eqb_spec (y mod 400) 0); cbn; lia.
Qed.

Lemma days_to_year_closed n : let y := 1970 + Z.of_nat n in
  days_to_year n = (y - 1) / 4 - (y - 1) / 100 + (y - 1) / 400 + y * 365 - 719527.
Proof.
  cbn zeta. induction n as [|n IH]; [reflexivity|]. cbn [days_to_year]. rewrite IH.
  replace (1970 + Z.of_nat (S n) - 1) with (1970 + Z.of_nat n) by lia.
  rewrite (leap_count (1970 + Z.of_nat n)) by lia. unfold days_in_year. destruct (leap _); lia.
Qed.

Lemma days_to_month_shift y m : 1 <= m <= 12 ->
  days_to_month y (Z.to_nat (m - 1)) =
  (367 * (if m <=? 2 then m + 10 else m - 2)) / 12 + (if leap y && negb (m <=? 2) then 1 else 0)
    - (if m <=? 2 then 336 else -29).
Proof.
  intros Hm. assert (m = 1 \/ m = 2 \/ m = 3 \/ m = 4 \/ m = 5 \/ m = 6 \/ m = 7 \/ m = 8 \/ m = 9 \/ m = 10 \/
    m = 11 \/ m = 12) as Hc by lia.
  destruct_or! Hc; subst m;
    match goal with |- context [Z.to_nat ?x] => let n := eval vm_compute in (Z.to_nat x) in change (Z.to_nat x) with n end;
    cbn [days_to_month]; unfold days_in_month; destruct (leap y); reflexivity.
Qed.

Lemma mktime_eq t : valid_date t ->
  mktime t = days_since_epoch (tm_year t) (tm_mon t) (tm_mday t) * 86400
             + tm_hour t * 3600 + tm_min t * 60 + tm_sec t.
Proof.
  intros (Hy & Hm & Hd). unfold days_since_epoch, mktime.
  rewrite days_to_year_closed, days_to_month_shift by done.
  rewrite Z2Nat.id by lia. replace (1970 + (tm_year t - 1970)) with (tm_year t) by lia.
  pose proof (leap_count (tm_year t)) as Hl.
  destruct (Z.leb_spec (tm_mon t - 2) 0), (Z.leb_spec (tm_mon t) 2); try lia.
  - rewrite andb_false_r, !Z.quot_div_nonneg by lia.
    replace (tm_mon t - 2 + 12) with (tm_mon t + 10) by lia. lia.
  - rewrite !Z.quot_div_nonneg, Hl, andb_true_r by lia. destruct (leap (tm_year t)); lia.
Qed.

Lemma mktime_int t : valid_date t -> tm_year t <= 5000000 ->
  let mon := tm_mon t - 2 in
  let '(mon, year) := if mon <=? 0 then (mon + 12, tm_year t - 1) else (mon, tm_year t) in
  s32 (year * 365) = year * 365 /\
  s32 (Z.quot year 4 - Z.quot year 100 + Z.quot year 400 + Z.quot (367 * mon) 12 + tm_mday t) =
    Z.quot year 4 - Z.quot year 100 + Z.quot year 400 + Z.quot (367 * mon) 12 + tm_mday t.
Proof.
  intros (Hy & Hm & Hd) Hmax mon. assert (days_in_month (tm_year t) (tm_mon t) <= 31) as H31
    by (unfold days_in_month; repeat case_match; lia).
  destruct (Z.leb_spec mon 0); rewrite !Z.quot_div_nonneg by lia;
    match goal with |- s32 (?y * 365) = _ /\ s32 (_ + ?m / 12 + _) = _ =>
      pose proof (Z.div_mod y 4 ltac:(lia)); pose proof (Z.mod_pos_bound y 4 ltac:(lia));
      pose proof (Z.div_mod y 100 ltac:(lia)); pose proof (Z.mod_pos_bound y 100 ltac:(lia));
      pose proof (Z.div_mod y 400 ltac:(lia)); pose proof (Z.mod_pos_bound y 400 ltac:(lia));
      pose proof (Z.div_mod m 12 ltac:(lia)); pose proof (Z.mod_pos_bound m 12 ltac:(lia)) end;
    split; apply sgn_small; lia.
Qed.

(** C28. mktime is the calendar: for every valid date from 1970 on it is the
    number of seconds from the epoch, counting 365 or 366 days for each year
    before by the Gregorian rule, the days of each month before, and the days
    before within the month. *)
Theorem mktime_is_calendar t : valid_date t ->
  mktime t = days_since_epoch (tm_year t) (tm_mon t) (tm_mday t) * 86400
             + tm_hour t * 3600 + tm_min t * 60 + tm_sec t.
Proof. apply mktime_eq. Qed.

Lemma mktime_is_calendar_witness :
  mktime (Tm 56 34 12 29 2 2024 0 0) = days_since_epoch 2024 2 29 * 86400 + 12 * 3600 + 34 * 60 + 56.
Proof. apply (mktime_is_calendar (Tm 56 34 12 29 2 2024 0 0)). by repeat split. Defined.
