(* ===== verification/Time.v ===== *)
(** * Calendar dates in user space (userspace/libc/time.c)

    [calcDate] turns the time stamp of the kernel back into a date. The time
    stamp is narrowed to 32 bits; all that follows gets smaller and never goes
    below zero, so that no other operation wraps. The loops are bounded by the
    number of years that fit into the days. The theorem is the round trip with
    the kernel's [mktime], in both directions. *)

From stdpp Require Import prelude.
From S2P Require Import Prelude Rtc.

(** The loop over the years: the year, the days left and the day of the week
    of its first day. *)
Fixpoint calc_year (fuel : nat) (year days dow : Z) : option (Z * Z * Z) :=
  let leapYear := (year mod 4 =? 0) && (negb (year mod 100 =? 0) || (year mod 400 =? 0)) in
  let daysInYear := if leapYear then 366 else 365 in
  if daysInYear <=? days then
    match fuel with
    | O => None
    | S fuel =>
      let dow := dow + (if leapYear then 2 else 1) in
      let days := days - daysInYear in
      calc_year fuel (year + 1) days (if 7 <=? dow then dow - 7 else dow)
    end
  else Some (year, days, dow).

Definition daysInMonth : list Z := [31; 28; 31; 30; 31; 30; 31; 31; 30; 31; 30; 31].

(** The loop over the months: the month, from 0, and the days left. *)
Fixpoint calc_month (leapYear : bool) (l : list Z) (month days : Z) : Z * Z :=
  match l with
  | [] => (month, days)
  | dim :: l =>
    let dim := if (month =? 1) && leapYear then dim + 1 else dim in
    if dim <=? days then calc_month leapYear l (month + 1) (days - dim) else (month, days)
  end.

(** [calcDate], given the result of time(), which goes to a [uint32_t]. *)
Definition calcDate (now : Z) : option tm :=
  let seconds := u32 now in
  let minutes := seconds / 60 in
  let seconds := seconds - minutes * 60 in
  let hours := minutes / 60 in
  let minutes := minutes - hours * 60 in
  let days := hours / 24 in
  let hours := hours - days * 24 in
  match calc_year (Z.to_nat (days / 365 + 1)) 1970 days 4 with
  | None => None
  | Some (year, days, dow) =>
    let leapYear := (year mod 4 =? 0) && (negb (year mod 100 =? 0) || (year mod 400 =? 0)) in
    let '(month, mdays) := calc_month leapYear daysInMonth 0 days in
    Some (Tm seconds minutes hours (mdays + 1) month year ((dow + days) mod 7) days)
  end.

(** ** The loops compute the calendar *)

Lemma days_in_year_range y : 365 <= days_in_year y <= 366.
Proof. unfold days_in_year. destruct (leap y); lia. Qed.

Lemma days_to_year_mono n : 365 * Z.of_nat n <= days_to_year n.
Proof.
  induction n as [|n IH]; [done|]. cbn [days_to_year].
  pose proof (days_in_year_range (1970 + Z.of_nat n)). lia.
Qed.

(** From the first day of the [k]th year on the loop finds the [n]th. *)
Lemma calc_year_spec fuel k n r :
  (k <= n)%nat -> (n - k <= fuel)%nat -> 0 <= r < days_in_year (1970 + Z.of_nat n) ->
  calc_year fuel (1970 + Z.of_nat k) (days_to_year n - days_to_year k + r) ((4 + days_to_year k) mod 7)
  = Some (1970 + Z.of_nat n, r, (4 + days_to_year n) mod 7).
Proof.
  revert k. induction fuel as [|fuel IH]; intros k Hk Hf Hr; cbn [calc_year];
    fold (leap (1970 + Z.of_nat k)); fold (days_in_year (1970 + Z.of_nat k)).
  - assert (k = n) as -> by lia. rewrite Z.sub_diag, Z.add_0_l, (proj2 (Z.leb_gt _ _)) by lia. done.
  - destruct (decide (k = n)) as [->|Hne].
    { rewrite Z.sub_diag, Z.add_0_l, (proj2 (Z.leb_gt _ _)) by lia. done. }
    assert (forall a, (S k <= a)%nat -> days_to_year k + days_in_year (1970 + Z.of_nat k) <= days_to_year a) as Hmono.
    { induction 1 as [|a Ha IHa]; [cbn; lia|]. cbn [days_to_year].
      pose proof (days_in_year_range (1970 + Z.of_nat a)). lia. }
    specialize (Hmono n). rewrite (proj2 (Z.leb_le _ _)) by lia.
    replace (1970 + Z.of_nat k + 1) with (1970 + Z.of_nat (S k)) by lia.
    replace (days_to_year n - days_to_year k + r - _) with (days_to_year n - days_to_year (S k) + r)
      by (cbn [days_to_year]; lia).
    replace (if 7 <=? _ then _ else _) with ((4 + days_to_year (S k)) mod 7); [apply IH; lia|].
    cbn [days_to_year]. unfold days_in_year.
    pose proof (Z.mod_pos_bound (4 + days_to_year k) 7). rewrite Z.add_assoc.
    destruct (leap _).
    + rewrite <- (Zplus_mod_idemp_r 366). change (366 mod 7) with 2. rewrite <- Zplus_mod_idemp_l.
      destruct (Z.leb_spec 7 ((4 + days_to_year k) mod 7 + 2)); [|apply Z.mod_small; lia].
      rewrite <- (Z_mod_plus_full _ (-1)). apply Z.mod_small. lia.
    + rewrite <- (Zplus_mod_idemp_r 365). change (365 mod 7) with 1. rewrite <- Zplus_mod_idemp_l.
      destruct (Z.leb_spec 7 ((4 + days_to_year k) mod 7 + 1)); [|apply Z.mod_small; lia].
      rewrite <- (Z_mod_plus_full _ (-1)). apply Z.mod_small. lia.
Qed.

(** The table, with the day added in leap years, is the calendar's. *)
Lemma daysInMonth_spec y k dim : daysInMonth !! k = Some dim ->
  (if (Z.of_nat k =? 1) && leap y then dim + 1 else dim) = days_in_month y (1 + Z.of_nat k).
Proof.
  intros Hk. unfold daysInMonth in Hk.
  do 12 (destruct k as [|k]; [injection Hk as <-; unfold days_in_month; destruct (leap y); reflexivity|]).
  done.
Qed.

Lemma days_in_month_pos y m : 0 < days_in_month y m.
Proof. unfold days_in_month. repeat case_match; lia. Qed.

Lemma days_to_month_lt y k n : (k < n)%nat ->
  days_to_month y k + days_in_month y (1 + Z.of_nat k) <= days_to_month y n.
Proof.
  induction 1 as [|n Hn IH]; cbn [days_to_month]; [lia|].
  pose proof (days_in_month_pos y (1 + Z.of_nat n)). lia.
Qed.

Lemma calc_month_spec y n r k :
  (k <= n < 12)%nat -> 0 <= r < days_in_month y (1 + Z.of_nat n) ->
  calc_month (leap y) (drop k daysInMonth) (Z.of_nat k) (days_to_month y n - days_to_month y k + r)
  = (Z.of_nat n, r).
Proof.
  intros Hk Hr. remember (n - k)%nat as j eqn:Hj. revert k Hk Hj.
  induction j as [|j IH]; intros k Hk Hj;
    (destruct (lookup_lt_is_Some_2 daysInMonth k) as [dim Hdim]; [cbn; lia|]);
    rewrite (drop_S _ dim) by done; cbn [calc_month]; rewrite (daysInMonth_spec y k) by done.
  - assert (k = n) as -> by lia. rewrite (proj2 (Z.leb_gt _ _)) by lia. f_equal. lia.
  - pose proof (days_to_month_lt y k n). rewrite (proj2 (Z.leb_le _ _)) by lia.
    rewrite <- (IH (S k)) by lia. f_equal; cbn [days_to_month]; lia.
Qed.

Lemma days_to_month_bound y n : (n <= 12)%nat -> days_to_month y n <= days_in_year y.
Proof.
  intros Hn. assert (days_to_month y 12 = days_in_year y) as <-.
  { unfold days_in_year. cbn [days_to_month]. unfold days_in_month. destruct (leap y); reflexivity. }
  destruct (decide (n = 12%nat)) as [->|]; [done|]. pose proof (days_to_month_lt y n 12).
  pose proof (days_in_month_pos y (1 + Z.of_nat n)). lia.
Qed.

Lemma split_seconds d h m s : 0 <= h < 24 -> 0 <= m < 60 -> 0 <= s < 60 ->
  let now := d * 86400 + h * 3600 + m * 60 + s in
  now / 60 = (d * 24 + h) * 60 + m /\ now / 60 / 60 = d * 24 + h /\ now / 60 / 60 / 24 = d.
Proof.
  intros Hh Hm Hs now. assert (now / 60 = (d * 24 + h) * 60 + m) as E1.
  { symmetry. apply (Z.div_unique _ _ _ s); unfold now; lia. }
  assert (now / 60 / 60 = d * 24 + h) as E2.
  { rewrite E1. symmetry. apply (Z.div_unique _ _ _ m); lia. }
  split_and!; [done..|]. rewrite E2. symmetry. apply (Z.div_unique _ _ _ h); lia.
Qed.

(** What [calcDate] fills in for a date, the month counted from 0. *)
Definition broken_down (t : tm) : tm :=
  Tm (tm_sec t) (tm_min t) (tm_hour t) (tm_mday t) (tm_mon t - 1) (tm_year t)
    ((4 + days_since_epoch (tm_year t) (tm_mon t) (tm_mday t)) mod 7)
    (days_to_month (tm_year t) (Z.to_nat (tm_mon t - 1)) + (tm_mday t - 1)).

(** A date from 1970 on with a time of day. *)
Definition valid_time (t : tm) : Prop :=
  valid_date t /\ 0 <= tm_hour t < 24 /\ 0 <= tm_min t < 60 /\ 0 <= tm_sec t < 60.

Lemma days_to_month_nonneg y n : 0 <= days_to_month y n.
Proof.
  destruct n as [|k]; [done|]. pose proof (days_to_month_lt y 0 (S k) ltac:(lia)) as H.
  pose proof (days_in_month_pos y (1 + Z.of_nat 0)). cbn [days_to_month] in *. lia.
Qed.

Lemma calcDate_mktime t : valid_time t -> mktime t < 2 ^ 32 -> calcDate (mktime t) = Some (broken_down t).
Proof.
  intros (Hv & Hh & Hm & Hs) Hlt. rewrite mktime_eq in * by done. destruct Hv as (Hy & Hmon & Hd).
  set (y := tm_year t) in *. set (mo := tm_mon t) in *. set (D := days_since_epoch y mo (tm_mday t)) in *.
  set (n := Z.to_nat (y - 1970)). set (r := days_to_month y (Z.to_nat (mo - 1)) + (tm_mday t - 1)).
  assert (D = days_to_year n - days_to_year 0 + r) as HD by (unfold D, r, n, days_since_epoch; cbn [days_to_year]; lia).
  assert (1970 + Z.of_nat n = y) as Hn by lia.
  assert (0 <= r < days_in_year y) as Hr.
  { pose proof (days_to_month_nonneg y (Z.to_nat (mo - 1))).
    pose proof (days_to_month_lt y (Z.to_nat (mo - 1)) (S (Z.to_nat (mo - 1)))) as Hl.
    pose proof (days_to_month_bound y (S (Z.to_nat (mo - 1)))).
    replace (1 + Z.of_nat (Z.to_nat (mo - 1))) with mo in Hl by lia. unfold r. lia. }
  pose proof (days_to_year_mono n) as Hmono. cbn [days_to_year] in HD.
  unfold calcDate. rewrite u32_small by lia.
  destruct (split_seconds D (tm_hour t) (tm_min t) (tm_sec t) Hh Hm Hs) as (E1 & E2 & E3). rewrite E3, E2, E1.
  replace D with (days_to_year n - days_to_year 0 + r) at 2 by (cbn [days_to_year]; lia).
  change 1970 with (1970 + Z.of_nat 0) at 1. change 4 with ((4 + days_to_year 0) mod 7) at 1.
  rewrite (calc_year_spec _ 0 n r); [|lia| |by rewrite Hn].
  2:{ assert (Z.of_nat n <= D / 365); [|lia]. apply Z.div_le_lower_bound; lia. }
  rewrite Hn. fold (leap y).
  pose proof (calc_month_spec y (Z.to_nat (mo - 1)) (tm_mday t - 1) 0) as Hcm.
  rewrite drop_0 in Hcm. change (Z.of_nat 0) with 0 in Hcm. cbn [days_to_month] in Hcm. rewrite Z.sub_0_r in Hcm.
  fold r in Hcm. rewrite Hcm; [|lia|].
  2:{ replace (1 + Z.of_nat (Z.to_nat (mo - 1))) with mo by lia. lia. }
  unfold broken_down. fold y mo D r. rewrite Zplus_mod_idemp_l. do 2 f_equal; try lia. f_equal. lia.
Qed.

(** Every number of seconds is a date. *)
Lemma find_year D : 0 <= D -> exists n, days_to_year n <= D < days_to_year (S n).
Proof.
  intros HD. assert (D < days_to_year (S (Z.to_nat D))) as H by (pose proof (days_to_year_mono (S (Z.to_nat D))); lia).
  revert H. generalize (Z.to_nat D). intros k. induction k as [|k IH]; intros H; [by exists 0%nat|].
  destruct (decide (D < days_to_year (S k))); [by apply IH|]. exists (S k). lia.
Qed.

Lemma find_month y r : 0 <= r < days_in_year y ->
  exists k, (k < 12)%nat /\ days_to_month y k <= r < days_to_month y (S k).
Proof.
  intros Hr. assert (days_to_month y 12 = days_in_year y) as E.
  { unfold days_in_year. cbn [days_to_month]. unfold days_in_month. destruct (leap y); reflexivity. }
  assert (forall k, (k < 12)%nat -> r < days_to_month y (S k) ->
    exists k, (k < 12)%nat /\ days_to_month y k <= r < days_to_month y (S k)) as H.
  { induction k as [|k IH]; intros Hk H; [exists 0%nat; cbn [days_to_month] in *; lia|].
    destruct (decide (r < days_to_month y (S k))); [apply IH; [lia|done]|]. exists (S k). lia. }
  apply (H 11%nat); [lia|]. rewrite E. lia.
Qed.

Lemma date_of_seconds now : 0 <= now -> exists t, valid_time t /\ mktime t = now.
Proof.
  intros Hnow. pose proof (Z.div_mod now 86400 ltac:(done)) as H1. pose proof (Z.mod_pos_bound now 86400 ltac:(done)).
  set (D := now / 86400) in *. set (s := now mod 86400) in *. assert (0 <= D) as HD by (by apply Z.div_pos).
  destruct (find_year D HD) as (n & Hn). set (y := 1970 + Z.of_nat n).
  destruct (find_month y (D - days_to_year n)) as (k & Hk & Hr); [cbn [days_to_year] in Hn; fold y in Hn; lia|].
  cbn [days_to_month] in Hr. set (d := D - days_to_year n - days_to_month y k) in *.
  pose proof (Z.div_mod s 3600 ltac:(done)) as H3. pose proof (Z.mod_pos_bound s 3600 ltac:(done)).
  pose proof (Z.div_mod (s mod 3600) 60 ltac:(done)) as H4. pose proof (Z.mod_pos_bound (s mod 3600) 60 ltac:(done)).
  assert (0 <= s / 3600 < 24) by (split; [by apply Z.div_pos; lia|apply Z.div_lt_upper_bound; lia]).
  assert (0 <= s mod 3600 / 60 < 60) by (split; [by apply Z.div_pos; lia|apply Z.div_lt_upper_bound; lia]).
  set (t := Tm (s mod 3600 mod 60) (s mod 3600 / 60) (s / 3600) (d + 1) (1 + Z.of_nat k) y 0 0).
  assert (valid_date t) as Hv by (unfold valid_date, t; cbn; lia).
  exists t. split; [split; [done|cbn; lia]|]. rewrite mktime_eq by done. unfold days_since_epoch, t. cbn.
  replace (Z.to_nat (y - 1970)) with n by lia. replace (Z.to_nat (1 + Z.of_nat k - 1)) with k by lia. lia.
Qed.

(** C27. The library's calcDate and the kernel's mktime are inverse to each
    other, up to the 32 bits of a time stamp. For every valid date and time of
    day from 1970 on whose time stamp is below 2^32 (up to the year 2106)
    calcDate returns that date and time (with the month counted from 0), the
    day of the year, and the day of the week that follows from 1 January 1970
    being a Thursday. And whatever number time() returns, calcDate's loops end
    with such a date, the one whose mktime is that number modulo 2^32. *)
Theorem calcDate_inverts_mktime :
  (forall t, valid_time t -> mktime t < 2 ^ 32 -> calcDate (mktime t) = Some (broken_down t)) /\
  (forall now, exists t, valid_time t /\ mktime t = u32 now /\ calcDate now = Some (broken_down t)).
Proof.
  split; [apply calcDate_mktime|]. intros now. pose proof (u32_range now) as Hu.
  destruct (date_of_seconds (u32 now)) as (t & Ht & E); [lia|]. exists t. split_and!; [done..|].
  rewrite <- (calcDate_mktime t) by (done || lia). rewrite E. unfold calcDate. by rewrite (u32_small (u32 now)).
Qed.

Lemma calcDate_inverts_mktime_witness :
  calcDate (mktime (Tm 56 34 12 29 2 2024 0 0)) = Some (Tm 56 34 12 29 1 2024 4 59).
Proof. apply (proj1 calcDate_inverts_mktime (Tm 56 34 12 29 2 2024 0 0)); [by repeat split|reflexivity]. Defined.
