(* ===== verification/Syscall.v ===== *)
(** * System call arguments and the simple system calls
      (kernel/syscall.c, kernel/sysproc.c, kernel/sysuser.c)

    The arguments lie on the user's stack and are read through the page table
    in force. [ustr] reads the string a checked pointer points to.

    The theorems: the argument functions only let through addresses below
    the size of the process, strings end within it; and a negative size is let
    through. *)

From stdpp Require Import prelude gmap strings.
From S2P Require Import Prelude Ring Kernel Port Spinlock Sched Bio Log StringC Fs Console Kalloc Vm File Proc Tty Rtc.

(** [proc], for its fields. *)
Definition me : K proc := i <- myproc ;; getp i.

Definition fetchint (addr : Z) : K (option Z) :=
  p <- me ;;
  if (p_sz p <=? addr) || (p_sz p <? u32 (addr + 4)) then ret None else
  w <- uword addr ;;
  ret (Some (s32 w)).

(** The scan for the NUL from [s] to [ep]. *)
Fixpoint scan_nul (n : nat) (s len : Z) : K (option Z) :=
  match n with
  | O => ret None
  | S n =>
    c <- uload s ;;
    if c =? 0 then ret (Some len) else scan_nul n (u32 (s + 1)) (len + 1)
  end.

(** The result, and the pointer stored if one is. *)
Definition fetchstr (addr : Z) : K (option Z * option Z) :=
  p <- me ;;
  if p_sz p <=? addr then ret (None, None) else
  len <- scan_nul (Z.to_nat (p_sz p - addr)) addr 0 ;;
  ret (len, Some addr).

Definition argint (n : Z) : K (option Z) :=
  p <- me ;;
  fetchint (u32 (tf_esp (p_tf p) + 4 + 4 * n)).

Definition argptr (n size : Z) : K (option Z) :=
  o <- argint n ;;
  match o with
  | None => ret None
  | Some i =>
    p <- me ;;
    if (p_sz p <=? u32 i) || (p_sz p <? u32 (u32 i + size)) then ret None else ret (Some (u32 i))
  end.

Definition argstr (n : Z) : K (option Z * option Z) :=
  o <- argint n ;;
  match o with
  | None => ret (None, None)
  | Some addr => fetchstr (u32 addr)
  end.

(** The string at a pointer that [fetchstr] has accepted with length [len]. *)
Definition ustr (p len : Z) : K bytes := ubytes p (Z.to_nat len).

(** [argstr] followed by the use of the string: [None] when it fails. *)
Definition argpath (n : Z) : K (option bytes) :=
  ' (r, p) <- argstr n ;;
  match r, p with
  | Some len, Some p => s <- ustr p len ;; ret (Some s)
  | _, _ => ret None
  end.

Section sysproc.
Context `{LY : Layout} `{PO : Ports}.

(** ** sysproc.c *)

Definition sys_fork : K Z := fork.

(** [status] is not initialised in C; [exit] does not use it. *)
Definition sys_exit : K Z := exit 0 ;; ret 0.

Definition sys_wait : K Z := wait.

Definition sys_kill : K Z :=
  o <- argint 0 ;;
  match o with None => ret (-1) | Some pid => kill pid end.

Definition sys_getpid : K Z := p <- me ;; ret (p_pid p).

Definition sys_sbrk : K Z :=
  o <- argint 0 ;;
  match o with
  | None => ret (-1)
  | Some n =>
    p <- me ;;
    let addr := s32 (p_sz p) in
    r <- growproc n ;;
    ret (if r <? 0 then -1 else addr)
  end.

(** [ticks - ticks0 < n] compares unsigned numbers. *)
Fixpoint sleep_loop (fuel : nat) (ticks0 n : Z) : K Z :=
  t <- gets k_ticks ;;
  if u32 (t - ticks0) <? u32 n then
    p <- me ;;
    if cbool (p_killed p) then release LTicks ;; ret (-1) else
    sleep CTicks LTicks ;;
    match fuel with O => fun _ => NoFuel | S fuel => sleep_loop fuel ticks0 n end
  else release LTicks ;; ret 0.

Definition sys_sleep : K Z :=
  o <- argint 0 ;;
  match o with
  | None => ret (-1)
  | Some n =>
    acquire LTicks ;;
    ticks0 <- gets k_ticks ;;
    sleep_loop 1 ticks0 (s32 (n * 100))
  end.

Definition sys_uptime : K Z :=
  acquire LTicks ;;
  xticks <- gets k_ticks ;;
  release LTicks ;;
  ret (s32 xticks).

Definition sys_shutdown : K Z :=
  p <- me ;;
  if negb (p_uid p =? 0) then ret 2 else
  outw 0xB004 0x2000 ;;
  ret 0.

Definition sys_reboot : K Z :=
  p <- me ;;
  if negb (p_uid p =? 0) then ret 2 else
  lidt 0 0 ;;
  ret 0.

(** [get_date_time] takes a pointer but is called without one: [t] is
    whatever the caller's frame holds in its place. *)
Definition sys_time (t : Z) : K Z :=
  r <- get_date_time t ;;
  ret (u32 r).

(** The result of [argstr] is not tested: without a checked string the pointer
    is not known to point to one, and what follows is undefined. *)
Definition sys_sethostname : K Z :=
  o <- argpath 0 ;;
  p <- me ;;
  if negb (p_uid p =? 0) then ret 2 else
  match o with
  | None => fault
  | Some s =>
    let len := strlen s + 1 in
    if 256 <? len then ret 1 else
    modify (set_hostname_len (fun _ => len)) ;;
    modify (set_hostname (fun h => splice h 0 (take (Z.to_nat len) (s ++ [0])))) ;;
    ret 0
  end.

Definition sys_gethostname : K Z :=
  ' (_, buf) <- argstr 0 ;;
  n <- gets k_hostname_len ;;
  h <- gets k_hostname ;;
  match buf with
  | None => fault
  | Some buf => ustores buf (take (Z.to_nat n) h) ;; ret n
  end.

(** ** sysuser.c *)

Definition sys_getuid : K Z := p <- me ;; ret (u32 (p_uid p)).

(** [n] keeps the value it has when the argument cannot be read; that value
    is not defined, and is given here as [n0]. *)
Definition sys_setuid (n0 : Z) : K Z :=
  o <- argint 0 ;;
  i <- myproc ;;
  setp i (set_uid (fun _ => default n0 o)) ;;
  ret 0.
End sysproc.

(** ** What the argument functions let through *)

(** The byte at a user address. *)
Definition ubyte (s : kst) (va : Z) : option Z :=
  match translate (k_pm s) (k_cr3 s) va with
  | Some (a, _) => p ← k_pm s !! PGROUNDDOWN a; Some (p !!! Z.to_nat (a mod PGSIZE))
  | None => None
  end.

(** [bs] are the bytes of user memory from [va] on. *)
Definition ubytes_at (s : kst) (va : Z) (bs : bytes) : Prop :=
  forall i, (i < length bs)%nat -> ubyte s (va + Z.of_nat i) = bs !! i.

Lemma uload_spec s va b Q : ubyte s va = Some b -> Q b s -> wp (uload va) Q s.
Proof.
  unfold ubyte, uload, page_get. intros H HQ. kstep. destruct (translate _ _ va) as [[a e]|]; [|done].
  cbn in H. kstep. destruct (k_pm s !! PGROUNDDOWN a); [|done]. cbn in H. kstep. by simplify_eq.
Qed.

Lemma ubytes_at_cons s va b bs : 0 <= va -> va + Z.of_nat (length bs) < 2 ^ 32 -> ubytes_at s va (b :: bs) ->
  ubyte s va = Some b /\ ubytes_at s (u32 (va + 1)) bs.
Proof.
  intros H0 Hr H. split.
  - specialize (H 0%nat). rewrite Z.add_0_r in H. apply H. cbn. lia.
  - intros i Hi. etrans; [|apply (H (S i)); cbn; lia].
    rewrite u32_small by lia. f_equal. lia.
Qed.

Lemma ubytes_spec s va bs Q : 0 <= va -> va + Z.of_nat (length bs) < 2 ^ 32 -> ubytes_at s va bs ->
  Q bs s -> wp (ubytes va (length bs)) Q s.
Proof.
  revert va Q. induction bs as [|b bs IH]; intros va Q H0 Hr Hb HQ; cbn [ubytes length]; kstep; [done|].
  cbn in Hr. apply ubytes_at_cons in Hb as [H1 H2]; [|lia..]. eapply uload_spec; [done|]. kstep.
  rewrite u32_small in * by lia. apply IH; [lia..|done|]. by kstep.
Qed.

Lemma scan_nul_spec s va bs len : 0 <= va -> va + Z.of_nat (length bs) < 2 ^ 32 -> ubytes_at s va bs ->
  wp (scan_nul (length bs) va len) (fun r s' => s' = s /\
    r = if bool_decide (0 ∈ bs) then Some (len + Z.of_nat (length (cstr bs))) else None) s.
Proof.
  revert va len. induction bs as [|b bs IH]; intros va len H0 Hr Hb; cbn [scan_nul length cstr]; [done|].
  cbn in Hr. apply ubytes_at_cons in Hb as [H1 H2]; [|lia..]. kstep. eapply uload_spec; [done|].
  destruct (Z.eqb_spec b 0) as [->|Hne].
  - kstep. rewrite bool_decide_true by set_solver. split; [done|]. f_equal. cbn. lia.
  - rewrite u32_small in * by lia. eapply wp_mono; [apply IH; [lia..|done]|].
    intros r s' [-> ->]. split; [done|]. rewrite (bool_decide_ext (0 ∈ bs) (0 ∈ b :: bs)) by set_solver.
    destruct (bool_decide (0 ∈ b :: bs)); [|done]. f_equal. cbn. lia.
Qed.

(** The current process, and its size. *)
Definition running (s : kst) (i : nat) : Prop := c_proc (k_cpu s) = Some i.

Lemma wp_me s i Q : running s i -> Q (k_procs s !!! i) s -> wp me Q s.
Proof. intros H HQ. unfold me, myproc, getp. kstep. rewrite H. by kstep. Qed.

(** C31. fetchstr on an address below the size of the process finds the
    string: with the process's memory up to its size mapped, it returns the
    length of the bytes before the first NUL, and fails exactly when there is
    no NUL before the end of the process's memory; it changes nothing. *)
Theorem fetchstr_finds_nul s i addr bs :
  running s i -> 0 <= addr < p_sz (k_procs s !!! i) -> p_sz (k_procs s !!! i) < 2 ^ 32 ->
  addr + Z.of_nat (length bs) = p_sz (k_procs s !!! i) -> ubytes_at s addr bs ->
  wp (fetchstr addr) (fun r s' => s' = s /\
    r = (if bool_decide (0 ∈ bs) then Some (Z.of_nat (length (cstr bs))) else None, Some addr)) s.
Proof.
  intros Hi Ha Hsz Hlen Hb. unfold fetchstr. kstep. apply (wp_me _ i); [done|].
  rewrite (proj2 (Z.leb_gt _ _)) by lia. kstep.
  replace (Z.to_nat _) with (length bs) by lia.
  eapply wp_mono; [apply scan_nul_spec; [lia..|done]|]. intros r s' [-> ->]. by kstep.
Qed.

Lemma uword_spec s va bs Q : 0 <= va -> va + 4 < 2 ^ 32 -> length bs = 4%nat -> ubytes_at s va bs ->
  Q (le_val bs) s -> wp (uword va) Q s.
Proof.
  intros H0 Hr Hl Hb HQ. unfold uword. kstep. rewrite <- Hl. apply ubytes_spec; [lia|rewrite Hl; lia|done|].
  by kstep.
Qed.

Lemma argint_spec s i n bs : running s i -> let p := k_procs s !!! i in
  let a := u32 (tf_esp (p_tf p) + 4 + 4 * n) in
  p_sz p <= KERNBASE -> length bs = 4%nat -> ubytes_at s a bs ->
  wp (argint n) (fun r s' => s' = s /\ r = if a + 4 <=? p_sz p then Some (s32 (le_val bs)) else None) s.
Proof.
  intros Hi p a Hsz Hl Hb. unfold argint, fetchint. kstep. apply (wp_me _ i); [done|]. fold p. fold a.
  kstep. apply (wp_me _ i); [done|]. fold p. pose proof (u32_range (tf_esp (p_tf p) + 4 + 4 * n)) as Ha.
  fold a in Ha. unfold KERNBASE in Hsz. destruct (Z.leb_spec (p_sz p) a) as [|Hlt]; cbn [orb].
  { kstep. by rewrite (proj2 (Z.leb_gt _ _)) by lia. }
  rewrite u32_small by lia. destruct (Z.ltb_spec (p_sz p) (a + 4)) as [|Hge].
  { kstep. by rewrite (proj2 (Z.leb_gt _ _)) by lia. }
  kstep. eapply uword_spec; [lia|lia|done..|]. kstep. by rewrite (proj2 (Z.leb_le _ _)) by lia.
Qed.

Lemma argptr_eq s i n size bs : running s i -> let p := k_procs s !!! i in
  let a := u32 (tf_esp (p_tf p) + 4 + 4 * n) in let v := u32 (s32 (le_val bs)) in
  p_sz p <= KERNBASE -> length bs = 4%nat -> ubytes_at s a bs ->
  wp (argptr n size) (fun r s' => s' = s /\
    r = if (a + 4 <=? p_sz p) && (v <? p_sz p) && (u32 (v + size) <=? p_sz p) then Some v else None) s.
Proof.
  intros Hi p a v Hsz Hl Hb. unfold argptr. kstep. eapply wp_mono; [by apply (argint_spec s i n bs)|].
  intros r s' [-> ->]. fold p a. destruct (a + 4 <=? p_sz p); cbn [andb]; [|by kstep].
  kstep. apply (wp_me _ i); [done|]. fold p v.
  rewrite (Z.ltb_antisym (p_sz p) v), (Z.ltb_antisym (u32 (v + size)) (p_sz p)).
  destruct (p_sz p <=? v); cbn [negb orb andb]; [by kstep|]. destruct (u32 (v + size) <=? p_sz p); by kstep.
Qed.

(** C22. argptr checks its block: for a size that is not negative it returns
    the pointer argument exactly when the argument word itself and the whole
    block of that size lie below the size of the process (no wrap-around can
    make an outside block pass), and fails otherwise; it changes nothing. *)
Theorem argptr_block_inside s i n size bs : running s i -> let p := k_procs s !!! i in
  let a := u32 (tf_esp (p_tf p) + 4 + 4 * n) in let v := u32 (s32 (le_val bs)) in
  p_sz p <= KERNBASE -> length bs = 4%nat -> ubytes_at s a bs -> 0 <= size < 2 ^ 31 ->
  wp (argptr n size) (fun r s' => s' = s /\
    (r = Some v /\ a + 4 <= p_sz p /\ v < p_sz p /\ v + size <= p_sz p \/
     r = None /\ ~ (a + 4 <= p_sz p /\ v < p_sz p /\ v + size <= p_sz p))) s.
Proof.
  intros Hi p a v Hsz Hl Hb Hs. eapply wp_mono; [by apply (argptr_eq s i n size bs)|].
  intros r s' [-> ->]. split; [done|]. fold p a v. pose proof (u32_range (s32 (le_val bs))) as Hv. fold v in Hv.
  unfold KERNBASE in Hsz. destruct (Z.leb_spec (a + 4) (p_sz p)), (Z.ltb_spec v (p_sz p)); cbn [andb];
    try (right; split; [done|lia]).
  rewrite u32_small by lia. destruct (Z.leb_spec (v + size) (p_sz p)); [left|right]; (split; [done|lia]).
Qed.

(** C39. A negative size passes the check of argptr: whenever the pointer is
    inside the process and the size is negative but not below minus the
    pointer, argptr accepts. sys_read and sys_write take the size from the
    user, so a count of -1 reaches fileread and filewrite, although the
    comment of argptr promises a block within the process. *)
Theorem argptr_negative_size s i n size bs : running s i -> let p := k_procs s !!! i in
  let a := u32 (tf_esp (p_tf p) + 4 + 4 * n) in let v := u32 (s32 (le_val bs)) in
  p_sz p <= KERNBASE -> length bs = 4%nat -> ubytes_at s a bs ->
  a + 4 <= p_sz p -> v < p_sz p -> - v <= size < 0 ->
  wp (argptr n size) (fun r s' => s' = s /\ r = Some v) s.
Proof.
  intros Hi p a v Hsz Hl Hb Ha Hv Hs. eapply wp_mono; [by apply (argptr_eq s i n size bs)|].
  intros r s' [-> ->]. split; [done|]. fold p a v. unfold KERNBASE in Hsz.
  rewrite (u32_small (v + size)) by lia. by rewrite !(proj2 (Z.leb_le _ _)), (proj2 (Z.ltb_lt _ _)) by lia.
Qed.

(** ** Witnesses

    One page of user memory at address 0, with the word 8 at address 20 and
    the string "hi" at address 4090. *)

Definition demo_page : bytes := splice (put32 (replicate 4096 1) 20 8) 4090 [104; 105; 0; 1; 1; 0].
Definition demo_user : kst :=
  set_procs (fun _ => [set_sz (fun _ => 4096) (set_tf (fun t => set_esp (fun _ => 16) t) proc0)])
    (set_cpu (fun _ => Cpu 0 0 false true (Some 0%nat))
      (set_cr3 (fun _ => 0x1000)
        (set_pm (fun _ => {[ KERNBASE + 0x1000 := put32 (replicate 4096 0) 0 0x2007;
                             KERNBASE + 0x2000 := put32 (replicate 4096 0) 0 0x3007;
                             KERNBASE + 0x3000 := demo_page ]}) kst0))).

Lemma demo_user_arg : ubytes_at demo_user 20 [8; 0; 0; 0].
Proof. intros i Hi. cbn in Hi. do 4 (destruct i; [vm_compute; reflexivity|]). lia. Qed.

Lemma demo_user_str : ubytes_at demo_user 4090 [104; 105; 0; 1; 1; 0].
Proof. intros i Hi. cbn in Hi. do 6 (destruct i; [vm_compute; reflexivity|]). lia. Qed.

Lemma fetchstr_finds_nul_witness :
  wp (fetchstr 4090) (fun r s' => r = (Some 2, Some 4090)) demo_user.
Proof.
  eapply wp_mono; [apply (fetchstr_finds_nul demo_user 0 4090 [104; 105; 0; 1; 1; 0]);
    try done; exact demo_user_str|]. intros r s' [_ ->]. done.
Defined.

Lemma argptr_block_inside_witness :
  wp (argptr 0 4088) (fun r s' => s' = demo_user /\
    (r = Some 8 /\ 24 <= 4096 /\ 8 < 4096 /\ 8 + 4088 <= 4096 \/
     r = None /\ ~ (24 <= 4096 /\ 8 < 4096 /\ 8 + 4088 <= 4096))) demo_user.
Proof.
  apply (argptr_block_inside demo_user 0 0 4088 [8; 0; 0; 0]); try done. exact demo_user_arg.
Defined.

Lemma argptr_negative_size_witness :
  wp (argptr 0 (-1)) (fun r s' => s' = demo_user /\ r = Some 8) demo_user.
Proof.
  apply (argptr_negative_size demo_user 0 0 (-1) [8; 0; 0; 0]); try done. exact demo_user_arg.
Defined.
