(* ===== verification/Exec.v ===== *)
(** * Running a program (kernel/exec.c, kernel/include/elf.h)

    [exec] as in the code: the checks of the ELF header, the segments, the
    guard page and the stack, and the commit to the new image; every failure
    goes through [exec_bad], which frees what has been built. *)

From stdpp Require Import prelude gmap strings.
From S2P Require Import Prelude Ring Kernel Port Spinlock Sched Bio Log StringC Fs Console Kalloc Vm File Proc Tty.

Definition MAXARG : nat := 32.
Definition ELF_MAGIC : Z := 0x464C457F.
Definition ELF_PROG_LOAD : Z := 1.

(** [struct elfhdr]: the fields that are used. *)
Record elfhdr := Elfhdr { elf_magic : Z; elf_entry : Z; elf_phoff : Z; elf_phnum : Z }.
Definition ELFHDR_SIZE : Z := 52.
Definition elfhdr_dec (l : bytes) : elfhdr :=
  Elfhdr (get32 l 0) (get32 l 24) (get32 l 28) (get16 l 44).

(** [struct proghdr] *)
Record proghdr := Proghdr { ph_type : Z; ph_off : Z; ph_vaddr : Z; ph_filesz : Z; ph_memsz : Z }.
Definition PROGHDR_SIZE : Z := 32.
Definition proghdr_dec (l : bytes) : proghdr :=
  Proghdr (get32 l 0) (get32 l 4) (get32 l 8) (get32 l 16) (get32 l 20).

(** [last]: what follows the last slash. *)
Fixpoint basename (s last : bytes) : bytes :=
  match s with
  | [] => last
  | c :: s => basename s (if c =? SLASH then s else last)
  end.

Section exec.
Context `{LY : Layout} `{PO : Ports}.

(** [bad:] *)
Definition exec_bad (pgdir : Z) (ip : option nat) : K Z :=
  when negb (pgdir =? 0) do freevm pgdir ;;
  match ip with Some ip => iunlockput ip | None => ret tt end ;;
  ret (-1).

(** The loop over the program headers: the size of the image, or nothing. *)
Fixpoint exec_load (n : nat) (ip : nat) (pgdir off sz : Z) : K (option Z) :=
  match n with
  | O => ret (Some sz)
  | S n =>
    ' (r, bs) <- readi ip (u32 off) PROGHDR_SIZE ;;
    if negb (u32 r =? PROGHDR_SIZE) then ret None else
    let ph := proghdr_dec bs in
    let off := s32 (off + PROGHDR_SIZE) in
    if negb (ph_type ph =? ELF_PROG_LOAD) then exec_load n ip pgdir off sz else
    if ph_memsz ph <? ph_filesz ph then ret None else
    sz <- allocuvm pgdir sz (u32 (ph_vaddr ph + ph_memsz ph)) ;;
    if sz =? 0 then ret None else
    r <- loaduvm pgdir (ph_vaddr ph) ip (ph_off ph) (ph_filesz ph) ;;
    if r <? 0 then ret None else
    exec_load n ip pgdir off (u32 sz)
  end.

(** The loop that pushes the argument strings: the stack pointer and the
    addresses of the strings. *)
Fixpoint exec_args (pgdir : Z) (argv : list bytes) (argc : nat) (sp : Z) : K (option (Z * list Z)) :=
  match argv with
  | [] => ret (Some (sp, []))
  | a :: argv =>
    if (MAXARG <=? argc)%nat then ret None else
    let sp := Z.land (u32 (sp - (strlen a + 1))) (Z.lnot 3) in
    r <- copyout pgdir sp (a ++ [0]) (strlen a + 1) ;;
    if r <? 0 then ret None else
    o <- exec_args pgdir argv (S argc) sp ;;
    ret ((fun '(sp', l) => (sp', sp :: l)) <$> o)
  end.

Definition ustack (sp : Z) (args : list Z) : list Z :=
  let argc := Z.of_nat (length args) in
  [0xffffffff; argc; u32 (sp - (argc + 1) * 4)] ++ args ++ [0].

Definition exec (path : bytes) (argv : list bytes) : K Z :=
  o <- namei path ;;
  match o with
  | None => ret (-1)
  | Some ip =>
    ilock ip ;;
    ' (r, bs) <- readi ip 0 ELFHDR_SIZE ;;
    if u32 r <? ELFHDR_SIZE then exec_bad 0 (Some ip) else
    (* a negative result passes the comparison of unsigned numbers *)
    if (length bs <? Z.to_nat ELFHDR_SIZE)%nat then fault else
    let elf := elfhdr_dec bs in
    if negb (elf_magic elf =? ELF_MAGIC) then exec_bad 0 (Some ip) else
    pgdir <- setupkvm ;;
    if pgdir =? 0 then exec_bad 0 (Some ip) else
    o <- exec_load (Z.to_nat (elf_phnum elf)) ip pgdir (s32 (elf_phoff elf)) 0 ;;
    match o with
    | None => exec_bad pgdir (Some ip)
    | Some sz =>
      iunlockput ip ;;
      let sz := PGROUNDUP sz in
      sz <- allocuvm pgdir sz (u32 (sz + 2 * PGSIZE)) ;;
      if sz =? 0 then exec_bad pgdir None else
      let sz := u32 sz in
      clearpteu pgdir (u32 (sz - 2 * PGSIZE)) ;;
      o <- exec_args pgdir argv 0 sz ;;
      match o with
      | None => exec_bad pgdir None
      | Some (sp, args) =>
        let words := ustack sp args in
        let sp := u32 (sp - Z.of_nat (length words) * 4) in
        r <- copyout pgdir sp (concat (le_bytes 4 <$> words)) (Z.of_nat (length words) * 4) ;;
        if r <? 0 then exec_bad pgdir None else
        i <- myproc ;;
        setp i (set_name (fun n => splice n 0 (safestrcpy (basename path path) 16))) ;;
        me <- getp i ;;
        let oldpgdir := p_pgdir me in
        setp i (set_pgdir (fun _ => pgdir)) ;;
        setp i (set_sz (fun _ => sz)) ;;
        setp i (set_tf (fun t => set_esp (fun _ => sp) (set_eip (fun _ => elf_entry elf) t))) ;;
        switchuvm i ;;
        freevm oldpgdir ;;
        ret 0
      end
    end
  end.
End exec.
