(* ===== verification/Sysfile.v ===== *)
(** * File system calls (kernel/sysfile.c)

    Each call with its argument checks, transactions and failure paths.
    Strings given by the user are read when they have been checked. *)

From stdpp Require Import prelude gmap strings.
From S2P Require Import Prelude Ring Kernel Port Spinlock Sched Bio Log StringC Fs Console Kalloc Vm File Proc Tty Rtc Syscall Exec.

Definition O_RDONLY : Z := 0x000.
Definition O_WRONLY : Z := 0x001.
Definition O_RDWR : Z := 0x002.
Definition O_CREAT : Z := 0x100.
Definition SEEK_SET : Z := 0.
Definition SEEK_CUR : Z := 1.

(** The descriptor and the file. *)
Definition argfd (n : Z) : K (option (Z * nat)) :=
  o <- argint n ;;
  match o with
  | None => ret None
  | Some fd =>
    p <- me ;;
    if (fd <? 0) || (Z.of_nat NOFILE <=? fd) then ret None else
    ret (match p_ofile p !!! Z.to_nat fd with Some f => Some (fd, f) | None => None end)
  end.

(** The first free descriptor, or -1. *)
Definition fdalloc (f : nat) : K Z :=
  i <- myproc ;;
  p <- getp i ;;
  match list_find (fun o => o = None) (p_ofile p) with
  | Some (fd, _) => setp i (set_ofile (<[fd := Some f]>)) ;; ret (Z.of_nat fd)
  | None => ret (-1)
  end.

Section sysfile.
Context `{LY : Layout} `{PO : Ports}.

Definition sys_dup : K Z :=
  o <- argfd 0 ;;
  match o with
  | None => ret (-1)
  | Some (_, f) =>
    fd <- fdalloc f ;;
    if fd <? 0 then ret (-1) else
    _ <- filedup f ;;
    ret fd
  end.

(** The arguments of [read] and [write]: the file, the buffer and the count,
    in the order of the tests. *)
Definition arg_rw : K (option (nat * Z * Z)) :=
  o <- argfd 0 ;;
  match o with
  | None => ret None
  | Some (_, f) =>
    o <- argint 2 ;;
    match o with
    | None => ret None
    | Some n =>
      o <- argptr 1 n ;;
      ret ((fun p => (f, p, n)) <$> o)
    end
  end.

Definition sys_read : K Z :=
  o <- arg_rw ;;
  match o with
  | None => ret (-1)
  | Some (f, p, n) =>
    ' (r, bs) <- fileread f n ;;
    ustores p bs ;;
    ret r
  end.

Definition sys_write : K Z :=
  o <- arg_rw ;;
  match o with
  | None => ret (-1)
  | Some (f, p, n) =>
    bs <- ubytes p (Z.to_nat n) ;;
    filewrite f bs n
  end.

Definition sys_lseek : K Z :=
  o <- argfd 0 ;;
  match o with
  | None => ret (-1)
  | Some (_, f) =>
    offset <- argint 1 ;;
    match offset with
    | None => ret (-1)
    | Some offset =>
      base <- argint 2 ;;
      match base with
      | None => ret (-1)
      | Some base =>
        when base =? SEEK_SET do setf_ f (set_foff (fun _ => u32 offset)) ;;
        when base =? SEEK_CUR do setf_ f (set_foff (fun off => u32 (off + offset))) ;;
        ret 0
      end
    end
  end.

Definition sys_close : K Z :=
  o <- argfd 0 ;;
  match o with
  | None => ret (-1)
  | Some (fd, f) =>
    i <- myproc ;;
    setp i (set_ofile (<[Z.to_nat fd := None]>)) ;;
    fileclose f ;;
    ret 0
  end.

(** [struct stat] in user memory: the fields at their offsets. *)
Definition STAT_SIZE : Z := 20.
Definition ustat (a : Z) (st : stat) : K unit :=
  ustores a (le_bytes 2 (st_type st)) ;;
  ustores (u32 (a + 4)) (le_bytes 4 (st_dev st)) ;;
  ustores (u32 (a + 8)) (le_bytes 4 (st_ino st)) ;;
  ustores (u32 (a + 12)) (le_bytes 2 (st_nlink st)) ;;
  ustores (u32 (a + 16)) (le_bytes 4 (st_size st)).

Definition sys_fstat : K Z :=
  o <- argfd 0 ;;
  match o with
  | None => ret (-1)
  | Some (_, f) =>
    o <- argptr 1 STAT_SIZE ;;
    match o with
    | None => ret (-1)
    | Some a =>
      ' (r, st) <- filestat f ;;
      match st with Some st => ustat a st | None => ret tt end ;;
      ret r
    end
  end.

(** [bad:] of [sys_link] *)
Definition link_bad (ip : nat) : K Z :=
  ilock ip ;;
  seti ip (set_nlink (fun n => s16 (n - 1))) ;;
  iupdate ip ;;
  iunlockput ip ;;
  commit_trans ;;
  ret (-1).

Definition sys_link : K Z :=
  old <- argpath 0 ;;
  match old with
  | None => ret (-1)
  | Some old =>
    new <- argpath 1 ;;
    match new with
    | None => ret (-1)
    | Some new =>
      o <- namei old ;;
      match o with
      | None => ret (-1)
      | Some ip =>
        begin_trans ;;
        ilock ip ;;
        x <- geti ip ;;
        if i_type x =? T_DIR then iunlockput ip ;; commit_trans ;; ret (-1) else
        seti ip (set_nlink (fun n => s16 (n + 1))) ;;
        iupdate ip ;;
        iunlock ip ;;
        ' (o, name) <- nameiparent new ;;
        match o with
        | None => link_bad ip
        | Some dp =>
          ilock dp ;;
          d <- geti dp ;;
          x <- geti ip ;;
          r <- (if negb (i_dev d =? i_dev x) then ret (-1) else dirlink dp name (i_inum x)) ;;
          if r <? 0 then iunlockput dp ;; link_bad ip else
          iunlockput dp ;;
          iput ip ;;
          commit_trans ;;
          ret 0
        end
      end
    end
  end.

Fixpoint isdirempty_loop (fuel : nat) (dp : nat) (off : Z) : K bool :=
  d <- geti dp ;;
  if off <? i_size d then
    match fuel with
    | O => fun _ => NoFuel
    | S fuel =>
      ' (r, bs) <- readi dp (u32 off) DESZ ;;
      if negb (r =? DESZ) then panic "isdirempty: readi" else
      if negb (de_inum (dirent_dec bs) =? 0) then ret false else
      isdirempty_loop fuel dp (off + DESZ)
    end
  else ret true.

Definition isdirempty (dp : nat) : K bool :=
  d <- geti dp ;; isdirempty_loop (entries (i_size d)) dp (2 * DESZ).
(** [bad:] of [sys_unlink] *)
Definition unlink_bad (dp : nat) : K Z := iunlockput dp ;; commit_trans ;; ret (-1).

Definition sys_unlink : K Z :=
  path <- argpath 0 ;;
  match path with
  | None => ret (-1)
  | Some path =>
    ' (o, name) <- nameiparent path ;;
    match o with
    | None => ret (-1)
    | Some dp =>
      begin_trans ;;
      ilock dp ;;
      if (namecmp name (str ".") =? 0) || (namecmp name (str "..") =? 0) then unlink_bad dp else
      o <- dirlookup dp name ;;
      match o with
      | None => unlink_bad dp
      | Some (ip, off) =>
        ilock ip ;;
        x <- geti ip ;;
        if i_nlink x <? 1 then panic "unlink: nlink < 1" else
        e <- (if i_type x =? T_DIR then isdirempty ip else ret true) ;;
        if negb e then iunlockput ip ;; unlink_bad dp else
        p <- me ;;
        if negb (p_uid p =? 0) && negb (i_uid x =? p_uid p) then iunlockput ip ;; unlink_bad dp else
        r <- writei dp (replicate (Z.to_nat DESZ) 0) off DESZ ;;
        if negb (r =? DESZ) then panic "unlink: writei" else
        (if i_type x =? T_DIR then
           seti dp (set_nlink (fun n => s16 (n - 1))) ;;
           iupdate dp
         else ret tt) ;;
        iunlockput dp ;;
        seti ip (set_nlink (fun n => s16 (n - 1))) ;;
        iupdate ip ;;
        iunlockput ip ;;
        commit_trans ;;
        ret 0
      end
    end
  end.

Definition create (path : bytes) (type major minor : Z) : K (option nat) :=
  ' (o, name) <- nameiparent path ;;
  match o with
  | None => ret None
  | Some dp =>
    ilock dp ;;
    o <- dirlookup dp name ;;
    match o with
    | Some (ip, _) =>
      iunlockput dp ;;
      ilock ip ;;
      x <- geti ip ;;
      if (type =? T_FILE) && (i_type x =? T_FILE) then ret (Some ip) else
      iunlockput ip ;;
      ret None
    | None =>
      d <- geti dp ;;
      ip <- ialloc (i_dev d) type ;;
      ilock ip ;;
      p <- me ;;
      seti ip (set_imajor (fun _ => major)) ;;
      seti ip (set_iminor (fun _ => minor)) ;;
      seti ip (set_nlink (fun _ => 1)) ;;
      seti ip (set_iuid (fun _ => p_uid p)) ;;
      iupdate ip ;;
      x <- geti ip ;;
      (if type =? T_DIR then
         seti dp (set_nlink (fun n => s16 (n + 1))) ;;
         iupdate dp ;;
         r <- dirlink ip (str ".") (i_inum x) ;;
         if r <? 0 then panic "create dots" else
         d <- geti dp ;;
         r <- dirlink ip (str "..") (i_inum d) ;;
         if r <? 0 then panic "create dots" else ret tt
       else ret tt) ;;
      r <- dirlink dp name (i_inum x) ;;
      if r <? 0 then panic "create: dirlink" else
      iunlockput dp ;;
      ret (Some ip)
    end
  end.

(** The inode that is opened, locked, or nothing. *)
Definition open_inode (path : bytes) (omode : Z) : K (option nat) :=
  if has omode O_CREAT then
    begin_trans ;;
    o <- create path T_FILE 0 0 ;;
    commit_trans ;;
    ret o
  else
    o <- namei path ;;
    match o with
    | None => ret None
    | Some ip =>
      ilock ip ;;
      x <- geti ip ;;
      if (i_type x =? T_DIR) && negb (omode =? O_RDONLY) then iunlockput ip ;; ret None
      else ret (Some ip)
    end.

(** [filealloc] and [fdalloc]; what was allocated is undone on failure. *)
Definition open_fd : K (option (nat * Z)) :=
  o <- filealloc ;;
  match o with
  | None => ret None
  | Some f =>
    fd <- fdalloc f ;;
    if fd <? 0 then fileclose f ;; ret None else ret (Some (f, fd))
  end.

Definition sys_open : K Z :=
  path <- argpath 0 ;;
  match path with
  | None => ret (-1)
  | Some path =>
    omode <- argint 1 ;;
    match omode with
    | None => ret (-1)
    | Some omode =>
      o <- namei path ;;
      omode <- match o with
               | Some ip =>
                 ilock ip ;;
                 x <- geti ip ;;
                 let omode := if i_type x =? T_DEV then clrf omode O_CREAT else omode in
                 iunlockput ip ;;
                 ret omode
               | None => ret omode
               end ;;
      o <- open_inode path omode ;;
      match o with
      | None => ret (-1)
      | Some ip =>
        o <- open_fd ;;
        match o with
        | None => iunlockput ip ;; ret (-1)
        | Some (f, fd) =>
          iunlock ip ;;
          setf_ f (set_ftype (fun _ => FD_INODE)) ;;
          setf_ f (set_fip (fun _ => Some ip)) ;;
          setf_ f (set_foff (fun _ => 0)) ;;
          setf_ f (set_readable (fun _ => of_bool (negb (has omode O_WRONLY)))) ;;
          setf_ f (set_writable (fun _ => of_bool (has omode O_WRONLY || has omode O_RDWR))) ;;
          p <- me ;;
          x <- geti ip ;;
          when negb (p_uid p =? 0) && negb (i_uid x =? p_uid p) do setf_ f (set_writable (fun _ => 0)) ;;
          ret fd
        end
      end
    end
  end.

(** The common end of the calls that only create. *)
Definition created (o : option nat) : K Z :=
  match o with
  | None => commit_trans ;; ret (-1)
  | Some ip => iunlockput ip ;; commit_trans ;; ret 0
  end.

Definition sys_mkdir : K Z :=
  begin_trans ;;
  path <- argpath 0 ;;
  o <- match path with None => ret None | Some path => create path T_DIR 0 0 end ;;
  created o.

Definition sys_mknod : K Z :=
  begin_trans ;;
  path <- argpath 0 ;;
  o <- match path with
       | None => ret None
       | Some path =>
         major <- argint 1 ;;
         match major with
         | None => ret None
         | Some major =>
           minor <- argint 2 ;;
           match minor with
           | None => ret None
           | Some minor => create path T_DEV (s16 major) (s16 minor)
           end
         end
       end ;;
  created o.
Definition sys_chdir : K Z :=
  path <- argpath 0 ;;
  match path with
  | None => ret (-1)
  | Some path =>
    o <- namei path ;;
    match o with
    | None => ret (-1)
    | Some ip =>
      ilock ip ;;
      x <- geti ip ;;
      if negb (i_type x =? T_DIR) then iunlockput ip ;; ret (-1) else
      iunlock ip ;;
      i <- myproc ;;
      p <- getp i ;;
      match p_cwd p with None => fault | Some cwd => iput cwd end ;;
      setp i (set_cwd (fun _ => Some ip)) ;;
      ret 0
    end
  end.

(** The argument strings of [execv], at most [n] more. *)
Fixpoint execv_args (n : nat) (uargv : Z) (i : Z) : K (option (list bytes)) :=
  match n with
  | O => ret None
  | S n =>
    o <- fetchint (u32 (uargv + 4 * i)) ;;
    match o with
    | None => ret None
    | Some uarg =>
      if uarg =? 0 then ret (Some []) else
      ' (len, p) <- fetchstr (u32 uarg) ;;
      match len, p with
      | Some len, Some p =>
        a <- ustr p len ;;
        l <- execv_args n uargv (i + 1) ;;
        ret ((fun l => a :: l) <$> l)
      | _, _ => ret None
      end
    end
  end.

Definition sys_execv : K Z :=
  path <- argpath 0 ;;
  match path with
  | None => ret (-1)
  | Some path =>
    o <- argint 1 ;;
    match o with
    | None => ret (-1)
    | Some uargv =>
      o <- execv_args MAXARG (u32 uargv) 0 ;;
      match o with None => ret (-1) | Some argv => exec path argv end
    end
  end.

Definition sys_pipe : K Z :=
  o <- argptr 0 8 ;;
  match o with
  | None => ret (-1)
  | Some fd =>
    ' (r, rf, wf) <- pipealloc ;;
    match r <? 0, rf, wf with
    | false, Some rf, Some wf =>
      fd0 <- fdalloc rf ;;
      fd1 <- (if fd0 <? 0 then ret (-1) else fdalloc wf) ;;
      if (fd0 <? 0) || (fd1 <? 0) then
        i <- myproc ;;
        when 0 <=? fd0 do setp i (set_ofile (<[Z.to_nat fd0 := None]>)) ;;
        fileclose rf ;;
        fileclose wf ;;
        ret (-1)
      else
        ustores fd (le_bytes 4 fd0) ;;
        ustores (u32 (fd + 4)) (le_bytes 4 fd1) ;;
        ret 0
    | _, _, _ => ret (-1)
    end
  end.

(** The name of the entry of [parent] for the inode [ip], as [buf] holds it. *)
Fixpoint name_of_inode_loop (fuel : nat) (ip parent : nat) (off : Z) : K (option bytes) :=
  d <- geti parent ;;
  if off <? i_size d then
    match fuel with
    | O => fun _ => NoFuel
    | S fuel =>
      ' (r, bs) <- readi parent off DESZ ;;
      if negb (r =? DESZ) then panic "can't read directory" else
      x <- geti ip ;;
      if de_inum (dirent_dec bs) =? i_inum x
      then ret (Some (safestrcpy (de_name (dirent_dec bs)) (Z.of_nat DIRSIZ)))
      else name_of_inode_loop fuel ip parent (u32 (off + DESZ))
    end
  else ret None.

Definition name_of_inode (ip parent : nat) : K (option bytes) :=
  d <- geti parent ;; name_of_inode_loop (entries (i_size d)) ip parent 0.

(** [buf] is a user address. The depth of the recursion is the depth of the
    directory, which the fuel bounds. *)
Fixpoint name_for_inode (fuel : nat) (buf n : Z) (ip : nat) : K Z :=
  root <- namei (str "/") ;;
  match root with
  | None => fault
  | Some root =>
    x <- geti ip ;;
    rt <- geti root ;;
    if i_inum x =? i_inum rt then
      ustore buf SLASH ;; ret 1
    else if i_type x =? T_DIR then
      o <- dirlookup ip (str "..") ;;
      match o with
      | None => fault
      | Some (parent, _) =>
        nm <- name_of_inode ip parent ;;
        match nm with
        | None => panic "could not find name of inode"
        | Some node_name =>
          match fuel with
          | O => fun _ => NoFuel
          | S fuel =>
            path_offset <- name_for_inode fuel buf n parent ;;
            ustores (u32 (buf + path_offset)) (safestrcpy node_name (n - path_offset)) ;;
            let path_offset := path_offset + strlen node_name in
            if path_offset =? n - 1 then
              ustore (u32 (buf + path_offset)) 0 ;; ret n
            else
              ustore (u32 (buf + path_offset)) SLASH ;;
              iput parent ;;
              ret (path_offset + 1)
          end
        end
      end
    else if (i_type x =? T_DEV) || (i_type x =? T_FILE) then panic "process cwd is not a directory"
    else panic "unknown inode type"
  end.

(** [fuel] bounds the depth of the current directory. *)
Definition sys_getcwd (fuel : nat) : K Z :=
  o <- argint 1 ;;
  match o with
  | None => ret (-1)
  | Some n =>
    o <- argptr 0 n ;;
    match o with
    | None => ret (-1)
    | Some p =>
      x <- me ;;
      match p_cwd x with
      | None => fault
      | Some cwd => name_for_inode fuel p n cwd
      end
    end
  end.

Definition sys_touch : K Z :=
  begin_trans ;;
  path <- argpath 0 ;;
  match path with
  | None =>
    cprintf (str "touch: path error!" ++ [NEWLINE]) [] ;;
    commit_trans ;;
    ret (-1)
  | Some path =>
    o <- create path T_FILE 0 0 ;;
    match o with
    | None =>
      cprintf (str "touch: can not create inode!" ++ [NEWLINE]) [] ;;
      commit_trans ;;
      ret (-1)
    | Some ip => iunlockput ip ;; commit_trans ;; ret 0
    end
  end.
End sysfile.
