(* ===== verification/Trap.v ===== *)
(** * Traps and system call dispatch (kernel/trap.c, kernel/syscall.c)

    [trap] on the frame that trapasm.S builds: system calls through their
    table, device interrupts, faults, and on the way out the exit of a killed
    process and the switch on a clock tick. [TypingTrap] has the theorem on any
    sequence of traps; [Segment] how a trap gets here. *)

From stdpp Require Import prelude gmap strings.
From S2P Require Import Prelude Ring Kernel Port Spinlock Sched Bio Log StringC Fs Console Kalloc Vm File Proc Tty Irqchip Kbd Ide Rtc Syscall Exec Sysfile.

Definition T_SYSCALL : Z := 64.

Section trap.
Context `{LY : Layout} `{PO : Ports}.

(** What the system leaves open at a call: the stack slot that [sys_time]
    passes on, the value [sys_setuid] uses when its argument cannot be read,
    and the depth allowed to [sys_getcwd]. *)
Record loose := Loose { l_time : Z; l_uid : Z; l_depth : nat }.
Context (lo : loose).

(** [syscalls[num]] *)
Definition syscalls (num : Z) : option (K Z) :=
  match num with
  | 1 => Some sys_fork | 2 => Some sys_exit | 3 => Some sys_wait | 4 => Some sys_pipe
  | 5 => Some sys_read | 6 => Some sys_kill | 7 => Some sys_execv | 8 => Some sys_fstat
  | 9 => Some sys_chdir | 10 => Some sys_dup | 11 => Some sys_getpid | 12 => Some sys_sbrk
  | 13 => Some sys_sleep | 14 => Some sys_uptime | 15 => Some sys_open | 16 => Some sys_write
  | 17 => Some sys_mknod | 18 => Some sys_unlink | 19 => Some sys_link | 20 => Some sys_mkdir
  | 21 => Some sys_close | 22 => Some (sys_getcwd (l_depth lo)) | 23 => Some sys_shutdown
  | 24 => Some sys_lseek | 25 => Some sys_touch | 26 => Some sys_reboot
  | 27 => Some (sys_time (l_time lo)) | 28 => Some sys_gethostname | 29 => Some sys_sethostname
  | 30 => Some sys_getuid | 31 => Some (sys_setuid (l_uid lo))
  | _ => None
  end.

Definition syscall : K unit :=
  i <- myproc ;;
  p <- getp i ;;
  let num := s32 (tf_eax (p_tf p)) in
  match syscalls num with
  | Some f =>
    r <- f ;;
    setp i (set_tf (set_eax (fun _ => u32 r)))
  | None =>
    cprintf (str "%d %s: unknown sys call %d" ++ [NEWLINE]) [CInt (p_pid p); CStr (p_name p); CInt num] ;;
    setp i (set_tf (set_eax (fun _ => u32 (-1))))
  end.

(** [if(proc->killed) exit(0)] *)
Definition exit_if_killed : K unit :=
  p <- me ;; when cbool (p_killed p) do exit 0.

(** The test at the end of [trap], for a trap from user space. *)
Definition exit_if_killed_user (tf : trapframe) : K unit :=
  o <- gets (fun s => c_proc (k_cpu s)) ;;
  match o with
  | None => ret tt
  | Some i =>
    p <- getp i ;;
    when cbool (p_killed p) && (Z.land (tf_cs tf) 3 =? DPL_USER) do exit 0
  end.

(** The switch on the trap number. [cr2] is the faulting address. *)
Definition trap_irq (fuel : nat) (cr2 : Z) (tf : trapframe) : K unit :=
  let n := tf_trapno tf in
  if n =? T_IRQ0 + IRQ_TIMER then
    id <- gets (fun s => c_id (k_cpu s)) ;;
    (if (id =? 0)%nat then
       acquire LTicks ;;
       modify (set_ticks (fun t => u32 (t + 1))) ;;
       wakeup CTicks ;;
       release LTicks
     else ret tt) ;;
    lapiceoi
  else if n =? T_IRQ0 + IRQ_IDE then ideintr fuel ;; lapiceoi
  else if n =? T_IRQ0 + IRQ_IDE + 1 then ret tt
  else if n =? T_IRQ0 + IRQ_KBD then kbdintr fuel ;; lapiceoi
  else if n =? T_IRQ0 + IRQ_COM1 then uartintr fuel ;; lapiceoi
  else if (n =? T_IRQ0 + 7) || (n =? T_IRQ0 + IRQ_SPURIOUS) then
    id <- gets (fun s => c_id (k_cpu s)) ;;
    cprintf (str "cpu%d: spurious interrupt at %x:%x" ++ [NEWLINE])
      [CInt (Z.of_nat id); CInt (tf_cs tf); CInt (tf_eip tf)] ;;
    lapiceoi
  else
    o <- gets (fun s => c_proc (k_cpu s)) ;;
    id <- gets (fun s => c_id (k_cpu s)) ;;
    let bad :=
      cprintf (str "unexpected trap %d from cpu %d eip %x (cr2=0x%x)" ++ [NEWLINE])
        [CInt n; CInt (Z.of_nat id); CInt (tf_eip tf); CInt cr2] ;;
      panic "trap" in
    match o with
    | None => bad
    | Some i =>
      if Z.land (tf_cs tf) 3 =? 0 then bad else setp i (set_killed (fun _ => 1))
    end.

Definition trap (fuel : nat) (cr2 : Z) (tf : trapframe) : K unit :=
  if tf_trapno tf =? T_SYSCALL then
    exit_if_killed ;;
    i <- myproc ;;
    setp i (set_tf (fun _ => tf)) ;;
    syscall ;;
    exit_if_killed
  else
    trap_irq fuel cr2 tf ;;
    exit_if_killed_user tf ;;
    o <- gets (fun s => c_proc (k_cpu s)) ;;
    match o with
    | None => ret tt
    | Some i =>
      p <- getp i ;;
      when bool_decide (p_state p = RUNNING) && (tf_trapno tf =? T_IRQ0 + IRQ_TIMER) do yield
    end ;;
    exit_if_killed_user tf.
End trap.
