(* ===== verification/Segment.v ===== *)
(** * Segments and gates (include/mmu.h, [seginit] in kernel/vm.c, [tvinit] and
      [idtinit] in kernel/trap.c, kernel/vectors.pl)

    The descriptors are packed the way the bit fields of the C structures lay
    them out, and read the way the processor reads them. The table of the
    entry points is an argument.

    The theorem: with the tables the kernel installs, a user program enters
    the kernel by [int] through the system call gate only; every interrupt and
    exception starts its own entry point with the privileges of the kernel;
    and whatever the number, the entry point leaves a trap frame of the same
    shape. *)

From stdpp Require Import prelude.
From S2P Require Import Prelude Kernel Vm Proc Trap.

(** ** Bit fields *)

(** Fields with their widths, the first in the lowest bits. *)
Fixpoint pack (l : list (Z * Z)) : Z :=
  match l with [] => 0 | (w, v) :: l => v mod 2 ^ w + 2 ^ w * pack l end.
Fixpoint unpack (ws : list Z) (x : Z) : list Z :=
  match ws with [] => [] | w :: ws => x mod 2 ^ w :: unpack ws (x / 2 ^ w) end.

Lemma unpack_pack l : Forall (fun f => 0 <= f.1) l -> unpack l.*1 (pack l) = (fun f => f.2 mod 2 ^ f.1) <$> l.
Proof.
  induction 1 as [|[w v] l Hw Hl IH]; [done|]. cbn in *. pose proof (Z.pow_pos_nonneg 2 w ltac:(lia) Hw).
  rewrite (Z.mul_comm (2 ^ w)), Z.mod_add, Z.mod_mod, Z.div_add by lia.
  rewrite (Z.div_small (v mod 2 ^ w)) by (by apply Z.mod_pos_bound). by rewrite Z.add_0_l, IH.
Qed.

(** ** Descriptors *)

Record segdesc := Segdesc {
  lim_15_0 : Z; base_15_0 : Z; base_23_16 : Z; sg_type : Z; sg_s : Z; sg_dpl : Z; sg_p : Z;
  lim_19_16 : Z; sg_avl : Z; sg_rsv1 : Z; sg_db : Z; sg_g : Z; base_31_24 : Z }.

Record gatedesc := Gatedesc {
  off_15_0 : Z; gt_cs : Z; gt_args : Z; gt_rsv1 : Z; gt_type : Z; gt_s : Z; gt_dpl : Z; gt_p : Z; off_31_16 : Z }.

Definition seg_widths : list Z := [16; 16; 8; 4; 1; 2; 1; 4; 1; 1; 1; 1; 8].
Definition gate_widths : list Z := [16; 16; 5; 3; 4; 1; 2; 1; 16].

Definition seg_word (d : segdesc) : Z :=
  pack (zip seg_widths [lim_15_0 d; base_15_0 d; base_23_16 d; sg_type d; sg_s d; sg_dpl d; sg_p d;
                        lim_19_16 d; sg_avl d; sg_rsv1 d; sg_db d; sg_g d; base_31_24 d]).
Definition gate_word (d : gatedesc) : Z :=
  pack (zip gate_widths [off_15_0 d; gt_cs d; gt_args d; gt_rsv1 d; gt_type d; gt_s d; gt_dpl d; gt_p d; off_31_16 d]).

Definition SEG_KCODE : Z := 1.
Definition SEG_KCPU : Z := 3.
Definition NSEGS : Z := 7.
Definition STA_X : Z := 8.
Definition STA_W : Z := 2.
Definition STA_R : Z := 2.
Definition STS_IG32 : Z := 14.
Definition STS_TG32 : Z := 15.

Definition SEG (type base lim dpl : Z) : segdesc :=
  Segdesc (Z.land (Z.shiftr lim 12) 0xffff) (Z.land (u32 base) 0xffff) (Z.land (Z.shiftr (u32 base) 16) 0xff)
    type 1 dpl 1 (Z.shiftr (u32 lim) 28) 0 0 1 1 (Z.shiftr (u32 base) 24).

Definition SETGATE (istrap : bool) (sel off d : Z) : gatedesc :=
  Gatedesc (Z.land (u32 off) 0xffff) sel 0 0 (if istrap then STS_TG32 else STS_IG32) 0 d 1 (Z.shiftr (u32 off) 16).

(** ** The tables of the kernel, as words in memory

    The tables, the limits in the table registers, the segment register of the
    processor's own data with what it addresses ([cpu] and [proc]), and whether
    [tickslock] is held. *)
Record tables := Tables {
  gdt : list Z; idt : list Z; gdtr : Z; idtr : Z; gs : Z; my_cpu : Z; my_proc : Z; ticks_locked : bool }.

Definition lgdt (size : Z) (t : tables) : tables :=
  Tables (gdt t) (idt t) (size - 1) (idtr t) (gs t) (my_cpu t) (my_proc t) (ticks_locked t).
Definition lidt (size : Z) (t : tables) : tables :=
  Tables (gdt t) (idt t) (gdtr t) (size - 1) (gs t) (my_cpu t) (my_proc t) (ticks_locked t).
Definition set_gdt (i d : Z) (t : tables) : tables :=
  Tables (<[Z.to_nat i := d]> (gdt t)) (idt t) (gdtr t) (idtr t) (gs t) (my_cpu t) (my_proc t) (ticks_locked t).
Definition set_idt (i d : Z) (t : tables) : tables :=
  Tables (gdt t) (<[Z.to_nat i := d]> (idt t)) (gdtr t) (idtr t) (gs t) (my_cpu t) (my_proc t) (ticks_locked t).

(** [c] is the address of the processor's structure, [cpu] that of [c->cpu]. *)
Definition seginit (c cpu : Z) (t : tables) : tables :=
  let t := set_gdt SEG_KCODE (seg_word (SEG (Z.lor STA_X STA_R) 0 0xffffffff 0)) t in
  let t := set_gdt SEG_KDATA (seg_word (SEG STA_W 0 0xffffffff 0)) t in
  let t := set_gdt SEG_UCODE (seg_word (SEG (Z.lor STA_X STA_R) 0 0xffffffff DPL_USER)) t in
  let t := set_gdt SEG_UDATA (seg_word (SEG STA_W 0 0xffffffff DPL_USER)) t in
  let t := set_gdt SEG_KCPU (seg_word (SEG STA_W cpu 8 0)) t in
  let t := lgdt (8 * NSEGS) t in
  Tables (gdt t) (idt t) (gdtr t) (idtr t) (Z.shiftl SEG_KCPU 3) c 0 (ticks_locked t).

Fixpoint tvinit_loop (vectors : Z -> Z) (n : nat) (i : Z) (t : tables) : tables :=
  match n with
  | O => t
  | S n => tvinit_loop vectors n (i + 1) (set_idt i (gate_word (SETGATE false (Z.shiftl SEG_KCODE 3) (vectors i) 0)) t)
  end.

Definition tvinit (vectors : Z -> Z) (t : tables) : tables :=
  let t := tvinit_loop vectors 256 0 t in
  let t := set_idt T_SYSCALL (gate_word (SETGATE true (Z.shiftl SEG_KCODE 3) (vectors T_SYSCALL) DPL_USER)) t in
  Tables (gdt t) (idt t) (gdtr t) (idtr t) (gs t) (my_cpu t) (my_proc t) false.

Definition idtinit (t : tables) : tables := lidt (8 * 256) t.

(** ** The processor *)

(** The segment a selector names: type, privilege, base, limit in bytes. *)
Record seg := Seg { seg_type : Z; seg_dpl : Z; seg_base : Z; seg_limit : Z }.

Definition seg_read (x : Z) : option seg :=
  match unpack seg_widths x with
  | [l0; b0; b1; ty; s; dpl; p; l1; _; _; _; g; b2] =>
    if (s =? 1) && (p =? 1) then
      let lim := l0 + 2 ^ 16 * l1 in
      Some (Seg ty dpl (b0 + 2 ^ 16 * b1 + 2 ^ 24 * b2) (if g =? 1 then lim * 4096 + 4095 else lim))
    else None
  | _ => None
  end.

(** A descriptor of a table, within the limit of its register. *)
Definition desc (table : list Z) (limit i : Z) : option Z :=
  if 8 * i + 7 <=? limit then table !! Z.to_nat i else None.

(** Interrupt [n] at privilege [cpl]; [soft] for the instruction [int]. The
    result is the new privilege, the address, and whether interrupts stay
    enabled. *)
Definition deliver (t : tables) (soft : bool) (n cpl : Z) : option (Z * Z * bool) :=
  x ← desc (idt t) (idtr t) n;
  match unpack gate_widths x with
  | [o0; cs; _; _; ty; s; dpl; p; o1] =>
    if (s =? 0) && (p =? 1) && ((ty =? STS_IG32) || (ty =? STS_TG32)) && (negb soft || (cpl <=? dpl)) then
      y ← desc (gdt t) (gdtr t) (cs / 8);
      code ← seg_read y;
      if (8 <=? seg_type code) && (seg_dpl code <=? cpl)
      then Some (seg_dpl code, o0 + 2 ^ 16 * o1, ty =? STS_TG32) else None
    else None
  | _ => None
  end.

(** ** The entry points (vectors.pl)

    What [vector i] pushes before [alltraps], the last one first. *)
Definition vector_pushes (i : Z) : list Z :=
  if negb ((i =? 8) || ((10 <=? i) && (i <=? 14)) || (i =? 17)) then [i; 0] else [i].

(** The exceptions for which the processor itself pushes an error code. *)
Definition has_errcode (i : Z) : bool := bool_decide (i ∈ [8; 10; 11; 12; 13; 14; 17]).
Definition pushed (i err : Z) (soft : bool) : list Z := if negb soft && has_errcode i then [err] else [].

(** ** The tables installed *)

Section tables.
Context (vectors : Z -> Z).

Definition the_gate (n : Z) : Z :=
  gate_word (SETGATE (n =? T_SYSCALL) (Z.shiftl SEG_KCODE 3) (vectors n) (if n =? T_SYSCALL then DPL_USER else 0)).

Lemma tvinit_loop_idt n i t k : 0 <= i -> (Z.to_nat i + n <= length (idt t))%nat ->
  length (idt (tvinit_loop vectors n i t)) = length (idt t) /\
  idt (tvinit_loop vectors n i t) !! k =
  if decide (Z.to_nat i <= k < Z.to_nat i + n)%nat then Some (gate_word (SETGATE false (Z.shiftl SEG_KCODE 3) (vectors (Z.of_nat k)) 0))
  else idt t !! k.
Proof.
  revert i t. induction n as [|n IH]; intros i t Hi Hl; cbn [tvinit_loop]; [by rewrite decide_False by lia|].
  destruct (IH (i + 1) (set_idt i (gate_word (SETGATE false (Z.shiftl SEG_KCODE 3) (vectors i) 0)) t)) as [E1 E2];
    [lia|cbn; rewrite length_insert; lia|].
  split; [rewrite E1; apply length_insert|]. rewrite E2. cbn [set_idt idt]. destruct (decide (k = Z.to_nat i)) as [->|Hne].
  - rewrite decide_False, decide_True, list_lookup_insert_eq by lia. by rewrite Z2Nat.id.
  - rewrite list_lookup_insert_ne by done. destruct (decide (Z.to_nat (i + 1) <= k < Z.to_nat (i + 1) + n)%nat);
      [rewrite decide_True by lia|rewrite decide_False by lia]; done.
Qed.

Lemma tvinit_loop_gdt n i t : gdt (tvinit_loop vectors n i t) = gdt t /\ gdtr (tvinit_loop vectors n i t) = gdtr t.
Proof. revert i t. induction n as [|n IH]; intros; cbn [tvinit_loop]; [done|]. by rewrite !(proj1 (IH _ _)), !(proj2 (IH _ _)). Qed.

Lemma tvinit_lookup t n : length (idt t) = 256%nat -> 0 <= n < 256 ->
  idt (tvinit vectors t) !! Z.to_nat n = Some (the_gate n).
Proof.
  intros Hl Hn. unfold tvinit, the_gate. cbn [idt set_idt]. destruct (tvinit_loop_idt 256 0 t (Z.to_nat n)) as [E1 E2]; [lia..|].
  destruct (Z.eqb_spec n T_SYSCALL) as [->|Hne].
  - rewrite list_lookup_insert_eq; [done|]. rewrite E1, Hl. unfold T_SYSCALL. lia.
  - rewrite list_lookup_insert_ne by (unfold T_SYSCALL in *; lia). rewrite E2.
    rewrite decide_True by lia. by rewrite Z2Nat.id by lia.
Qed.

(** A gate is read back as it was set. *)
Lemma gate_read istrap sel off d : 0 <= sel < 2 ^ 16 -> 0 <= off < 2 ^ 32 -> 0 <= d < 4 ->
  exists o0 o1, unpack gate_widths (gate_word (SETGATE istrap sel off d)) =
    [o0; sel; 0; 0; if istrap then STS_TG32 else STS_IG32; 0; d; 1; o1] /\ o0 + 2 ^ 16 * o1 = off.
Proof.
  intros Hs Ho Hd. unfold gate_word. change gate_widths with ((zip gate_widths [off_15_0 (SETGATE istrap sel off d); sel; 0; 0; gt_type (SETGATE istrap sel off d); 0; d; 1; off_31_16 (SETGATE istrap sel off d)]).*1) at 1.
  rewrite unpack_pack by (repeat (constructor; [cbn; lia|]); constructor).
  cbn [zip zip_with gate_widths fmap list_fmap fst snd SETGATE off_15_0 gt_cs gt_args gt_rsv1 gt_type gt_s gt_dpl gt_p off_31_16].
  unfold u32. rewrite (Z.mod_small off) by done. change 0xffff with (Z.ones 16).
  rewrite Z.land_ones, Z.shiftr_div_pow2, Z.mod_mod by lia.
  rewrite (Z.mod_small sel), (Z.mod_small d), (Z.mod_small (off / 2 ^ 16)) by first [lia|split; [apply Z.div_pos; lia|apply Z.div_lt_upper_bound; lia]].
  exists (off mod 2 ^ 16), (off / 2 ^ 16). split; [by destruct istrap|].
  pose proof (Z.div_mod off (2 ^ 16)). lia.
Qed.

Lemma seginit_kcode c cpu t : length (gdt t) = 7%nat ->
  exists y, desc (gdt (seginit c cpu t)) (gdtr (seginit c cpu t)) SEG_KCODE = Some y /\
    seg_read y = Some (Seg 10 0 0 0xffffffff).
Proof.
  intros Hl. destruct (gdt t) as [|x0 [|x1 [|x2 [|x3 [|x4 [|x5 [|x6 [|]]]]]]]] eqn:E; try discriminate Hl.
  unfold seginit, desc. cbn [gdt gdtr lgdt set_gdt]. rewrite E.
  change (8 * SEG_KCODE + 7 <=? 8 * NSEGS - 1) with true. cbv iota. eexists. split; [reflexivity|]. by vm_compute.
Qed.

(** Delivery through a gate and a code segment of the kernel. *)
Lemma deliver_gate t n soft cpl y : desc (idt t) (idtr t) n = Some (the_gate n) ->
  desc (gdt t) (gdtr t) SEG_KCODE = Some y -> seg_read y = Some (Seg 10 0 0 0xffffffff) -> 0 <= vectors n < 2 ^ 32 -> 0 <= cpl ->
  deliver t soft n cpl =
  if negb soft || (cpl <=? if n =? T_SYSCALL then DPL_USER else 0) then Some (0, vectors n, n =? T_SYSCALL) else None.
Proof.
  intros Hd Hy Hs Hv Hc.
  destruct (gate_read (n =? T_SYSCALL) (Z.shiftl SEG_KCODE 3) (vectors n) (if n =? T_SYSCALL then DPL_USER else 0))
    as (o0 & o1 & Hu & Ho); [by vm_compute|done|by destruct (n =? T_SYSCALL)|].
  unfold deliver. rewrite Hd. cbn [mbind option_bind]. unfold the_gate. rewrite Hu.
  change (Z.shiftl SEG_KCODE 3 / 8) with SEG_KCODE. rewrite Hy.
  cbn [mbind option_bind]. rewrite Hs. cbn [mbind option_bind seg_type seg_dpl]. rewrite (proj2 (Z.leb_le 0 cpl)), Ho by done.
  destruct (n =? T_SYSCALL), (negb soft || _); reflexivity.
Qed.

Lemma tvinit_gdt t : gdt (tvinit vectors t) = gdt t /\ gdtr (tvinit vectors t) = gdtr t.
Proof. unfold tvinit. cbn [set_idt gdt gdtr]. apply tvinit_loop_gdt. Qed.

Lemma deliver_loaded t n soft cpl y : idt t !! Z.to_nat n = Some (the_gate n) -> 0 <= n < 256 ->
  desc (gdt t) (gdtr t) SEG_KCODE = Some y -> seg_read y = Some (Seg 10 0 0 0xffffffff) -> 0 <= vectors n < 2 ^ 32 -> 0 <= cpl ->
  deliver (idtinit t) soft n cpl =
  if negb soft || (cpl <=? if n =? T_SYSCALL then DPL_USER else 0) then Some (0, vectors n, n =? T_SYSCALL) else None.
Proof.
  intros Hk Hn Hy Hs Hv Hc. apply (deliver_gate _ n soft cpl y); [|done..]. unfold desc. cbn [idtinit lidt idt idtr].
  by rewrite (proj2 (Z.leb_le _ _)) by lia.
Qed.

Lemma deliver_kernel c cpu t n soft cpl : length (gdt t) = 7%nat -> length (idt t) = 256%nat -> 0 <= n < 256 ->
  0 <= vectors n < 2 ^ 32 -> 0 <= cpl ->
  deliver (idtinit (tvinit vectors (seginit c cpu t))) soft n cpl =
  if negb soft || (cpl <=? if n =? T_SYSCALL then DPL_USER else 0) then Some (0, vectors n, n =? T_SYSCALL) else None.
Proof.
  intros Hg Hi Hn Hv Hc. destruct (seginit_kcode c cpu t Hg) as (y & Hy & Hs).
  apply (deliver_loaded _ n soft cpl y); [by apply tvinit_lookup|done| |done..].
  by rewrite (proj1 (tvinit_gdt _)), (proj2 (tvinit_gdt _)).
Qed.

Lemma frame_shape n err soft : (soft = true -> n = T_SYSCALL) ->
  exists e, vector_pushes n ++ pushed n err soft = [n; e] /\ (e = 0 \/ e = err).
Proof.
  intros Hs. unfold vector_pushes, pushed, has_errcode.
  destruct soft; [rewrite Hs by done; exists 0; by vm_compute; auto|]. cbn [negb andb].
  destruct (_ || _ || _) eqn:E; cbn [negb].
  - exists err. rewrite bool_decide_true; [by auto|]. rewrite !elem_of_cons. lia.
  - exists 0. rewrite bool_decide_false; [by auto|]. rewrite !elem_of_cons, elem_of_nil. lia.
Qed.

(** C13. After [seginit], [tvinit] and [idtinit], whatever the tables held: a
    user program's [int n] is delivered exactly for the system call number,
    and then at the kernel's privilege, at that number's entry point, with
    interrupts left enabled; an interrupt or exception [n] is delivered at any
    privilege at its own entry point, in the kernel, with interrupts disabled
    but for the system call number; and the entry point of a delivered
    interrupt completes the same frame: the number above one error word. *)
Theorem user_enters_by_syscall c cpu t n (tt := idtinit (tvinit vectors (seginit c cpu t))) :
  length (gdt t) = 7%nat -> length (idt t) = 256%nat -> 0 <= n < 256 -> (forall i, 0 <= vectors i < 2 ^ 32) ->
  deliver tt true n 3 = (if n =? T_SYSCALL then Some (0, vectors n, true) else None) /\
  (forall cpl, 0 <= cpl -> deliver tt false n cpl = Some (0, vectors n, n =? T_SYSCALL)) /\
  (forall soft cpl err, 0 <= cpl -> (soft = true -> cpl = 3) -> is_Some (deliver tt soft n cpl) ->
    exists e, vector_pushes n ++ pushed n err soft = [n; e] /\ (e = 0 \/ e = err)).
Proof.
  intros Hg Hi Hn Hv. assert (Hd : forall soft cpl, 0 <= cpl -> deliver tt soft n cpl = _) by
    (intros; by apply deliver_kernel). split; [|split].
  - rewrite Hd by done. by destruct (n =? T_SYSCALL).
  - intros cpl Hc. by rewrite Hd.
  - intros soft cpl err Hc Hs. rewrite Hd by done. intros Hdel. apply frame_shape. intros ->. rewrite Hs in Hdel by done.
    destruct (Z.eqb_spec n T_SYSCALL); [done|]. by destruct Hdel.
Qed.
End tables.

(** A table of entry points 16 bytes apart, and the timer interrupt. *)
Lemma user_enters_by_syscall_witness :
  deliver (idtinit (tvinit (fun i => (0x80105000 + 16 * i) mod 2 ^ 32) (seginit 0x80112000 0x801120ac
    (Tables (replicate 7 0) (replicate 256 0) 0 0 0 0 0 true)))) true 32 3 = None.
Proof.
  exact (proj1 (user_enters_by_syscall (fun i => (0x80105000 + 16 * i) mod 2 ^ 32) 0x80112000 0x801120ac
    (Tables (replicate 7 0) (replicate 256 0) 0 0 0 0 0 true) 32 eq_refl eq_refl ltac:(lia)
    (fun i => Z.mod_pos_bound _ (2 ^ 32) eq_refl))).
Defined.
