(* ===== verification/Life.v ===== *)
(** * The life of a process (scheduler, exit and wait in kernel/proc.c)

    The scheduler between two uses of [swtch] is [Proc.scheduler_scan]; here
    the passes are composed, with what the processes do in between as a
    parameter.

    The theorems: a runnable process is run after at most one turn of every
    other process; and a process that exits becomes a zombie, hands its
    children to init, and wakes the parent that sleeps in [wait]. *)

From stdpp Require Import prelude gmap strings.
From S2P Require Import Prelude Kernel Port Spinlock Sched Bio Log StringC Fs Console Kalloc Vm File Proc.

(** ** The scheduler *)

(** [world (Some p)] is what happens from the switch to process [p] to the
    switch back, [world None] what happens between two passes. *)
Fixpoint scheduler_rounds (world : option nat -> K unit) (n k : nat) : K (nat * list nat) :=
  match n with
  | O => ret (k, [])
  | S n =>
    o <- scheduler_scan k ;;
    match o with
    | Some p =>
      world (Some p) ;; scheduler_return ;;
      x <- scheduler_rounds world n (S p) ;; ret (x.1, p :: x.2)
    | None => world None ;; scheduler_enter ;; scheduler_rounds world n 0
    end
  end.

(** The process table as the scheduler needs it, with [q] waiting to run. *)
Definition waiting (q n : nat) (s : kst) : Prop :=
  length (k_procs s) = n /\ (exists p, k_procs s !! q = Some p /\ p_state p = RUNNABLE) /\
  (forall j p, k_procs s !! j = Some p -> p_state p ∈ [SLEEPING; RUNNABLE; RUNNING] -> p_pgdir p <> 0).

(** The scheduler in a pass: it holds the lock of the table and nothing else. *)
Definition in_pass (q n : nat) (s : kst) : Prop :=
  waiting q n s /\ k_locks s !! LPtable = Some (c_id (k_cpu s)) /\ c_ncli (k_cpu s) = 1 /\ c_if (k_cpu s) = false.

(** The scheduler between two passes. *)
Definition between (q n : nat) (s : kst) : Prop :=
  waiting q n s /\ k_locks s !! LPtable = None /\ c_ncli (k_cpu s) = 0.

Lemma waiting_procs q n s s' : k_procs s' = k_procs s -> waiting q n s -> waiting q n s'.
Proof. unfold waiting. by intros ->. Qed.

Lemma wp_switchuvm p s Q : c_proc (k_cpu s) = Some p -> p_pgdir (k_procs s !!! p) <> 0 ->
  c_if (k_cpu s) = false -> 0 < c_ncli (k_cpu s) ->
  (forall s', k_cpu s' = k_cpu s -> k_locks s' = k_locks s -> k_procs s' = k_procs s -> Q tt s') ->
  wp (switchuvm p) Q s.
Proof.
  intros Hp Hd Hif Hn HQ. unfold switchuvm, pushcli, cli, myproc, getp, lcr3. kstep. cbn [k_cpu set_cpu set_if c_ncli set_ncli].
  rewrite (proj2 (Z.eqb_neq _ _)) by lia. kstep. cbn -[Z.add]. rewrite Hp. kstep. cbn -[Z.add Z.shiftl].
  rewrite (proj2 (Z.eqb_neq _ _)) by done. kstep. unfold popcli. kstep. cbn -[Z.add Z.sub Z.shiftl].
  kstep. cbn -[Z.add Z.sub Z.shiftl]. rewrite (proj2 (Z.ltb_ge _ _)) by lia. kstep.
  cbn -[Z.add Z.sub Z.shiftl]. rewrite (proj2 (Z.eqb_neq (_ - 1) 0)) by lia. kstep. apply HQ; [|done..].
  cbn -[Z.add Z.sub Z.shiftl]. destruct (k_cpu s); cbn in *. unfold set_ncli, set_if. cbn -[Z.add Z.sub]. f_equal; [lia|done].
Qed.

(** The slot the loop stops at. *)
Lemma next_runnable_Some ps k j : next_runnable ps k = Some j ->
  (k <= j)%nat /\ (exists p, ps !! j = Some p /\ p_state p = RUNNABLE) /\
  (forall i p, (k <= i < j)%nat -> ps !! i = Some p -> p_state p <> RUNNABLE).
Proof.
  unfold next_runnable. intros ([i p] & (Hi & Hp & Hlt)%list_find_Some & ->)%fmap_Some. cbn.
  rewrite lookup_drop in Hi. split; [lia|]. split; [eauto|]. intros i' p' Hr Hp'.
  replace i' with (k + (i' - k))%nat in Hp' by lia. apply (Hlt (i' - k)%nat); [by rewrite lookup_drop|lia].
Qed.

Lemma next_runnable_None ps k i p : next_runnable ps k = None -> (k <= i)%nat -> ps !! i = Some p -> p_state p <> RUNNABLE.
Proof.
  unfold next_runnable. intros H%fmap_None Hk Hp. apply list_find_None in H. rewrite Forall_lookup in H.
  apply (H (i - k)%nat). rewrite lookup_drop. by replace (k + (i - k))%nat with i by lia.
Qed.

Section fair.
Context (world : option nat -> K unit) (q n : nat).
(** Process [p] runs until it comes back to the scheduler, which holds the
    lock of the table again; [q] stays as it is. *)
Hypothesis world_runs : forall p s, p <> q -> c_proc (k_cpu s) = Some p -> p_state (k_procs s !!! p) = RUNNING ->
  in_pass q n s -> wp (world (Some p)) (fun _ => in_pass q n) s.
(** Between two passes interrupts do not take [q] off the table. *)
Hypothesis world_idle : forall s, between q n s -> wp (world None) (fun _ => between q n) s.

(** A scan that finds a process other than [q] leaves it running. *)
Lemma scan_other k s j : in_pass q n s -> next_runnable (k_procs s) k = Some j -> j <> q ->
  wp (scheduler_scan k) (fun o s' => o = Some j /\ in_pass q n s' /\
    c_proc (k_cpu s') = Some j /\ p_state (k_procs s' !!! j) = RUNNING) s.
Proof.
  intros ((Hl & (pq & Hq & Hrq) & Hpg) & Hlk & Hn & Hif) Hj Hne.
  destruct (next_runnable_Some _ _ _ Hj) as (Hk & (p & Hp & Hrp) & _). assert (j < length (k_procs s))%nat by by eapply lookup_lt_Some.
  unfold scheduler_scan, scheduler_dispatch, setp. kstep. rewrite Hj. kstep.
  apply wp_switchuvm; [done|by cbn; rewrite (list_lookup_total_correct _ _ _ Hp); apply (Hpg _ _ Hp); rewrite Hrp; set_solver|done|cbn; lia|].
  intros s' Hc Hls Hps. kstep. split; [done|]. unfold in_pass, waiting. cbn -[alter]. rewrite Hc, Hls, Hps. cbn -[alter]. split_and!; try done.
  - by rewrite length_alter.
  - exists pq. by rewrite list_lookup_alter_ne.
  - intros i x Hx Hrx. destruct (decide (i = j)) as [->|Hij]; [|rewrite list_lookup_alter_ne in Hx by done; eauto].
    rewrite list_lookup_alter_eq, Hp in Hx. injection Hx as <-. apply (Hpg _ _ Hp). rewrite Hrp. set_solver.
  - by rewrite lookup_total_alter_eq.
Qed.

(** A scan that reaches [q] runs it. *)
Lemma scan_q k s : in_pass q n s -> next_runnable (k_procs s) k = Some q ->
  wp (scheduler_scan k) (fun o s' => o = Some q /\ c_proc (k_cpu s') = Some q /\ p_state (k_procs s' !!! q) = RUNNING) s.
Proof.
  intros ((Hl & (p & Hp & Hrp) & Hpg) & Hlk & Hn & Hif) Hj. assert (q < length (k_procs s))%nat by by eapply lookup_lt_Some.
  unfold scheduler_scan, scheduler_dispatch, setp. kstep. rewrite Hj. kstep.
  apply wp_switchuvm; [done|by cbn; rewrite (list_lookup_total_correct _ _ _ Hp); apply (Hpg _ _ Hp); rewrite Hrp; set_solver|done|cbn; lia|].
  intros s' Hc Hls Hps. kstep. split; [done|]. cbn -[alter]. rewrite Hc, Hps. split; [done|]. by rewrite lookup_total_alter_eq.
Qed.

Lemma scan_end k s : in_pass q n s -> next_runnable (k_procs s) k = None ->
  wp (scheduler_scan k) (fun o s' => o = None /\ between q n s') s.
Proof.
  intros (Hw & Hlk & Hn & Hif) Hj. unfold scheduler_scan. kstep. rewrite Hj. kstep.
  apply wp_release; [done..|lia|]. kstep. split; [done|]. split; [by eapply waiting_procs; [|exact Hw]|].
  cbn. split; [by rewrite lookup_delete_eq|lia].
Qed.

Lemma enter_pass s : between q n s -> wp scheduler_enter (fun _ => in_pass q n) s.
Proof.
  intros (Hw & Hlk & Hn). unfold scheduler_enter, sti. kstep. apply wp_acquire; [done|].
  split; [by eapply waiting_procs; [|exact Hw]|]. cbn. rewrite lookup_insert_eq. split_and!; [done|lia|done].
Qed.

Lemma return_pass s : in_pass q n s -> wp scheduler_return (fun _ => in_pass q n) s.
Proof. intros H. unfold scheduler_return, switchkvm, lcr3. by kstep. Qed.

(** The turns before that of [q], from slot [k]. *)
Definition turns (k : nat) (l : list nat) : Prop :=
  NoDup l /\ forall x, x ∈ l -> x <> q /\ if decide (k <= q)%nat then (k <= x < q)%nat else (k <= x < n \/ x < q)%nat.

Lemma turns_cons k p l : turns (S p) l -> (k <= p < n)%nat -> p <> q -> (k <= q -> p < q)%nat -> turns k (p :: l).
Proof.
  intros [Hnd Hl] Hp Hne Hq. split.
  - constructor; [|done]. intros Hin. specialize (Hl _ Hin) as [_ Hl]. destruct (decide _); lia.
  - intros x [->|Hx]%elem_of_cons; [split; [done|]; destruct (decide (k <= q)%nat) as [Hk|]; try specialize (Hq Hk); lia|].
    specialize (Hl _ Hx) as [? Hl]. split; [done|].
    destruct (decide (k <= q)%nat) as [Hk|], (decide (S p <= q)%nat); try specialize (Hq Hk); lia.
Qed.

Lemma turns_nil k : turns k [].
Proof. split; [constructor|]. by intros x ?%elem_of_nil. Qed.

Lemma turns_wrap k l : turns 0 l -> (q < k)%nat -> turns k l.
Proof.
  intros [Hnd Hl] Hk. split; [done|]. intros x Hx. specialize (Hl _ Hx) as [? Hl]. split; [done|].
  rewrite decide_True in Hl by lia. rewrite decide_False by lia. lia.
Qed.

(** Where the loop stops, [q] being runnable. *)
Lemma next_before k s j : waiting q n s -> next_runnable (k_procs s) k = Some j -> (k <= j < n)%nat /\ (k <= q -> j <= q)%nat.
Proof.
  intros (Hl & (p & Hp & Hr) & _) Hj. destruct (next_runnable_Some _ _ _ Hj) as (Hk & (p' & Hp' & _) & Hlt).
  split; [apply lookup_lt_Some in Hp'; lia|]. intros Hkq. destruct (decide (j <= q)%nat); [done|]. by destruct (Hlt q p ltac:(lia) Hp).
Qed.

Lemma next_past k s : waiting q n s -> next_runnable (k_procs s) k = None -> (q < k)%nat.
Proof.
  intros (Hl & (p & Hp & Hr) & _) Hj. destruct (decide (q < k)%nat); [done|]. by destruct (next_runnable_None _ _ q p Hj ltac:(lia) Hp).
Qed.

(** The rounds from slot [k] reach [q], within [m] of them. *)
Definition reaches (m k : nat) (s : kst) : Prop := exists j, (j <= m)%nat /\
  wp (x <- scheduler_rounds world j k ;; o <- scheduler_scan x.1 ;; ret (x.2, o))
    (fun r s' => turns k r.1 /\ r.2 = Some q /\ c_proc (k_cpu s') = Some q /\ p_state (k_procs s' !!! q) = RUNNING) s.

Definition distance (k : nat) : nat := if decide (k <= q)%nat then q - k else n - k + S q.

Lemma reaches_now m k s : in_pass q n s -> next_runnable (k_procs s) k = Some q -> reaches m k s.
Proof.
  intros Hs Hj. exists 0%nat. split; [lia|]. cbn [scheduler_rounds]. kstep. eapply wp_mono; [by apply scan_q|].
  intros o s' (-> & ?). kstep. by split; [apply turns_nil|].
Qed.

Lemma reaches_other m k s j : in_pass q n s -> next_runnable (k_procs s) k = Some j -> j <> q ->
  (forall s', in_pass q n s' -> reaches m (S j) s') -> reaches (S m) k s.
Proof.
  intros Hs Hj Hne IH. destruct (proj1 (wp_Ok _ _ _) (scan_other k s j Hs Hj Hne)) as (? & s1 & E1 & -> & Hs1 & Hc & Hr).
  destruct (proj1 (wp_Ok _ _ _) (world_runs j s1 Hne Hc Hr Hs1)) as ([] & s2 & E2 & Hs2).
  destruct (proj1 (wp_Ok _ _ _) (return_pass s2 Hs2)) as ([] & s3 & E3 & Hs3).
  destruct (IH s3 Hs3) as (i & Hi & Hw). exists (S i). split; [lia|]. destruct (next_before k s j (proj1 Hs) Hj) as [Hjn Hjq].
  unfold wp, bind, ret in *. cbn [scheduler_rounds]. unfold bind at 1. rewrite E1. unfold bind, ret. rewrite E2, E3.
  destruct (scheduler_rounds world i (S j) s3) as [x s4| | | | |]; [|done..]. cbn [fst snd] in *.
  destruct (scheduler_scan x.1 s4) as [o s5| | | | |]; [|done..]. cbn [fst snd] in *. destruct Hw as (Ht & Hw).
  split; [|done]. apply (turns_cons k j); [done|lia|done|lia].
Qed.

Lemma reaches_wrap m k s : in_pass q n s -> next_runnable (k_procs s) k = None ->
  (forall s', in_pass q n s' -> reaches m 0 s') -> reaches (S m) k s.
Proof.
  intros Hs Hj IH. destruct (proj1 (wp_Ok _ _ _) (scan_end k s Hs Hj)) as (? & s1 & E1 & -> & Hs1).
  destruct (proj1 (wp_Ok _ _ _) (world_idle s1 Hs1)) as ([] & s2 & E2 & Hs2).
  destruct (proj1 (wp_Ok _ _ _) (enter_pass s2 Hs2)) as ([] & s3 & E3 & Hs3).
  destruct (IH s3 Hs3) as (i & Hi & Hw). exists (S i). split; [lia|]. pose proof (next_past k s (proj1 Hs) Hj).
  unfold wp, bind, ret in *. cbn [scheduler_rounds]. unfold bind at 1. rewrite E1. unfold bind, ret. rewrite E2, E3.
  destruct (scheduler_rounds world i 0 s3) as [x s4| | | | |]; [|done..]. cbn [fst snd] in *.
  destruct (scheduler_scan x.1 s4) as [o s5| | | | |]; [|done..]. cbn [fst snd] in *. destruct Hw as (Ht & Hw).
  split; [|done]. by apply turns_wrap.
Qed.

Lemma rounds_reach m k s : in_pass q n s -> (distance k <= m)%nat -> reaches m k s.
Proof.
  unfold distance. revert k s. induction m as [|m IH]; intros k s Hs Hm;
    (destruct (next_runnable (k_procs s) k) as [j|] eqn:Ej;
     [destruct (next_before k s j (proj1 Hs) Ej) as [Hj1 Hj2]|pose proof (next_past k s (proj1 Hs) Ej)]).
  - destruct (decide (k <= q)%nat) as [Hk|]; [|lia]. specialize (Hj2 Hk). apply reaches_now; [done|]. by replace q with j by lia.
  - rewrite decide_False in Hm by lia. lia.
  - destruct (decide (j = q)) as [->|Hne]; [by apply reaches_now|]. apply (reaches_other m k s j); [done..|].
    intros s' Hs'. apply IH; [done|]. destruct (decide (k <= q)%nat) as [Hk|]; [specialize (Hj2 Hk)|]; destruct (decide (S j <= q)%nat); lia.
  - apply (reaches_wrap m k s); [done..|]. intros s' Hs'. apply IH; [done|]. rewrite decide_True by lia. rewrite decide_False in Hm by lia.
    destruct Hs as ((Hl & (p & Hp & _) & _) & _). apply lookup_lt_Some in Hp. lia.
Qed.
End fair.

(** C10. The scheduler is fair. Whatever the processes do between two switches,
    as long as they come back with the table's lock and leave [q] runnable: from
    any point of a pass over a table of [n] slots the scheduler runs [q] after
    at most [n] rounds, and no other process has had more than one turn before
    it. *)
Theorem scheduler_fair world q n k s :
  (forall p s, p <> q -> c_proc (k_cpu s) = Some p -> p_state (k_procs s !!! p) = RUNNING ->
    in_pass q n s -> wp (world (Some p)) (fun _ => in_pass q n) s) ->
  (forall s, between q n s -> wp (world None) (fun _ => between q n) s) ->
  in_pass q n s ->
  exists j, (j <= n)%nat /\
  wp (x <- scheduler_rounds world j k ;; o <- scheduler_scan x.1 ;; ret (x.2, o))
    (fun r s' => NoDup r.1 /\ q ∉ r.1 /\ r.2 = Some q /\
       c_proc (k_cpu s') = Some q /\ p_state (k_procs s' !!! q) = RUNNING) s.
Proof.
  intros Hr Hi Hs. assert (q < n)%nat by (destruct Hs as ((<- & (p & Hp & _) & _) & _); by eapply lookup_lt_Some).
  destruct (rounds_reach world q n Hr Hi n k s Hs) as (j & Hj & Hw); [unfold distance; destruct (decide _); lia|].
  exists j. split; [done|]. eapply wp_mono; [exact Hw|]. intros r s' ((Hnd & Ht) & Hw'). split; [done|]. split; [|done].
  intros Hq. by destruct (Ht _ Hq).
Qed.

(** Three processes that give the processor up at once; the second waits
    while the scheduler is past it. *)
Definition yielding (o : option nat) : K unit :=
  match o with Some p => setp p (set_pstate (fun _ => RUNNABLE)) | None => ret tt end.
Definition demo_sched : kst :=
  acquired LPtable (set_procs (fun _ => replicate 3 (set_pstate (fun _ => RUNNABLE) (set_pgdir (fun _ => 0x80400000) proc0))) kst0).

Lemma in_pass_yield q n p s : p <> q -> in_pass q n s -> p_state (k_procs s !!! p) = RUNNING ->
  wp (yielding (Some p)) (fun _ => in_pass q n) s.
Proof.
  intros Hne ((Hl & (x & Hx & Hrx) & Hpg) & Hlk) Hr. unfold yielding, setp. kstep. split; [|done].
  unfold waiting. cbn -[alter]. rewrite length_alter. split; [done|]. split; [exists x; by rewrite list_lookup_alter_ne|].
  intros j y Hy Hst. destruct (decide (j = p)) as [->|]; [|rewrite list_lookup_alter_ne in Hy by done; eauto].
  rewrite list_lookup_alter_eq in Hy. apply fmap_Some in Hy as (z & Hz & ->). apply (Hpg _ _ Hz).
  rewrite (list_lookup_total_correct _ _ _ Hz) in Hr. rewrite Hr. set_solver.
Qed.

Lemma scheduler_fair_witness :
  exists j, (j <= 3)%nat /\
  wp (x <- scheduler_rounds yielding j 2 ;; o <- scheduler_scan x.1 ;; ret (x.2, o))
    (fun r s' => NoDup r.1 /\ 1%nat ∉ r.1 /\ r.2 = Some 1%nat /\
       c_proc (k_cpu s') = Some 1%nat /\ p_state (k_procs s' !!! 1%nat) = RUNNING) demo_sched.
Proof.
  apply (scheduler_fair yielding 1 3 2 demo_sched).
  - intros p s Hne _ Hr Hs. by apply in_pass_yield.
  - intros s Hs. exact Hs.
  - split; [|by vm_compute]. split; [reflexivity|]. split; [eexists; split; reflexivity|].
    intros j p Hp _. destruct j as [|[|[|j]]]; [injection Hp as <-; done..|discriminate Hp].
Defined.

(** ** exit *)

Section exit.
Context `{LY : Layout} `{PO : Ports} `{DO : DevOps}.

(** How many of the descriptors in [l] are the file [f]. *)
Definition opens (f : nat) (l : list (option nat)) : Z := Z.of_nat (length (filter (fun o => o = Some f) l)).
(** The file table without the references in [l]. *)
Definition unref (l : list (option nat)) (ft : list file) : list file :=
  imap (fun f x => set_fref (fun r => r - opens f l) x) ft.

Definition quiet (s s' : kst) : Prop := ctx s s' /\ k_initproc s' = k_initproc s.

Lemma wp_fileclose_shared f s Q : cpu_ok s -> k_locks s !! LFtable = None -> (f < length (k_ftable s))%nat ->
  1 < f_ref (k_ftable s !!! f) ->
  (forall s', quiet s s' -> k_ftable s' = alter (set_fref (fun n => n - 1)) f (k_ftable s) ->
     k_procs s' = k_procs s -> k_icache s' = k_icache s -> Q tt s') ->
  wp (fileclose f) Q s.
Proof.
  intros Hok Hl Hf Hr HQ. unfold fileclose, getf, setf_. kstep. apply wp_acquire; [done|]. kstep. cbn -[alter].
  rewrite (proj2 (Z.ltb_ge _ _)) by lia. kstep. cbn -[alter]. rewrite lookup_total_alter_eq by done. cbn -[alter].
  rewrite (proj2 (Z.ltb_lt _ _)) by lia. apply (wp_release_ctx _ _ s); [done..|by apply ctx_same|].
  intros Hc. by apply HQ.
Qed.

Lemma wp_iput_shared c s Q : cpu_ok s -> k_locks s !! LIcache = None ->
  i_ref (k_icache s !!! c) <> 1 \/ i_nlink (k_icache s !!! c) <> 0 ->
  (forall s', quiet s s' -> k_icache s' = alter (set_iref (fun n => n - 1)) c (k_icache s) ->
     k_procs s' = k_procs s -> k_ftable s' = k_ftable s -> Q tt s') ->
  wp (iput c) Q s.
Proof.
  intros Hok Hl Hr HQ. unfold iput, geti, seti. kstep. apply wp_acquire; [done|]. kstep. cbn -[alter].
  assert ((i_ref (k_icache s !!! c) =? 1) && has (i_flags (k_icache s !!! c)) I_VALID && (i_nlink (k_icache s !!! c) =? 0) = false) as ->
    by (destruct Hr; rewrite !andb_false_iff, !Z.eqb_neq; tauto).
  kstep. apply (wp_release_ctx _ _ s); [done..|by apply ctx_same|]. intros Hc. by apply HQ.
Qed.

Lemma quiet_trans s1 s2 s3 : quiet s1 s2 -> quiet s2 s3 -> quiet s1 s3.
Proof. intros [H1 E1] [H2 E2]. split; [by etrans|congruence]. Qed.

Lemma opens_cons f o l : opens f (o :: l) = opens f l + (if bool_decide (o = Some f) then 1 else 0).
Proof. unfold opens. rewrite filter_cons. case_decide; [rewrite bool_decide_true by done|rewrite bool_decide_false by done]; cbn; lia. Qed.

Lemma unref_none l ft : unref (None :: l) ft = unref l ft.
Proof. unfold unref. apply imap_ext. intros f x _. rewrite opens_cons. cbn. by rewrite Z.add_0_r. Qed.

Lemma unref_some f l ft : unref (Some f :: l) ft = unref l (alter (set_fref (fun n => n - 1)) f ft).
Proof.
  unfold unref. apply list_eq. intros k. rewrite !list_lookup_imap. destruct (decide (k = f)) as [->|Hne].
  - rewrite list_lookup_alter_eq. destruct (ft !! f) as [x|]; [|done]. cbn. f_equal. rewrite opens_cons, bool_decide_true by done.
    unfold set_fref. cbn. f_equal. lia.
  - rewrite list_lookup_alter_ne by done. destruct (ft !! k) as [x|]; [|done]. cbn. f_equal.
    by rewrite opens_cons, bool_decide_false, Z.add_0_r by congruence.
Qed.

(** The files in [l] all have references elsewhere. *)
Definition shared_files (l : list (option nat)) (ft : list file) : Prop :=
  forall f, Some f ∈ l -> (f < length ft)%nat /\ opens f l < f_ref (ft !!! f).

Lemma shared_files_tail f l ft : shared_files (Some f :: l) ft -> shared_files l (alter (set_fref (fun n => n - 1)) f ft).
Proof.
  intros H g Hg. destruct (H g) as [Hlt Hr]; [by constructor|]. rewrite length_alter. split; [done|]. rewrite opens_cons in Hr.
  destruct (decide (f = g)) as [->|Hne].
  - rewrite lookup_total_alter_eq by done. rewrite bool_decide_true in Hr by done. cbn. lia.
  - rewrite list_lookup_total_alter_ne by done. rewrite bool_decide_false in Hr by congruence. lia.
Qed.

Lemma unref_nil ft : unref [] ft = ft.
Proof. unfold unref. apply list_eq. intros k. rewrite list_lookup_imap. destruct (ft !! k) as [[]|]; [|done]. cbn. unfold set_fref. cbn. by rewrite Z.sub_0_r. Qed.

Lemma list_alter_fix `{Inhabited A} (f : A -> A) (l : list A) i : f (l !!! i) = l !!! i -> alter f i l = l.
Proof.
  intros Hf. apply list_eq. intros k. destruct (decide (k = i)) as [->|]; [|by rewrite list_lookup_alter_ne].
  rewrite list_lookup_alter_eq. destruct (l !! i) as [x|] eqn:E; [|done]. cbn. by rewrite (list_lookup_total_correct _ _ _ E) in Hf; rewrite Hf.
Qed.

Lemma set_ofile_id g p : g (p_ofile p) = p_ofile p -> set_ofile g p = p.
Proof. unfold set_ofile. intros ->. by destruct p. Qed.

(** One descriptor closed, and then the rest. *)
Lemma close_next fd n (l : list (option nat)) : (fd < length l)%nat ->
  take (S fd) (<[fd := None]> l) ++ replicate n None = take fd l ++ replicate (S n) None.
Proof.
  intros Hlt. rewrite (take_S_r _ _ None) by (by rewrite list_lookup_insert_eq). rewrite take_insert_ge by lia.
  by rewrite <- app_assoc.
Qed.

Lemma wp_exit_files i n fd s Q : cpu_ok s -> k_locks s !! LFtable = None -> (i < length (k_procs s))%nat ->
  let l := p_ofile (k_procs s !!! i) in
  length l = (fd + n)%nat -> shared_files (drop fd l) (k_ftable s) ->
  (forall s', quiet s s' -> k_ftable s' = unref (drop fd l) (k_ftable s) ->
     k_procs s' = alter (set_ofile (fun l => take fd l ++ replicate n None)) i (k_procs s) ->
     k_icache s' = k_icache s -> Q tt s') ->
  wp (exit_files i n fd) Q s.
Proof.
  revert fd s. induction n as [|n IH]; intros fd s Hok Hl Hi l Hlen Hsh HQ; cbn [exit_files].
  - kstep. apply HQ; [done| | |done].
    + by rewrite drop_ge, unref_nil by lia.
    + rewrite list_alter_fix; [done|]. apply set_ofile_id. fold l. cbn. rewrite app_nil_r. apply take_ge. lia.
  - unfold getp, setp. kstep. fold l. destruct (lookup_lt_is_Some_2 l fd ltac:(lia)) as [o Ho].
    assert (Hd : drop fd l = o :: drop (S fd) l) by by rewrite (drop_S _ _ _ Ho).
    rewrite (list_lookup_total_correct _ _ _ Ho). rewrite Hd in Hsh, HQ. destruct o as [f|].
    + kstep. destruct (Hsh f) as [Hf Hr]; [by constructor|].
      apply wp_fileclose_shared; [done..| |].
      { rewrite opens_cons, bool_decide_true in Hr by done. unfold opens in Hr. lia. }
      intros s1 [Hc1 Hi1] Hft1 Hp1 Hic1. kstep.
      set (s2 := set_procs _ s1). assert (E2 : k_procs s2 = alter (set_ofile (<[fd := None]>)) i (k_procs s)) by by cbn -[alter]; rewrite Hp1.
      assert (El : p_ofile (k_procs s2 !!! i) = <[fd := None]> l) by by rewrite E2, lookup_total_alter_eq.
      assert (Hq2 : quiet s s2) by (split; [by etrans; [exact Hc1|apply ctx_same]|done]).
      apply IH; rewrite ?El, ?E2, ?length_alter, ?length_insert; try done; [by apply (ctx_cpu_ok s); [apply Hq2|]
        |by rewrite (ctx_locks _ _ (proj1 Hq2))|lia| |]; rewrite drop_insert_lt by lia.
      * cbn [s2 k_ftable set_procs]. rewrite Hft1. by apply shared_files_tail.
      * intros s' Hq Hft Hps Hic. apply HQ; [by eapply quiet_trans| | |].
        -- rewrite Hft, unref_some. cbn [s2 k_ftable set_procs]. by rewrite Hft1.
        -- rewrite Hps, list_alter_alter. apply list_alter_at. fold l. unfold set_ofile. cbn -[replicate take]. fold l.
           by rewrite close_next by lia.
        -- by rewrite Hic.
    + kstep. apply IH; [done..| | |]; fold l.
      * lia.
      * intros g Hg. destruct (Hsh g) as [? Hr]; [by constructor|]. rewrite opens_cons, bool_decide_false in Hr by done. by split; [|lia].
      * intros s' Hq Hft Hps Hic. apply HQ; [done|by rewrite Hft, unref_none| |done]. rewrite Hps. apply list_alter_at.
        unfold set_ofile. fold l. by rewrite <- (close_next fd n l), (list_insert_id l fd None) by (try lia; done).
Qed.

(** What [exit] does to another process: it is woken if it sleeps on [c], and
    goes to init if it is a child of [i]. *)
Definition wake (c : option chan) (p : proc) : proc :=
  if bool_decide (p_state p = SLEEPING) && bool_decide (p_chan p = c) then set_pstate (fun _ => RUNNABLE) p else p.
Definition adopt (i : nat) (init : option nat) (p : proc) : proc :=
  if bool_decide (p_parent p = Some i) then set_parent (fun _ => init) p else p.
Definition dead_child (i : nat) (p : proc) : bool := bool_decide (p_parent p = Some i) && bool_decide (p_state p = ZOMBIE).
Definition wake_if (z : bool) (c : option chan) (p : proc) : proc := if z then wake c p else p.

Lemma wake_fields c p : p_parent (wake c p) = p_parent p /\ p_pid (wake c p) = p_pid p /\ p_chan (wake c p) = p_chan p.
Proof. unfold wake. by destruct (_ && _). Qed.

Lemma dead_child_wake i c p : dead_child i (wake c p) = dead_child i p.
Proof.
  unfold dead_child, wake. destruct (bool_decide (p_state p = SLEEPING)) eqn:E; [|done]. apply bool_decide_eq_true in E.
  destruct (bool_decide (p_chan p = c)); [|done]. cbn. by rewrite E.
Qed.

Lemma wake_twice c p : wake c (wake c p) = wake c p.
Proof. unfold wake. destruct (bool_decide (p_state p = SLEEPING) && bool_decide (p_chan p = c)) eqn:E; [done|]. by rewrite E. Qed.

Lemma adopt_wake i init c p : adopt i init (wake c p) = wake c (adopt i init p).
Proof.
  unfold adopt, wake. by destruct (bool_decide (p_parent p = Some i)) eqn:E1,
    (bool_decide (p_state p = SLEEPING) && bool_decide (p_chan p = c)) eqn:E2; cbn; rewrite ?E1, ?E2.
Qed.

(** The table after one step of the loop. *)
Lemma reparent_step i init j ps k : (j < length ps)%nat ->
  let p := ps !!! j in
  (if bool_decide (p_parent p = Some i) then
     let ps := alter (set_parent (fun _ => init)) j ps in
     if bool_decide (p_state p = ZOMBIE) then wakeup1_ptr (CProc <$> init) ps else ps
   else ps) !! k =
  (fun x => wake_if (dead_child i p) (CProc <$> init) (if decide (k = j) then adopt i init x else x)) <$> ps !! k.
Proof.
  intros Hj p. destruct (lookup_lt_is_Some_2 ps j Hj) as [x Hx]. unfold p. rewrite (list_lookup_total_correct _ _ _ Hx).
  unfold dead_child. destruct (bool_decide (p_parent x = Some i)) eqn:E; cbn -[alter].
  - assert (Ha : alter (set_parent (fun _ => init)) j ps !! k = (fun x => if decide (k = j) then adopt i init x else x) <$> ps !! k).
    { destruct (decide (k = j)) as [->|Hk]; [rewrite list_lookup_alter_eq, Hx; cbn; unfold adopt; by rewrite E|].
      rewrite list_lookup_alter_ne by done. by destruct (ps !! k). }
    destruct (bool_decide (p_state x = ZOMBIE)); [|done]. unfold wakeup1_ptr. rewrite list_lookup_fmap, Ha. by destruct (ps !! k).
  - destruct (decide (k = j)) as [->|Hk]; [rewrite Hx; cbn; unfold adopt; by rewrite E|]. by destruct (ps !! k).
Qed.

Lemma wake_if_or a b c p : wake_if a c (wake_if b c p) = wake_if (b || a) c p.
Proof. destruct a, b; cbn; by rewrite ?wake_twice. Qed.

Lemma adopt_wake_if i init z c p : adopt i init (wake_if z c p) = wake_if z c (adopt i init p).
Proof. destruct z; [apply adopt_wake|done]. Qed.

Lemma dead_child_step i z c p : dead_child i (wake_if z c p) = dead_child i p.
Proof. destruct z; [apply dead_child_wake|done]. Qed.

Lemma lookup_fmap_length {A B} (l1 : list A) (l2 : list B) g : (forall k, l1 !! k = g k <$> l2 !! k) -> length l1 = length l2.
Proof.
  intros H. assert (l1 = imap g l2) as -> by (apply list_eq; intros k; by rewrite H, list_lookup_imap). apply length_imap.
Qed.

Lemma existsb_drop {A} (f : A -> bool) k (l1 l2 : list A) :
  (forall j, (k <= j)%nat -> f <$> l1 !! j = f <$> l2 !! j) -> existsb f (drop k l1) = existsb f (drop k l2).
Proof.
  intros H. assert (E : f <$> drop k l1 = f <$> drop k l2).
  { apply list_eq. intros j. rewrite !list_lookup_fmap, !lookup_drop. apply H. lia. }
  revert E. generalize (drop k l1), (drop k l2). clear. intros l1. induction l1 as [|x l1 IH]; intros [|y l2]; try done.
  cbn. intros [= Hx Hl]. by rewrite Hx, (IH _ Hl).
Qed.

(** The loop: every child from slot [j] on goes to init, and init is woken if
    one of them has exited. *)
Lemma reparent_spec i init n j ps k : length ps = (j + n)%nat ->
  reparent i init n j ps !! k =
  (fun x => wake_if (existsb (dead_child i) (drop j ps)) (CProc <$> init) (if decide (j <= k)%nat then adopt i init x else x)) <$> ps !! k.
Proof.
  revert j ps. induction n as [|n IH]; intros j ps Hl; cbn [reparent].
  - rewrite drop_ge by lia. cbn. destruct (ps !! k) as [x|] eqn:E; [|done]. apply lookup_lt_Some in E. cbn. by rewrite decide_False by lia.
  - destruct (lookup_lt_is_Some_2 ps j ltac:(lia)) as [x Hx].
    pose proof (fun k => reparent_step i init j ps k (lookup_lt_Some _ _ _ Hx)) as Hs. cbv zeta in Hs.
    match type of Hs with forall k, ?t !! _ = _ => set (ps1 := t) in * end. rewrite (list_lookup_total_correct _ _ _ Hx) in Hs.
    assert (Hl1 : length ps1 = length ps) by exact (lookup_fmap_length _ _ _ Hs).
    rewrite IH by lia. rewrite Hs. rewrite (drop_S ps x j Hx). cbn [existsb].
    assert (existsb (dead_child i) (drop (S j) ps1) = existsb (dead_child i) (drop (S j) ps)) as ->.
    { apply existsb_drop. intros k' Hk'. rewrite Hs. destruct (ps !! k'); [|done]. cbn. by rewrite decide_False, dead_child_step by lia. }
    destruct (ps !! k) as [y|]; [|done]. cbn. f_equal.
    destruct (decide (S j <= k)%nat), (decide (j <= k)%nat), (decide (k = j)); try lia; by rewrite ?adopt_wake_if, wake_if_or.
Qed.

(** The fate of the other processes when [i] with parent [par] exits. *)
Definition fate (i : nat) (init par : option nat) (z : bool) (p : proc) : proc :=
  wake_if z (CProc <$> init) (adopt i init (wake (CProc <$> par) p)).

Definition zombie (p : proc) : proc :=
  set_pstate (fun _ => ZOMBIE) (set_cwd (fun _ => None) (set_ofile (fun _ => replicate NOFILE None) p)).

Lemma pstate_wake st c p : set_pstate (fun _ => st) (wake c p) = set_pstate (fun _ => st) p.
Proof. unfold wake. by destruct (_ && _). Qed.

Lemma pstate_wake_if st z c p : set_pstate (fun _ => st) (wake_if z c p) = set_pstate (fun _ => st) p.
Proof. destruct z; [apply pstate_wake|done]. Qed.

Lemma pstate_adopt st i init p : set_pstate (fun _ => st) (adopt i init p) = adopt i init (set_pstate (fun _ => st) p).
Proof. unfold adopt. cbn. by destruct (bool_decide _). Qed.

(** The process that exits, whichever way round. *)
Lemma zombie_fate i init par z p :
  set_pstate (fun _ => ZOMBIE) (wake_if z (CProc <$> init) (adopt i init
    (wake (CProc <$> par) (set_cwd (fun _ => None) (set_ofile (fun _ => replicate NOFILE None) p))))) =
  zombie (fate i init par z p).
Proof.
  assert (Hz : forall x, zombie x = set_cwd (fun _ => None) (set_ofile (fun _ => replicate NOFILE None) (set_pstate (fun _ => ZOMBIE) x)))
    by done.
  rewrite Hz. unfold fate. rewrite !pstate_wake_if, !pstate_adopt, !pstate_wake. unfold adopt. cbn -[replicate].
  by destruct (bool_decide _).
Qed.

(** The last part of [exit], on the table. *)
Lemma exit_table i init par ps :
  let ps1 := wakeup1_ptr (CProc <$> par) (alter (set_cwd (fun _ => None)) i (alter (set_ofile (fun _ => replicate NOFILE None)) i ps)) in
  alter (set_pstate (fun _ => ZOMBIE)) i (reparent i init (length ps1) 0 ps1) =
  alter zombie i (fate i init par (existsb (dead_child i) ps) <$> ps).
Proof.
  intros ps1.
  assert (Hp1 : forall k, ps1 !! k = (fun p => wake (CProc <$> par)
    (if decide (k = i) then set_cwd (fun _ => None) (set_ofile (fun _ => replicate NOFILE None) p) else p)) <$> ps !! k).
  { intros k. unfold ps1, wakeup1_ptr. rewrite list_lookup_fmap, list_alter_alter. destruct (decide (k = i)) as [->|].
    - rewrite list_lookup_alter_eq. by destruct (ps !! i).
    - rewrite list_lookup_alter_ne by done. by destruct (ps !! k). }
  assert (Hz : existsb (dead_child i) (drop 0 ps1) = existsb (dead_child i) ps).
  { change (existsb (dead_child i) ps) with (existsb (dead_child i) (drop 0 ps)). apply existsb_drop. intros k _. rewrite Hp1. destruct (ps !! k); [|done]. cbn.
    rewrite dead_child_wake. by destruct (decide (k = i)). }
  apply list_eq. intros k. destruct (decide (k = i)) as [->|Hk].
  - rewrite !list_lookup_alter_eq, list_lookup_fmap, reparent_spec, Hz, Hp1 by done. destruct (ps !! i) as [p|]; [|done]. cbn -[replicate].
    f_equal. rewrite (decide_True (P := (0 <= i)%nat)), (decide_True (P := i = i)) by lia. by apply zombie_fate.
  - rewrite !list_lookup_alter_ne, list_lookup_fmap, reparent_spec, Hz, Hp1 by done. destruct (ps !! k) as [p|]; [|done]. cbn.
    by rewrite (decide_True (P := (0 <= k)%nat)), (decide_False (P := k = i)) by lia.
Qed.

Lemma fate_parent i init par z p : init <> i -> p_parent (fate i (Some init) par z p) <> Some i.
Proof.
  intros Hne. unfold fate, wake_if. assert (H : p_parent (adopt i (Some init) (wake (CProc <$> par) p)) <> Some i).
  { unfold adopt. destruct (bool_decide _) eqn:E; [cbn; congruence|]. by apply bool_decide_eq_false in E. }
  destruct z; [|done]. by rewrite (proj1 (wake_fields _ _)).
Qed.

Lemma state_wake_runnable c p : p_state p = RUNNABLE -> wake c p = p.
Proof. unfold wake. by intros ->. Qed.

Lemma fate_woken i init par z p : p_state p = SLEEPING -> p_chan p = Some (CProc par) ->
  p_state (fate i init (Some par) z p) = RUNNABLE.
Proof.
  intros Hs Hc. unfold fate. assert (H : p_state (adopt i init (wake (CProc <$> Some par) p)) = RUNNABLE).
  { assert (wake (CProc <$> Some par) p = set_pstate (fun _ => RUNNABLE) p) as -> by (unfold wake; rewrite Hs, Hc; by rewrite !bool_decide_true).
    unfold adopt. by destruct (bool_decide _). }
  unfold wake_if. destruct z; [|done]. by rewrite state_wake_runnable.
Qed.

(** C9. A process that exits while its files and its directory are still in
    use elsewhere: [exit] ends in the scheduler, the lock of the table held.
    Its references to files and to its directory are given back; it is a
    zombie with no open file; a parent asleep in [wait] is runnable; its
    children belong to init, which is woken if one of them has exited already;
    and no process is left whose parent it is. *)
Theorem exit_leaves_zombie s i init cwd status (me := k_procs s !!! i) :
  cpu_ok s -> c_ncli (k_cpu s) = 0 -> k_locks s !! LFtable = None -> k_locks s !! LIcache = None -> k_locks s !! LPtable = None ->
  c_proc (k_cpu s) = Some i -> (i < length (k_procs s))%nat -> k_initproc s = Some init -> init <> i -> p_parent me <> Some i ->
  length (p_ofile me) = NOFILE -> shared_files (p_ofile me) (k_ftable s) ->
  p_cwd me = Some cwd -> i_ref (k_icache s !!! cwd) <> 1 \/ i_nlink (k_icache s !!! cwd) <> 0 ->
  switches (exit status) (fun s' =>
    k_procs s' = alter zombie i (fate i (Some init) (p_parent me) (existsb (dead_child i) (k_procs s)) <$> k_procs s) /\
    k_ftable s' = unref (p_ofile me) (k_ftable s) /\ k_icache s' = alter (set_iref (fun n => n - 1)) cwd (k_icache s) /\
    k_locks s' = <[LPtable := c_id (k_cpu s)]> (k_locks s) /\
    (forall par p, p_parent me = Some par -> k_procs s !! par = Some p -> p_state p = SLEEPING -> p_chan p = Some (CProc par) ->
       p_state (k_procs s' !!! par) = RUNNABLE) /\
    (forall j p, k_procs s' !! j = Some p -> p_parent p <> Some i)) s.
Proof.
  intros Hok Hn Hlf Hli Hlp Hc Hi Hini Hne Hpar Hlen Hsh Hcwd Hic. subst me. unfold exit.
  apply switches_bind_wp. kstep. apply switches_bind_wp. kstep. rewrite Hc, Hini, bool_decide_false by congruence.
  apply switches_bind_wp. unfold myproc. kstep. rewrite Hc. kstep. apply switches_bind_wp, wp_exit_files; [done..|].
  cbn [drop take app]. intros s1 [Hc1 Hi1] Hft1 Hp1 Hic1. unfold getp at 1. apply switches_bind_wp. kstep.
  rewrite Hp1, lookup_total_alter_eq by done. cbn -[replicate alter]. rewrite Hcwd.
  apply switches_bind_wp, wp_iput_shared; [by eapply ctx_cpu_ok|by rewrite (ctx_locks _ _ Hc1)|by rewrite Hic1|].
  intros s2 [Hc2 Hi2] Hic2 Hp2 Hft2. unfold setp. apply switches_bind_wp. kstep.
  assert (Hc3 : ctx s s2) by by etrans.
  apply switches_bind_wp, wp_acquire; [by cbn -[alter]; rewrite (ctx_locks _ _ Hc3)|]. apply switches_bind_wp. unfold getp. kstep.
  apply switches_bind_wp. kstep. apply switches_bind_wp. kstep. apply switches_bind_wp. kstep. apply switches_bind.
  set (s3 := set_procs _ _).
  assert (Hp3 : k_procs s3 = alter zombie i (fate i (Some init) (p_parent (k_procs s !!! i)) (existsb (dead_child i) (k_procs s)) <$> k_procs s)).
  { rewrite <- exit_table. unfold s3. cbn -[alter wakeup1_ptr reparent replicate]. rewrite Hp2, Hp1, Hi2, Hi1, Hini.
    by rewrite !lookup_total_alter_eq by (by rewrite ?length_alter). }
  apply (sched_switches _ i).
  - unfold s3. cbn -[alter wakeup1_ptr reparent]. by rewrite lookup_insert_eq.
  - unfold s3. cbn -[alter wakeup1_ptr reparent]. rewrite (ctx_ncli _ _ Hc3). lia.
  - unfold s3. cbn -[alter wakeup1_ptr reparent]. by rewrite (ctx_proc _ _ Hc3).
  - rewrite Hp3, lookup_total_alter_eq by (by rewrite length_fmap). done.
  - done.
  - split; [done|]. split_and!.
    + unfold s3. cbn -[alter wakeup1_ptr reparent unref]. by rewrite Hft2, Hft1.
    + unfold s3. cbn -[alter wakeup1_ptr reparent unref]. by rewrite Hic2, Hic1.
    + unfold s3. cbn -[alter wakeup1_ptr reparent unref]. by rewrite (ctx_locks _ _ Hc3), (ctx_id _ _ Hc3).
    + intros par p Hpp Hp Hs Hch. rewrite Hp3, lookup_total_alter_ne by congruence.
      rewrite (list_lookup_total_correct _ _ (fate i (Some init) (Some par) (existsb (dead_child i) (k_procs s)) p)); [by apply fate_woken|].
      by rewrite Hpp, list_lookup_fmap, Hp.
    + intros j p. rewrite Hp3. destruct (decide (j = i)) as [->|]; [rewrite list_lookup_alter_eq|rewrite list_lookup_alter_ne by done];
        rewrite list_lookup_fmap; destruct (k_procs s !! _) as [x|]; try done; intros [= <-]; by apply fate_parent.
Qed.

(** ** wait *)

(** [sleep] with the lock of the table. *)
Lemma sleep_ptable_switches c s i (Q : kst -> Prop) :
  c_proc (k_cpu s) = Some i -> (i < length (k_procs s))%nat -> k_locks s !! LPtable = Some (c_id (k_cpu s)) ->
  c_ncli (k_cpu s) = 1 -> c_if (k_cpu s) = false ->
  Q (set_procs (alter (fun p => set_pstate (fun _ => SLEEPING) (set_chan (fun _ => Some c) p)) i) s) ->
  switches (sleep c LPtable) Q s.
Proof.
  intros Hp Hi Hl Hn Hif HQ. unfold sleep, setp. apply switches_bind_wp. kstep. rewrite Hp. rewrite bool_decide_false by naive_solver.
  apply switches_bind_wp. kstep. apply switches_bind_wp. kstep. apply switches_bind_wp. kstep. apply switches_bind.
  rewrite set_procs_procs. erewrite set_procs_ext; [|apply list_alter_alter].
  apply (sched_switches _ i); [done..| |done|exact HQ]. cbn -[alter]. by rewrite lookup_total_alter_eq.
Qed.

(** A process whose children all live, and which is not killed, sleeps in
    [wait] on its own slot, where [exit] of a child finds it; without a child
    [wait] returns at once. *)
Theorem wait_sleeps s i : cpu_ok s -> c_ncli (k_cpu s) = 0 -> k_locks s !! LPtable = None ->
  c_proc (k_cpu s) = Some i -> (i < length (k_procs s))%nat -> existsb (dead_child i) (k_procs s) = false ->
  (existsb (fun p => bool_decide (p_parent p = Some i)) (k_procs s) = true -> p_killed (k_procs s !!! i) = 0 ->
   switches wait (fun s' => p_state (k_procs s' !!! i) = SLEEPING /\ p_chan (k_procs s' !!! i) = Some (CProc i) /\
     (forall j, j <> i -> k_procs s' !! j = k_procs s !! j) /\ k_locks s' !! LPtable = Some (c_id (k_cpu s))) s) /\
  (existsb (fun p => bool_decide (p_parent p = Some i)) (k_procs s) = false -> wp wait (fun r s' => r = -1 /\ ctx s s' /\ k_procs s' = k_procs s) s).
Proof.
  intros Hok Hn Hl Hc Hi Hd.
  assert (Hf : list_find (fun p => p_parent p = Some i /\ p_state p = ZOMBIE) (k_procs s) = None).
  { apply list_find_None, Forall_forall. intros p Hp [H1 H2]. assert (existsb (dead_child i) (k_procs s) = true); [|congruence].
    apply existsb_exists. exists p. split; [by apply list_elem_of_In|]. unfold dead_child. by rewrite !bool_decide_true. }
  split; intros Hk.
  - intros Hkill. unfold wait. apply switches_bind_wp, wp_acquire; [done|]. cbn [wait_loop]. apply switches_bind_wp. unfold myproc, getp. kstep.
    cbn -[existsb list_find]. rewrite Hc. kstep. apply switches_bind_wp. kstep. cbn -[existsb list_find]. rewrite Hf.
    apply switches_bind_wp. kstep. rewrite Hk. cbn -[existsb list_find sleep]. rewrite Hkill. cbn [cbool negb orb Z.eqb].
    apply switches_bind, (sleep_ptable_switches _ _ i); [done..|cbn; by rewrite lookup_insert_eq|cbn; lia|done|].
    cbn -[alter]. rewrite !lookup_total_alter_eq by done. split_and!; [done..| |by rewrite lookup_insert_eq].
    intros j Hj. by rewrite list_lookup_alter_ne.
  - unfold wait. kstep. apply wp_acquire; [done|]. cbn [wait_loop]. unfold myproc, getp. kstep.
    cbn -[existsb list_find]. rewrite Hc. kstep. cbn -[existsb list_find]. rewrite Hf. kstep. rewrite Hk. cbn [negb orb].
    kstep. apply (wp_release_ctx _ _ s); [done..|]. intros Hx. kstep. done.
Qed.
End exit.

(** A shell whose command, with standard files shared, exits before the child
    it has left behind was waited for. *)
#[local] Instance demo_layout : Layout := { kend := 0; kdata := 0; ktrapret := 0; kforkret := 0 }.
#[local] Instance demo_devs : DevOps :=
  { dev_read := fun _ _ _ => ret (0, []); dev_write := fun _ _ _ _ => ret 0; dev_exit := fun _ => ret tt }.
Definition demo_proc (st : procstate) (pid : Z) (par : option nat) (c : option chan) (ofile : list (option nat)) : proc :=
  Proc 4096 0x80400000 0x80500000 st pid par tf0 c 0 (ofile ++ replicate (NOFILE - length ofile) None) (Some 0%nat) (replicate 16 0) 0.
Definition demo_exit : kst :=
  set_initproc (fun _ => Some 0%nat) (set_cpu (fun _ => Cpu 0 0 false true (Some 2%nat))
    (set_ftable (fun _ => [File FD_INODE 9 1 1 0 (Some 1%nat) 0])
      (set_icache (fun _ => [Inode 1 1 3 2 0 1 0 0 1 512 (replicate 13 0)])
        (set_procs (fun _ =>
          let std := [Some 0; Some 0; Some 0]%nat in
          [demo_proc SLEEPING 1 None (Some (CProc 0)) std; demo_proc SLEEPING 2 (Some 0%nat) (Some (CProc 1)) std;
           demo_proc RUNNING 3 (Some 1%nat) None std; demo_proc ZOMBIE 4 (Some 2%nat) None []]) kst0)))).

Lemma exit_leaves_zombie_witness :
  switches (exit 0) (fun s' =>
    (p_state <$> k_procs s') = [RUNNABLE; RUNNABLE; ZOMBIE; ZOMBIE] /\
    (p_parent <$> k_procs s') = [None; Some 0; Some 1; Some 0]%nat /\ (f_ref <$> k_ftable s') = [6]) demo_exit.
Proof.
  assert (Hsw : forall (P Q : kst -> Prop), (forall s, P s -> Q s) -> switches (exit 0) P demo_exit -> switches (exit 0) Q demo_exit).
  { unfold switches. intros P Q H. destruct (exit 0 demo_exit); auto. }
  eapply Hsw; [|apply (exit_leaves_zombie demo_exit 2 0 0 0); try reflexivity; try done].
  - intros s' (-> & -> & _). by vm_compute.
  - cbn. lia.
  - intros f Hf. assert (f = 0%nat) as -> by (vm_compute in Hf; set_solver). split; [cbn; lia|]. by vm_compute.
  - right. done.
Defined.
