(* ===== verification/Typing.v ===== *)
(** * Types of the kernel's state

    C gives every table its size and every variable its width; the model has
    lists and integers. [kt] says that a state has the shape its C types
    promise: tables of the declared lengths, bytes in the range of a byte,
    words in the range of their type, and pointers (indices here) that point
    into their table. [typed m R] says that the control path [m], started in
    such a state, ends in one whenever it returns or switches away, with a
    result in [R]. The rules follow the structure of the monad, the lemmas
    give the type of every operation of spinlock.c, the part of proc.c in
    Sched.v, bio.c, memdisk.c and log.c. *)

From stdpp Require Import prelude gmap strings.
From S2P Require Import Prelude Kernel Spinlock Sched Bio Log StringC Fs.

(** ** Types of data *)

Definition is_u32 (x : Z) : Prop := 0 <= x < 2 ^ 32.
Definition is_s32 (x : Z) : Prop := - 2 ^ 31 <= x < 2 ^ 31.
Definition is_s16 (x : Z) : Prop := - 2 ^ 15 <= x < 2 ^ 15.

(** A byte array of [n] elements. *)
Definition block (n : nat) (l : bytes) : Prop := length l = n /\ Forall is_byte l.

(** A pointer into a table of [n] entries that may be null. *)
Definition ptr (n : nat) (o : option nat) : Prop := forall i, o = Some i -> (i < n)%nat.

(** A table of [n] entries of type [P]. *)
Definition table_of {A} (n : nat) (P : A -> Prop) (l : list A) : Prop := length l = n /\ Forall P l.

Record proc_t (p : proc) : Prop := {
  pt_sz : is_u32 (p_sz p);
  pt_pid : is_s32 (p_pid p);
  pt_parent : ptr NPROC (p_parent p);
  pt_ofile : table_of NOFILE (ptr NFILE) (p_ofile p);
  pt_cwd : ptr NINODE (p_cwd p);
  pt_name : block 16 (p_name p)
}.

Record buf_t (b : buf) : Prop := {
  bt_sector : is_u32 (b_sector b);
  bt_prev : (b_prev b <= NBUF)%nat;
  bt_next : (b_next b <= NBUF)%nat;
  bt_data : block 512 (b_data b)
}.

Record inode_t (ip : inode) : Prop := {
  it_type : is_s16 (i_type ip);
  it_major : is_s16 (i_major ip);
  it_minor : is_s16 (i_minor ip);
  it_nlink : is_s16 (i_nlink ip);
  it_size : is_u32 (i_size ip);
  it_addrs : table_of 13 is_u32 (i_addrs ip)
}.

Record file_t (f : file) : Prop := {
  ft_ip : ptr NINODE (f_ip f);
  ft_off : is_u32 (f_off f)
}.

Definition pipe_t (p : pipe) : Prop := block 512 (pi_data p) /\ is_u32 (pi_nread p) /\ is_u32 (pi_nwrite p).

Record input_t (x : input) : Prop := {
  int_buf : block 128 (in_buf x);
  int_r : is_u32 (in_r x);
  int_w : is_u32 (in_w x);
  int_e : is_u32 (in_e x)
}.

(** The memory disk has at least one sector; its size is its length. *)
Definition disk_t (d : list bytes) (n : Z) : Prop :=
  Forall (block 512) d /\ n = Z.of_nat (length d) /\ 0 < n.

Record kt (s : kst) : Prop := {
  kt_cpu : ptr NPROC (c_proc (k_cpu s));
  kt_procs : table_of NPROC proc_t (k_procs s);
  kt_initproc : ptr NPROC (k_initproc s);
  kt_current : ptr NPROC (k_current s);
  kt_nextpid : is_s32 (k_nextpid s);
  kt_disk : disk_t (k_disk s) (k_disksize s);
  kt_bc : table_of (S NBUF) buf_t (k_bc s);
  kt_log : table_of LOGSIZE is_s32 (lh_sector (k_log s));
  kt_icache : table_of NINODE inode_t (k_icache s);
  kt_ftable : table_of NFILE file_t (k_ftable s);
  kt_pipes : map_Forall (fun _ => pipe_t) (k_pipes s);
  kt_pm : map_Forall (fun _ => block 4096) (k_pm s);
  kt_devs : length (k_devs s) = Z.to_nat NDEV;
  kt_input : input_t (k_input s);
  kt_hostname : block 256 (k_hostname s);
  kt_ide : Forall (fun i => i < NBUF)%nat (hw_idequeue (k_hw s))
}.

(** ** The judgement *)

Definition typed {A} (m : K A) (R : A -> Prop) : Prop :=
  forall s, kt s ->
    match m s with
    | Ok a s' => kt s' /\ R a
    | Switched s' => kt s'
    | _ => True
    end.

Notation any := (fun _ => True).

Lemma ty_ret {A} (a : A) (R : A -> Prop) : R a -> typed (ret a) R.
Proof. intros H s Hs. by split. Qed.

Lemma ty_panic {A} msg (R : A -> Prop) : typed (panic msg) R.
Proof. by intros s Hs. Qed.

Lemma ty_fault {A} (R : A -> Prop) : typed fault R.
Proof. by intros s Hs. Qed.

Lemma ty_stop {A} (o : outcome kst A) (R : A -> Prop) :
  match o with Ok _ _ | Switched _ => False | _ => True end -> typed (fun _ => o) R.
Proof. intros H s Hs. by destruct o. Qed.

(** What is read is a value of some typed state. *)
Lemma ty_gets {A} (f : kst -> A) : typed (gets f) (fun a => exists s, kt s /\ a = f s).
Proof. intros s Hs. split; [done|]. by exists s. Qed.

Lemma ty_modify f (R : unit -> Prop) : (forall s, kt s -> kt (f s)) -> R tt -> typed (modify f) R.
Proof. intros H HR s Hs. split; [by apply H|done]. Qed.

Lemma ty_bind {A B} (m : K A) (k : A -> K B) (P : A -> Prop) (R : B -> Prop) :
  typed m P -> (forall a, P a -> typed (k a) R) -> typed (x <- m ;; k x) R.
Proof.
  intros Hm Hk s Hs. specialize (Hm s Hs). unfold bind. destruct (m s); try done.
  destruct Hm as [Hs' Ha]. by apply Hk.
Qed.

(** Rules that move the control structure of a first statement outwards. *)
Lemma ty_bind_bind {A B C} (m : K A) (k : A -> K B) (k' : B -> K C) R :
  typed (x <- m ;; y <- k x ;; k' y) R -> typed (y <- (x <- m ;; k x) ;; k' y) R.
Proof. intros H s Hs. specialize (H s Hs). unfold bind in *. by destruct (m s). Qed.

Lemma ty_bind_ret {A B} (a : A) (k : A -> K B) R : typed (k a) R -> typed (x <- ret a ;; k x) R.
Proof. done. Qed.

Lemma ty_bind_stop {A B} (m : K A) (k : A -> K B) R :
  (forall s, match m s with Ok _ _ | Switched _ => False | _ => True end) -> typed (x <- m ;; k x) R.
Proof. intros H s Hs. specialize (H s). unfold bind. by destruct (m s). Qed.

Lemma ty_mono {A} (m : K A) (P R : A -> Prop) : typed m P -> (forall a, P a -> R a) -> typed m R.
Proof. intros Hm HPR s Hs. specialize (Hm s Hs). destruct (m s); try done. naive_solver. Qed.

(** [ty] walks a program: calls are looked up in the database [ty], and what
    their type does not give by itself is left. *)
Create HintDb ty.

Ltac ty_pure :=
  repeat match goal with
  | H : exists _, _ /\ _ = _ |- _ => destruct H as (? & ? & ->)
  | H : _ /\ _ |- _ => destruct H
  | H : True |- _ => clear H
  | a : unit |- _ => destruct a
  end; cbn [fst snd] in *.

Ltac ty_call := first [solve [eauto with ty] | apply ty_gets].

Ltac ty_step :=
  cbv beta zeta;
  lazymatch goal with
  | |- typed (ret _) _ => apply ty_ret
  | |- typed (panic _) _ => apply ty_panic
  | |- typed fault _ => apply ty_fault
  | |- typed (fun _ => _) _ => by apply ty_stop
  | |- typed (bind ?m _) _ =>
      lazymatch m with
      | bind _ _ => apply ty_bind_bind
      | ret _ => apply ty_bind_ret
      | panic _ => by apply ty_bind_stop
      | fault => by apply ty_bind_stop
      | match ?x with _ => _ end =>
          lazymatch type of m with
          | K unit => eapply (ty_bind _ _ any); [|intros; ty_pure]
          | _ => destruct x eqn:?
          end
      | _ => eapply ty_bind; [ty_call|cbv beta; intros; ty_pure]
      end
  | |- typed (match (match ?x with _ => _ end) with _ => _ end) _ => destruct x eqn:?
  | |- typed (match ?x with _ => _ end) _ => destruct x eqn:?
  | |- typed _ _ =>
      first [solve [eauto with ty]
            | eapply ty_mono; [solve [eauto with ty]|cbv beta; intros; ty_pure]
            | eapply ty_mono; [apply ty_gets|cbv beta; intros; ty_pure]]
  end.

Ltac ty := repeat ty_step.

(** ** Values *)

Lemma is_u32_u32 x : is_u32 (u32 x).
Proof. apply u32_range. Qed.
Lemma is_s32_s32 x : is_s32 (s32 x).
Proof. unfold s32. by apply (sgn_range 32). Qed.
Lemma is_s16_s16 x : is_s16 (s16 x).
Proof. unfold s16. by apply (sgn_range 16). Qed.
Lemma is_byte_u8 x : is_byte (u8 x).
Proof. unfold u8, is_byte. apply Z.mod_pos_bound. lia. Qed.

Lemma is_u32_nonneg x : is_u32 x -> 0 <= x.
Proof. unfold is_u32. lia. Qed.

Lemma ptr_None n : ptr n None.
Proof. done. Qed.
Lemma ptr_Some n i : (i < n)%nat -> ptr n (Some i).
Proof. by intros H ? [= <-]. Qed.
Lemma ptr_inv n i : ptr n (Some i) -> (i < n)%nat.
Proof. intros H. by apply H. Qed.

Lemma block_replicate n b : is_byte b -> block n (replicate n b).
Proof. intros. split; [apply length_replicate|by apply Forall_replicate]. Qed.

Lemma block_insert n l i b : block n l -> is_byte b -> block n (<[i := b]> l).
Proof. intros [] Hb. split; [by rewrite length_insert|by apply Forall_insert]. Qed.

Lemma bytes_slice l o n : Forall is_byte l -> Forall is_byte (slice l o n).
Proof. intros. unfold slice. by apply Forall_take, Forall_drop. Qed.

Lemma bytes_le n x : Forall is_byte (le_bytes n x).
Proof. apply le_bytes_is_byte. Qed.

Lemma block_slice n l o k : block n l -> (o + k <= n)%nat -> block k (slice l o k).
Proof. intros [Hn Hb] H. split; [apply length_slice; lia|by apply bytes_slice]. Qed.

Lemma block_splice n l o bs :
  block n l -> Forall is_byte bs -> (o + length bs <= n)%nat -> block n (splice l o bs).
Proof.
  intros [Hn Hb] Hbs H. split; [rewrite length_splice; lia|].
  unfold splice. rewrite !Forall_app. split_and!; [by apply Forall_take|done|by apply Forall_drop].
Qed.

Lemma block_put32 n l o v : block n l -> (o + 4 <= n)%nat -> block n (put32 l o v).
Proof. intros. unfold put32. apply block_splice; [done|apply bytes_le|by rewrite length_le_bytes]. Qed.

Lemma slice_short l o n : (length (slice l o n : bytes) <= n)%nat.
Proof. unfold slice. rewrite length_take. lia. Qed.

Lemma get32_u32 l o : Forall is_byte l -> is_u32 (get32 l o).
Proof.
  intros H. unfold get32, is_u32. pose proof (le_val_range (slice l o 4) (bytes_slice _ _ _ H)) as Hr.
  pose proof (slice_short l o 4). 
  assert (256 ^ Z.of_nat (length (slice l o 4)) <= 256 ^ 4) by (apply Z.pow_le_mono_r; lia).
  change (256 ^ 4) with (2 ^ 32) in *. lia.
Qed.

Lemma table_lookup `{Inhabited A} n (P : A -> Prop) l i : table_of n P l -> (i < n)%nat -> P (l !!! i).
Proof. intros [Hn Hl] Hi. apply (Forall_lookup_total_1 _ _ _ Hl). lia. Qed.

Lemma table_alter {A} n (P : A -> Prop) f l i :
  (forall x, P x -> P (f x)) -> table_of n P l -> table_of n P (alter f i l).
Proof.
  intros Hf [Hn Hl]. split; [by rewrite length_alter|].
  apply Forall_alter; [done|]. intros. by apply Hf.
Qed.

Lemma table_insert {A} n (P : A -> Prop) x l i : P x -> table_of n P l -> table_of n P (<[i := x]> l).
Proof. intros Hx [Hn Hl]. split; [by rewrite length_insert|by apply Forall_insert]. Qed.

Lemma table_fmap {A} n (P : A -> Prop) f l :
  (forall x, P x -> P (f x)) -> table_of n P l -> table_of n P (f <$> l).
Proof.
  intros Hf [Hn Hl]. split; [by rewrite length_fmap|]. apply Forall_fmap. by eapply Forall_impl.
Qed.

#[export] Hint Resolve is_u32_u32 is_s32_s32 is_s16_s16 is_byte_u8 is_u32_nonneg ptr_None ptr_Some ptr_inv
  bytes_le bytes_slice block_insert get32_u32 : ty.

#[export] Hint Extern 5 (is_u32 _) => solve [unfold is_u32 in *; lia] : ty.
#[export] Hint Extern 5 (is_s32 _) => solve [unfold is_s32 in *; lia] : ty.
#[export] Hint Extern 5 (is_s16 _) => solve [unfold is_s16 in *; lia] : ty.
#[export] Hint Extern 5 (is_byte _) => solve [unfold is_byte in *; lia] : ty.

(** ** Updates of the state *)

Ltac kt_fields := let H := fresh in intros H; destruct H; constructor; cbn; auto.

Lemma kt_set_procs f s :
  (table_of NPROC proc_t (k_procs s) -> table_of NPROC proc_t (f (k_procs s))) -> kt s -> kt (set_procs f s).
Proof. intros Hf. kt_fields. Qed.
Lemma kt_set_cpu f s : (forall c, c_proc (f c) = c_proc c) -> kt s -> kt (set_cpu f s).
Proof. intros Hf. kt_fields. by rewrite Hf. Qed.
Lemma kt_set_bc f s :
  (table_of (S NBUF) buf_t (k_bc s) -> table_of (S NBUF) buf_t (f (k_bc s))) -> kt s -> kt (set_bc f s).
Proof. intros Hf. kt_fields. Qed.
Lemma kt_set_icache f s :
  (table_of NINODE inode_t (k_icache s) -> table_of NINODE inode_t (f (k_icache s))) -> kt s -> kt (set_icache f s).
Proof. intros Hf. kt_fields. Qed.
Lemma kt_set_ftable f s :
  (table_of NFILE file_t (k_ftable s) -> table_of NFILE file_t (f (k_ftable s))) -> kt s -> kt (set_ftable f s).
Proof. intros Hf. kt_fields. Qed.
Lemma kt_set_log f s :
  (forall l, table_of LOGSIZE is_s32 (lh_sector l) -> table_of LOGSIZE is_s32 (lh_sector (f l))) ->
  kt s -> kt (set_log f s).
Proof. intros Hf. kt_fields. Qed.
Lemma kt_set_pm f s :
  (map_Forall (fun _ => block 4096) (k_pm s) -> map_Forall (fun _ => block 4096) (f (k_pm s))) ->
  kt s -> kt (set_pm f s).
Proof. intros Hf. kt_fields. Qed.
Lemma kt_set_pipes f s :
  (map_Forall (fun _ => pipe_t) (k_pipes s) -> map_Forall (fun _ => pipe_t) (f (k_pipes s))) ->
  kt s -> kt (set_pipes f s).
Proof. intros Hf. kt_fields. Qed.
Lemma kt_set_hw f s : (forall h, hw_idequeue (f h) = hw_idequeue h) -> kt s -> kt (set_hw f s).
Proof. intros Hf. kt_fields. by rewrite Hf. Qed.
Lemma kt_set_locks f s : kt s -> kt (set_locks f s).
Proof. kt_fields. Qed.

(** A field without a type of its own. *)
Ltac kt_free := match goal with H : kt _ |- kt _ => destruct H; constructor; cbn; assumption end.

Create HintDb kt.
#[export] Hint Resolve kt_set_procs kt_set_cpu kt_set_bc kt_set_icache kt_set_ftable kt_set_log
  kt_set_pm kt_set_pipes kt_set_hw kt_set_locks table_alter table_insert table_fmap : kt.
#[export] Hint Extern 1 (forall _, _ = _) => reflexivity : kt.
#[export] Hint Extern 5 (kt _) => solve [kt_free] : kt.

(** An update: of the state, or of a record whose other fields stay. *)
Ltac ty_upd :=
  intros; try match goal with H : ?T ?x |- ?T _ => destruct H; constructor; cbn -[str safestrcpy splice] end; eauto with ty kt lia.

#[export] Hint Extern 2 (typed (modify _) _) =>
  apply (ty_modify _ any); [intros; solve [eauto 6 with kt ty]|exact I] : ty.

(** ** Locks and processes (spinlock.c, proc.c) *)

Lemma ty_pushcli : typed pushcli any.
Proof. unfold pushcli, cli. by ty. Qed.

Lemma ty_popcli : typed popcli any.
Proof. unfold popcli, sti. by ty. Qed.
#[export] Hint Resolve ty_pushcli ty_popcli : ty.

Lemma ty_acquire lk : typed (acquire lk) any.
Proof. unfold acquire, holding. by ty. Qed.

Lemma ty_release lk : typed (release lk) any.
Proof. unfold release, holding. by ty. Qed.

Lemma ty_initlock lk : typed (initlock lk) any.
Proof. unfold initlock. by ty. Qed.
#[export] Hint Resolve ty_acquire ty_release ty_initlock : ty.

Lemma ty_myproc : typed myproc (fun i => i < NPROC)%nat.
Proof.
  unfold myproc. ty. apply (kt_cpu _ H). congruence.
Qed.

Lemma ty_getp i : (i < NPROC)%nat -> typed (getp i) proc_t.
Proof. intros Hi. unfold getp. ty. by eapply table_lookup; [apply kt_procs|]. Qed.

Lemma ty_setp i f : (forall p, proc_t p -> proc_t (f p)) -> typed (setp i f) any.
Proof. intros Hf. unfold setp. by ty. Qed.
#[export] Hint Resolve ty_myproc ty_getp ty_setp : ty.

Lemma ty_sched : typed sched any.
Proof.
  unfold sched, holding. ty; try done. intros s Hs. done.
Qed.
#[export] Hint Resolve ty_sched : ty.

#[export] Hint Extern 3 (forall _, proc_t _ -> proc_t _) => solve [ty_upd] : ty kt.
#[export] Hint Extern 3 (forall _, buf_t _ -> buf_t _) => solve [ty_upd] : ty kt.
#[export] Hint Extern 3 (forall _, inode_t _ -> inode_t _) => solve [ty_upd] : ty kt.
#[export] Hint Extern 3 (forall _, file_t _ -> file_t _) => solve [ty_upd] : ty kt.

Lemma wakeup1_t c p :
  proc_t p -> proc_t (if bool_decide (p_state p = SLEEPING) && bool_decide (p_chan p = Some c)
                      then set_pstate (fun _ => RUNNABLE) p else p).
Proof. intros Hp. destruct (_ && _); [|done]. by destruct Hp. Qed.
#[export] Hint Resolve wakeup1_t : kt.

Lemma ty_wakeup c : typed (wakeup c) any.
Proof. unfold wakeup, wakeup1. by ty. Qed.
#[export] Hint Resolve ty_wakeup : ty.

Lemma ty_yield : typed yield any.
Proof. unfold yield. by ty. Qed.

Lemma ty_sleep c lk : typed (sleep c lk) any.
Proof. unfold sleep. ty; done. Qed.

Lemma kill_scan_t n pid ps ps' :
  kill_scan pid ps = Some ps' -> table_of n proc_t ps -> table_of n proc_t ps'.
Proof.
  intros Hk [Hn Hp]. revert n ps' Hk Hn. induction Hp as [|p ps Hp Hps IH]; intros n ps' Hk Hn; [done|].
  cbn in Hk. destruct (p_pid p =? pid).
  - injection Hk as <-. split; [done|]. constructor; [|done].
    destruct Hp. by destruct (bool_decide _).
  - destruct (kill_scan pid ps) as [q|] eqn:E; [|done]. injection Hk as <-.
    destruct (IH (length ps) q) as [Hl Hq]; try done. cbn in Hn. split; [cbn; congruence|by constructor].
Qed.

Lemma ty_kill pid : typed (kill pid) any.
Proof.
  unfold kill. ty; try done. eapply (ty_bind _ _ any); [|intros; by ty].
  apply ty_modify; [|done]. intros s Hs. apply kt_set_procs; [|done]. intros _.
  eapply kill_scan_t; [done|]. by apply kt_procs.
Qed.
#[export] Hint Resolve ty_yield ty_sleep ty_kill : ty.

(** ** The buffer cache (bio.c, memdisk.c) *)

Lemma ty_getb i : (i <= NBUF)%nat -> typed (getb i) buf_t.
Proof. intros Hi. unfold getb. ty. eapply table_lookup; [by apply kt_bc|lia]. Qed.

Lemma ty_setb i f : (forall b, buf_t b -> buf_t (f b)) -> typed (setb i f) any.
Proof. intros Hf. unfold setb. by ty. Qed.
#[export] Hint Resolve ty_getb ty_setb bt_sector bt_prev bt_next bt_data : ty.
#[export] Hint Unfold HEAD : ty.
#[export] Hint Extern 5 (_ <= _)%nat => solve [unfold HEAD in *; lia] : ty.
#[export] Hint Extern 5 (_ < _)%nat => solve [unfold HEAD in *; lia] : ty.

Lemma disk_lookup d n k : disk_t d n -> k < n -> block 512 (d !!! Z.to_nat k).
Proof.
  intros (Hd & Hn & Hpos) Hk. apply (Forall_lookup_total_1 _ _ _ Hd). lia.
Qed.

Lemma kt_disk_insert k b s :
  block 512 b -> kt s -> kt (set_disk (<[k := b]>) s).
Proof.
  intros Hb. kt_fields. destruct kt_disk0 as (? & ? & ?). split; [by apply Forall_insert|].
  by rewrite length_insert.
Qed.
#[export] Hint Resolve kt_disk_insert : kt.

(** Reads in a row are of the same state. *)
Lemma ty_gets_gets {A B} (f : kst -> A) (k : A -> K B) R :
  (forall s, kt s -> match k (f s) s with Ok b s' => kt s' /\ R b | Switched s' => kt s' | _ => True end) ->
  typed (x <- gets f ;; k x) R.
Proof. intros H s Hs. by apply H. Qed.

Lemma ty_memiderw i : (i <= NBUF)%nat -> typed (memiderw i) any.
Proof.
  intros Hi. unfold memiderw, getb. apply ty_gets_gets. intros s Hs.
  assert (buf_t (k_bc s !!! i)) as Hb by (eapply table_lookup; [by apply kt_bc|lia]).
  assert (block 512 (b_data (k_bc s !!! i))) by apply Hb.
  destruct (negb _); [done|]. destruct (_ =? B_VALID); [done|]. destruct (negb _); [done|].
  unfold bind at 1, gets at 1. destruct (Z.leb_spec (k_disksize s) (b_sector (k_bc s !!! i))); [done|].
  destruct (has _ _).
  - eapply (ty_bind _ _ any); [by ty|intros; by ty|done].
  - assert (block 512 (k_disk s !!! Z.to_nat (b_sector (k_bc s !!! i)))) as Hd.
    { eapply disk_lookup; [by apply kt_disk|done]. }
    refine (ty_bind (setb i (set_bdata (fun _ => k_disk s !!! Z.to_nat (b_sector (k_bc s !!! i)))))
      (fun _ => setb i (set_bflags (fun fl => setf fl B_VALID))) any any _ _ s Hs); intros; by ty.
Qed.
#[export] Hint Resolve ty_memiderw : ty.

Lemma ty_push_front i : (i <= NBUF)%nat -> typed (push_front i) any.
Proof. intros Hi. unfold push_front. by ty. Qed.
#[export] Hint Resolve ty_push_front : ty.

Lemma scan_t step P fuel b i :
  (forall j, (j <= NBUF)%nat -> (step j <= NBUF)%nat) -> (b <= NBUF)%nat ->
  scan step P fuel b = Some (Some i) -> (i < NBUF)%nat.
Proof.
  intros Hs. revert b. induction fuel as [|fuel IH]; intros b Hb; cbn; [done|].
  destruct (decide (b = HEAD)) as [|Hne]; [done|]. destruct (P b); [|by apply IH; auto].
  intros [= <-]. unfold HEAD in Hne. lia.
Qed.

Lemma scan_next_lt s dev sector i : kt s ->
  scan (next (k_bc s)) (is_sector dev sector (k_bc s)) (S NBUF) (next (k_bc s) HEAD) = Some (Some i) ->
  (i < NBUF)%nat.
Proof.
  intros Hs. assert (forall j, (j <= NBUF)%nat -> (next (k_bc s) j <= NBUF)%nat) as Hn.
  { intros j Hj. apply bt_next. eapply table_lookup; [by apply kt_bc|lia]. }
  apply scan_t; [done|]. by apply Hn.
Qed.

Lemma scan_prev_lt s i : kt s ->
  scan (prev (k_bc s)) (recyclable (k_bc s)) (S NBUF) (prev (k_bc s) HEAD) = Some (Some i) ->
  (i < NBUF)%nat.
Proof.
  intros Hs. assert (forall j, (j <= NBUF)%nat -> (prev (k_bc s) j <= NBUF)%nat) as Hn.
  { intros j Hj. apply bt_prev. eapply table_lookup; [by apply kt_bc|lia]. }
  apply scan_t; [done|]. by apply Hn.
Qed.
#[export] Hint Resolve scan_next_lt scan_prev_lt : ty.

Lemma ty_bget_pass again dev sector : is_u32 sector ->
  typed again (fun i => i < NBUF)%nat -> typed (bget_pass again dev sector) (fun i => i < NBUF)%nat.
Proof. intros Hs Ha. unfold bget_pass. ty; eauto with ty. Qed.

Lemma ty_bget dev sector : is_u32 sector -> typed (bget dev sector) (fun i => i < NBUF)%nat.
Proof.
  intros Hs. unfold bget. ty. cbn [bget_loop]. apply ty_bget_pass; [done|by apply ty_stop].
Qed.
#[export] Hint Resolve ty_bget : ty.

Lemma ty_bread dev sector : is_u32 sector -> typed (bread dev sector) (fun i => i < NBUF)%nat.
Proof. intros Hs. unfold bread. by ty. Qed.

Lemma ty_bwrite i : (i < NBUF)%nat -> typed (bwrite i) any.
Proof. intros Hi. unfold bwrite. by ty. Qed.

Lemma ty_brelse i : (i < NBUF)%nat -> typed (brelse i) any.
Proof. intros Hi. unfold brelse. by ty. Qed.
#[export] Hint Resolve ty_bread ty_bwrite ty_brelse : ty.

(** ** The log (log.c) *)

Lemma ty_getlog {A} (f : log -> A) : typed (getlog f) any.
Proof. unfold getlog. by ty. Qed.

Lemma ty_setlog f :
  (forall l, table_of LOGSIZE is_s32 (lh_sector l) -> table_of LOGSIZE is_s32 (lh_sector (f l))) ->
  typed (setlog f) any.
Proof. intros Hf. unfold setlog. by ty. Qed.
#[export] Hint Extern 3 (forall _, table_of _ _ (lh_sector _) -> table_of _ _ (lh_sector _)) =>
  solve [intros; cbn; auto with kt ty] : ty.
#[export] Hint Resolve ty_getlog ty_setlog : ty.

Lemma ty_getdata i : (i < NBUF)%nat -> typed (getdata i) (block 512).
Proof. intros Hi. unfold getdata. ty; eauto with ty. Qed.

Lemma ty_setdata i d : block 512 d -> typed (setdata i d) any.
Proof. intros Hd. unfold setdata. by ty. Qed.

Lemma ty_lh_get i : typed (lh_get i) (fun _ => 0 <= i < Z.of_nat LOGSIZE).
Proof. unfold lh_get. ty; by apply bool_decide_eq_true in Heqb. Qed.

Lemma ty_lh_set i v : is_s32 v -> typed (lh_set i v) any.
Proof. intros Hv. unfold lh_set. by ty. Qed.
#[export] Hint Resolve ty_getdata ty_setdata ty_lh_get ty_lh_set : ty.

Lemma ty_install_loop n tail : typed (install_loop n tail) any.
Proof. revert tail. induction n; intros; cbn [install_loop]; by ty. Qed.
#[export] Hint Resolve ty_install_loop : ty.

Lemma ty_install_trans : typed install_trans any.
Proof. unfold install_trans. by ty. Qed.

Lemma ty_read_head_loop d n i : typed (read_head_loop d n i) any.
Proof. revert i. induction n; intros; cbn [read_head_loop]; unfold hd_sector; by ty. Qed.
#[export] Hint Resolve ty_install_trans ty_read_head_loop : ty.

Lemma ty_read_head : typed read_head any.
Proof. unfold read_head. by ty. Qed.

Lemma ty_write_head_loop b n i : (b < NBUF)%nat -> typed (write_head_loop b n i) any.
Proof.
  intros Hb. revert i. induction n as [|n IH]; intros; cbn [write_head_loop]; ty; try done.
  eapply ty_bind; [apply ty_setdata|intros; by ty].
  apply block_put32; [done|]. unfold LOGSIZE in *. lia.
Qed.
#[export] Hint Resolve ty_read_head ty_write_head_loop : ty.

Lemma ty_write_head : typed write_head any.
Proof.
  unfold write_head. ty. eapply ty_bind; [apply ty_setdata|intros; by ty].
  apply block_put32; [done|lia].
Qed.
#[export] Hint Resolve ty_write_head : ty.

Lemma ty_recover_from_log : typed recover_from_log any.
Proof. unfold recover_from_log. by ty. Qed.
#[export] Hint Resolve ty_recover_from_log : ty.

Record sb_t (sb : superblock) : Prop := {
  sbt_size : is_u32 (sb_size sb);
  sbt_ninodes : is_u32 (sb_ninodes sb)
}.

Lemma ty_readsb dev : typed (readsb dev) sb_t.
Proof.
  unfold readsb. ty. match goal with H : block _ _ |- _ => destruct H end.
  split; cbn; auto with ty.
Qed.
#[export] Hint Resolve ty_readsb sbt_size sbt_ninodes : ty.

Lemma ty_initlog : typed initlog any.
Proof. unfold initlog. by ty. Qed.

Lemma ty_begin_trans : typed begin_trans any.
Proof. unfold begin_trans. by ty. Qed.

Lemma ty_commit_trans : typed commit_trans any.
Proof. unfold commit_trans. by ty. Qed.
#[export] Hint Resolve ty_initlog ty_begin_trans ty_commit_trans : ty.

Lemma ty_log_slot sec n i : typed (log_slot sec n i) any.
Proof. revert i. induction n; intros; cbn [log_slot]; by ty. Qed.
#[export] Hint Resolve ty_log_slot : ty.

Lemma ty_log_write b : (b < NBUF)%nat -> typed (log_write b) any.
Proof. intros Hb. unfold log_write. by ty. Qed.
#[export] Hint Resolve ty_log_write : ty.
