(* ===== verification/TypingFs.v ===== *)
(** * Types of the file system

    The type of every operation of fs.c. What the file system calls through
    the device table is typed by the class [DevTyped], which the drivers
    provide. *)

From stdpp Require Import prelude gmap strings.
From S2P Require Import Prelude Kernel Spinlock Sched Bio Log StringC Fs Typing.

(** ** Blocks *)

Lemma ty_bzero dev bno : typed (bzero dev bno) any.
Proof.
  unfold bzero. ty. eapply ty_bind; [apply ty_setdata|intros; by ty].
  by apply block_replicate.
Qed.
#[export] Hint Resolve ty_bzero : ty.

Lemma balloc_scan_range d b size n bi x :
  balloc_scan d b size n bi = Some x -> bi <= x /\ b + x < size.
Proof.
  revert bi. induction n as [|n IH]; intros bi; cbn; [done|].
  destruct (Z.ltb_spec (b + bi) size); [|done]. destruct (negb _).
  - intros [= <-]. lia.
  - intros Hx. apply IH in Hx. lia.
Qed.

Lemma ty_balloc_loop dev sb n b : sb_t sb -> 0 <= b -> typed (balloc_loop dev sb n b) is_u32.
Proof.
  intros Hsb. revert b. induction n as [|n IH]; intros b Hb; cbn [balloc_loop]; ty.
  - apply balloc_scan_range in Heqo as [? ?]. apply sbt_size in Hsb. unfold is_u32 in *. lia.
  - apply IH. unfold BPB, BSIZE. lia.
Qed.

Lemma ty_balloc dev : typed (balloc dev) is_u32.
Proof. unfold balloc. ty. by apply ty_balloc_loop. Qed.

Lemma ty_bfree dev b : typed (bfree dev b) any.
Proof. unfold bfree. by ty. Qed.
#[export] Hint Resolve ty_balloc ty_bfree : ty.

(** ** Inodes *)

Lemma ty_geti i : (i < NINODE)%nat -> typed (geti i) inode_t.
Proof. intros Hi. unfold geti. ty. eapply table_lookup; [by apply kt_icache|done]. Qed.

Lemma ty_seti i f : (forall p, inode_t p -> inode_t (f p)) -> typed (seti i f) any.
Proof. intros Hf. unfold seti. by ty. Qed.
#[export] Hint Resolve ty_geti ty_seti it_type it_major it_minor it_nlink it_size it_addrs : ty.

Lemma find_seq_lt P n i : List.find P (seq 0 n) = Some i -> (i < n)%nat.
Proof. intros H. apply find_some in H as [H _]. apply in_seq in H. lia. Qed.
#[export] Hint Resolve find_seq_lt : ty.

Lemma ty_iget dev inum : typed (iget dev inum) (fun i => i < NINODE)%nat.
Proof. unfold iget. ty; eauto with ty. Qed.
#[export] Hint Resolve ty_iget : ty.

Lemma length_concat_le4 (l : list Z) : length (concat (le_bytes 4 <$> l)) = (4 * length l)%nat.
Proof. induction l as [|x l IH]; [done|]. cbn -[le_bytes]. rewrite length_app, length_le_bytes, IH. lia. Qed.

Lemma bytes_concat_le4 (l : list Z) : Forall is_byte (concat (le_bytes 4 <$> l)).
Proof. induction l as [|x l IH]; [constructor|]. cbn -[le_bytes]. apply Forall_app. split; [apply bytes_le|done]. Qed.

Lemma dinode_enc_t d : length (d_addrs d) = 13%nat -> block 64 (dinode_enc d).
Proof.
  intros H. unfold dinode_enc. split.
  - rewrite !length_app, !length_le_bytes, length_concat_le4. lia.
  - rewrite !Forall_app. split_and!; auto using bytes_le, bytes_concat_le4.
Qed.

Lemma dip_off_fits inum : (dip_off inum + 64 <= 512)%nat.
Proof.
  unfold dip_off. change IPB with 8. pose proof (Z.mod_pos_bound inum 8). lia.
Qed.

Lemma put_dinode d inum x : block 512 d -> length (d_addrs x) = 13%nat ->
  block 512 (splice d (dip_off inum) (dinode_enc x)).
Proof.
  intros Hd Hx. destruct (dinode_enc_t x Hx) as [Hl Hb]. apply block_splice; [done..|].
  rewrite Hl. apply dip_off_fits.
Qed.
#[export] Hint Resolve put_dinode : ty.

Lemma ty_ialloc_loop dev type n inum : typed (ialloc_loop dev type n inum) (fun i => i < NINODE)%nat.
Proof.
  revert inum. induction n as [|n IH]; intros; cbn [ialloc_loop]; ty; unfold IBLOCK; ty.
Qed.
#[export] Hint Resolve ty_ialloc_loop : ty.

Lemma ty_ialloc dev type : typed (ialloc dev type) (fun i => i < NINODE)%nat.
Proof. unfold ialloc. by ty. Qed.

Lemma dinode_of_addrs ip : inode_t ip -> length (d_addrs (dinode_of ip)) = 13%nat.
Proof. intros []. apply it_addrs. Qed.
#[export] Hint Resolve ty_ialloc dinode_of_addrs : ty.

Lemma ty_iupdate i : (i < NINODE)%nat -> typed (iupdate i) any.
Proof. intros Hi. unfold iupdate. by ty. Qed.

Lemma ty_idup i : (i < NINODE)%nat -> typed (idup i) (fun i => i < NINODE)%nat.
Proof. intros Hi. unfold idup. by ty. Qed.
#[export] Hint Resolve ty_iupdate ty_idup : ty.

Lemma load_dinode_t l ip : Forall is_byte l -> inode_t ip -> inode_t (load_dinode (dinode_dec l) ip).
Proof.
  intros Hl _. constructor; cbn [load_dinode dinode_dec i_type i_major i_minor i_nlink i_size i_addrs
    d_type d_major d_minor d_nlink d_size d_addrs]; auto with ty.
  split; [by rewrite length_fmap, length_seq|]. apply Forall_fmap, Forall_true. intros. cbn -[get32]. auto with ty.
Qed.

Lemma block_bytes n l : block n l -> Forall is_byte l.
Proof. by intros []. Qed.
#[export] Hint Resolve load_dinode_t block_bytes : ty.

Lemma ty_ilock i : (i < NINODE)%nat -> typed (ilock i) any.
Proof. intros Hi. unfold ilock. ty; try done. Qed.

Lemma ty_iunlock i : (i < NINODE)%nat -> typed (iunlock i) any.
Proof. intros Hi. unfold iunlock. by ty. Qed.
#[export] Hint Resolve ty_ilock ty_iunlock : ty.

(** ** Contents *)

Lemma ty_addr_get i k : (i < NINODE)%nat -> (Z.to_nat k < 13)%nat -> typed (addr_get i k) is_u32.
Proof.
  intros Hi Hk. unfold addr_get. ty. eapply table_lookup; [by apply it_addrs|done].
Qed.

Lemma ty_addr_set i k v : is_u32 v -> typed (addr_set i k v) any.
Proof. intros Hv. unfold addr_set. ty. Qed.
#[export] Hint Resolve ty_addr_get ty_addr_set : ty.
#[export] Hint Extern 5 (Z.to_nat _ < _)%nat => solve [unfold NDIRECT in *; lia] : ty.

Lemma ty_addr_alloc i k : (i < NINODE)%nat -> (Z.to_nat k < 13)%nat -> typed (addr_alloc i k) is_u32.
Proof. intros Hi Hk. unfold addr_alloc. by ty. Qed.
#[export] Hint Resolve ty_addr_alloc : ty.

Lemma put_ind d j v : block 512 d -> (j <? NINDIRECT) = true -> block 512 (put32 d (Z.to_nat (4 * j)) v).
Proof.
  intros Hd Hj. apply block_put32; [done|]. change NINDIRECT with 128 in Hj. lia.
Qed.
#[export] Hint Resolve put_ind : ty.

Lemma ty_bmap i bn : (i < NINODE)%nat -> typed (bmap i bn) is_u32.
Proof.
  intros Hi. unfold bmap. ty; unfold ind_get; eauto with ty.
Qed.
#[export] Hint Resolve ty_bmap : ty.

Lemma ty_itrunc_direct i n k : (i < NINODE)%nat -> 0 <= k -> k + Z.of_nat n <= NDIRECT ->
  typed (itrunc_direct i n k) any.
Proof.
  intros Hi. revert k. induction n as [|n IH]; intros k Hk Hn; cbn [itrunc_direct]; ty; try done.
  apply IH; lia.
Qed.

Lemma ty_itrunc_indirect i bp n j : (i < NINODE)%nat -> (bp < NBUF)%nat -> typed (itrunc_indirect i bp n j) any.
Proof. intros Hi Hb. revert j. induction n as [|n IH]; intros j; cbn [itrunc_indirect]; by ty. Qed.
#[export] Hint Resolve ty_itrunc_indirect : ty.

Lemma ty_itrunc i : (i < NINODE)%nat -> typed (itrunc i) any.
Proof.
  intros Hi. unfold itrunc. eapply ty_bind; [apply ty_itrunc_direct; done|intros; ty_pure]. by ty.
Qed.
#[export] Hint Resolve ty_itrunc : ty.

Lemma ty_iput i : (i < NINODE)%nat -> typed (iput i) any.
Proof. intros Hi. unfold iput. by ty. Qed.
#[export] Hint Resolve ty_iput : ty.

Lemma ty_iunlockput i : (i < NINODE)%nat -> typed (iunlockput i) any.
Proof. intros Hi. unfold iunlockput. by ty. Qed.
#[export] Hint Resolve ty_iunlockput : ty.

Lemma ty_stati i : (i < NINODE)%nat -> typed (stati i) any.
Proof. intros Hi. unfold stati. by ty. Qed.
#[export] Hint Resolve ty_stati : ty.

(** ** Devices *)

(** A transfer gives bytes. *)
Definition rd_t (p : Z * bytes) : Prop := Forall is_byte p.2.

Class DevTyped `{DO : DevOps} : Prop := {
  dt_read f i n : (i < NINODE)%nat -> typed (dev_read f i n) rd_t;
  dt_write f i src n : (i < NINODE)%nat -> Forall is_byte src -> typed (dev_write f i src n) any;
  dt_exit st : typed (dev_exit st) any
}.
#[export] Hint Resolve dt_read dt_write dt_exit : ty.

Section contents.
Context `{DT : DevTyped}.

Lemma ty_device_get id : typed (device_get id) any.
Proof. unfold device_get. by ty. Qed.
#[local] Hint Resolve ty_device_get : ty.

Lemma ty_readi_loop i fuel tot off n : (i < NINODE)%nat -> typed (readi_loop i fuel tot off n) (Forall is_byte).
Proof.
  intros Hi. revert tot off. induction fuel as [|fuel IH]; intros; cbn [readi_loop]; ty; try done.
  apply Forall_app. split; [|done]. eauto with ty.
Qed.
#[local] Hint Resolve ty_readi_loop : ty.

Lemma ty_readi i off n : (i < NINODE)%nat -> typed (readi i off n) rd_t.
Proof. intros Hi. unfold readi. ty; try done; by constructor. Qed.

Lemma write_block d src off tot m : block 512 d -> Forall is_byte src -> m <= BSIZE - off mod BSIZE ->
  block 512 (splice d (Z.to_nat (off mod BSIZE)) (slice src (Z.to_nat tot) (Z.to_nat m))).
Proof.
  intros Hd Hs Hm. apply block_splice; [done|by apply bytes_slice|].
  pose proof (slice_short src (Z.to_nat tot) (Z.to_nat m)). change BSIZE with 512 in *.
  pose proof (Z.mod_pos_bound off 512). lia.
Qed.
#[local] Hint Resolve write_block Z.le_min_r : ty.

Lemma ty_writei_loop i src fuel tot off n : (i < NINODE)%nat -> Forall is_byte src -> is_u32 off ->
  typed (writei_loop i src fuel tot off n) is_u32.
Proof.
  intros Hi Hs. revert tot off. induction fuel as [|fuel IH]; intros tot off Ho; cbn [writei_loop]; by ty.
Qed.
#[local] Hint Resolve ty_writei_loop : ty.

(** The test against the size bounds the offset. *)
Lemma offset_u32 ip off b : inode_t ip -> 0 <= off -> (i_size ip <? off) || b = false -> is_u32 off.
Proof. intros Hip Ho Hb. apply it_size in Hip. unfold is_u32 in *. destruct b; lia. Qed.
#[local] Hint Resolve offset_u32 : ty.

Lemma ty_writei i src off n : (i < NINODE)%nat -> Forall is_byte src -> 0 <= off ->
  typed (writei i src off n) any.
Proof. intros Hi Hs Ho. unfold writei. ty; try done. Qed.
#[local] Hint Resolve ty_readi ty_writei : ty.

(** ** Directories and paths *)

Lemma ty_read_dirent dp off : (dp < NINODE)%nat -> typed (read_dirent dp off) any.
Proof. intros Hi. unfold read_dirent. by ty. Qed.
#[local] Hint Resolve ty_read_dirent : ty.

(** The inode and the offset [dirlookup] finds. *)
Definition found_t (o : option (nat * Z)) : Prop := forall i off, o = Some (i, off) -> (i < NINODE)%nat /\ is_u32 off.

Lemma found_None : found_t None.
Proof. done. Qed.
Lemma found_Some i off : (i < NINODE)%nat -> is_u32 off -> found_t (Some (i, off)).
Proof. by intros ? ? ? ? [= <- <-]. Qed.
#[local] Hint Resolve found_None found_Some : ty.

Lemma ty_dirlookup_loop dp name fuel off : (dp < NINODE)%nat -> is_u32 off ->
  typed (dirlookup_loop dp name fuel off) found_t.
Proof.
  intros Hi. revert off. induction fuel as [|fuel IH]; intros off Ho; cbn [dirlookup_loop]; ty; eauto with ty.
Qed.
#[local] Hint Resolve ty_dirlookup_loop : ty.

Lemma ty_dirlookup dp name : (dp < NINODE)%nat -> typed (dirlookup dp name) found_t.
Proof. intros Hi. unfold dirlookup. by ty. Qed.
#[local] Hint Resolve ty_dirlookup : ty.

Lemma ty_dirlink_loop dp fuel off : (dp < NINODE)%nat -> 0 <= off ->
  typed (dirlink_loop dp fuel off) (fun off => 0 <= off).
Proof.
  intros Hi. revert off. induction fuel as [|fuel IH]; intros off Ho; cbn [dirlink_loop]; ty; try done.
  apply IH. unfold DESZ. lia.
Qed.
#[local] Hint Resolve ty_dirlink_loop Z.le_refl : ty.

Lemma chr_t s : Forall is_byte s -> is_byte (chr s).
Proof. by destruct 1. Qed.

Lemma bytes_tail s : Forall is_byte s -> Forall is_byte (tail s).
Proof. destruct 1; [constructor|done]. Qed.

Lemma bytes_strncpy s n : Forall is_byte s -> Forall is_byte (strncpy s n).
Proof.
  revert s. induction n as [|n IH]; intros s Hs; cbn; constructor; [by apply chr_t|].
  destruct (chr s =? 0); [by apply Forall_replicate|by apply IH, bytes_tail].
Qed.

Lemma safestrcpy_t s n : Forall is_byte s ->
  Forall is_byte (safestrcpy s n) /\ (length (safestrcpy s n) <= Z.to_nat n)%nat.
Proof.
  intros Hs. unfold safestrcpy. destruct (Z.leb_spec n 0); [split; [constructor|cbn; lia]|]. split.
  - apply Forall_app. split; [|by repeat constructor]. generalize (Z.to_nat (n - 1)). intros m.
    revert s Hs. induction m as [|m IH]; intros s Hs; cbn; constructor; [by apply chr_t|].
    destruct (chr s =? 0); [constructor|by apply IH, bytes_tail].
  - rewrite length_app. pose proof (safestrcpy_loop_length s (Z.to_nat (n - 1))). cbn. lia.
Qed.

Lemma bytes_dirent inum name : Forall is_byte name -> Forall is_byte (dirent_enc (Dirent inum name)).
Proof. intros. unfold dirent_enc. apply Forall_app. split; [apply bytes_le|done]. Qed.
#[local] Hint Resolve bytes_strncpy bytes_dirent : ty.

Lemma found_inv i off : found_t (Some (i, off)) -> (i < NINODE)%nat.
Proof. intros H. by eapply H. Qed.
Lemma found_off i off : found_t (Some (i, off)) -> is_u32 off.
Proof. intros H. by eapply H. Qed.
#[local] Hint Resolve found_inv found_off : ty.

Lemma ty_dirlink dp name inum : (dp < NINODE)%nat -> Forall is_byte name -> typed (dirlink dp name inum) any.
Proof. intros Hi Hn. unfold dirlink. ty; done. Qed.

(** A path element is made of bytes of the path. *)
Lemma skip_slashes_t p : Forall is_byte p -> Forall is_byte (skip_slashes p).
Proof. induction 1 as [|c p Hc Hp IH]; cbn; [constructor|]. destruct (c =? SLASH); [done|by constructor]. Qed.

Lemma span_elem_t p e r : span_elem p = (e, r) -> Forall is_byte p -> Forall is_byte e /\ Forall is_byte r.
Proof.
  revert e r. induction p as [|c p IH]; intros e r; cbn.
  - by intros [= <- <-].
  - intros He Hp. apply Forall_cons in Hp as [Hc Hp]. destruct (_ && _).
    + destruct (span_elem p) as [e' r'] eqn:E. injection He as <- <-. destruct (IH _ _ eq_refl Hp).
      split; [by constructor|done].
    + injection He as <- <-. split; [done|by constructor].
Qed.

Lemma skipelem_t path p n : skipelem path = Some (p, n) -> Forall is_byte path ->
  Forall is_byte p /\ Forall is_byte n.
Proof.
  intros He Hp. unfold skipelem in He. destruct (chr _ =? 0); [done|].
  destruct (span_elem (skip_slashes path)) as [e r] eqn:E. injection He as <- <-.
  apply span_elem_t in E as [? ?]; [|by apply skip_slashes_t].
  split; [by apply skip_slashes_t|by apply Forall_take].
Qed.

(** An inode that may be missing, and the last element of its path. *)
Definition name_t (p : option nat * bytes) : Prop := ptr NINODE p.1 /\ Forall is_byte p.2.

Lemma ty_namex_loop fuel ip path np name : (ip < NINODE)%nat -> Forall is_byte path -> Forall is_byte name ->
  typed (namex_loop fuel ip path np name) name_t.
Proof.
  revert ip path name. induction fuel as [|fuel IH]; intros ip path name Hi Hp Hn; cbn [namex_loop];
    destruct (skipelem path) as [[p n]|] eqn:E; try (apply skipelem_t in E as [? ?]; [|done]);
    ty; try (split; cbn; eauto with ty).
Qed.
#[local] Hint Resolve ty_namex_loop : ty.

Lemma ty_namex path np : Forall is_byte path -> typed (namex path np) name_t.
Proof.
  intros Hp. unfold namex.
  eapply (ty_bind _ _ (fun i => i < NINODE)%nat); [|intros; by ty].
  ty. match goal with H : proc_t _ |- _ => apply pt_cwd in H end. eauto with ty.
Qed.
#[local] Hint Resolve ty_namex : ty.

Lemma ty_namei path : Forall is_byte path -> typed (namei path) (ptr NINODE).
Proof. intros Hp. unfold namei. ty. by destruct H. Qed.

Lemma ty_nameiparent path : Forall is_byte path -> typed (nameiparent path) name_t.
Proof. intros Hp. unfold nameiparent. by ty. Qed.
End contents.

#[export] Hint Resolve ty_device_get ty_readi ty_writei ty_read_dirent ty_dirlookup ty_dirlink ty_namei
  ty_nameiparent found_inv found_off found_None found_Some : ty.
