(* ===== verification/TypingVm.v ===== *)
(** * Types of the console, memory and files

    The type of every operation of kalloc.c, vm.c, file.c and pipe.c, and of
    the output functions of tty.c. *)

From stdpp Require Import prelude gmap strings.
From S2P Require Import Prelude Kernel Port Spinlock Sched Bio Log StringC Fs Console Kalloc Vm File Typing TypingFs.

(** ** Device accesses *)

Lemma ty_io e : typed (io e) any.
Proof. unfold io. by ty. Qed.
#[export] Hint Resolve ty_io : ty.

Lemma ty_outb p v : typed (outb p v) any.
Proof. apply ty_io. Qed.
Lemma ty_outw p v : typed (outw p v) any.
Proof. apply ty_io. Qed.
Lemma ty_outsl p bs : typed (outsl p bs) any.
Proof. apply ty_io. Qed.
Lemma ty_lidt b l : typed (lidt b l) any.
Proof. apply ty_io. Qed.
Lemma ty_mmio_write a v : typed (mmio_write a v) any.
Proof. apply ty_io. Qed.
#[export] Hint Resolve ty_outb ty_outw ty_outsl ty_lidt ty_mmio_write : ty.

Lemma ty_inb `{PO : Ports} p : typed (inb p) is_byte.
Proof. unfold inb. ty. apply is_byte_u8. Qed.
#[export] Hint Resolve ty_inb : ty.

(** ** Console output *)

Section console.
Context `{PO : Ports}.

Lemma ty_uart_wait n : typed (uart_wait n) any.
Proof. induction n; cbn [uart_wait]; by ty. Qed.
#[local] Hint Resolve ty_uart_wait : ty.

Lemma ty_uartputc c : typed (uartputc c) any.
Proof. unfold uartputc. by ty. Qed.

Lemma ty_cgaputc c : typed (cgaputc c) any.
Proof. unfold cgaputc. by ty. Qed.
#[local] Hint Resolve ty_uartputc ty_cgaputc : ty.

Lemma ty_consputc c : typed (consputc c) any.
Proof. unfold consputc, cli. by ty. Qed.
#[local] Hint Resolve ty_consputc : ty.

Lemma ty_consputs l : typed (consputs l) any.
Proof. induction l; cbn [consputs]; by ty. Qed.
#[local] Hint Resolve ty_consputs : ty.

Lemma ty_printint xx base sign : typed (printint xx base sign) any.
Proof. unfold printint. by ty. Qed.
#[local] Hint Resolve ty_printint : ty.

Lemma ty_cprintf_loop n fmt args : (length fmt <= n)%nat -> typed (cprintf_loop fmt args) any.
Proof.
  revert fmt args. induction n as [|n IH]; intros [|c [|c' fmt]] args Hn; cbn [length] in Hn; try lia;
    cbn [cprintf_loop]; ty; try done; try (apply IH; cbn [length] in *; lia).
Qed.

Lemma ty_cprintf fmt args : typed (cprintf fmt args) any.
Proof.
  pose proof (fun l => ty_cprintf_loop _ l args (le_n _)). unfold cprintf. by ty.
Qed.
#[local] Hint Resolve ty_cprintf : ty.
End console.
#[export] Hint Resolve ty_uartputc ty_cgaputc ty_consputc ty_consputs ty_printint ty_cprintf : ty.

(** ** Memory *)

#[export] Hint Resolve Forall_take Forall_drop : ty.

Lemma ty_page_get a : typed (page_get a) (block 4096).
Proof. unfold page_get. ty. by eapply kt_pm. Qed.

Lemma kt_page a d s : block 4096 d -> kt s -> kt (set_pm (<[a := d]>) s).
Proof. intros Hd Hs. apply kt_set_pm; [|done]. intros. by apply map_Forall_insert_2. Qed.
#[export] Hint Resolve kt_page : kt.

Lemma ty_page_set a d : block 4096 d -> typed (page_set a d) any.
Proof. intros Hd. unfold page_set. eapply ty_bind; [apply ty_page_get|]. intros. by ty. Qed.
#[export] Hint Resolve ty_page_get ty_page_set : ty.

Lemma page_mod a : 0 <= a mod PGSIZE < 4096.
Proof. by apply Z.mod_pos_bound. Qed.

Lemma page_splice p a bs : block 4096 p -> Forall is_byte bs ->
  (PGSIZE <? a mod PGSIZE + Z.of_nat (length bs)) = false ->
  block 4096 (splice p (Z.to_nat (a mod PGSIZE)) bs).
Proof.
  intros Hp Hb Hf. pose proof (page_mod a). apply block_splice; [done..|]. unfold PGSIZE in *. lia.
Qed.

Lemma page_put32 p a v : block 4096 p -> (PGSIZE <? a mod PGSIZE + 4) = false ->
  block 4096 (put32 p (Z.to_nat (a mod PGSIZE)) v).
Proof.
  intros Hp Hf. unfold put32. apply page_splice; [done|apply bytes_le|by rewrite length_le_bytes].
Qed.
#[export] Hint Resolve page_splice page_put32 : ty.

Lemma ty_rd32 a : typed (rd32 a) is_u32.
Proof. unfold rd32. ty. eauto with ty. Qed.

Lemma ty_wr32 a v : typed (wr32 a v) any.
Proof. unfold wr32. by ty. Qed.

Lemma ty_kread a n : typed (kread a n) (Forall is_byte).
Proof. unfold kread. ty. eauto with ty. Qed.

Lemma ty_kwrite a bs : Forall is_byte bs -> typed (kwrite a bs) any.
Proof. intros Hb. unfold kwrite. by ty. Qed.
#[export] Hint Resolve ty_rd32 ty_wr32 ty_kread ty_kwrite : ty.

Lemma ty_kzero a : typed (kzero a) any.
Proof. unfold kzero. apply ty_kwrite. by apply Forall_replicate. Qed.
#[export] Hint Resolve ty_kzero : ty.

Section memory.
Context `{LY : Layout} `{PO : Ports} `{DT : DevTyped}.

Lemma ty_kfree v : typed (kfree v) any.
Proof.
  pose proof (block_replicate 4096 1 ltac:(done)). unfold kfree. by ty.
Qed.

Lemma ty_kalloc : typed kalloc any.
Proof. unfold kalloc. by ty. Qed.
#[local] Hint Resolve ty_kfree ty_kalloc : ty.

Lemma ty_walkpgdir pgdir va alloc : typed (walkpgdir pgdir va alloc) any.
Proof. unfold walkpgdir. by ty. Qed.
#[local] Hint Resolve ty_walkpgdir : ty.

Lemma ty_mappages_loop fuel pgdir a last pa perm : typed (mappages_loop fuel pgdir a last pa perm) any.
Proof. revert a pa. induction fuel; intros; cbn [mappages_loop]; by ty. Qed.

Lemma ty_mappages pgdir va size pa perm : typed (mappages pgdir va size pa perm) any.
Proof. apply ty_mappages_loop. Qed.
#[local] Hint Resolve ty_mappages : ty.

Lemma ty_map_all pgdir l : typed (map_all pgdir l) any.
Proof. induction l; cbn [map_all]; by ty. Qed.
#[local] Hint Resolve ty_map_all : ty.

Lemma ty_setupkvm : typed setupkvm any.
Proof. unfold setupkvm. by ty. Qed.

Lemma ty_lcr3 v : typed (lcr3 v) any.
Proof. unfold lcr3. by ty. Qed.
#[local] Hint Resolve ty_setupkvm ty_lcr3 : ty.

Lemma ty_switchkvm : typed switchkvm any.
Proof. unfold switchkvm. by ty. Qed.
#[local] Hint Resolve ty_switchkvm : ty.

Lemma ty_kvmalloc : typed kvmalloc any.
Proof. unfold kvmalloc. by ty. Qed.

Lemma ty_switchuvm p : (p < NPROC)%nat -> typed (switchuvm p) any.
Proof. intros Hp. unfold switchuvm. by ty. Qed.

Lemma ty_inituvm pgdir init sz : Forall is_byte init -> typed (inituvm pgdir init sz) any.
Proof. intros Hi. unfold inituvm. by ty. Qed.

Lemma ty_loaduvm_loop fuel pgdir addr ip offset sz i : (ip < NINODE)%nat ->
  typed (loaduvm_loop fuel pgdir addr ip offset sz i) any.
Proof. intros Hi. revert i. induction fuel; intros; cbn [loaduvm_loop]; by ty. Qed.
#[local] Hint Resolve ty_loaduvm_loop : ty.

Lemma ty_loaduvm pgdir addr ip offset sz : (ip < NINODE)%nat -> typed (loaduvm pgdir addr ip offset sz) any.
Proof. intros Hi. unfold loaduvm. by ty. Qed.

Lemma ty_deallocuvm_loop fuel pgdir a oldsz : typed (deallocuvm_loop fuel pgdir a oldsz) any.
Proof. revert a. induction fuel; intros; cbn [deallocuvm_loop]; by ty. Qed.
#[local] Hint Resolve ty_deallocuvm_loop : ty.

Lemma ty_deallocuvm pgdir oldsz newsz : typed (deallocuvm pgdir oldsz newsz) any.
Proof. unfold deallocuvm. by ty. Qed.
#[local] Hint Resolve ty_deallocuvm : ty.

Lemma ty_allocuvm_loop fuel pgdir a oldsz newsz : typed (allocuvm_loop fuel pgdir a oldsz newsz) any.
Proof. revert a. induction fuel; intros; cbn [allocuvm_loop]; by ty. Qed.
#[local] Hint Resolve ty_allocuvm_loop : ty.

Lemma ty_allocuvm pgdir oldsz newsz : typed (allocuvm pgdir oldsz newsz) any.
Proof. unfold allocuvm. by ty. Qed.

Lemma ty_freevm_loop pgdir n i : typed (freevm_loop pgdir n i) any.
Proof. revert i. induction n; intros; cbn [freevm_loop]; by ty. Qed.
#[local] Hint Resolve ty_freevm_loop : ty.

Lemma ty_freevm pgdir : typed (freevm pgdir) any.
Proof. unfold freevm. by ty. Qed.
#[local] Hint Resolve ty_freevm : ty.

Lemma ty_clearpteu pgdir uva : typed (clearpteu pgdir uva) any.
Proof. unfold clearpteu. by ty. Qed.

Lemma ty_copyuvm_loop fuel pgdir d i sz : typed (copyuvm_loop fuel pgdir d i sz) any.
Proof. revert i. induction fuel; intros; cbn [copyuvm_loop]; by ty. Qed.
#[local] Hint Resolve ty_copyuvm_loop : ty.

Lemma ty_copyuvm pgdir sz : typed (copyuvm pgdir sz) any.
Proof. unfold copyuvm. by ty. Qed.

Lemma ty_uva2ka pgdir uva : typed (uva2ka pgdir uva) any.
Proof. unfold uva2ka. by ty. Qed.
#[local] Hint Resolve ty_uva2ka : ty.

Lemma ty_copyout_loop fuel pgdir va buf len : Forall is_byte buf -> typed (copyout_loop fuel pgdir va buf len) any.
Proof.
  revert va buf len. induction fuel; intros va buf len Hb; cbn [copyout_loop]; by ty.
Qed.

Lemma ty_copyout pgdir va p len : Forall is_byte p -> typed (copyout pgdir va p len) any.
Proof. apply ty_copyout_loop. Qed.
End memory.

#[export] Hint Resolve ty_kfree ty_kalloc ty_setupkvm ty_switchkvm ty_kvmalloc ty_switchuvm ty_inituvm
  ty_loaduvm ty_deallocuvm ty_allocuvm ty_freevm ty_clearpteu ty_copyuvm ty_copyout : ty.

(** ** User memory *)

Lemma page_byte p a : block 4096 p -> is_byte (p !!! Z.to_nat (a mod PGSIZE)).
Proof. intros Hp. pose proof (page_mod a). apply (table_lookup 4096); [exact Hp|lia]. Qed.

Lemma ty_uload va : typed (uload va) is_byte.
Proof. unfold uload. ty. by apply page_byte. Qed.

Lemma ty_ustore va v : typed (ustore va v) any.
Proof. unfold ustore. by ty. Qed.
#[export] Hint Resolve ty_uload ty_ustore : ty.

Lemma ty_ubytes va n : typed (ubytes va n) (Forall is_byte).
Proof. revert va. induction n; intros; cbn [ubytes]; ty; by constructor. Qed.

Lemma ty_ustores va bs : typed (ustores va bs) any.
Proof. revert va. induction bs; intros; cbn [ustores]; by ty. Qed.
#[export] Hint Resolve ty_ubytes ty_ustores : ty.

Lemma ty_uword va : typed (uword va) any.
Proof. unfold uword. by ty. Qed.
#[export] Hint Resolve ty_uword : ty.

(** ** Files and pipes *)

Lemma ty_getf i : (i < NFILE)%nat -> typed (getf i) file_t.
Proof. intros Hi. unfold getf. ty. eapply table_lookup; [by apply kt_ftable|done]. Qed.

Lemma ty_setf i g : (forall f, file_t f -> file_t (g f)) -> typed (setf_ i g) any.
Proof. intros Hg. unfold setf_. by ty. Qed.
#[export] Hint Resolve ty_getf ty_setf ft_ip ft_off : ty.

Lemma ty_getpipe a : typed (getpipe a) pipe_t.
Proof. unfold getpipe. ty. by eapply kt_pipes. Qed.

Lemma kt_pipe a p s : pipe_t p -> kt s -> kt (set_pipes (<[a := p]>) s).
Proof. intros Hp Hs. apply kt_set_pipes; [|done]. intros. by apply map_Forall_insert_2. Qed.
Lemma kt_pipe_delete a s : kt s -> kt (set_pipes (delete a) s).
Proof. intros Hs. apply kt_set_pipes; [|done]. intros. by apply map_Forall_delete. Qed.
#[export] Hint Resolve kt_pipe kt_pipe_delete : kt.

Lemma ty_setpipe a g : (forall p, pipe_t p -> pipe_t (g p)) -> typed (setpipe a g) any.
Proof.
  intros Hg. unfold setpipe. eapply ty_bind; [apply ty_getpipe|intros; ty_pure].
  apply ty_modify; [|done]. intros s Hs. by apply kt_pipe; auto.
Qed.
#[export] Hint Resolve ty_getpipe ty_setpipe : ty.
#[export] Hint Extern 3 (forall _, pipe_t _ -> pipe_t _) =>
  solve [intros ? (? & ? & ?); split_and!; cbn; auto with ty] : ty.

Lemma find_lt {A} (P : A -> Prop) `{!forall x, Decision (P x)} l i x : list_find P l = Some (i, x) -> (i < length l)%nat.
Proof. intros E. apply list_find_Some in E as [E _]. by eapply lookup_lt_Some. Qed.

Lemma ty_filealloc : typed filealloc (ptr NFILE).
Proof.
  unfold filealloc. ty; auto with ty. apply ptr_Some. apply find_lt in Heqo.
  match goal with H : kt _ |- _ => by rewrite (proj1 (kt_ftable _ H)) in Heqo end.
Qed.

Lemma ty_filedup f : (f < NFILE)%nat -> typed (filedup f) (fun f => f < NFILE)%nat.
Proof. intros Hf. unfold filedup. by ty. Qed.
#[export] Hint Resolve ty_filealloc ty_filedup : ty.

Section files.
Context `{LY : Layout} `{PO : Ports} `{DT : DevTyped}.

Lemma ty_pipeclose p w : typed (pipeclose p w) any.
Proof. unfold pipeclose. by ty. Qed.
#[local] Hint Resolve ty_pipeclose : ty.

Lemma pipe_put_t c p : is_byte c -> pipe_t p -> pipe_t (pipe_put c p).
Proof. intros Hc (? & ? & ?). unfold pipe_put. split_and!; cbn; auto with ty. Qed.

Lemma pipe_skip_t p : pipe_t p -> pipe_t (pipe_skip p).
Proof. intros (? & ? & ?). unfold pipe_skip. split_and!; cbn; auto with ty. Qed.
#[local] Hint Resolve pipe_put_t pipe_skip_t : ty.

Lemma ty_pipewrite_wait fuel p : typed (pipewrite_wait fuel p) any.
Proof. induction fuel; cbn [pipewrite_wait]; by ty. Qed.
#[local] Hint Resolve ty_pipewrite_wait : ty.

Lemma ty_pipewrite_loop p src : Forall is_byte src -> typed (pipewrite_loop p src) any.
Proof. induction 1; cbn [pipewrite_loop]; by ty. Qed.
#[local] Hint Resolve ty_pipewrite_loop : ty.

Lemma ty_pipewrite p addr n : Forall is_byte addr -> typed (pipewrite p addr n) any.
Proof. intros Ha. unfold pipewrite. by ty. Qed.

Lemma pipe_next_t p : pipe_t p -> is_byte (pipe_next p).
Proof.
  intros (Hp & _). unfold pipe_next. apply (table_lookup 512); [exact Hp|].
  pose proof (Z.mod_pos_bound (pi_nread p) PIPESIZE). unfold PIPESIZE in *. lia.
Qed.
#[local] Hint Resolve pipe_next_t : ty.

Lemma ty_piperead_loop p n : typed (piperead_loop p n) (Forall is_byte).
Proof. induction n; cbn [piperead_loop]; ty; auto with ty. Qed.

Lemma ty_piperead_wait fuel p : typed (piperead_wait fuel p) any.
Proof. induction fuel; cbn [piperead_wait]; by ty. Qed.
#[local] Hint Resolve ty_piperead_loop ty_piperead_wait : ty.

Lemma ty_piperead p n : typed (piperead p n) rd_t.
Proof. unfold piperead. ty; [constructor|done]. Qed.
#[local] Hint Resolve ty_pipewrite ty_piperead : ty.

Lemma file_ip_lt x i : file_t x -> f_ip x = Some i -> (i < NINODE)%nat.
Proof. intros [Hp _] E. by apply Hp. Qed.
#[local] Hint Resolve file_ip_lt : ty.

Lemma ty_fileclose f : (f < NFILE)%nat -> typed (fileclose f) any.
Proof. intros Hf. unfold fileclose. by ty. Qed.
#[local] Hint Resolve ty_fileclose : ty.

Lemma new_pipe_t pg ro wo : block 4096 pg -> pipe_t (Pipe (slice pg SPINLOCK_SIZE (Z.to_nat PIPESIZE)) 0 0 ro wo).
Proof.
  intros Hp. split_and!; [|done..]. apply (block_slice 4096); [done|]. unfold SPINLOCK_SIZE, PIPESIZE. lia.
Qed.
#[local] Hint Resolve new_pipe_t : ty.

Lemma ty_pipealloc : typed pipealloc (fun x => ptr NFILE x.1.2 /\ ptr NFILE x.2).
Proof.
  unfold pipealloc. ty; try (split; cbn; auto with ty).
Qed.

Lemma ty_file_ip x : file_t x -> typed (file_ip x) (fun i => i < NINODE)%nat.
Proof. intros Hx. unfold file_ip. ty. eauto with ty. Qed.
#[local] Hint Resolve ty_file_ip : ty.

Lemma ty_filestat f : (f < NFILE)%nat -> typed (filestat f) any.
Proof. intros Hf. unfold filestat. by ty. Qed.

Lemma ty_fileread f n : (f < NFILE)%nat -> typed (fileread f n) rd_t.
Proof. intros Hf. unfold fileread. ty; try done; by constructor. Qed.

Lemma ty_filewrite_loop fuel f addr n i : (f < NFILE)%nat -> Forall is_byte addr ->
  typed (filewrite_loop fuel f addr n i) any.
Proof.
  intros Hf Ha. revert i. induction fuel; intros; cbn [filewrite_loop]; ty; try done.
Qed.
#[local] Hint Resolve ty_filewrite_loop : ty.

Lemma ty_filewrite f addr n : (f < NFILE)%nat -> Forall is_byte addr -> typed (filewrite f addr n) any.
Proof. intros Hf Ha. unfold filewrite. by ty. Qed.
End files.

#[export] Hint Resolve ty_fileclose ty_pipealloc ty_filestat ty_fileread ty_filewrite : ty.
