(* ===== verification/TypingSys.v ===== *)
(** * Types of processes and devices

    The type of every operation of proc.c, of the terminal and the other
    drivers, and of the functions that fetch the arguments of system calls.
    [dev_typed] gives the file system what it relies on. *)

From stdpp Require Import prelude gmap strings.
From S2P Require Import Prelude Ring Kernel Port Spinlock Sched Bio Log StringC Fs Console Kalloc Vm File Proc Tty Irqchip Kbd Ide Rtc Syscall Exec Sysfile Trap Typing TypingFs TypingVm.

(** ** Processes *)

Lemma name_update p s : block 16 (p_name p) -> Forall is_byte s ->
  block 16 (splice (p_name p) 0 (safestrcpy s 16)).
Proof.
  intros Hp Hs. destruct (safestrcpy_t s 16 Hs) as [Hb Hl]. apply block_splice; [done..|]. lia.
Qed.
#[export] Hint Resolve name_update pt_sz pt_pid pt_parent pt_ofile pt_cwd pt_name : ty.

Lemma kt_set_nextpid x s : is_s32 x -> kt s -> kt (set_nextpid (fun _ => x) s).
Proof. intros Hx. kt_fields. Qed.
Lemma kt_set_initproc o s : ptr NPROC o -> kt s -> kt (set_initproc (fun _ => o) s).
Proof. intros Hx. kt_fields. Qed.
Lemma kt_set_current o s : ptr NPROC o -> kt s -> kt (set_current (fun _ => o) s).
Proof. intros Hx. kt_fields. Qed.
Lemma kt_set_cproc o s : ptr NPROC o -> kt s -> kt (set_cpu (set_cproc (fun _ => o)) s).
Proof. intros Hx. kt_fields. Qed.
#[export] Hint Resolve kt_set_nextpid kt_set_initproc kt_set_current kt_set_cproc : kt.

#[export] Hint Resolve kt_nextpid kt_cpu kt_initproc kt_current : ty.

Lemma find_proc P `{!forall x, Decision (P x)} s n p : kt s -> list_find P (k_procs s) = Some (n, p) ->
  (n < NPROC)%nat /\ proc_t p.
Proof.
  intros Hs E. destruct (kt_procs _ Hs) as [Hl Hp]. split; [apply find_lt in E; lia|].
  apply list_find_Some in E as [E _]. by eapply Forall_lookup_1.
Qed.

Lemma PGSIZE_u32 : is_u32 PGSIZE.
Proof. done. Qed.
#[export] Hint Resolve PGSIZE_u32 : ty.

Lemma bytes_zeros n : Forall is_byte (replicate n 0).
Proof. by apply Forall_replicate. Qed.
#[export] Hint Resolve bytes_zeros : ty.

Lemma bytes_str s : Forall is_byte (str s).
Proof.
  unfold str. apply Forall_fmap, Forall_true. intros c. cbn. unfold ascii_code, is_byte.
  pose proof (Ascii.nat_ascii_bounded c). lia.
Qed.
#[export] Hint Resolve bytes_str : ty.

Section procs.
Context `{LY : Layout} `{PO : Ports} `{DT : DevTyped}.

Lemma ty_allocproc : typed allocproc (ptr NPROC).
Proof.
  unfold allocproc. ty; auto with ty. all: apply find_proc in Heqo as [? _]; auto with ty.
Qed.
#[local] Hint Resolve ty_allocproc : ty.

Lemma ty_userinit initcode : Forall is_byte initcode -> typed (userinit initcode) any.
Proof. intros Hi. unfold userinit. by ty. Qed.

Lemma ty_growproc n : typed (growproc n) any.
Proof. unfold growproc. by ty. Qed.

Lemma ty_fork_files np l fd : Forall (ptr NFILE) l -> typed (fork_files np l fd) any.
Proof.
  intros Hl. revert fd. induction Hl as [|o l Ho Hl IH]; intros; cbn [fork_files]; ty; try done.
Qed.
#[local] Hint Resolve ty_fork_files : ty.

Lemma ofile_ptrs p : proc_t p -> Forall (ptr NFILE) (p_ofile p).
Proof. intros []. apply pt_ofile. Qed.
Lemma cwd_lt p i : proc_t p -> p_cwd p = Some i -> (i < NINODE)%nat.
Proof. intros Hp E. by apply (pt_cwd _ Hp). Qed.
#[local] Hint Resolve ofile_ptrs cwd_lt : ty.

Lemma ty_fork : typed fork any.
Proof. unfold fork. ty; try done. Qed.

Lemma wakeup1_ptr_t c ps : table_of NPROC proc_t ps -> table_of NPROC proc_t (wakeup1_ptr c ps).
Proof.
  apply table_fmap. intros p Hp. destruct (_ && _); [|done]. by destruct Hp.
Qed.

Lemma reparent_t i init n j ps : ptr NPROC init ->
  table_of NPROC proc_t ps -> table_of NPROC proc_t (reparent i init n j ps).
Proof.
  intros Hi. revert j ps. induction n as [|n IH]; intros j ps Hps; cbn [reparent]; [done|]. apply IH.
  destruct (bool_decide (p_parent _ = _)); [|done].
  assert (table_of NPROC proc_t (alter (set_parent (fun _ => init)) j ps)).
  { apply table_alter; [|done]. intros p Hp. destruct Hp. by constructor. }
  destruct (bool_decide (p_state _ = _)); [by apply wakeup1_ptr_t|done].
Qed.
#[local] Hint Resolve wakeup1_ptr_t reparent_t : kt.

Lemma ofile_lt p fd f : p_ofile p !!! fd = Some f -> proc_t p -> (fd < NOFILE)%nat -> (f < NFILE)%nat.
Proof.
  intros E Hp Hfd. pose proof (table_lookup _ _ _ fd (pt_ofile _ Hp) Hfd) as H. by apply H.
Qed.
#[local] Hint Resolve ofile_lt : ty.

Lemma ty_exit_files i n fd : (i < NPROC)%nat -> (fd + n <= NOFILE)%nat -> typed (exit_files i n fd) any.
Proof.
  intros Hi. revert fd. induction n as [|n IH]; intros fd Hn; cbn [exit_files]; by ty.
Qed.

Lemma ty_exit status : typed (exit status) any.
Proof.
  unfold exit. ty. eapply ty_bind; [by apply ty_exit_files|intros; ty_pure]. by ty.
Qed.

Lemma ty_wait_loop fuel : typed (wait_loop fuel) any.
Proof.
  induction fuel; cbn [wait_loop]; ty; try done.
Qed.
#[local] Hint Resolve ty_wait_loop : ty.

Lemma ty_wait : typed wait any.
Proof. unfold wait. by ty. Qed.

Lemma ty_scheduler_enter : typed scheduler_enter any.
Proof. unfold scheduler_enter, sti. by ty. Qed.

Lemma ty_scheduler_dispatch p : (p < NPROC)%nat -> typed (scheduler_dispatch p) any.
Proof. intros Hp. unfold scheduler_dispatch. by ty. Qed.
#[local] Hint Resolve ty_scheduler_dispatch : ty.

Lemma ty_scheduler_return : typed scheduler_return any.
Proof. unfold scheduler_return. by ty. Qed.

Lemma next_runnable_lt s k p : kt s -> next_runnable (k_procs s) k = Some p -> (p < NPROC)%nat.
Proof.
  intros Hs E. unfold next_runnable in E. destruct (list_find _ _) as [[x q]|] eqn:F; [|done].
  injection E as <-. apply find_lt in F. rewrite length_drop, (proj1 (kt_procs _ Hs)) in F. cbn. lia.
Qed.
#[local] Hint Resolve next_runnable_lt : ty.

Lemma ty_scheduler_scan k : typed (scheduler_scan k) any.
Proof. unfold scheduler_scan. by ty. Qed.

Lemma ty_forkret : typed forkret any.
Proof. unfold forkret. by ty. Qed.

Lemma current_lt s i : kt s -> k_current s = Some i -> (i < NPROC)%nat.
Proof. intros Hs. apply (kt_current _ Hs). Qed.
#[local] Hint Resolve current_lt : ty.

Lemma ty_killcur : typed killcur any.
Proof. unfold killcur. by ty. Qed.

Lemma ty_procdump_loop ps : typed (procdump_loop ps) any.
Proof. induction ps; cbn [procdump_loop]; by ty. Qed.
#[local] Hint Resolve ty_procdump_loop : ty.

Lemma ty_procdump : typed procdump any.
Proof. unfold procdump. by ty. Qed.
End procs.

#[export] Hint Resolve ty_allocproc ty_userinit ty_growproc ty_fork ty_exit ty_wait ty_scheduler_enter
  ty_scheduler_return ty_scheduler_scan ty_forkret ty_killcur ty_procdump ofile_lt cwd_lt current_lt : ty.

(** ** The terminal *)

Lemma kt_set_input x s : input_t x -> kt s -> kt (set_input (fun _ => x) s).
Proof. intros Hx. kt_fields. Qed.
#[export] Hint Resolve kt_set_input kt_input : kt ty.

Lemma kill_line_t fuel x y n : kill_line fuel x = (y, n) -> input_t x -> input_t y.
Proof.
  revert x y n. induction fuel as [|fuel IH]; intros x y n; cbn [kill_line];
    (destruct (_ && _); [|by intros [= <- <-]]); [by intros [= <- <-]|].
  destruct (kill_line fuel _) as [z m] eqn:E. intros [= <- <-] Hx. eapply IH; [exact E|].
  destruct Hx. constructor; cbn; auto with ty.
Qed.

Lemma input_key_t c x y echo w : input_key c x = (y, echo, w) -> input_t x -> input_t y.
Proof.
  intros E Hx. unfold input_key in E. destruct (c =? Ctl 87).
  { destruct (kill_line _ x) as [z n] eqn:K. injection E as <- <- <-. by eapply kill_line_t. }
  destruct (_ || _).
  { destruct (negb _); injection E as <- <- <-; [|done]. destruct Hx. constructor; cbn; auto with ty. }
  destruct (negb _ && _); [|by injection E as <- <- <-]. cbv zeta in E.
  destruct (_ || _) in E; injection E as <- <- <-; destruct Hx; constructor; cbn; auto with ty.
Qed.
#[export] Hint Resolve input_key_t : ty.

Section tty.
Context `{LY : Layout} `{PO : Ports}.

Lemma ty_tty_key c : typed (tty_key c) any.
Proof.
  unfold tty_key. ty; try done.
Qed.
#[local] Hint Resolve ty_tty_key : ty.

Lemma ty_tty_keys fuel getc : typed getc any -> typed (tty_keys fuel getc) any.
Proof. intros Hg. induction fuel; cbn [tty_keys]; by ty. Qed.
#[local] Hint Resolve ty_tty_keys : ty.

Lemma ty_ttyintr fuel getc : typed getc any -> typed (ttyintr fuel getc) any.
Proof. intros Hg. unfold ttyintr. by ty. Qed.

Lemma ty_ttyread_wait fuel : typed (ttyread_wait fuel) any.
Proof. induction fuel; cbn [ttyread_wait]; by ty. Qed.
#[local] Hint Resolve ty_ttyread_wait : ty.

Definition line_t (r : bytes * bool) : Prop := Forall is_byte r.1.

Lemma kt_input_r s : kt s -> kt (set_input (set_r (fun r => u32 (r + 1))) s).
Proof.
  intros Hs. pose proof (kt_input _ Hs) as Hx. destruct Hs; constructor; cbn; try assumption.
  destruct Hx. constructor; cbn; auto with ty.
Qed.
#[local] Hint Resolve kt_input_r : kt.

Lemma ty_ttyread_loop n : typed (ttyread_loop n) line_t.
Proof.
  induction n as [|n IH]; cbn [ttyread_loop]; ty; unfold line_t in *; cbn in *; repeat constructor; try apply is_byte_u8; done.
Qed.
#[local] Hint Resolve ty_ttyread_loop : ty.

Lemma ty_ttyread ip n : (ip < NINODE)%nat -> typed (ttyread ip n) rd_t.
Proof. intros Hi. unfold ttyread. by ty. Qed.

Lemma ty_ttywrite ip buf n : (ip < NINODE)%nat -> typed (ttywrite ip buf n) any.
Proof. intros Hi. unfold ttywrite. by ty. Qed.
#[local] Hint Resolve ty_ttyread ty_ttywrite : ty.

(** The drivers keep what the file system relies on. *)
#[export] Instance dev_typed : DevTyped (DO := dev_ops).
Proof.
  constructor.
  - intros [] i n Hi; cbn; [by ty|by apply ty_ret; constructor|].
    apply ty_ret. by apply Forall_replicate.
  - intros [] i src n Hi Hs; cbn; by ty.
  - intros st. cbn. by ty.
Qed.
End tty.
#[export] Hint Resolve ty_ttyintr dev_typed : ty.

(** ** Devices *)

(** [insl] stores as many words as it is told to. *)
Class PortsTyped `{PO : Ports} : Prop := {
  port_ins_t l p n : block (4 * n) (port_ins l p n)
}.

Section devices.
Context `{LY : Layout} `{PT : PortsTyped}.

Lemma ty_insl p n : typed (insl p n) (block (4 * n)).
Proof. unfold insl. ty. apply port_ins_t. Qed.

Lemma ty_mmio_read a : typed (mmio_read a) any.
Proof. unfold mmio_read. by ty. Qed.
#[local] Hint Resolve ty_insl ty_mmio_read : ty.

Lemma ty_picsetmask mask : typed (picsetmask mask) any.
Proof. unfold picsetmask. by ty. Qed.
#[local] Hint Resolve ty_picsetmask : ty.

Lemma ty_picenable irq : typed (picenable irq) any.
Proof. unfold picenable. by ty. Qed.

Lemma ty_lapicw reg v : typed (lapicw reg v) any.
Proof. unfold lapicw, lapic_at. by ty. Qed.
#[local] Hint Resolve ty_lapicw : ty.

Lemma ty_lapiceoi : typed lapiceoi any.
Proof. unfold lapiceoi. by ty. Qed.
#[local] Hint Resolve ty_picenable ty_lapiceoi : ty.

Lemma ty_idewait fuel c : typed (idewait fuel c) any.
Proof. induction fuel; cbn [idewait]; by ty. Qed.
#[local] Hint Resolve ty_idewait : ty.

Lemma ty_idestart fuel i : typed (idestart fuel i) any.
Proof. unfold idestart. by ty. Qed.
#[local] Hint Resolve ty_idestart : ty.

Lemma kt_idequeue q s : Forall (fun i => i < NBUF)%nat q -> kt s -> kt (set_hw (set_idequeue (fun _ => q)) s).
Proof. intros Hq. kt_fields. Qed.

Lemma sector_fits d l : block 512 d -> block (4 * 128) l -> block 512 (splice d 0 l).
Proof. intros Hd [Hl Hb]. apply block_splice; [done..|]. lia. Qed.
#[local] Hint Resolve kt_idequeue : kt.
#[local] Hint Resolve sector_fits : ty.

Lemma ide_rest s i q : hw_idequeue (k_hw s) = i :: q -> kt s -> Forall (fun i => i < NBUF)%nat q.
Proof. intros E Hs. pose proof (kt_ide _ Hs) as H. rewrite E in H. by apply Forall_cons in H as [_ ?]. Qed.
#[local] Hint Resolve ide_rest : ty.

Lemma ty_ideintr fuel : typed (ideintr fuel) any.
Proof. unfold ideintr. by ty. Qed.

Lemma ty_kbd_wait fuel : typed (kbd_wait fuel) any.
Proof. induction fuel; cbn [kbd_wait]; by ty. Qed.
#[local] Hint Resolve ty_kbd_wait : ty.

Lemma ty_setleds fuel : typed (setleds fuel) any.
Proof. unfold setleds. by ty. Qed.
#[local] Hint Resolve ty_setleds : ty.

Lemma ty_kbdgetc fuel : typed (kbdgetc fuel) any.
Proof. unfold kbdgetc. by ty. Qed.
#[local] Hint Resolve ty_kbdgetc : ty.

Lemma ty_kbdintr fuel : typed (kbdintr fuel) any.
Proof. unfold kbdintr. by ty. Qed.

Lemma ty_uartgetc : typed uartgetc any.
Proof. unfold uartgetc. by ty. Qed.
#[local] Hint Resolve ty_uartgetc : ty.

Lemma ty_uartintr fuel : typed (uartintr fuel) any.
Proof. unfold uartintr. by ty. Qed.

Lemma ty_get_date_time t : typed (get_date_time t) any.
Proof. unfold get_date_time, get_date, get_time, read_rtc_address. by ty. Qed.
End devices.

#[export] Hint Resolve ty_lapiceoi ty_ideintr ty_kbdintr ty_uartintr ty_get_date_time : ty.

(** ** Arguments of system calls *)

Lemma ty_me : typed me proc_t.
Proof. unfold me. by ty. Qed.
#[export] Hint Resolve ty_me : ty.

Lemma ty_fetchint addr : typed (fetchint addr) any.
Proof. unfold fetchint. by ty. Qed.

Lemma ty_scan_nul n s len : typed (scan_nul n s len) any.
Proof. revert s len. induction n; intros; cbn [scan_nul]; by ty. Qed.
#[export] Hint Resolve ty_fetchint ty_scan_nul : ty.

Lemma ty_fetchstr addr : typed (fetchstr addr) any.
Proof. unfold fetchstr. by ty. Qed.

Lemma ty_argint n : typed (argint n) any.
Proof. unfold argint. by ty. Qed.
#[export] Hint Resolve ty_fetchstr ty_argint : ty.

Lemma ty_argptr n size : typed (argptr n size) any.
Proof. unfold argptr. by ty. Qed.

Lemma ty_argstr n : typed (argstr n) any.
Proof. unfold argstr. by ty. Qed.
#[export] Hint Resolve ty_argptr ty_argstr : ty.

Lemma ty_ustr p len : typed (ustr p len) (Forall is_byte).
Proof. apply ty_ubytes. Qed.
#[export] Hint Resolve ty_ustr : ty.

(** A string of the user. *)
Definition path_t (o : option bytes) : Prop := forall p, o = Some p -> Forall is_byte p.

Lemma path_inv p : path_t (Some p) -> Forall is_byte p.
Proof. intros H. by apply H. Qed.
#[export] Hint Resolve path_inv : ty.

Lemma ty_argpath n : typed (argpath n) path_t.
Proof. unfold argpath. ty; try done. by intros ? [= <-]. Qed.
#[export] Hint Resolve ty_argpath : ty.

(** ** Process calls *)

Section sysproc.
Context `{LY : Layout} `{PT : PortsTyped}.

Lemma ty_sleep_loop fuel t n : typed (sleep_loop fuel t n) any.
Proof. induction fuel; cbn [sleep_loop]; by ty. Qed.
#[local] Hint Resolve ty_sleep_loop : ty.

Lemma kt_hostname_write l s : Forall is_byte l -> (length l <= 256)%nat -> kt s ->
  kt (set_hostname (fun h => splice h 0 l) s).
Proof. intros Hl Hn. kt_fields. by apply block_splice. Qed.

Lemma ty_sys_sethostname : typed sys_sethostname any.
Proof.
  unfold sys_sethostname. ty; try done.
  eapply (ty_bind _ _ any); [|intros; by ty]. apply ty_modify; [|done]. intros s Hs.
  apply kt_hostname_write; [|rewrite length_take; lia|done].
  apply Forall_take, Forall_app. split; [by apply path_inv|by repeat constructor].
Qed.

Lemma ty_sys_gethostname : typed sys_gethostname any.
Proof. unfold sys_gethostname. by ty. Qed.
End sysproc.
