(* ===== verification/TypingTrap.v ===== *)
(** * Types of system calls and traps

    The type of exec.c, sysfile.c, sysproc.c and trap.c. The theorem: whatever
    the processes ask for and the devices send, in any order, the kernel's
    state keeps its type. *)

From stdpp Require Import prelude gmap strings.
From S2P Require Import Prelude Ring Kernel Port Spinlock Sched Bio Log StringC Fs Console Kalloc Vm File Proc Tty Irqchip Kbd Ide Rtc Syscall Exec Sysfile Trap Typing TypingFs TypingVm TypingSys.

Section exec.
Context `{LY : Layout} `{PO : Ports}.

Lemma ty_exec_bad pgdir ip : ptr NINODE ip -> typed (exec_bad pgdir ip) any.
Proof. intros Hi. unfold exec_bad. by ty. Qed.
#[local] Hint Resolve ty_exec_bad : ty.

Definition size_t (o : option Z) : Prop := forall z, o = Some z -> is_u32 z.

Lemma ty_exec_load n ip pgdir off sz : (ip < NINODE)%nat -> is_u32 sz ->
  typed (exec_load n ip pgdir off sz) size_t.
Proof.
  intros Hi. revert off sz. induction n as [|n IH]; intros off sz Hs; cbn [exec_load]; ty; try done.
  by intros ? [= <-].
Qed.

Lemma ty_exec_args pgdir argv argc sp : Forall (Forall is_byte) argv ->
  typed (exec_args pgdir argv argc sp) any.
Proof.
  intros Ha. revert argc sp. induction Ha as [|a argv Ha Hargv IH]; intros; cbn [exec_args]; ty; try done.
  all: eapply ty_bind; [apply ty_copyout, Forall_app; split; [done|by repeat constructor]|intros; by ty].
Qed.
#[local] Hint Resolve ty_exec_load ty_exec_args : ty.

Lemma bytes_basename s last : Forall is_byte s -> Forall is_byte last -> Forall is_byte (basename s last).
Proof.
  intros Hs. revert last. induction Hs as [|c s Hc Hs IH]; intros last Hl; cbn; [done|].
  apply IH. by destruct (c =? SLASH).
Qed.
#[local] Hint Resolve bytes_basename bytes_concat_le4 : ty.

Lemma ty_exec path argv : Forall is_byte path -> Forall (Forall is_byte) argv -> typed (exec path argv) any.
Proof. intros Hp Ha. unfold exec. ty; try done. Qed.
End exec.
#[export] Hint Resolve ty_exec : ty.

(** ** File system calls *)

Definition fd_t (o : option (Z * nat)) : Prop := forall fd f, o = Some (fd, f) -> (f < NFILE)%nat.

Lemma fd_inv fd f : fd_t (Some (fd, f)) -> (f < NFILE)%nat.
Proof. intros H. by eapply H. Qed.
#[export] Hint Resolve fd_inv : ty.

Lemma ty_argfd n : typed (argfd n) fd_t.
Proof.
  unfold argfd. ty; try done. intros fd f E. destruct (p_ofile _ !!! _) eqn:F; [|done].
  injection E as <- <-. eapply ofile_lt; [exact F|done|].
  match goal with H : _ || _ = false |- _ => apply orb_false_elim in H as [?%Z.ltb_ge ?%Z.leb_gt] end. lia.
Qed.

Lemma ty_fdalloc f : (f < NFILE)%nat -> typed (fdalloc f) any.
Proof. intros Hf. unfold fdalloc. by ty. Qed.
#[export] Hint Resolve ty_argfd ty_fdalloc : ty.

Lemma name_ip ip n : name_t (Some ip, n) -> (ip < NINODE)%nat.
Proof. intros [H _]. by apply H. Qed.
Lemma name_bytes o n : name_t (o, n) -> Forall is_byte n.
Proof. by intros [_ H]. Qed.
#[export] Hint Resolve name_ip name_bytes : ty.

Section sysfile.
Context `{LY : Layout} `{PO : Ports}.

Lemma ty_sys_dup : typed sys_dup any.
Proof. unfold sys_dup. by ty. Qed.

Definition rw_t (o : option (nat * Z * Z)) : Prop := forall f p n, o = Some (f, p, n) -> (f < NFILE)%nat.

Lemma rw_inv f p n : rw_t (Some (f, p, n)) -> (f < NFILE)%nat.
Proof. intros H. by eapply H. Qed.
#[local] Hint Resolve rw_inv : ty.

Lemma ty_arg_rw : typed arg_rw rw_t.
Proof.
  unfold arg_rw. ty; try done. intros f q m E.
  match goal with E : _ <$> ?o = _ |- _ => destruct o; [|done] end. injection E as <- <- <-. eauto with ty.
Qed.
#[local] Hint Resolve ty_arg_rw : ty.

Lemma ty_sys_read : typed sys_read any.
Proof. unfold sys_read. by ty. Qed.

Lemma ty_sys_write : typed sys_write any.
Proof. unfold sys_write. by ty. Qed.

Lemma ty_sys_lseek : typed sys_lseek any.
Proof. unfold sys_lseek. by ty. Qed.

Lemma ty_sys_close : typed sys_close any.
Proof. unfold sys_close. by ty. Qed.

Lemma ty_ustat a st : typed (ustat a st) any.
Proof. unfold ustat. by ty. Qed.
#[local] Hint Resolve ty_ustat : ty.

Lemma ty_sys_fstat : typed sys_fstat any.
Proof. unfold sys_fstat. by ty. Qed.

Lemma ty_link_bad ip : (ip < NINODE)%nat -> typed (link_bad ip) any.
Proof. intros Hi. unfold link_bad. by ty. Qed.
#[local] Hint Resolve ty_link_bad : ty.

Lemma ty_sys_link : typed sys_link any.
Proof. unfold sys_link. by ty. Qed.

Lemma ty_isdirempty_loop fuel dp off : (dp < NINODE)%nat -> typed (isdirempty_loop fuel dp off) any.
Proof. intros Hi. revert off. induction fuel; intros; cbn [isdirempty_loop]; by ty. Qed.
#[local] Hint Resolve ty_isdirempty_loop : ty.

Lemma ty_isdirempty dp : (dp < NINODE)%nat -> typed (isdirempty dp) any.
Proof. intros Hi. unfold isdirempty. by ty. Qed.

Lemma ty_unlink_bad dp : (dp < NINODE)%nat -> typed (unlink_bad dp) any.
Proof. intros Hi. unfold unlink_bad. by ty. Qed.
#[local] Hint Resolve ty_isdirempty ty_unlink_bad : ty.

Lemma ty_sys_unlink : typed sys_unlink any.
Proof. unfold sys_unlink. by ty. Qed.

Lemma ty_create path type major minor : Forall is_byte path -> is_s16 major -> is_s16 minor ->
  typed (create path type major minor) (ptr NINODE).
Proof. intros Hp Hma Hmi. unfold create. ty; eauto with ty. Qed.
#[local] Hint Resolve ty_create : ty.

Lemma ty_open_inode path omode : Forall is_byte path -> typed (open_inode path omode) (ptr NINODE).
Proof. intros Hp. unfold open_inode. ty; eauto with ty. Qed.

Definition slot_t (o : option (nat * Z)) : Prop := forall f fd, o = Some (f, fd) -> (f < NFILE)%nat.

Lemma slot_inv f fd : slot_t (Some (f, fd)) -> (f < NFILE)%nat.
Proof. intros H. by eapply H. Qed.
#[local] Hint Resolve slot_inv : ty.

Lemma ty_open_fd : typed open_fd slot_t.
Proof. unfold open_fd. ty; try done. intros ? ? [= <- <-]. eauto with ty. Qed.
#[local] Hint Resolve ty_open_inode ty_open_fd : ty.

Lemma ty_sys_open : typed sys_open any.
Proof. unfold sys_open. by ty. Qed.

Lemma ty_created o : ptr NINODE o -> typed (created o) any.
Proof. intros Ho. unfold created. by ty. Qed.
#[local] Hint Resolve ty_created : ty.

Lemma ty_sys_mkdir : typed sys_mkdir any.
Proof. unfold sys_mkdir. by ty. Qed.

Lemma ty_sys_mknod : typed sys_mknod any.
Proof. unfold sys_mknod. by ty. Qed.

Lemma ty_sys_chdir : typed sys_chdir any.
Proof. unfold sys_chdir. by ty. Qed.

Definition args_t (o : option (list bytes)) : Prop := forall l, o = Some l -> Forall (Forall is_byte) l.

Lemma args_inv l : args_t (Some l) -> Forall (Forall is_byte) l.
Proof. intros H. by apply H. Qed.
#[local] Hint Resolve args_inv : ty.

Lemma ty_execv_args n uargv i : typed (execv_args n uargv i) args_t.
Proof.
  revert i. induction n as [|n IH]; intros; cbn [execv_args]; ty; try done.
  - by intros ? [= <-].
  - intros l E. match goal with E : _ <$> ?o = _ |- _ => destruct o; [|done] end.
    injection E as <-. constructor; [done|by apply args_inv].
Qed.
#[local] Hint Resolve ty_execv_args : ty.

Lemma ty_sys_execv : typed sys_execv any.
Proof. unfold sys_execv. by ty. Qed.

Lemma ty_sys_pipe : typed sys_pipe any.
Proof. unfold sys_pipe. ty; try done. Qed.

Lemma ty_name_of_inode_loop fuel ip parent off : (ip < NINODE)%nat -> (parent < NINODE)%nat ->
  typed (name_of_inode_loop fuel ip parent off) any.
Proof. intros Hi Hp. revert off. induction fuel; intros; cbn [name_of_inode_loop]; by ty. Qed.
#[local] Hint Resolve ty_name_of_inode_loop : ty.

Lemma ty_name_of_inode ip parent : (ip < NINODE)%nat -> (parent < NINODE)%nat ->
  typed (name_of_inode ip parent) any.
Proof. intros Hi Hp. unfold name_of_inode. by ty. Qed.
#[local] Hint Resolve ty_name_of_inode : ty.

Lemma ty_name_for_inode fuel buf n ip : (ip < NINODE)%nat -> typed (name_for_inode fuel buf n ip) any.
Proof. revert ip. induction fuel; intros ip Hi; cbn [name_for_inode]; by ty. Qed.
#[local] Hint Resolve ty_name_for_inode : ty.

Lemma ty_sys_getcwd fuel : typed (sys_getcwd fuel) any.
Proof. unfold sys_getcwd. by ty. Qed.

Lemma ty_sys_touch : typed sys_touch any.
Proof. unfold sys_touch. by ty. Qed.
End sysfile.

#[export] Hint Resolve ty_sys_dup ty_sys_read ty_sys_write ty_sys_lseek ty_sys_close ty_sys_fstat ty_sys_link
  ty_sys_unlink ty_sys_open ty_sys_mkdir ty_sys_mknod ty_sys_chdir ty_sys_execv ty_sys_pipe ty_sys_getcwd
  ty_sys_touch : ty.

(** ** Traps *)

Section trap.
Context `{LY : Layout} `{PT : PortsTyped}.

Lemma ty_syscalls lo num f : syscalls lo num = Some f -> typed f any.
Proof.
  unfold syscalls. intros E.
  repeat match type of E with
  | match ?x with _ => _ end = _ => destruct x; try discriminate E
  end; injection E as <-; unfold sys_fork, sys_exit, sys_wait, sys_kill, sys_getpid, sys_sbrk, sys_sleep,
    sys_uptime, sys_shutdown, sys_reboot, sys_time, sys_getuid, sys_setuid;
  first [by apply ty_sys_sethostname | by apply ty_sys_gethostname | pose proof ty_sleep_loop; by ty].
Qed.

Lemma ty_syscall lo : typed (syscall lo) any.
Proof.
  unfold syscall. ty; try done. eapply ty_bind; [by eapply ty_syscalls|intros; by ty].
Qed.
#[local] Hint Resolve ty_syscall : ty.

Lemma ty_exit_if_killed : typed exit_if_killed any.
Proof. unfold exit_if_killed. by ty. Qed.

Lemma cpu_lt s i : c_proc (k_cpu s) = Some i -> kt s -> (i < NPROC)%nat.
Proof. intros E Hs. by apply (kt_cpu _ Hs). Qed.
#[local] Hint Resolve ty_exit_if_killed cpu_lt : ty.

Lemma ty_exit_if_killed_user tf : typed (exit_if_killed_user tf) any.
Proof. unfold exit_if_killed_user. by ty. Qed.
#[local] Hint Resolve ty_exit_if_killed_user : ty.

Lemma ty_trap_irq fuel cr2 tf : typed (trap_irq fuel cr2 tf) any.
Proof. unfold trap_irq. by ty. Qed.
#[local] Hint Resolve ty_trap_irq : ty.

Lemma ty_trap lo fuel cr2 tf : typed (trap lo fuel cr2 tf) any.
Proof. unfold trap. by ty. Qed.

(** What happens to the kernel: a trap, a step of the scheduler, the first
    return of a new process, a store of a user program. *)
Inductive event :=
| EvTrap (lo : loose) (fuel : nat) (cr2 : Z) (tf : trapframe)
| EvEnter | EvScan (k : nat) | EvReturn | EvForkret
| EvStore (va v : Z).

Definition handle (e : event) : K unit :=
  match e with
  | EvTrap lo fuel cr2 tf => trap lo fuel cr2 tf
  | EvEnter => scheduler_enter
  | EvScan k => _ <- scheduler_scan k ;; ret tt
  | EvReturn => scheduler_return
  | EvForkret => forkret
  | EvStore va v => ustore va v
  end.

(** The state after the events, as long as the kernel runs. *)
Fixpoint handle_all (es : list event) (s : kst) : option kst :=
  match es with
  | [] => Some s
  | e :: es =>
    match handle e s with
    | Ok _ s' | Switched s' => handle_all es s'
    | _ => None
    end
  end.

Lemma ty_handle e : typed (handle e) any.
Proof. pose proof ty_trap. destruct e; cbn [handle]; by ty. Qed.

Lemma handle_all_typed es s s' : kt s -> handle_all es s = Some s' -> kt s'.
Proof.
  revert s. induction es as [|e es IH]; intros s Hs; cbn [handle_all].
  - by intros [= <-].
  - pose proof (ty_handle e s Hs) as H. destruct (handle e s); try done; [by apply IH; destruct H|by apply IH].
Qed.
End trap.

(** The kernel keeps its types. From a state in which every table has
    its declared size, every byte and word is in the range of its type and
    every pointer points into its table, any sequence of traps (system calls
    with any arguments, interrupts, faults), scheduler steps and stores of user
    programs leads to such a state again: no call grows or shrinks a table, a
    buffer, a page or a pipe, and none leaves a dangling index behind. This is
    about the control paths that return or give up the processor: a panic or
    an access through a bad pointer ends the sequence, and a path that sleeps
    is not followed further. An update of a list beyond its end leaves it as it
    is, so that the types do not show that indices are in bounds; the theorems
    about the rings, the log and the argument functions do. The hypothesis on
    the ports is that a block transfer delivers the number of words asked
    for. *)
Theorem kernel_keeps_types `{LY : Layout} `{PT : PortsTyped} es s s' :
  kt s -> handle_all es s = Some s' -> kt s'.
Proof. apply handle_all_typed. Qed.

(** A machine with one process, in the middle of its run. *)
Definition demo_layout : Layout := {| kend := KERNBASE + 0x200000; kdata := KERNBASE + 0x150000; ktrapret := 0; kforkret := 0 |}.
Definition demo_ports : Ports :=
  {| port_in := fun _ _ => 0; port_ins := fun _ _ n => replicate (4 * n) 0; mmio_in := fun _ _ => 0 |}.

Lemma demo_ports_typed : PortsTyped (PO := demo_ports).
Proof. constructor. intros. by apply block_replicate. Qed.

Definition demo_proc : proc :=
  set_pstate (fun _ => RUNNING) (set_pid (fun _ => 1) (set_sz (fun _ => 4096) (set_pgdir (fun _ => KERNBASE + 0x1000) proc0))).

Definition demo_kernel : kst :=
  Kst (Cpu 0 0 false true (Some 0%nat)) ∅ (demo_proc :: replicate 63 proc0) (Some 0%nat) 2
    (replicate 4 (replicate 512 0)) 4 [] (replicate 11 buf0) (Log 0 0 0 0 0 (replicate 10 0))
    (replicate 50 inode0) (replicate 100 file0) ∅ (Kmem 1 0)
    {[ KERNBASE + 0x1000 := put32 (replicate 4096 0) 0 0x2007;
       KERNBASE + 0x2000 := put32 (replicate 4096 0) 0 0x3007;
       KERNBASE + 0x3000 := replicate 4096 0 ]}
    (replicate 10 (Device 0 None None)) (Input (replicate 128 0) 0 0 0) 0 (Some 0%nat) 0
    (KERNBASE + 0x1000) 0x1000 0 0 0 ∅ 0 (replicate 256 0) 0 (0, 0) hw0 [].

(** getpid, a store of the program, the timer, and the scheduler's next choice. *)
Definition demo_events : list event :=
  let call n := EvTrap (Loose 0 0 10) 10 0 (set_eax (fun _ => n) (Trapframe 0 0 0 0 0 0 0 0 0 0 0 0 64 0 0 0 0 0 0)) in
  [call 11; EvStore 100 65; EvTrap (Loose 0 0 10) 10 0 (Trapframe 0 0 0 0 0 0 0 0 0 0 0 0 32 0 0 3 0 0 0);
   EvReturn; EvScan 0].

Lemma table_replicate {A} n (P : A -> Prop) x : P x -> table_of n P (replicate n x).
Proof. intros. split; [apply length_replicate|by apply Forall_replicate]. Qed.

(** The tables at boot. *)
Lemma proc0_t : proc_t proc0.
Proof.
  constructor; [done|done|apply ptr_None|apply table_replicate, ptr_None|apply ptr_None|].
  by apply block_replicate.
Qed.
Lemma buf0_t : buf_t buf0.
Proof. constructor; [done|apply Nat.le_0_l|apply Nat.le_0_l|by apply block_replicate]. Qed.
Lemma inode0_t : inode_t inode0.
Proof. constructor; [done..|by apply table_replicate]. Qed.
Lemma file0_t : file_t file0.
Proof. constructor; [apply ptr_None|done]. Qed.

Lemma demo_pages_t : map_Forall (fun _ => block 4096) (k_pm demo_kernel).
Proof.
  unfold demo_kernel, k_pm.
  apply map_Forall_insert_2; [apply block_put32; [by apply block_replicate|lia]|].
  apply map_Forall_insert_2; [apply block_put32; [by apply block_replicate|lia]|].
  apply map_Forall_singleton. by apply block_replicate.
Qed.

Lemma demo_kernel_typed : kt demo_kernel.
Proof.
  constructor.
  - apply ptr_Some. unfold NPROC. lia.
  - split; [reflexivity|]. constructor; [|apply Forall_replicate, proc0_t]. by destruct proc0_t.
  - apply ptr_Some. unfold NPROC. lia.
  - apply ptr_Some. unfold NPROC. lia.
  - done.
  - split_and!; [|reflexivity|reflexivity]. apply Forall_replicate. by apply block_replicate.
  - apply (table_replicate 11), buf0_t.
  - by apply (table_replicate 10).
  - apply (table_replicate 50), inode0_t.
  - apply (table_replicate 100), file0_t.
  - apply map_Forall_empty.
  - exact demo_pages_t.
  - reflexivity.
  - constructor; [by apply block_replicate|done..].
  - by apply block_replicate.
  - constructor.
Qed.

(** The process sees its id, the tick is counted, and the process runs again. *)
Lemma demo_runs :
  (fun s => (k_ticks s, tf_eax (p_tf (k_procs s !!! 0%nat)), c_proc (k_cpu s)))
    <$> handle_all (LY := demo_layout) (PO := demo_ports) demo_events demo_kernel = Some (1, 1, Some 0%nat).
Proof. vm_compute. reflexivity. Qed.

Lemma kernel_keeps_types_witness :
  exists s', handle_all (LY := demo_layout) (PO := demo_ports) demo_events demo_kernel = Some s' /\
    k_ticks s' = 1 /\ kt s'.
Proof.
  pose proof demo_runs as H.
  destruct (handle_all (LY := demo_layout) (PO := demo_ports) demo_events demo_kernel) as [s'|] eqn:E;
    [|discriminate H].
  exists s'. split; [reflexivity|]. injection H as Ht _ _. split; [exact Ht|].
  apply (kernel_keeps_types (LY := demo_layout) (PT := demo_ports_typed) demo_events demo_kernel);
    [exact demo_kernel_typed|exact E].
Defined.
