(* ===== verification/Ulib.v ===== *)
(** * The C library of user programs: strings (userspace/libc/ulib.c, strncpy.c)

    Strings are the bytes from the pointer on, after which a NUL is read, as in
    [StringC]; the functions on memory work on bytes by address. *)

From stdpp Require Import prelude gmap strings.
From S2P Require Import Prelude StringC.

(** What [strcpy] writes at its destination. *)
Fixpoint strcpy (t : bytes) : bytes :=
  match t with
  | [] => [0]
  | c :: t => if c =? 0 then [0] else c :: strcpy t
  end.

Fixpoint strcmp (p q : bytes) : Z :=
  match p with
  | [] => 0 - chr q
  | a :: p' => if negb (a =? 0) && (a =? chr q) then strcmp p' (tail q) else a - chr q
  end.

(** [strchr]: the rest of the string from the character on. The loop stops at
    the NUL before comparing, so the NUL itself is never found. *)
Fixpoint strchr (s : bytes) (c : Z) : option bytes :=
  match s with
  | [] => None
  | a :: s' => if a =? 0 then None else if a =? c then Some s else strchr s' c
  end.

(** [gets] on the bytes successive reads of one character deliver; [max] is the
    uninitialised variable of the code. *)
Fixpoint gets_loop (input : bytes) (n : nat) : bytes :=
  match n, input with
  | S n, c :: input => c :: (if (c =? 10) || (c =? 13) then [] else gets_loop input n)
  | _, _ => []
  end.
Definition gets_line (max : Z) (input : bytes) : bytes := gets_loop input (Z.to_nat (max - 1)) ++ [0].

Fixpoint atoi_loop (s : bytes) (n : Z) : Z :=
  match s with
  | c :: s => if (48 <=? c) && (c <=? 57) then atoi_loop s (s32 (n * 10 + c - 48)) else n
  | [] => n
  end.
Definition atoi (s : bytes) : Z := atoi_loop s 0.

(** The library's [memmove] only copies upwards. *)
Definition memmove (m : mem) (dst src n : Z) : mem := copy_up m dst src (Z.to_nat n).

Definition memset (m : mem) (dst c n : Z) : mem := stosb m dst c (Z.to_nat n).

(** [strncpy]: the bytes written at the destination. *)
Fixpoint strncpy (t : bytes) (n : nat) : bytes :=
  match n with
  | O => []
  | S n => chr t :: (if chr t =? 0 then replicate n 0 else strncpy (tail t) n)
  end.

(** The loops of [strcspn]: [c] is compared with every character of [s2] and
    with its NUL. *)
Fixpoint strcspn (s1 s2 : bytes) : nat :=
  match s1 with
  | [] => O
  | c :: s1 => if existsb (Z.eqb c) (cstr s2 ++ [0]) then O else S (strcspn s1 s2)
  end.

Definition isdigit (c : Z) : bool := (48 <=? c) && (c <=? 57).
Definition isspace (c : Z) : bool := ((9 <=? c) && (c <=? 13)) || (c =? 32).

(** Whether [strchr] finds the character. *)
Definition in_set (set : bytes) (c : Z) : bool :=
  match strchr set c with Some _ => true | None => false end.

(** ** Lemmas *)

Lemma in_set_spec set c : Forall (fun x => x <> 0) set -> in_set set c = bool_decide (c ∈ set).
Proof.
  unfold in_set. induction 1 as [|a set Ha Hs IH]; cbn; [done|].
  destruct (Z.eqb_spec a 0); [done|]. destruct (Z.eqb_spec a c) as [->|Hne].
  - symmetry. apply bool_decide_true. set_solver.
  - rewrite IH. apply bool_decide_ext. set_solver.
Qed.

Lemma strcpy_cstr t : strcpy t = cstr t ++ [0].
Proof. induction t as [|c t IH]; cbn; [done|]. destruct (c =? 0); [done|]. cbn. by rewrite IH. Qed.

Lemma strcmp_eq p q : Forall is_byte p -> Forall is_byte q -> strcmp p q = 0 <-> cstr p = cstr q.
Proof.
  intros Hp. revert q. induction Hp as [|a p Ha Hp IH]; intros q Hq.
  - destruct q as [|b q]; cbn; [done|]. destruct (Z.eqb_spec b 0) as [->|]; [done|].
    split; [lia|done].
  - destruct q as [|b q]; cbn [strcmp chr hd tail cstr].
    + destruct (Z.eqb_spec a 0) as [->|]; cbn [negb andb]; [done|].
      destruct (Z.eqb_spec a 0); [done|]. split; [lia|done].
    + inversion Hq; subst. destruct (Z.eqb_spec a 0) as [->|]; cbn [negb andb].
      * destruct (Z.eqb_spec b 0) as [->|]; [done|]. split; [lia|done].
      * destruct (Z.eqb_spec a b) as [->|].
        { destruct (Z.eqb_spec b 0); [done|]. rewrite IH by done. split; [congruence|by intros [= ?]]. }
        destruct (Z.eqb_spec b 0); (split; [lia|congruence]).
Qed.
