(* ===== verification/Sh.v ===== *)
(** * The shell's parser (userspace/sh.c)

    The recursive-descent parser of the shell on the bytes of a command line,
    with pointers into the line as offsets, the pass that terminates the words
    in place, and a reference: a lexer, a grammar and what its sentences mean.
    The theorem says that the parser accepts exactly the sentences of the
    grammar and builds the command they mean. *)

From stdpp Require Import prelude gmap strings.
From S2P Require Import Prelude StringC Ulib.

(** ** Commands

    The structures execcmd, redircmd, pipecmd, listcmd and backcmd; a word is a
    pair of pointers into the line, the string it spells after
    [nulterminate], or any other type [W]. *)

Inductive cmd (W : Type) : Type :=
| EXEC (argv : list W)
| REDIR (c : cmd W) (file : W) (mode fd : Z)
| PIPE (left right : cmd W)
| LIST (left right : cmd W)
| BACK (c : cmd W).
Arguments EXEC {_} _.
Arguments REDIR {_} _ _ _ _.
Arguments PIPE {_} _ _.
Arguments LIST {_} _ _.
Arguments BACK {_} _.

Fixpoint cmap {V W} (f : V -> W) (c : cmd V) : cmd W :=
  match c with
  | EXEC argv => EXEC (f <$> argv)
  | REDIR c file mode fd => REDIR (cmap f c) (f file) mode fd
  | PIPE l r => PIPE (cmap f l) (cmap f r)
  | LIST l r => LIST (cmap f l) (cmap f r)
  | BACK c => BACK (cmap f c)
  end.

Fixpoint words {W} (c : cmd W) : list W :=
  match c with
  | EXEC argv => argv
  | REDIR c file _ _ => file :: words c
  | PIPE l r | LIST l r => words l ++ words r
  | BACK c => words c
  end.

Definition MAXARGS : nat := 10.
Definition O_RDONLY : Z := 0.
Definition O_WRONLY : Z := 1.
Definition O_CREAT : Z := 0x100.

Definition whitespace : bytes := [32; 9; 13; 10; 11].
Definition symbols : bytes := str "<|>&;()".
Definition is_ws (c : Z) : bool := in_set whitespace c.
Definition is_sym (c : Z) : bool := in_set symbols c.

(** [while(s < es && f( *s)) s++]: how far the loop gets from the text [l]. *)
Fixpoint span_while (f : Z -> bool) (l : bytes) : nat :=
  match l with
  | c :: l => if f c then S (span_while f l) else O
  | [] => O
  end.

(** A pair of pointers [q], [eq] into the line. *)
Notation span := (nat * nat)%type.

Section parser.
(** The text of the line, from [s] to [es]; the NUL follows. *)
Context (b : bytes).

(** The character at a position. *)
Definition cur (s : nat) : Z := chr (drop s b).
Definition skip (s : nat) : nat := s + span_while is_ws (drop s b).
Definition in_word (c : Z) : bool := negb (is_ws c) && negb (is_sym c).

(** [gettoken]: the kind of the token and the pointers to its ends. *)
Definition gettoken : M nat (Z * span) := fun s =>
  let q := skip s in
  let c := cur q in
  let '(ret, eq) :=
    if c =? 0 then (c, q)
    else if (c =? 124) || (c =? 40) || (c =? 41) || (c =? 59) || (c =? 38) || (c =? 60) then (c, S q)
    else if c =? 62 then (if cur (S q) =? 62 then (43, S (S q)) else (c, S q))
    else (97, (q + span_while in_word (drop q b))%nat) in
  Ok (ret, (q, eq)) (skip eq).

Definition peek (toks : bytes) : M nat bool := fun s =>
  let s := skip s in
  Ok (negb (cur s =? 0) && in_set toks (cur s)) s.

(** [redircmd] applied by [parseredirs]: file, mode and descriptor. *)
Definition redir := (span * Z * Z)%type.

(** [parseredirs] puts the redirections it reads around its argument, the
    first innermost. The command it wraps is shared with [parseexec], which
    goes on filling in its arguments; so it returns the redirections, to be
    put around the command by [wrap]. *)
Definition wrap (c : cmd span) (rs : list redir) : cmd span :=
  foldl (fun c '(f, mode, fd) => REDIR c f mode fd) c rs.

Fixpoint parseredirs (fuel : nat) (rs : list redir) : M nat (list redir) :=
  match fuel with
  | O => fun _ => NoFuel
  | S fuel =>
    p <- peek (str "<>") ;;
    if negb p then ret rs else
    ' (tok, _) <- gettoken ;;
    ' (t, f) <- gettoken ;;
    if negb (t =? 97) then panic "missing file for redirection" else
    parseredirs fuel
      (if tok =? 60 then rs ++ [(f, O_RDONLY, 0)]
       else if tok =? 62 then rs ++ [(f, Z.lor O_WRONLY O_CREAT, 1)]
       else if tok =? 43 then rs ++ [(f, Z.lor O_WRONLY O_CREAT, 1)]
       else rs)
  end.

(** The loop of [parseexec]: the arguments and redirections so far. *)
Fixpoint parseargs (fuel : nat) (argv : list span) (rs : list redir) : M nat (list span * list redir) :=
  match fuel with
  | O => fun _ => NoFuel
  | S fuel =>
    p <- peek (str "|)&;") ;;
    if p : bool then ret (argv, rs) else
    ' (tok, w) <- gettoken ;;
    if tok =? 0 then ret (argv, rs) else
    if negb (tok =? 97) then panic "syntax" else
    let argv := argv ++ [w] in
    if bool_decide (MAXARGS <= length argv)%nat then panic "too many args" else
    rs <- parseredirs fuel rs ;;
    parseargs fuel argv rs
  end.

(** The loop of [parseline] over [&]. *)
Fixpoint parsebacks (fuel : nat) (c : cmd span) : M nat (cmd span) :=
  match fuel with
  | O => fun _ => NoFuel
  | S fuel =>
    p <- peek (str "&") ;;
    if negb p then ret c else
    _ <- gettoken ;; parsebacks fuel (BACK c)
  end.

Fixpoint parseline (fuel : nat) : M nat (cmd span) :=
  match fuel with
  | O => fun _ => NoFuel
  | S fuel =>
    c <- parsepipe fuel ;;
    c <- parsebacks fuel c ;;
    p <- peek (str ";") ;;
    if negb p then ret c else
    _ <- gettoken ;; r <- parseline fuel ;; ret (LIST c r)
  end
with parsepipe (fuel : nat) : M nat (cmd span) :=
  match fuel with
  | O => fun _ => NoFuel
  | S fuel =>
    c <- parseexec fuel ;;
    p <- peek (str "|") ;;
    if negb p then ret c else
    _ <- gettoken ;; r <- parsepipe fuel ;; ret (PIPE c r)
  end
with parseexec (fuel : nat) : M nat (cmd span) :=
  match fuel with
  | O => fun _ => NoFuel
  | S fuel =>
    p <- peek (str "(") ;;
    if p : bool then parseblock fuel else
    rs <- parseredirs fuel [] ;;
    ' (argv, rs) <- parseargs fuel [] rs ;;
    ret (wrap (EXEC argv) rs)
  end
with parseblock (fuel : nat) : M nat (cmd span) :=
  match fuel with
  | O => fun _ => NoFuel
  | S fuel =>
    p <- peek (str "(") ;;
    if negb p then panic "parseblock" else
    _ <- gettoken ;;
    c <- parseline fuel ;;
    p <- peek (str ")") ;;
    if negb p then panic "syntax - missing )" else
    _ <- gettoken ;;
    rs <- parseredirs fuel [] ;;
    ret (wrap c rs)
  end.
End parser.

(** [nulterminate] writes a NUL behind every word. *)
Fixpoint nulterminate (c : cmd span) (b : bytes) : bytes :=
  match c with
  | EXEC argv => foldl (fun b w => <[w.2 := 0]> b) b argv
  | REDIR c file _ _ => <[file.2 := 0]> (nulterminate c b)
  | PIPE l r | LIST l r => nulterminate r (nulterminate l b)
  | BACK c => nulterminate c b
  end.

(** Fuel for a line: every turn of a loop and every second call consumes a
    character ([parsecmd_total]). *)
Definition line_fuel (b : bytes) : nat := 8 * length b + 8.

(** [parsecmd] on the buffer [b]: the command, and the buffer with the words
    terminated. *)
Definition parsecmd : M bytes (cmd span) := fun buf =>
  let b := cstr buf in
  match parseline b (line_fuel b) 0%nat with
  | Ok c s => if bool_decide (skip b s = length b) then Ok c (nulterminate c buf) else Panic "syntax"
  | Panic msg => Panic msg
  | Switched _ => Fault
  | Fault => Fault
  | Hang => Hang
  | NoFuel => NoFuel
  end.

(** The command as [runcmd] sees it: the strings at the words' pointers. *)
Definition strings (buf : bytes) (c : cmd span) : cmd bytes := cmap (fun w => cstr (drop w.1 buf)) c.

(** ** The reference *)

Inductive tok := TSym (c : Z) | TApp | TWord (w : bytes).

Definition flush (w : bytes) (ts : list tok) : list tok :=
  match w with [] => ts | _ => TWord w :: ts end.

(** The tokens of a text; [w] is the word being read. *)
Fixpoint lex (w : bytes) (l : bytes) : list tok :=
  match l with
  | [] => flush w []
  | c :: l' =>
    if is_ws c then flush w (lex [] l')
    else if negb (is_sym c) then lex (w ++ [c]) l'
    else flush w
      match l' with
      | d :: l'' => if (c =? 62) && (d =? 62) then TApp :: lex [] l'' else TSym c :: lex [] l'
      | [] => [TSym c]
      end
  end.

Inductive rop := RIn | ROut | RApp.
Notation sredir := (rop * bytes)%type.

(** The grammar:  line ::= pipe &... [; line],  pipe ::= exec [| pipe],
    exec ::= ( line ) redirection... | redirection... (word redirection...)... *)
Inductive line :=
| Line (p : pipeline) (amps : nat)
| Seq (p : pipeline) (amps : nat) (l : line)
with pipeline :=
| Single (e : command)
| Piped (e : command) (p : pipeline)
with command :=
| Block (l : line) (rs : list sredir)
| Simple (rs : list sredir) (args : list (bytes * list sredir)).

Scheme line_ind' := Induction for line Sort Prop
with pipeline_ind' := Induction for pipeline Sort Prop
with command_ind' := Induction for command Sort Prop.
Combined Scheme grammar_ind from line_ind', pipeline_ind', command_ind'.

Definition op_tok (op : rop) : tok :=
  match op with RIn => TSym 60 | ROut => TSym 62 | RApp => TApp end.
Definition toks_redir (r : sredir) : list tok := [op_tok r.1; TWord r.2].
Definition toks_redirs (rs : list sredir) : list tok := concat (toks_redir <$> rs).
Definition toks_arg (a : bytes * list sredir) : list tok := TWord a.1 :: toks_redirs a.2.
Definition amps_toks (n : nat) : list tok := replicate n (TSym 38).

Fixpoint toks_line (l : line) : list tok :=
  match l with
  | Line p n => toks_pipe p ++ amps_toks n
  | Seq p n l => toks_pipe p ++ amps_toks n ++ TSym 59 :: toks_line l
  end
with toks_pipe (p : pipeline) : list tok :=
  match p with
  | Single e => toks_exec e
  | Piped e p => toks_exec e ++ TSym 124 :: toks_pipe p
  end
with toks_exec (e : command) : list tok :=
  match e with
  | Block l rs => TSym 40 :: toks_line l ++ TSym 41 :: toks_redirs rs
  | Simple rs args => toks_redirs rs ++ concat (toks_arg <$> args)
  end.

(** What a sentence means. *)
Definition redirect (c : cmd bytes) (r : sredir) : cmd bytes :=
  match r.1 with
  | RIn => REDIR c r.2 O_RDONLY 0
  | ROut | RApp => REDIR c r.2 (Z.lor O_WRONLY O_CREAT) 1
  end.

Fixpoint mean_line (l : line) : cmd bytes :=
  match l with
  | Line p n => Nat.iter n BACK (mean_pipe p)
  | Seq p n l => LIST (Nat.iter n BACK (mean_pipe p)) (mean_line l)
  end
with mean_pipe (p : pipeline) : cmd bytes :=
  match p with
  | Single e => mean_exec e
  | Piped e p => PIPE (mean_exec e) (mean_pipe p)
  end
with mean_exec (e : command) : cmd bytes :=
  match e with
  | Block l rs => foldl redirect (mean_line l) rs
  | Simple rs args => foldl redirect (EXEC args.*1) (rs ++ concat args.*2)
  end.

(** At most nine arguments in every command. *)
Fixpoint small_line (l : line) : Prop :=
  match l with
  | Line p _ => small_pipe p
  | Seq p _ l => small_pipe p /\ small_line l
  end
with small_pipe (p : pipeline) : Prop :=
  match p with
  | Single e => small_exec e
  | Piped e p => small_exec e /\ small_pipe p
  end
with small_exec (e : command) : Prop :=
  match e with
  | Block l _ => small_line l
  | Simple _ args => (length args < MAXARGS)%nat
  end.

(** ** The lexer and [gettoken] *)

Lemma is_sym_cases c : is_sym c = true ->
  c = 60 \/ c = 124 \/ c = 62 \/ c = 38 \/ c = 59 \/ c = 40 \/ c = 41.
Proof.
  unfold is_sym. rewrite in_set_spec by (vm_compute; repeat constructor; done).
  rewrite bool_decide_eq_true. change (c ∈ ([60; 124; 62; 38; 59; 40; 41] : list Z) -> c = 60 \/ c = 124 \/ c = 62 \/ c = 38 \/ c = 59 \/ c = 40 \/ c = 41). set_solver.
Qed.

Lemma span_while_split f l :
  l = take (span_while f l) l ++ drop (span_while f l) l /\
  Forall (fun c => f c = true) (take (span_while f l) l) /\
  (drop (span_while f l) l = [] \/
   exists c r, drop (span_while f l) l = c :: r /\ f c = false).
Proof.
  split; [by rewrite take_drop|]. induction l as [|c l IH]; cbn; [auto|].
  destruct (f c) eqn:E; cbn.
  - destruct IH. split; [by constructor|done].
  - split; [constructor|]. right. eauto.
Qed.

Lemma span_while_le f l : (span_while f l <= length l)%nat.
Proof. induction l as [|c l IH]; cbn; [lia|]. destruct (f c); lia. Qed.

Lemma lex_ws l k : Forall (fun c => is_ws c = true) l -> lex [] (l ++ k) = lex [] k.
Proof. induction 1 as [|c l Hc Hl IH]; cbn; [done|]. by rewrite Hc. Qed.

Lemma lex_word w l k : Forall (fun c => in_word c = true) l -> lex w (l ++ k) = lex (w ++ l) k.
Proof.
  intros Hl. revert w. induction Hl as [|c l Hc Hl IH]; intros w; [by rewrite app_nil_r|].
  cbn [app lex]. unfold in_word in Hc. apply andb_true_iff in Hc as [H1 H2].
  apply negb_true_iff in H1. rewrite H1, H2, IH, <- app_assoc. done.
Qed.

(** Behind a word the tokens go on as from an empty word. *)
Lemma lex_end w k : w <> [] ->
  (k = [] \/ exists c r, k = c :: r /\ in_word c = false) -> lex w k = TWord w :: lex [] k.
Proof.
  intros Hw [->|(c & r & -> & Hc)]; [by destruct w|]. cbn [lex].
  assert (forall ts, flush w ts = TWord w :: ts) as Hf by (by destruct w).
  unfold in_word in Hc. destruct (is_ws c); [by rewrite Hf|]. cbn in Hc |- *.
  rewrite Hc. by rewrite Hf.
Qed.

Lemma length_flush w ts : (length (flush w ts) <= length ts + min 1 (length w))%nat.
Proof. destruct w; cbn; lia. Qed.

(** There are no more tokens than characters. *)
Lemma lex_length l w : (length (lex w l) <= length l + min 1 (length w))%nat.
Proof.
  remember (length l) as n eqn:Hn. revert l w Hn.
  induction n as [n IH] using (well_founded_induction lt_wf). intros l w ->.
  assert (forall k v, (length k < length l)%nat ->
    (length (lex v k) <= length k + min 1 (length v))%nat) as IH' by eauto. clear IH.
  destruct l as [|c l]; cbn [lex]; [apply length_flush|]. pose proof (length_flush w) as Hf.
  destruct (is_ws c).
  { specialize (IH' l []). specialize (Hf (lex [] l)). cbn in *. lia. }
  destruct (is_sym c); cbn [negb].
  - etrans; [apply Hf|]. destruct l as [|d l]; [cbn; lia|].
    pose proof (IH' l []). pose proof (IH' (d :: l) []). destruct (_ && _); cbn [length] in *; lia.
  - specialize (IH' l (w ++ [c])). rewrite length_app in IH'. cbn [length] in *. lia.
Qed.

(** The tokens at a position. *)
Section tokens.
Context (b : bytes).
Hypothesis text : Forall (fun c => c <> 0) b.
#[local] Arguments skip : simpl never.

Definition sees (s : nat) (ts : list tok) : Prop := (s <= length b)%nat /\ lex [] (drop s b) = ts.

(** A word in the line and what it spells: it ends at a separator or at the
    end of the line and has none inside. *)
Definition good (w : span) : Prop :=
  (w.1 <= w.2 <= length b)%nat /\ Forall (fun c => in_word c = true) (slice b w.1 (w.2 - w.1)) /\
  forall c, b !! w.2 = Some c -> in_word c = false.
Definition spell (w : span) : bytes := slice b w.1 (w.2 - w.1).

Lemma skip_le s : (s <= length b)%nat -> (s <= skip b s <= length b)%nat.
Proof.
  intros Hs. unfold skip. pose proof (span_while_le is_ws (drop s b)) as H.
  rewrite length_drop in H. lia.
Qed.

Lemma skip_sees s ts : sees s ts -> sees (skip b s) ts.
Proof.
  intros [Hs Hl]. split; [by apply skip_le|]. rewrite <- Hl. unfold skip.
  destruct (span_while_split is_ws (drop s b)) as (E & Hw & _).
  rewrite <- drop_drop. transitivity (lex [] (take (span_while is_ws (drop s b)) (drop s b) ++
    drop (span_while is_ws (drop s b)) (drop s b))); [by rewrite lex_ws|by rewrite <- E].
Qed.

(** The character after the blanks tells the next token. *)
Lemma skip_cur s ts : sees s ts -> match ts with
  | [] => drop (skip b s) b = []
  | TSym c :: ts' => exists r, drop (skip b s) b = c :: r /\ is_sym c = true /\ lex [] r = ts' /\
      ~ (c = 62 /\ chr r = 62)
  | TApp :: ts' => exists r, drop (skip b s) b = 62 :: 62 :: r /\ lex [] r = ts'
  | TWord w :: ts' => exists r, drop (skip b s) b = w ++ r /\ w <> [] /\
      Forall (fun c => in_word c = true) w /\ lex [] r = ts' /\
      (r = [] \/ exists c r', r = c :: r' /\ in_word c = false)
  end.
Proof.
  intros H%skip_sees. destruct H as [Hs Hl]. 
  assert (drop (skip b s) b = [] \/ exists c r, drop (skip b s) b = c :: r /\ is_ws c = false) as Hh.
  { destruct (span_while_split is_ws (drop s b)) as (_ & _ & H). unfold skip. by rewrite <- drop_drop. }
  destruct Hh as [E|(c & r & E & Hc)]; rewrite E in Hl; rewrite E.
  { by subst ts. }
  cbn [lex] in Hl. rewrite Hc in Hl. destruct (is_sym c) eqn:Hsym; cbn [negb flush] in Hl.
  - subst ts. destruct r as [|d r]; [exists []; naive_solver|].
    destruct (Z.eqb_spec c 62) as [->|Hne]; [destruct (Z.eqb_spec d 62) as [->|Hd]|]; cbn [andb]; eauto.
    + exists (d :: r). naive_solver.
    + exists (d :: r). naive_solver.
  - destruct (span_while_split in_word r) as (Er & Hw & Hend).
    assert (Forall (fun c => in_word c = true) (c :: take (span_while in_word r) r)) as HF.
    { constructor; [|done]. unfold in_word. by rewrite Hc, Hsym. }
    rewrite Er in Hl. cbn [app] in Hl. rewrite (lex_word [c] _ _ Hw) in Hl. cbn [app] in Hl.
    rewrite lex_end in Hl by done. subst ts. eexists. split; [by rewrite Er at 1|]. naive_solver.
Qed.

Lemma drop_cons_le s c r : drop s b = c :: r -> (S s <= length b)%nat /\ drop (S s) b = r.
Proof.
  intros E. split.
  - pose proof (f_equal length E) as H. rewrite length_drop in H. cbn in H. lia.
  - replace (S s) with (s + 1)%nat by lia. rewrite <- drop_drop, E. done.
Qed.

(** What the next token is for the parser: its kind and the rest. *)
Definition kind (ts : list tok) : Z :=
  match ts with
  | [] => 0
  | TSym c :: _ => c
  | TApp :: _ => 43
  | TWord _ :: _ => 97
  end.

Lemma span_while_word f w r :
  Forall (fun c => f c = true) w -> (r = [] \/ exists c r', r = c :: r' /\ f c = false) ->
  span_while f (w ++ r) = length w.
Proof.
  intros HF Hr. induction HF as [|c w Hc Hw IH]; cbn.
  - destruct Hr as [->|(c & r' & -> & Hc)]; [done|]. cbn. by rewrite Hc.
  - by rewrite Hc, IH.
Qed.

Lemma in_word_plain c : in_word c = true ->
  (c =? 124) || (c =? 40) || (c =? 41) || (c =? 59) || (c =? 38) || (c =? 60) = false /\ (c =? 62) = false.
Proof.
  intros H. unfold in_word in H. apply andb_true_iff in H as [_ H%negb_true_iff].
  repeat match goal with |- context [c =? ?k] => destruct (Z.eqb_spec c k) as [->|]; [by vm_compute in H|] end.
  done.
Qed.

(** A word read at [q] is a good pair of pointers. *)
Lemma good_word q w r : (q <= length b)%nat -> drop q b = w ++ r ->
  Forall (fun c => in_word c = true) w -> (r = [] \/ exists c r', r = c :: r' /\ in_word c = false) ->
  good (q, q + length w)%nat /\ spell (q, q + length w)%nat = w /\ drop (q + length w) b = r.
Proof.
  intros Hq E HF Hr. assert (slice b q (q + length w - q) = w) as Hw.
  { unfold slice. rewrite E. replace (q + length w - q)%nat with (length w) by lia. by rewrite take_app_length. }
  assert (drop (q + length w) b = r) as Hd by (by rewrite <- drop_drop, E, drop_app_length).
  split_and!; [|done|done]. pose proof (f_equal length E) as HE. rewrite length_drop, length_app in HE.
  split; [cbn; lia|]. cbn [fst snd]. split; [by rewrite Hw|]. intros c Hc.
  destruct Hr as [->|(c' & r' & -> & Hc')].
  - apply lookup_lt_Some in Hc. cbn in HE. lia.
  - rewrite <- (Nat.add_0_r (q + length w)), <- lookup_drop, Hd in Hc. by injection Hc as ->.
Qed.

Lemma gettoken_spec s ts : sees s ts ->
  wp (gettoken b) (fun r s' => r.1 = kind ts /\ sees s' (tail ts) /\
    forall w, head ts = Some (TWord w) -> good r.2 /\ spell r.2 = w) s.
Proof.
  intros Hs. pose proof (skip_cur s ts Hs) as H. pose proof (skip_sees s ts Hs) as [Hle _].
  unfold wp, gettoken, cur. set (q := skip b s) in *. clearbody q.
  destruct ts as [|[c| |w] ts].
  - rewrite H. cbn. split_and!; [done|by apply skip_sees; split; [|by rewrite H]|done].
  - destruct H as (r & E & Hc & Hl & Hne). rewrite E. cbn [chr hd].
    destruct (drop_cons_le _ _ _ E) as [Hq Eq]. rewrite Eq.
    assert (sees (skip b (S q)) ts) as Hn by (apply skip_sees; split; [done|by rewrite Eq]).
    destruct (is_sym_cases c Hc) as [->|[->|[->|[->|[->|[->| ->]]]]]]; cbn; try (split_and!; done).
    destruct (Z.eqb_spec (chr r) 62); [naive_solver|]. cbn. split_and!; done.
  - destruct H as (r & E & Hl). rewrite E. cbn [chr hd]. destruct (drop_cons_le _ _ _ E) as [Hq Eq].
    rewrite Eq. cbn. destruct (drop_cons_le _ _ _ Eq) as [Hq' Eq'].
    split_and!; [done| |done]. apply skip_sees. split; [done|by rewrite Eq'].
  - destruct H as (r & E & Hw & HF & Hl & Hend). rewrite E.
    destruct (good_word q w r Hle E HF Hend) as (Hg & Hsp & Hd).
    rewrite (span_while_word in_word w r HF Hend). destruct w as [|c w]; [done|]. cbn [chr hd app].
    assert (c <> 0) as Hc0.
    { rewrite Forall_forall in text. apply text. rewrite <- (take_drop q b), E. set_solver. }
    assert (in_word c = true) as Hc by (by inversion HF).
    destruct (in_word_plain c Hc) as [-> ->]. destruct (Z.eqb_spec c 0); [done|]. cbn [fst snd kind].
    split_and!; [done| |by intros ? [= <-]].
    apply skip_sees. split; [apply Hg|by rewrite Hd].
Qed.

Lemma peek_spec toks s ts : sees s ts -> (forall c, in_set toks c = true -> is_sym c = true) ->
  wp (peek b toks) (fun r s' => sees s' ts /\ r = match ts with
    | TSym c :: _ => in_set toks c
    | TApp :: _ => in_set toks 62
    | _ => false
    end) s.
Proof.
  intros Hs Htoks. pose proof (skip_cur s ts Hs) as H. pose proof (skip_sees s ts Hs) as Hs'.
  unfold wp, peek, cur. split; [done|]. destruct ts as [|[c| |w] ts].
  - by rewrite H.
  - destruct H as (r & -> & Hc & _). cbn [chr hd].
    destruct (is_sym_cases c Hc) as [->|[->|[->|[->|[->|[->| ->]]]]]]; done.
  - by destruct H as (r & -> & _).
  - destruct H as (r & -> & Hw & HF & _). destruct w as [|c w]; [done|]. cbn [chr hd app].
    inversion HF as [|? ? Hc _]; subst. apply andb_false_iff. right. 
    destruct (in_set toks c) eqn:E; [|done]. apply Htoks in E. unfold in_word in Hc.
    rewrite E in Hc. by rewrite andb_false_r in Hc.
Qed.

(** ** Sentences are accepted *)

Lemma set_syms toks : forallb (fun c => negb (c =? 0) && is_sym c) toks = true ->
  forall c, in_set toks c = true -> is_sym c = true.
Proof.
  intros H c Hc. rewrite forallb_forall in H. rewrite in_set_spec, bool_decide_eq_true in Hc.
  - apply list_elem_of_In, H in Hc. by apply andb_true_iff in Hc as [_ Hc].
  - apply Forall_forall. intros x Hx%list_elem_of_In%H. apply andb_true_iff in Hx as [Hx _].
    by apply negb_true_iff, Z.eqb_neq in Hx.
Qed.

(** What [peek] says of the token ahead. *)
Definition ahead (toks : bytes) (ts : list tok) : bool :=
  match ts with
  | TSym c :: _ => in_set toks c
  | TApp :: _ => in_set toks 62
  | _ => false
  end.

Lemma wp_peek toks s ts Q : sees s ts -> forallb (fun c => negb (c =? 0) && is_sym c) toks = true ->
  (forall s', sees s' ts -> Q (ahead toks ts) s') -> wp (peek b toks) Q s.
Proof.
  intros Hs Ht HQ. eapply wp_mono; [by apply peek_spec, set_syms|]. intros r s' [H ->]. by apply HQ.
Qed.

Lemma wp_gettoken s ts Q : sees s ts ->
  (forall w s', sees s' (tail ts) ->
    (forall v, head ts = Some (TWord v) -> good w /\ spell w = v) -> Q (kind ts, w) s') ->
  wp (gettoken b) Q s.
Proof.
  intros Hs HQ. eapply wp_mono; [by apply gettoken_spec|]. intros [k w] s' (Hk & H & Hw).
  cbn in Hk. subst k. by apply HQ.
Qed.

Definition redir_ok (r : redir) (sr : sredir) : Prop :=
  good r.1.1 /\ spell r.1.1 = sr.2 /\
  (r.1.2, r.2) = match sr.1 with RIn => (O_RDONLY, 0) | _ => (Z.lor O_WRONLY O_CREAT, 1) end.

(** The command [c] with pointers into the line is the command [d]. *)
Definition parsed (c : cmd span) (d : cmd bytes) : Prop :=
  cmap spell c = d /\ Forall good (words c).

Lemma parsed_wrap c d rs srs :
  parsed c d -> Forall2 redir_ok rs srs -> parsed (wrap c rs) (foldl redirect d srs).
Proof.
  intros Hc HF. revert c d Hc. induction HF as [|[[f m] fd] [op w] rs srs Hr HF IH]; intros c d [Hc Hw]; [done|].
  apply IH. destruct Hr as (Hg & Hs & Hm). cbn in Hg, Hs, Hm. split; [|by constructor].
  cbn [cmap]. rewrite Hc, Hs. destruct op; injection Hm as -> ->; done.
Qed.

Lemma parsed_backs n c d : parsed c d -> parsed (Nat.iter n BACK c) (Nat.iter n BACK d).
Proof.
  intros [Hc Hw]. split.
  - induction n as [|n IH]; [done|]. rewrite !Nat.iter_succ. cbn [cmap]. by rewrite IH.
  - induction n as [|n IH]; [done|]. by rewrite Nat.iter_succ.
Qed.

Lemma parseredirs_accepts fuel rs0 srs k s :
  sees s (toks_redirs srs ++ k) -> ahead (str "<>") k = false -> (length srs < fuel)%nat ->
  wp (parseredirs b fuel rs0) (fun rs s' => sees s' k /\
    exists rs1, rs = rs0 ++ rs1 /\ Forall2 redir_ok rs1 srs) s.
Proof.
  revert rs0 srs s. induction fuel as [|fuel IH]; intros rs0 srs s Hs Hk Hf; [lia|].
  cbn [parseredirs]. kstep. eapply wp_peek; [done|done|]. intros s1 Hs1.
  destruct srs as [|[op w] srs].
  { change (toks_redirs [] ++ k) with k in *. rewrite Hk. cbn [negb]. kstep. split; [done|]. exists []. by rewrite app_nil_r. }
  unfold toks_redirs in Hs1. cbn [fmap list_fmap concat toks_redir app fst snd] in Hs1.
  replace (ahead _ _) with true by (by destruct op). cbn [negb]. kstep.
  eapply wp_gettoken; [done|]. cbn [tail]. intros w1 s2 Hs2 _. kstep.
  eapply wp_gettoken; [done|]. cbn [tail kind head]. intros w2 s3 Hs3 Hw.
  destruct (Hw w eq_refl) as [Hg Hsp]. change (negb (97 =? 97)) with false.
  eapply wp_mono; [apply (IH _ srs); [done|done|cbn in Hf; lia]|].
  intros rs s4 [Hs4 (rs1 & -> & HF)]. split; [done|]. destruct op; cbn [kind op_tok];
    (eexists (_ :: rs1); split; [cbn; by rewrite <- app_assoc|constructor; [exact (conj Hg (conj Hsp eq_refl))|done]]).
Qed.

Definition arg_ok (w : span) (v : bytes) : Prop := good w /\ spell w = v.

(** A token that ends a simple command. *)
Definition ends_exec (k : list tok) : Prop := k = [] \/ ahead (str "|)&;") k = true.

Lemma ends_exec_spec k : ends_exec k ->
  k = [] \/ exists c k', k = TSym c :: k' /\ (c = 124 \/ c = 41 \/ c = 38 \/ c = 59).
Proof.
  intros [->|H]; [by left|]. right. destruct k as [|[c| |w] k]; [done| |done|done]. cbn in H.
  rewrite in_set_spec in H by (vm_compute; repeat constructor; done).
  apply bool_decide_eq_true in H. change (c ∈ ([124; 41; 38; 59] : list Z)) in H. set_solver.
Qed.

Lemma ends_no_redir k : ends_exec k -> ahead (str "<>") k = false.
Proof. intros [->|(c & k' & -> & [->|[->|[->| ->]]])]%ends_exec_spec; done. Qed.

Lemma length_toks_redirs srs : length (toks_redirs srs) = (2 * length srs)%nat.
Proof. unfold toks_redirs. induction srs as [|r srs IH]; cbn; lia. Qed.

Lemma args_no_redir args k : ends_exec k -> ahead (str "<>") (concat (toks_arg <$> args) ++ k) = false.
Proof. destruct args as [|[v srs] args]; [apply ends_no_redir|done]. Qed.

Lemma parseargs_accepts fuel argv rs0 args k s :
  sees s (concat (toks_arg <$> args) ++ k) -> ends_exec k ->
  (length argv + length args < MAXARGS)%nat ->
  (length (concat (toks_arg <$> args)) < fuel)%nat ->
  wp (parseargs b fuel argv rs0) (fun r s' => sees s' k /\
    exists argv1 rs1, r = (argv ++ argv1, rs0 ++ rs1) /\ Forall2 arg_ok argv1 args.*1 /\
      Forall2 redir_ok rs1 (concat args.*2)) s.
Proof.
  revert argv rs0 args s. induction fuel as [|fuel IH]; intros argv rs0 args s Hs Hk Hn Hf; [lia|].
  cbn [parseargs]. kstep. eapply wp_peek; [done|done|]. intros s1 Hs1.
  destruct args as [|[v srs] args].
  - change (concat (toks_arg <$> []) ++ k) with k in *.
    assert (exists r, r = (argv, rs0) /\ exists argv1 rs1, r = (argv ++ argv1, rs0 ++ rs1) /\
      Forall2 arg_ok argv1 [] /\ Forall2 redir_ok rs1 []) as (r & Er & Hr).
    { eexists. split; [done|]. exists [], []. by rewrite !app_nil_r. }
    destruct Hk as [->|Hk].
    + cbn [ahead]. kstep. eapply wp_gettoken; [done|]. intros w s2 Hs2 _. cbn [kind]. kstep.
      by rewrite <- Er.
    + rewrite Hk. kstep. by rewrite <- Er.
  - cbn [fmap list_fmap concat toks_arg app fst snd] in Hs1, Hf |- *. rewrite <- app_assoc in Hs1.
    cbn [ahead]. kstep. eapply wp_gettoken; [done|]. cbn [tail kind head]. intros w s2 Hs2 Hw.
    destruct (Hw v eq_refl) as [Hg Hsp]. change (97 =? 0) with false. change (negb (97 =? 97)) with false.
    cbn [negb]. cbn in Hn, Hf. rewrite bool_decide_false by (rewrite length_app; cbn; lia). kstep.
    rewrite length_app in Hf. 
    rewrite length_toks_redirs in Hf.
    eapply wp_mono; [eapply (parseredirs_accepts _ _ srs); [done|by apply args_no_redir|lia]|].
    intros rs s3 [Hs3 (rs1 & -> & HF)].
    eapply wp_mono; [apply (IH (argv ++ [w]) (rs0 ++ rs1) args);
      [done|done|rewrite length_app; cbn; lia|lia]|].
    intros r s4 [Hs4 (argv1 & rs2 & -> & HF1 & HF2)]. split; [done|].
    exists (w :: argv1), (rs1 ++ rs2). rewrite <- !app_assoc. split_and!; [done|by constructor|].
    by apply Forall2_app.
Qed.

(** Tokens that may follow a pipeline and a line. *)
Definition ends_pipe (k : list tok) : Prop := k = [] \/ ahead (str ")&;") k = true.
Definition ends_line (k : list tok) : Prop := k = [] \/ ahead (str ")") k = true.

Lemma ends_pipe_spec k : ends_pipe k ->
  k = [] \/ exists c k', k = TSym c :: k' /\ (c = 41 \/ c = 38 \/ c = 59).
Proof.
  intros [->|H]; [by left|]. right. destruct k as [|[c| |w] k]; [done| |done|done]. cbn in H.
  rewrite in_set_spec in H by (vm_compute; repeat constructor; done).
  apply bool_decide_eq_true in H. change (c ∈ ([41; 38; 59] : list Z)) in H. set_solver.
Qed.

Lemma ends_line_spec k : ends_line k -> k = [] \/ exists k', k = TSym 41 :: k'.
Proof.
  intros [->|H]; [by left|]. right. destruct k as [|[c| |w] k]; [done| |done|done]. cbn in H.
  rewrite in_set_spec in H by (vm_compute; repeat constructor; done).
  apply bool_decide_eq_true in H. change (c ∈ ([41] : list Z)) in H. set_solver.
Qed.

Lemma ends_line_pipe k : ends_line k -> ends_pipe k.
Proof. intros [->|(k' & ->)]%ends_line_spec; [by left|by right]. Qed.

Lemma ends_pipe_exec k : ends_pipe k -> ends_exec k.
Proof. intros [->|(c & k' & -> & [->|[->| ->]])]%ends_pipe_spec; [by left|by right..]. Qed.

Lemma amps_pipe n k : ends_pipe k -> ends_pipe (amps_toks n ++ k).
Proof. destruct n; [done|]. by right. Qed.

Lemma parsebacks_accepts fuel n c d k s :
  sees s (amps_toks n ++ k) -> ahead (str "&") k = false -> (n < fuel)%nat -> parsed c d ->
  wp (parsebacks b fuel c) (fun c' s' => sees s' k /\ parsed c' (Nat.iter n BACK d)) s.
Proof.
  revert n c d s. induction fuel as [|fuel IH]; intros n c d s Hs Hk Hn Hc; [lia|].
  cbn [parsebacks]. kstep. eapply wp_peek; [done|done|]. intros s1 Hs1. destruct n as [|n].
  - change (amps_toks 0 ++ k) with k in *. rewrite Hk. cbn [negb]. by kstep.
  - cbn [amps_toks replicate app] in Hs1 |- *. change (ahead _ _) with true. cbn [negb]. kstep.
    eapply wp_gettoken; [done|]. cbn [tail]. intros w s2 Hs2 _. rewrite Nat.iter_succ_r.
    apply IH; [done|done|lia|]. by apply (parsed_backs 1).
Qed.

Definition accepts {A} (p : nat -> M nat (cmd span)) (need : nat) (ends : list tok -> Prop)
  (toks : A -> list tok) (mean : A -> cmd bytes) (x : A) : Prop := forall fuel k s,
  sees s (toks x ++ k) -> ends k -> (4 * length (toks x ++ k) + need <= fuel)%nat ->
  wp (p fuel) (fun c s' => sees s' k /\ parsed c (mean x)) s.

Lemma length_amps n : length (amps_toks n) = n.
Proof. apply length_replicate. Qed.

(** The part of [parseline] before the semicolon. *)
Lemma accepts_backs p n fuel k s Q : small_pipe p ->
  accepts (parsepipe b) 3 ends_pipe toks_pipe mean_pipe p ->
  sees s (toks_pipe p ++ amps_toks n ++ k) -> ends_pipe k -> ahead (str "&") k = false ->
  (4 * length (toks_pipe p ++ amps_toks n ++ k) + 3 <= fuel)%nat ->
  (forall c s', sees s' k -> parsed c (Nat.iter n BACK (mean_pipe p)) -> Q c s') ->
  wp (c <- parsepipe b fuel ;; parsebacks b fuel c) Q s.
Proof.
  intros Hp Hacc Hs Hk Ha Hf HQ. kstep.
  eapply wp_mono; [by apply Hacc; [|apply amps_pipe|]|]. intros c s1 [Hs1 Hc].
  rewrite !length_app, length_amps in Hf.
  eapply wp_mono; [apply (parsebacks_accepts _ n c (mean_pipe p) k); [done|done|lia|done]|]. naive_solver.
Qed.

Lemma accepts_line p n : small_pipe p ->
  accepts (parsepipe b) 3 ends_pipe toks_pipe mean_pipe p ->
  accepts (parseline b) 4 ends_line toks_line mean_line (Line p n).
Proof.
  intros Hp Hacc [|fuel] k s Hs Hk Hf; [lia|]. cbn [toks_line mean_line] in *. rewrite <- app_assoc in Hs, Hf.
  cbn [parseline]. apply wp_bind2'.
  eapply (accepts_backs p n _ k); [done|done|done|by apply ends_line_pipe| |lia|].
  { by destruct (ends_line_spec k Hk) as [->|(k' & ->)]. }
  intros c s1 Hs1 Hc. kstep. eapply wp_peek; [done|done|]. intros s2 Hs2.
  replace (ahead _ k) with false by (by destruct (ends_line_spec k Hk) as [->|(k' & ->)]).
  cbn [negb]. by kstep.
Qed.

Lemma accepts_seq p n l : small_pipe p ->
  accepts (parsepipe b) 3 ends_pipe toks_pipe mean_pipe p ->
  accepts (parseline b) 4 ends_line toks_line mean_line l ->
  accepts (parseline b) 4 ends_line toks_line mean_line (Seq p n l).
Proof.
  intros Hp Hacc Hl [|fuel] k s Hs Hk Hf; [lia|]. cbn [toks_line mean_line] in *.
  rewrite <- !app_assoc in Hs, Hf. cbn [app] in Hs, Hf.
  cbn [parseline]. apply wp_bind2'.
  eapply (accepts_backs p n _ (TSym 59 :: toks_line l ++ k)); [done|done|done|by right|done|lia|].
  intros c s1 Hs1 [Hc Hcw]. kstep. eapply wp_peek; [done|done|]. intros s2 Hs2.
  change (ahead _ _) with true. cbn [negb]. kstep.
  eapply wp_gettoken; [done|]. cbn [tail]. intros w s3 Hs3 _. kstep.
  rewrite !length_app in Hf. cbn [length] in Hf.
  eapply wp_mono; [apply (Hl fuel k); [done|done|lia]|]. intros r s4 [Hs4 [Hr Hrw]].
  kstep. split; [done|]. split; cbn; [by rewrite Hc, Hr|by apply Forall_app].
Qed.

Lemma accepts_single e : accepts (parseexec b) 2 ends_exec toks_exec mean_exec e ->
  accepts (parsepipe b) 3 ends_pipe toks_pipe mean_pipe (Single e).
Proof.
  intros Hacc [|fuel] k s Hs Hk Hf; [lia|]. cbn [toks_pipe mean_pipe] in *. cbn [parsepipe]. kstep.
  eapply wp_mono; [apply (Hacc fuel k); [done|by apply ends_pipe_exec|lia]|]. intros c s1 [Hs1 Hc].
  kstep. eapply wp_peek; [done|done|]. intros s2 Hs2.
  replace (ahead _ k) with false
    by (by destruct (ends_pipe_spec k Hk) as [->|(c' & k' & -> & [->|[->| ->]])]).
  cbn [negb]. by kstep.
Qed.

Lemma accepts_piped e p : accepts (parseexec b) 2 ends_exec toks_exec mean_exec e ->
  accepts (parsepipe b) 3 ends_pipe toks_pipe mean_pipe p ->
  accepts (parsepipe b) 3 ends_pipe toks_pipe mean_pipe (Piped e p).
Proof.
  intros Hacc Hp [|fuel] k s Hs Hk Hf; [lia|]. cbn [toks_pipe mean_pipe] in *.
  rewrite <- app_assoc in Hs, Hf. cbn [app] in Hs, Hf. cbn [parsepipe]. kstep.
  eapply wp_mono; [apply (Hacc fuel (TSym 124 :: toks_pipe p ++ k)); [done|by right|lia]|].
  intros c s1 [Hs1 [Hc Hcw]]. kstep. eapply wp_peek; [done|done|]. intros s2 Hs2.
  change (ahead _ _) with true. cbn [negb]. kstep.
  eapply wp_gettoken; [done|]. cbn [tail]. intros w s3 Hs3 _. kstep.
  rewrite length_app in Hf. cbn [length] in Hf.
  eapply wp_mono; [apply (Hp fuel k); [done|done|lia]|]. intros r s4 [Hs4 [Hr Hrw]].
  kstep. split; [done|]. split; cbn; [by rewrite Hc, Hr|by apply Forall_app].
Qed.

Lemma accepts_block l rs : accepts (parseline b) 4 ends_line toks_line mean_line l ->
  accepts (parseexec b) 2 ends_exec toks_exec mean_exec (Block l rs).
Proof.
  intros Hl [|[|fuel]] k s Hs Hk Hf; [lia..|]. cbn [toks_exec mean_exec] in *.
  cbn [app] in Hs, Hf. rewrite <- app_assoc in Hs, Hf. cbn [app] in Hs, Hf. cbn [parseexec parseblock]. kstep.
  eapply wp_peek; [done|done|]. intros s1 Hs1. change (ahead _ _) with true. cbv iota. kstep.
  eapply wp_peek; [done|done|]. intros s2 Hs2. change (ahead _ _) with true. cbn [negb]. kstep.
  eapply wp_gettoken; [done|]. cbn [tail]. intros w s3 Hs3 _. kstep.
  cbn [length] in Hf. 
  eapply wp_mono; [apply (Hl fuel (TSym 41 :: toks_redirs rs ++ k)); [done|by right|lia]|].
  intros c s4 [Hs4 Hc]. kstep. eapply wp_peek; [done|done|]. intros s5 Hs5.
  change (ahead _ _) with true. cbn [negb]. kstep.
  eapply wp_gettoken; [done|]. cbn [tail]. intros w' s6 Hs6 _. kstep.
  rewrite !length_app in Hf. cbn [length] in Hf. rewrite length_app, length_toks_redirs in Hf.
  eapply wp_mono; [apply (parseredirs_accepts _ _ rs k); [done|by apply ends_no_redir|lia]|].
  intros rs' s7 [Hs7 (rs1 & -> & HF)]. kstep. split; [done|]. by apply parsed_wrap.
Qed.

Lemma accepts_simple rs args : (length args < MAXARGS)%nat ->
  accepts (parseexec b) 2 ends_exec toks_exec mean_exec (Simple rs args).
Proof.
  intros Hn [|fuel] k s Hs Hk Hf; [lia|]. cbn [toks_exec mean_exec] in *.
  rewrite <- app_assoc in Hs, Hf. cbn [parseexec]. kstep.
  eapply wp_peek; [done|done|]. intros s1 Hs1.
  replace (ahead _ _) with false; cycle 1.
  { destruct rs as [|[[] ?] rs]; [|done..]. destruct args as [|[? ?] args]; [|done]. cbn [app].
    by destruct (ends_exec_spec k Hk) as [->|(c & k' & -> & [->|[->|[->| ->]]])]. }
  kstep. rewrite !length_app, length_toks_redirs in Hf.
  eapply wp_mono; [apply (parseredirs_accepts _ _ rs (concat (toks_arg <$> args) ++ k));
    [done|by apply args_no_redir|lia]|].
  intros rs' s2 [Hs2 (rs1 & -> & HF)]. kstep.
  eapply wp_mono; [apply (parseargs_accepts _ _ _ args k); [done|done|done|lia]|].
  intros r s3 [Hs3 (argv & rs2 & -> & Ha & HF2)]. cbn [app]. kstep. split; [done|].
  apply parsed_wrap; [|by apply Forall2_app]. split; cbn.
  - f_equal. clear -Ha. induction Ha as [|w v ws vs [_ <-] _ IH]; cbn; [done|]. by f_equal.
  - clear -Ha. induction Ha as [|w v ws vs [? _] _ IH]; by constructor.
Qed.

Lemma accepts_all :
  (forall l, small_line l -> accepts (parseline b) 4 ends_line toks_line mean_line l) /\
  (forall p, small_pipe p -> accepts (parsepipe b) 3 ends_pipe toks_pipe mean_pipe p) /\
  (forall e, small_exec e -> accepts (parseexec b) 2 ends_exec toks_exec mean_exec e).
Proof.
  apply grammar_ind; cbn [small_line small_pipe small_exec]; intros.
  - by apply accepts_line; auto.
  - destruct_and!. by apply accepts_seq; auto.
  - by apply accepts_single; auto.
  - destruct_and!. by apply accepts_piped; auto.
  - by apply accepts_block; auto.
  - by apply accepts_simple.
Qed.

(** ** What is accepted is a sentence *)

(** The control path returns with [Q] or panics: no fault, and no lack of
    fuel. *)
Definition safe {A} (m : M nat A) (Q : A -> nat -> Prop) (s : nat) : Prop :=
  match m s with
  | Ok a s' => Q a s'
  | Panic _ => True
  | _ => False
  end.

Lemma wp_safe {A} (m : M nat A) Q s : wp m Q s -> safe m Q s.
Proof. unfold wp, safe. by destruct (m s). Qed.

Lemma safe_bind {A B} (m : M nat A) (k : A -> M nat B) P Q s :
  safe m P s -> (forall a s', P a s' -> safe (k a) Q s') -> safe (bind m k) Q s.
Proof. unfold safe, bind. destruct (m s); naive_solver. Qed.

Lemma safe_bind_wp {A B} (m : M nat A) (k : A -> M nat B) Q s :
  wp m (fun a => safe (k a) Q) s -> safe (bind m k) Q s.
Proof. unfold safe, wp, bind. by destruct (m s). Qed.

Lemma safe_peek {A} toks (k : bool -> M nat A) s ts Q :
  sees s ts -> forallb (fun c => negb (c =? 0) && is_sym c) toks = true ->
  (forall s', sees s' ts -> safe (k (ahead toks ts)) Q s') -> safe (bind (peek b toks) k) Q s.
Proof. intros. apply safe_bind_wp. by eapply wp_peek. Qed.

Lemma safe_gettoken {A} (k : Z * span -> M nat A) s ts Q :
  sees s ts -> (forall w s', sees s' (tail ts) ->
    (forall v, head ts = Some (TWord v) -> good w /\ spell w = v) -> safe (k (kind ts, w)) Q s') ->
  safe (bind (gettoken b) k) Q s.
Proof. intros. apply safe_bind_wp. by eapply wp_gettoken. Qed.

Lemma ahead_redir ts : ahead (str "<>") ts = true -> exists op ts', ts = op_tok op :: ts'.
Proof.
  destruct ts as [|[c| |w] ts]; [done| |exists RApp; by eexists|done]. cbn.
  rewrite in_set_spec by (vm_compute; repeat constructor; done). rewrite bool_decide_eq_true.
  change (c ∈ ([60; 62] : list Z) -> exists op ts', TSym c :: ts = op_tok op :: ts'). intros Hc.
  assert (c = 60 \/ c = 62) as [->| ->] by set_solver; [by exists RIn, ts|by exists ROut, ts].
Qed.

Lemma kind_word ts s : sees s ts -> kind ts = 97 -> exists v ts', ts = TWord v :: ts'.
Proof.
  intros H Hk. destruct ts as [|[c| |w] ts]; cbn in Hk; [done| |done|eauto].
  destruct (skip_cur s _ H) as (r & _ & Hc & _). subst c. done.
Qed.

Lemma kind_end ts s : sees s ts -> kind ts = 0 -> ts = [].
Proof.
  intros H Hk. destruct ts as [|[c| |w] ts]; cbn in Hk; [done| |done|done].
  destruct (skip_cur s _ H) as (r & _ & Hc & _). subst c. done.
Qed.

Lemma parseredirs_sound fuel rs0 ts s : sees s ts -> (length ts < fuel)%nat ->
  safe (parseredirs b fuel rs0) (fun rs s' => exists rs1 srs k, sees s' k /\ rs = rs0 ++ rs1 /\
    Forall2 redir_ok rs1 srs /\ ts = toks_redirs srs ++ k) s.
Proof.
  revert rs0 ts s. induction fuel as [|fuel IH]; intros rs0 ts s Hs Hf; [lia|].
  cbn [parseredirs]. eapply safe_peek; [done|done|]. intros s1 Hs1.
  destruct (ahead (str "<>") ts) eqn:Ha; cbn [negb]; cycle 1.
  { exists [], [], ts. by rewrite app_nil_r. }
  destruct (ahead_redir ts Ha) as (op & ts1 & ->).
  eapply safe_gettoken; [done|]. intros w1 s2 Hs2 _. cbn [tail] in Hs2.
  eapply safe_gettoken; [done|]. intros w2 s3 Hs3 Hw.
  destruct (Z.eqb_spec (kind ts1) 97) as [E|]; cbn [negb]; [|done].
  destruct (kind_word ts1 s2 Hs2 E) as (v & ts2 & ->). cbn [tail] in Hs3.
  destruct (Hw v eq_refl) as [Hg Hsp].
  match goal with |- safe (parseredirs _ _ ?rs) _ _ =>
    assert (exists r, rs = rs0 ++ [r] /\ redir_ok r (op, v)) as (r & -> & Hr) end.
  { destruct op; cbn [kind op_tok]; eexists; (split; [done|]); exact (conj Hg (conj Hsp eq_refl)). }
  pose proof (IH (rs0 ++ [r]) ts2 s3 Hs3 ltac:(cbn in Hf; lia)) as H. unfold safe in *.
  destruct (parseredirs _ _ _ _); [|done..]. destruct H as (rs1 & srs & k & Hk & -> & HF & ->).
  exists (r :: rs1), ((op, v) :: srs), k. rewrite <- app_assoc. split_and!; [done..|by constructor|done].
Qed.

Lemma parseargs_sound fuel argv rs0 ts s : sees s ts -> (length ts < fuel)%nat ->
  (length argv < MAXARGS)%nat ->
  safe (parseargs b fuel argv rs0) (fun r s' => exists argv1 rs1 args k, sees s' k /\
    r = (argv ++ argv1, rs0 ++ rs1) /\ Forall2 arg_ok argv1 args.*1 /\
    Forall2 redir_ok rs1 (concat args.*2) /\ (length (argv ++ argv1) < MAXARGS)%nat /\
    ts = concat (toks_arg <$> args) ++ k) s.
Proof.
  revert argv rs0 ts s. induction fuel as [|fuel IH]; intros argv rs0 ts s Hs Hf Hn; [lia|].
  assert (forall s', sees s' ts -> exists argv1 rs1 args k, sees s' k /\
    (argv, rs0) = (argv ++ argv1, rs0 ++ rs1) /\ Forall2 arg_ok argv1 args.*1 /\
    Forall2 redir_ok rs1 (concat args.*2) /\ (length (argv ++ argv1) < MAXARGS)%nat /\
    ts = concat (toks_arg <$> args) ++ k) as Hend.
  { intros s' H'. exists [], [], [], ts. rewrite !app_nil_r. naive_solver. }
  cbn [parseargs]. eapply safe_peek; [done|done|]. intros s1 Hs1.
  destruct (ahead (str "|)&;") ts); [by apply Hend|].
  eapply safe_gettoken; [done|]. intros w s2 Hs2 Hw.
  destruct (Z.eqb_spec (kind ts) 0) as [E|].
  { apply kind_end with (s := s1) in E; [|done]. subst ts. by apply Hend. }
  destruct (Z.eqb_spec (kind ts) 97) as [E|]; cbn [negb]; [|done].
  destruct (kind_word ts s1 Hs1 E) as (v & ts2 & ->). cbn [tail] in Hs2.
  destruct (Hw v eq_refl) as [Hg Hsp]. case_bool_decide as Hlen; [done|].
  eapply safe_bind; [apply (parseredirs_sound _ _ ts2); [done|cbn in Hf; lia]|].
  intros rs s3 (rs1 & srs & k & Hs3 & -> & HF & ->).
  pose proof (IH (argv ++ [w]) (rs0 ++ rs1) k s3 Hs3) as H. 
  cbn in Hf. rewrite length_app in Hf. specialize (H ltac:(lia) ltac:(lia)). unfold safe in *.
  destruct (parseargs _ _ _ _ _); [|done..].
  destruct H as (argv1 & rs2 & args & k' & Hk & -> & HF1 & HF2 & Hl & ->).
  exists (w :: argv1), (rs1 ++ rs2), ((v, srs) :: args), k'. rewrite <- !app_assoc in *.
  split_and!; [done..|by constructor|by apply Forall2_app|done|]. cbn. by rewrite <- app_assoc.
Qed.

Lemma ahead_one c ts : is_sym c = true -> c <> 62 -> ahead [c] ts = true -> exists ts', ts = TSym c :: ts'.
Proof.
  intros Hc Hne. assert (c <> 0) by (intros ->; done).
  assert (forall d, in_set [c] d = true -> d = c) as Hs.
  { intros d. rewrite in_set_spec by (by repeat constructor). rewrite bool_decide_eq_true. set_solver. }
  destruct ts as [|[d| |w] ts]; cbn [ahead]; [done| | |done].
  - intros ->%Hs. eauto.
  - intros E%Hs. lia.
Qed.

Lemma parsebacks_sound fuel c d ts s : sees s ts -> (length ts < fuel)%nat -> parsed c d ->
  safe (parsebacks b fuel c) (fun c' s' => exists n k, sees s' k /\
    parsed c' (Nat.iter n BACK d) /\ ts = amps_toks n ++ k) s.
Proof.
  revert c d ts s. induction fuel as [|fuel IH]; intros c d ts s Hs Hf Hc; [lia|].
  cbn [parsebacks]. eapply safe_peek; [done|done|]. intros s1 Hs1.
  destruct (ahead (str "&") ts) eqn:Ha; cbn [negb]; [|by exists O, ts].
  destruct (ahead_one 38 ts eq_refl ltac:(lia) Ha) as (ts' & ->).
  eapply safe_gettoken; [done|]. intros w s2 Hs2 _. cbn [tail] in Hs2. cbn in Hf.
  pose proof (IH (BACK c) (BACK d) ts' s2 Hs2 ltac:(lia) (parsed_backs 1 _ _ Hc)) as H.
  unfold safe in *. destruct (parsebacks _ _ _ _); [|done..]. destruct H as (n & k & Hk & Hp & ->).
  exists (S n), k. by rewrite Nat.iter_succ_r.
Qed.

(** A parser that reads a sentence of its kind, or panics. *)
Definition sound {A} (p : M nat (cmd span)) (small : A -> Prop) (toks : A -> list tok)
  (mean : A -> cmd bytes) (ts : list tok) (s : nat) : Prop :=
  safe p (fun c s' => exists x k, small x /\ sees s' k /\ parsed c (mean x) /\ ts = toks x ++ k) s.

Lemma parseline_sound fuel ts s : sees s ts ->
  sound (parsepipe b fuel) small_pipe toks_pipe mean_pipe ts s ->
  (forall k s', sees s' k -> (length k < length ts)%nat ->
    sound (parseline b fuel) small_line toks_line mean_line k s') ->
  (length ts < fuel)%nat -> sound (parseline b (S fuel)) small_line toks_line mean_line ts s.
Proof.
  intros Hs Hp Hl Hf. unfold sound. cbn [parseline]. eapply safe_bind; [apply Hp|]. cbv beta.
  intros c s1 (x & k & Hsm & Hs1 & Hc & ->). rewrite length_app in Hf.
  eapply safe_bind; [apply (parsebacks_sound _ c (mean_pipe x) k); [done|lia|done]|]. cbv beta.
  intros c' s2 (n & k' & Hs2 & Hc' & ->). eapply safe_peek; [done|done|]. intros s3 Hs3.
  destruct (ahead (str ";") k') eqn:Ha; cbn [negb]; cycle 1.
  { exists (Line x n), k'. cbn. by rewrite <- app_assoc. }
  destruct (ahead_one 59 k' eq_refl ltac:(lia) Ha) as (k1 & ->).
  eapply safe_gettoken; [done|]. intros w s4 Hs4 _. cbn [tail] in Hs4.
  eapply safe_bind; [apply (Hl k1); [done|rewrite !length_app; cbn; lia]|]. cbv beta.
  intros r s5 (l & k2 & Hsl & Hs5 & [Hr Hrw] & ->). exists (Seq x n l), k2. destruct Hc' as [Hc' Hcw].
  split_and!; [done..| |cbn; by rewrite <- !app_assoc].
  split; cbn; [by rewrite Hc', Hr|by apply Forall_app].
Qed.

Lemma parsepipe_sound fuel ts s : sees s ts ->
  sound (parseexec b fuel) small_exec toks_exec mean_exec ts s ->
  (forall k s', sees s' k -> (length k < length ts)%nat ->
    sound (parsepipe b fuel) small_pipe toks_pipe mean_pipe k s') ->
  sound (parsepipe b (S fuel)) small_pipe toks_pipe mean_pipe ts s.
Proof.
  intros Hs He Hp. unfold sound. cbn [parsepipe]. eapply safe_bind; [apply He|]. cbv beta.
  intros c s1 (x & k & Hsm & Hs1 & [Hc Hcw] & ->). eapply safe_peek; [done|done|]. intros s2 Hs2.
  destruct (ahead (str "|") k) eqn:Ha; cbn [negb]; [|by exists (Single x), k].
  destruct (ahead_one 124 k eq_refl ltac:(lia) Ha) as (k1 & ->).
  eapply safe_gettoken; [done|]. intros w s3 Hs3 _. cbn [tail] in Hs3.
  eapply safe_bind; [apply (Hp k1); [done|rewrite length_app; cbn; lia]|]. cbv beta.
  intros r s4 (p & k2 & Hsp & Hs4 & [Hr Hrw] & ->). exists (Piped x p), k2.
  split_and!; [done..| |cbn; by rewrite <- app_assoc].
  split; cbn; [by rewrite Hc, Hr|by apply Forall_app].
Qed.

Lemma parsed_exec argv vs : Forall2 arg_ok argv vs -> parsed (EXEC argv) (EXEC vs).
Proof.
  intros Ha. split; cbn.
  - f_equal. induction Ha as [|w v ws vs [_ <-] _ IH]; cbn; [done|]. by f_equal.
  - induction Ha as [|w v ws vs [? _] _ IH]; by constructor.
Qed.

Lemma parseexec_sound fuel ts s : sees s ts ->
  (ahead (str "(") ts = true -> forall s', sees s' ts ->
    sound (parseblock b fuel) small_exec toks_exec mean_exec ts s') ->
  (length ts < fuel)%nat -> sound (parseexec b (S fuel)) small_exec toks_exec mean_exec ts s.
Proof.
  intros Hs Hb Hf. unfold sound. cbn [parseexec]. eapply safe_peek; [done|done|]. intros s1 Hs1.
  destruct (ahead (str "(") ts) eqn:Ha; [by apply Hb|].
  eapply safe_bind; [apply (parseredirs_sound _ _ ts); [done|lia]|]. cbv beta.
  intros rs s2 (rs1 & srs & k & Hs2 & -> & HF & ->). rewrite length_app in Hf.
  eapply safe_bind; [apply (parseargs_sound _ [] _ k); [done|lia|vm_compute; lia]|]. cbv beta.
  intros r s3 (argv & rs2 & args & k' & Hs3 & -> & HF1 & HF2 & Hn & ->). cbn [app] in *.
  exists (Simple srs args), k'. split_and!; [|done| |cbn; by rewrite <- app_assoc].
  - cbn. apply Forall2_length in HF1. rewrite length_fmap in HF1. lia.
  - cbn. apply parsed_wrap; [by apply parsed_exec|by apply Forall2_app].
Qed.

Lemma parseblock_sound fuel ts s : sees s ts ->
  (forall k s', sees s' k -> (length k < length ts)%nat ->
    sound (parseline b fuel) small_line toks_line mean_line k s') ->
  (length ts < fuel)%nat -> sound (parseblock b (S fuel)) small_exec toks_exec mean_exec ts s.
Proof.
  intros Hs Hl Hf. unfold sound. cbn [parseblock]. eapply safe_peek; [done|done|]. intros s1 Hs1.
  destruct (ahead (str "(") ts) eqn:Ha; cbn [negb]; [|done].
  destruct (ahead_one 40 ts eq_refl ltac:(lia) Ha) as (k & ->).
  eapply safe_gettoken; [done|]. intros w s2 Hs2 _. cbn [tail] in Hs2.
  eapply safe_bind; [apply (Hl k); [done|cbn; lia]|]. cbv beta.
  intros c s3 (l & k1 & Hsl & Hs3 & Hc & ->). eapply safe_peek; [done|done|]. intros s4 Hs4.
  destruct (ahead (str ")") k1) eqn:Ha1; cbn [negb]; [|done].
  destruct (ahead_one 41 k1 eq_refl ltac:(lia) Ha1) as (k2 & ->).
  eapply safe_gettoken; [done|]. intros w' s5 Hs5 _. cbn [tail] in Hs5. cbn in Hf. rewrite length_app in Hf. cbn in Hf.
  eapply safe_bind; [apply (parseredirs_sound _ _ k2); [done|lia]|]. cbv beta.
  intros rs s6 (rs1 & srs & k3 & Hs6 & -> & HF & ->). exists (Block l srs), k3.
  split_and!; [done..| |cbn; by rewrite <- app_assoc]. cbn. by apply parsed_wrap.
Qed.

Lemma sound_all fuel : forall ts s, sees s ts ->
  ((4 * length ts + 4 <= fuel)%nat -> sound (parseline b fuel) small_line toks_line mean_line ts s) /\
  ((4 * length ts + 3 <= fuel)%nat -> sound (parsepipe b fuel) small_pipe toks_pipe mean_pipe ts s) /\
  ((4 * length ts + 2 <= fuel)%nat -> sound (parseexec b fuel) small_exec toks_exec mean_exec ts s) /\
  (ahead (str "(") ts = true -> (4 * length ts + 1 <= fuel)%nat ->
    sound (parseblock b fuel) small_exec toks_exec mean_exec ts s).
Proof.
  induction fuel as [|fuel IH]; intros ts s Hs; [split_and!; lia|]. split_and!; intros.
  - apply parseline_sound; [done| | |lia].
    + apply IH; [done|lia].
    + intros. apply IH; [done|lia].
  - apply parsepipe_sound; [done| |].
    + apply IH; [done|lia].
    + intros. apply IH; [done|lia].
  - apply parseexec_sound; [done| |lia]. intros. apply IH; [done..|lia].
  - apply parseblock_sound; [done| |]; [intros; apply IH; [done|lia]|].
    destruct ts; cbn in *; [done|lia].
Qed.
End tokens.

(** ** Words in place *)

Lemma nul_lookup c buf i : Forall (fun w : span => (w.2 < length buf)%nat) (words c) ->
  length (nulterminate c buf) = length buf /\
  nulterminate c buf !! i = if bool_decide (i ∈ (words c).*2) then Some 0 else buf !! i.
Proof.
  revert buf. induction c as [argv|c IH file mode fd|l IHl r IHr|l IHl r IHr|c IH]; intros buf Hw; cbn in *.
  - revert buf Hw. induction argv as [|w argv IH]; intros buf Hw; [done|]. inversion Hw as [|? ? Hlt Hw']; subst.
    destruct (IH (<[w.2:=0]> buf)) as [H1 H2]; [by rewrite length_insert|]. cbn [foldl].
    split; [by rewrite H1, length_insert|]. etrans; [apply H2|]. cbn [fmap list_fmap].
    destruct (decide (i = w.2)) as [->|Hne].
    + rewrite list_lookup_insert_eq by done. rewrite (bool_decide_true (_ ∈ w.2 :: _)) by set_solver.
      by case_bool_decide.
    + rewrite list_lookup_insert_ne by done. erewrite bool_decide_ext; [done|]. set_solver.
  - inversion Hw as [|? ? Hlt Hw']; subst. destruct (IH buf Hw') as [H1 H2]. rewrite length_insert.
    split; [done|]. cbn [fmap list_fmap]. destruct (decide (i = file.2)) as [->|Hne].
    + rewrite list_lookup_insert_eq by lia. by rewrite bool_decide_true by set_solver.
    + rewrite list_lookup_insert_ne by done. rewrite H2. erewrite bool_decide_ext; [done|]. set_solver.
  - apply Forall_app in Hw as [Hl Hr]. destruct (IHl buf Hl) as [H1 H2].
    destruct (IHr (nulterminate l buf)) as [H3 H4]; [by rewrite H1|]. split; [lia|]. rewrite H4, H2.
    rewrite fmap_app. repeat case_bool_decide; set_solver.
  - apply Forall_app in Hw as [Hl Hr]. destruct (IHl buf Hl) as [H1 H2].
    destruct (IHr (nulterminate l buf)) as [H3 H4]; [by rewrite H1|]. split; [lia|]. rewrite H4, H2.
    rewrite fmap_app. repeat case_bool_decide; set_solver.
  - by apply IH.
Qed.

Lemma cstr_word (l w r : bytes) : l = w ++ 0 :: r -> Forall (fun c => c <> 0) w -> cstr l = w.
Proof.
  intros -> HF. induction HF as [|c w Hc HF IH]; cbn; [done|]. destruct (Z.eqb_spec c 0); [done|].
  by rewrite IH.
Qed.

Lemma cstr_split buf : exists r, buf = cstr buf ++ r /\ (r = [] \/ exists r', r = 0 :: r') /\
  Forall (fun c => c <> 0) (cstr buf).
Proof.
  induction buf as [|c buf (r & E & Hr & HF)]; [by exists []; auto|]. cbn.
  destruct (Z.eqb_spec c 0) as [->|Hc]; [exists (0 :: buf); naive_solver|].
  exists r. split; [cbn; by rewrite <- E|]. split; [done|by constructor].
Qed.

Lemma word_in_place c buf w : let b := cstr buf in
  (length b < length buf)%nat -> Forall (good b) (words c) -> w ∈ words c ->
  cstr (drop w.1 (nulterminate c buf)) = spell b w.
Proof.
  intros b Hb Hg Hw.
  assert (Forall (fun w : span => (w.2 < length buf)%nat) (words c)) as Hlt.
  { eapply Forall_impl; [exact Hg|]. intros v (? & _). lia. }
  pose proof (fun i => proj2 (nul_lookup c buf i Hlt)) as Hl.
  destruct (proj1 (Forall_forall _ _) Hg w Hw) as (Hr & Hin & _).
  destruct (cstr_split buf) as (r & E & _ & Hnz). fold b in E, Hnz.
  assert (nulterminate c buf !! w.2 = Some 0) as He.
  { rewrite Hl, bool_decide_true; [done|]. apply list_elem_of_fmap. eauto. }
  assert (take (w.2 - w.1) (drop w.1 (nulterminate c buf)) = spell b w) as Ht.
  { unfold spell, slice. apply list_eq. intros i. destruct (decide (i < w.2 - w.1)%nat) as [Hi|Hi].
    - rewrite !lookup_take_lt, !lookup_drop, Hl by done.
      destruct (lookup_lt_is_Some_2 b (w.1 + i)) as [x Hx]; [lia|]. rewrite bool_decide_false.
      { rewrite E, lookup_app_l by lia. done. }
      intros (v & Ev & Hv)%list_elem_of_fmap. destruct (proj1 (Forall_forall _ _) Hg v Hv) as (_ & _ & Hsep).
      specialize (Hsep x). rewrite <- Ev in Hsep. specialize (Hsep Hx).
      rewrite Forall_lookup in Hin. specialize (Hin i x). rewrite Hin in Hsep; [done|].
      unfold slice. by rewrite lookup_take_lt, lookup_drop.
    - rewrite !lookup_take_ge by lia. done. }
  apply (cstr_word _ _ (drop (S w.2) (nulterminate c buf))).
  - rewrite <- Ht, <- (drop_S _ _ _ He). replace w.2 with (w.1 + (w.2 - w.1))%nat at 2 by lia.
    by rewrite <- drop_drop, take_drop.
  - unfold spell, slice. by apply Forall_take, Forall_drop.
Qed.

Lemma cmap_ext {V W} (f g : V -> W) c : (forall w, w ∈ words c -> f w = g w) -> cmap f c = cmap g c.
Proof.
  induction c as [argv|c IH file mode fd|l IHl r IHr|l IHl r IHr|c IH]; cbn; intros H.
  - f_equal. apply list_fmap_ext. intros i x Hx%list_elem_of_lookup_2. by apply H.
  - rewrite IH, H; set_solver.
  - rewrite IHl, IHr; set_solver.
  - rewrite IHl, IHr; set_solver.
  - by rewrite IH.
Qed.

(** At the end of the line there are no tokens left. *)
Lemma skip_end b s ts : sees b s ts -> bool_decide (skip b s = length b) = bool_decide (ts = []).
Proof.
  intros Hs. pose proof (skip_cur b s ts Hs) as H. apply bool_decide_ext.
  pose proof (skip_sees b s ts Hs) as [Hle _]. split.
  - intros E. rewrite E, drop_all in H. destruct ts as [|[c| |w] ts]; [done|exfalso..].
    + by destruct H as (r & ? & _).
    + by destruct H as (r & ? & _).
    + destruct H as (r & E' & Hw & _). by destruct w.
  - intros ->. apply (f_equal length) in H. rewrite length_drop in H. cbn in H. lia.
Qed.

(** The words in place are those of the command built. *)
Lemma strings_parsed buf c d : let b := cstr buf in
  (length b < length buf)%nat -> Forall (fun c => c <> 0) b -> parsed b c d -> strings (nulterminate c buf) c = d.
Proof.
  intros b Hb text [<- Hg]. unfold strings. apply cmap_ext. intros w Hw. by apply (word_in_place c buf w).
Qed.

(** A sentence of the grammar is parsed to its end. *)
Lemma parseline_accepts buf l : let b := cstr buf in small_line l -> lex [] b = toks_line l -> exists c s,
  parseline b (line_fuel b) 0%nat = Ok c s /\ sees b s [] /\ parsed b c (mean_line l).
Proof.
  intros b Hl E. destruct (cstr_split buf) as (_ & _ & _ & text). fold b in text.
  pose proof (lex_length b []) as Hlen. cbn in Hlen.
  pose proof (proj1 (accepts_all b text) l Hl (line_fuel b) [] 0%nat) as H. rewrite app_nil_r, <- E in H.
  destruct (proj1 (wp_Ok _ _ _) (H ltac:(split; [lia|by rewrite drop_0]) (or_introl eq_refl) ltac:(unfold line_fuel; lia)))
    as (c & s' & Ec & Hc). eauto.
Qed.

Lemma parsecmd_accepts buf l : (length (cstr buf) < length buf)%nat -> small_line l -> lex [] (cstr buf) = toks_line l ->
  exists c buf', parsecmd buf = Ok c buf' /\ strings buf' c = mean_line l.
Proof.
  intros Hb Hl E. destruct (parseline_accepts buf l Hl E) as (c & s & Ec & Hs & Hp).
  destruct (cstr_split buf) as (_ & _ & _ & text). unfold parsecmd. rewrite Ec, (skip_end _ _ _ Hs), bool_decide_true by done.
  do 2 eexists. split; [done|]. by apply strings_parsed.
Qed.

Lemma parsecmd_spec buf : (length (cstr buf) < length buf)%nat ->
  match parsecmd buf with
  | Ok c buf' => exists l, small_line l /\ lex [] (cstr buf) = toks_line l /\ strings buf' c = mean_line l
  | Panic _ => forall l, small_line l -> lex [] (cstr buf) <> toks_line l
  | _ => False
  end.
Proof.
  intros Hb. unfold parsecmd. set (b := cstr buf).
  destruct (cstr_split buf) as (_ & _ & _ & text). fold b in text.
  assert (sees b 0 (lex [] b)) as H0 by (split; [lia|by rewrite drop_0]).
  pose proof (lex_length b []) as Hlen. cbn in Hlen.
  assert (4 * length (lex [] b) + 4 <= line_fuel b)%nat as Hf by (unfold line_fuel; lia).
  pose proof (proj1 (sound_all b text (line_fuel b) _ _ H0) Hf) as Hs. unfold sound, safe in Hs.
  pose proof (parseline_accepts buf) as Hacc. cbv zeta in Hacc. fold b in Hacc.
  destruct (parseline b (line_fuel b) 0%nat) as [c s|msg| | | |]; [|naive_solver|done..].
  destruct Hs as (l & k & Hsm & Hk & Hp & E). rewrite (skip_end b s k Hk).
  case_bool_decide as Ek.
  - subst k. exists l. rewrite app_nil_r in E. split_and!; [done|done|]. by apply strings_parsed.
  - intros l' Hl' E'. destruct (Hacc l' Hl' E') as (c' & s' & [= <- <-] & [_ Hs'] & _).
    destruct Hk as [_ Hk]. congruence.
Qed.

(** C16. The parser of the shell is exact. On any line it either returns, and
    then the line is a sentence of the grammar and the command it built, read
    through the pointers into the line after [nulterminate] has put the NULs
    in place, is what the sentence means; or it panics, and then the line is
    no sentence of the grammar (with at most nine arguments to a command).
    In particular it always ends, and never reads outside the line. *)
Theorem parsecmd_exact buf : (length (cstr buf) < length buf)%nat ->
  match parsecmd buf with
  | Ok c buf' => exists l, small_line l /\ lex [] (cstr buf) = toks_line l /\ strings buf' c = mean_line l
  | Panic _ => forall l, small_line l -> lex [] (cstr buf) <> toks_line l
  | _ => False
  end.
Proof. apply parsecmd_spec. Qed.

(** [echo hi>f|wc &] with its newline. *)
Definition demo_line : bytes := str "echo hi>f|wc &" ++ [10; 0].

Lemma parsecmd_exact_witness :
  (exists c buf', parsecmd demo_line = Ok c buf' /\
    strings buf' c = BACK (PIPE (REDIR (EXEC [str "echo"; str "hi"]) (str "f") 257 1) (EXEC [str "wc"]))) /\
  match parsecmd demo_line with
  | Ok c buf' => exists l, small_line l /\ lex [] (cstr demo_line) = toks_line l /\ strings buf' c = mean_line l
  | Panic _ => forall l, small_line l -> lex [] (cstr demo_line) <> toks_line l
  | _ => False
  end.
Proof.
  split; [do 2 eexists; split; vm_compute; reflexivity|].
  apply parsecmd_exact. vm_compute. lia.
Defined.
