(* ===== verification/Usys.v ===== *)
(** * User programs as trees of system calls (userspace/libc/usys.S, unistd.h)

    A user program is the tree of the system calls it makes: each node is a
    call, and its branches are what the program does with each result. The
    result of a call is the value it returns and the bytes it stores through
    its pointer argument. [makes p tr e] says that [p] makes exactly the calls
    of the trace [tr], when they have the results given there, and then ends
    as [e]. *)

From stdpp Require Import prelude strings.
From S2P Require Import Prelude.

Inductive syscall :=
| SRead (fd n : Z) | SWrite (fd : Z) (b : bytes) | SOpen (path : bytes) (mode : Z) | SClose (fd : Z)
| SDup (fd : Z) | SPipe | SFork | SWait | SExecv (path : bytes) (argv : list bytes) | SChdir (path : bytes)
| SMkdir (path : bytes) | SUnlink (path : bytes) | SLink (old new : bytes) | SMknod (path : bytes) (major minor : Z)
| SFstat (fd : Z) | SGetpid | SSleep (n : Z) | SUptime | SGetcwd (n : Z) | SShutdown | SReboot | SGetuid
| SSetuid (uid : Z) | SGethostname | SSethostname (name : bytes) | STime | STouch (path : bytes) | SKill (pid : Z).

#[export] Instance syscall_eq_dec : EqDecision syscall.
Proof. solve_decision. Defined.

Inductive prog (A : Type) : Type :=
| Ret (a : A)
| Sys (c : syscall) (k : Z -> bytes -> prog A)
| Exit (status : Z)
| Wild
| Spin.
Arguments Ret {_} _.
Arguments Sys {_} _ _.
Arguments Exit {_} _.
Arguments Wild {_}.
Arguments Spin {_}.

(** How a program ends: it returns, it calls [exit], it accesses memory outside
    its objects, or a loop runs out of the fuel of the model. *)
Inductive ending (A : Type) : Type := Done (a : A) | Exited (status : Z) | Undefined | OutOfFuel.
Arguments Done {_} _.
Arguments Exited {_} _.
Arguments Undefined {_}.
Arguments OutOfFuel {_}.

Fixpoint pbind {A B} (p : prog A) (f : A -> prog B) : prog B :=
  match p with
  | Ret a => f a
  | Sys c k => Sys c (fun r d => pbind (k r d) f)
  | Exit s => Exit s
  | Wild => Wild
  | Spin => Spin
  end.

Declare Scope prog_scope.
Delimit Scope prog_scope with prog.
Notation "x <- m ;; k" := (pbind m (fun x => k))
  (at level 100, m at next level, right associativity) : prog_scope.
Notation "' p <- m ;; k" := (pbind m (fun x => match x with p => k end))
  (at level 100, p pattern, m at next level, right associativity) : prog_scope.
Notation "m ;; k" := (pbind m (fun _ => k))
  (at level 100, right associativity) : prog_scope.

(** A call: its value, with or without the bytes. *)
Definition sysd (c : syscall) : prog (Z * bytes) := Sys c (fun r d => Ret (r, d)).
Definition sys (c : syscall) : prog Z := Sys c (fun r _ => Ret r).

Notation event := (syscall * (Z * bytes))%type.

Fixpoint makes {A} (p : prog A) (tr : list event) (e : ending A) : Prop :=
  match p, tr with
  | Ret a, [] => e = Done a
  | Exit s, [] => e = Exited s
  | Wild, [] => e = Undefined
  | Spin, [] => e = OutOfFuel
  | Sys c k, (c', (r, d)) :: tr => c = c' /\ makes (k r d) tr e
  | _, _ => False
  end.

(** The calls a program makes when the calls have the results [rs], and how it
    ends, if it does. *)
Fixpoint run {A} (p : prog A) (rs : list (Z * bytes)) : list syscall * option (ending A) :=
  match p with
  | Ret a => ([], Some (Done a))
  | Exit s => ([], Some (Exited s))
  | Wild => ([], Some Undefined)
  | Spin => ([], Some OutOfFuel)
  | Sys c k =>
    match rs with
    | [] => ([c], None)
    | (r, d) :: rs => let '(cs, e) := run (k r d) rs in (c :: cs, e)
    end
  end.

Section rules.
Context {A B : Type}.
Implicit Types (p : prog A) (f : A -> prog B) (tr : list event).

Lemma makes_bind p f tr tr' a e : makes p tr (Done a) -> makes (f a) tr' e -> makes (pbind p f) (tr ++ tr') e.
Proof.
  revert tr. induction p as [a'|c k IH|s| |]; intros [|[c' [r d]] tr]; cbn; try done.
  - by intros [= ->].
  - intros [-> Hk] Hf. split; [done|]. by apply IH.
Qed.

Lemma makes_bind_exit p f tr s : makes p tr (Exited s) -> makes (pbind p f) tr (Exited s).
Proof.
  revert tr. induction p as [a'|c k IH|s'| |]; intros [|[c' [r d]] tr]; cbn; try done; try (by intros [= ->]).
  intros [-> Hk]. split; [done|]. by apply IH.
Qed.

Lemma makes_sys c r d tr e (g : Z -> prog B) : makes (g r) tr e -> makes (pbind (sys c) g) ((c, (r, d)) :: tr) e.
Proof. done. Qed.

Lemma makes_sysd c r d tr e (g : Z * bytes -> prog B) :
  makes (g (r, d)) tr e -> makes (pbind (sysd c) g) ((c, (r, d)) :: tr) e.
Proof. done. Qed.

(** The results determine the calls. *)
Lemma makes_inj p tr tr' e e' : makes p tr e -> makes p tr' e' -> tr.*2 = tr'.*2 -> tr = tr' /\ e = e'.
Proof.
  revert tr tr'. induction p as [a'|c k IH|s'| |]; intros [|[c1 [r1 d1]] tr] [|[c2 [r2 d2]] tr']; cbn; try done;
    try (intros; by subst).
  intros [-> H1] [-> H2] [= -> -> Hr]. destruct (IH _ _ _ _ H1 H2 Hr) as [-> ->]. done.
Qed.

Lemma run_makes p tr e : makes p tr e -> run p tr.*2 = (tr.*1, Some e).
Proof.
  revert tr. induction p as [a'|c k IH|s'| |]; intros [|[c1 [r1 d1]] tr]; cbn; try done; try (by intros ->).
  intros [-> Hk]. by rewrite (IH _ _ _ Hk).
Qed.
End rules.

(** Calls made one after the other whose results are not looked at. *)
Fixpoint calls (cs : list syscall) : prog unit :=
  match cs with
  | [] => Ret tt
  | c :: cs => Sys c (fun _ _ => calls cs)
  end.

Lemma makes_calls cs tr : makes (calls cs) tr (Done tt) <-> tr.*1 = cs.
Proof.
  revert tr. induction cs as [|c cs IH]; intros [|[c' [r d]] tr]; cbn; try done.
  rewrite IH. split; [by intros [-> ->]|by intros [= -> ->]].
Qed.

Lemma makes_calls_bind {B} cs (q : prog B) tr tr' e :
  tr.*1 = cs -> makes q tr' e -> makes (pbind (calls cs) (fun _ => q)) (tr ++ tr') e.
Proof. intros Hc Hq. eapply makes_bind; [by apply makes_calls|done]. Qed.

(** The reads that deliver [chunks]. *)
Definition reads (fd n : Z) (chunks : list bytes) : list event :=
  (fun c => (SRead fd n, (Z.of_nat (length c), c))) <$> chunks.
