(* ===== verification/Printf.v ===== *)
(** * Formatted output and number parsing (userspace/libc/printf.c, atob.c)

    [printf] writes one character per system call; its arguments are words and
    pointers to strings, as for the kernel's [cprintf]. *)

From stdpp Require Import prelude gmap strings.
From S2P Require Import Prelude StringC Ulib Usys Console.
#[local] Open Scope prog_scope.

Definition stdin : Z := 0.
Definition stdout : Z := 1.
Definition stderr : Z := 2.

Definition putc (fd c : Z) : prog unit := Sys (SWrite fd [u8 c]) (fun _ _ => Ret tt).

Fixpoint putcs (fd : Z) (l : bytes) : prog unit :=
  match l with
  | [] => Ret tt
  | c :: l => putc fd c ;; putcs fd l
  end.

(** The digits of [x] in upper case, least significant first. *)
Definition udigits : bytes := str "0123456789ABCDEF".

Fixpoint udigits_of (fuel : nat) (x base : Z) : bytes :=
  match fuel with
  | O => []
  | S fuel =>
    (udigits !!! Z.to_nat (x mod base)) ::
    (if x / base =? 0 then [] else udigits_of fuel (x / base) base)
  end.

(** The characters [printint] and [printint64] print: both keep the magnitude
    in an unsigned int, and differ in the type of [xx] only. *)
Definition uint_chars (xx base : Z) (sgn : bool) : bytes :=
  let neg := sgn && (xx <? 0) in
  let x := if neg then u32 (- xx) else u32 xx in
  reverse (udigits_of 32 x base ++ (if neg then [45] else [])).

Definition printint (fd xx base : Z) (sgn : bool) : prog unit := putcs fd (uint_chars xx base sgn).
Definition printint64 (fd xx base : Z) (sgn : bool) : prog unit := putcs fd (uint_chars xx base sgn).

(** The loop of [printf] and [fprintf]; [pct] is the state after a percent
    sign, and an argument of the wrong kind is undefined. *)
Fixpoint printf_loop (fd : Z) (pct : bool) (fmt : bytes) (args : list carg) : prog unit :=
  match fmt with
  | [] => Ret tt
  | c :: fmt =>
    if c =? 0 then Ret tt else
    if negb pct then
      if c =? 37 then printf_loop fd true fmt args else putc fd c ;; printf_loop fd false fmt args
    else if c =? 100 then
      match arg_word args with
      | Some (z, args) => printint64 fd (u32 z) 10 true ;; printf_loop fd false fmt args
      | None => Wild
      end
    else if (c =? 120) || (c =? 112) then
      match arg_word args with
      | Some (z, args) => printint fd (s32 z) 16 false ;; printf_loop fd false fmt args
      | None => Wild
      end
    else if c =? 115 then
      match arg_string args with
      | Some (s, args) => putcs fd (cstr s) ;; printf_loop fd false fmt args
      | None => Wild
      end
    else if c =? 99 then
      match arg_word args with
      | Some (z, args) => putc fd z ;; printf_loop fd false fmt args
      | None => Wild
      end
    else if c =? 37 then putc fd c ;; printf_loop fd false fmt args
    else putc fd 37 ;; putc fd c ;; printf_loop fd false fmt args
  end.

Definition printf (fmt : bytes) (args : list carg) : prog unit := printf_loop stdout false fmt args.
Definition fprintf (file : Z) (fmt : bytes) (args : list carg) : prog unit := printf_loop file false fmt args.

(** ** Numbers from strings (atob.c) *)

Definition u64 (x : Z) : Z := x `mod` 2 ^ 64.

(** [_getbase]: the base and the rest of the string. *)
Definition getbase (p : bytes) : bytes * Z :=
  if chr p =? 48 then
    let c := chr (tail p) in
    if c =? 120 then (drop 2 p, 16)
    else if (c =? 116) || (c =? 110) then (drop 2 p, 10)
    else if c =? 111 then (drop 2 p, 8)
    else (p, 10)
  else (p, 10).

(** The digit loop of [_atob]. *)
Fixpoint atob_digits (p : bytes) (base value : Z) : option Z :=
  match p with
  | [] => Some value
  | c :: p =>
    if c =? 0 then Some value else
    let digit :=
      if (48 <=? c) && (c <=? 57) then Some (c - 48)
      else if (97 <=? c) && (c <=? 102) then Some (c - 97 + 10)
      else if (65 <=? c) && (c <=? 70) then Some (c - 65 + 10)
      else None in
    match digit with
    | Some d => if base <=? d then None else atob_digits p base (u64 (u64 (value * base) + d))
    | None => None
    end
  end.

(** [_atob]. It calls itself on strings without a dot, so one level of calls
    is enough: [depth] is the number of levels left. *)
Fixpoint atob_rec (depth : nat) (p : bytes) (base : Z) : option Z :=
  let '(p, base) :=
    if (chr p =? 48) && ((chr (tail p) =? 120) || (chr (tail p) =? 88)) then (drop 2 p, 16) else (p, base) in
  match (if base =? 16 then strchr p 46 else None), depth with
  | Some q, S depth =>
    let n := (length p - length q)%nat in
    if bool_decide (19 < n)%nat then None else
    match atob_rec depth (take n p) 16 with
    | None => None
    | Some v1 =>
      let q := tail q in
      match strchr q 46 with
      | Some _ => None
      | None =>
        match atob_rec depth q 16 with
        | None => None
        | Some v2 => Some (u64 (u64 (Z.shiftl v1 16) + v2))
        end
      end
    end
  | Some _, O => None
  | None, _ => atob_digits p base 0
  end.

(** [atob]: the value stored, if it succeeds. *)
Definition atob (p : bytes) (base : Z) : option Z :=
  let '(p, base) := if base =? 0 then getbase p else (p, base) in
  match atob_rec 1 p base with
  | Some v => Some (u32 v)
  | None => None
  end.

(** ** What is printed *)

Lemma makes_putcs fd l tr : makes (putcs fd l) tr (Done tt) <-> tr.*1 = (fun c => SWrite fd [u8 c]) <$> l.
Proof.
  revert tr. induction l as [|c l IH]; intros [|[c' [r d]] tr]; cbn; try done.
  split.
  - intros [-> H%IH]. by f_equal.
  - intros [= -> H]. split; [done|]. by apply IH.
Qed.


Lemma makes_ret_unit (p : prog unit) tr : makes (p ;; Ret tt) tr (Done tt) <-> makes p tr (Done tt).
Proof.
  revert tr. induction p as [[]|c k IH|s| |]; intros [|[c' [r d]] tr]; cbn; try done. by rewrite IH.
Qed.

Definition digit_ok (c k : Z) : Prop :=
  (48 <= c <= 57 /\ c - 48 = k) \/ (65 <= c <= 70 /\ c - 55 = k).

Lemma udigit_at k : 0 <= k < 16 -> digit_ok (udigits !!! Z.to_nat k) k /\ (k < 10 -> udigits !!! Z.to_nat k = 48 + k).
Proof.
  intros Hk. assert (forallb (fun k => let c := udigits !!! Z.to_nat k in
    if k <? 10 then c =? 48 + k else c =? 55 + k) (seqZ 0 16) = true) as H by (vm_compute; reflexivity).
  rewrite forallb_forall in H. specialize (H k (proj1 (list_elem_of_In _ _) (proj2 (elem_of_seqZ 0 16 k) ltac:(lia)))).
  cbv zeta in H. unfold digit_ok. destruct (Z.ltb_spec k 10); apply Z.eqb_eq in H; rewrite H; lia.
Qed.

Lemma udigits_chars fuel x base c : 2 <= base <= 16 -> c ∈ udigits_of fuel x base -> 48 <= c <= 57 \/ 65 <= c <= 70.
Proof.
  intros Hb. revert x. induction fuel as [|fuel IH]; intros x; cbn [udigits_of]; [by intros ?%not_elem_of_nil|].
  intros [->|Hc]%elem_of_cons.
  - pose proof (Z.mod_pos_bound x base). destruct (udigit_at (x mod base)) as [[?|?] _]; lia.
  - destruct (_ =? 0); [by apply not_elem_of_nil in Hc|]. by eapply IH.
Qed.

Lemma atob_digits_snoc l c base v v' k : (forall x, x ∈ l -> x <> 0) -> atob_digits l base v = Some v' ->
  digit_ok c k -> k < base -> atob_digits (l ++ [c]) base v = Some (u64 (u64 (v' * base) + k)).
Proof.
  intros Hl. revert v. induction l as [|a l IH]; intros v; cbn [app atob_digits].
  - intros [= ->] Hc Hk. destruct (Z.eqb_spec c 0); [destruct Hc; lia|].
    destruct Hc as [[Hr <-]|[Hr <-]].
    + destruct (Z.leb_spec 48 c), (Z.leb_spec c 57); try lia. cbn [andb].
      destruct (Z.leb_spec base (c - 48)); [lia|done].
    + destruct (Z.leb_spec 48 c), (Z.leb_spec c 57); try lia. cbn [andb].
      destruct (Z.leb_spec 97 c); [lia|]. destruct (Z.leb_spec 65 c), (Z.leb_spec c 70); try lia. cbn [andb].
      replace (c - 65 + 10) with (c - 55) by lia. destruct (Z.leb_spec base (c - 55)); [lia|done].
  - destruct (Z.eqb_spec a 0) as [->|]; [by destruct (Hl 0 ltac:(set_solver))|].
    destruct (if _ && _ then _ else _) as [d|]; [|done]. destruct (base <=? d); [done|].
    intros HE Hc Hk. apply IH; [set_solver|done..].
Qed.

Lemma atob_digits_value fuel x base : 2 <= base <= 16 -> 0 <= x < base ^ Z.of_nat fuel -> x < 2 ^ 64 ->
  atob_digits (reverse (udigits_of fuel x base)) base 0 = Some x.
Proof.
  intros Hb. revert x. induction fuel as [|fuel IH]; intros x Hx Hx64; [cbn in *; f_equal; lia|]. cbn [udigits_of].
  pose proof (Z.mod_pos_bound x base ltac:(lia)) as Hm. destruct (udigit_at (x mod base) ltac:(lia)) as [Hd _].
  pose proof (Z.div_mod x base ltac:(lia)) as Hdm. rewrite Nat2Z.inj_succ, Z.pow_succ_r in Hx by lia.
  assert (0 <= x / base < base ^ Z.of_nat fuel) as Hq.
  { split; [apply Z.div_pos; lia|]. apply Z.div_lt_upper_bound; lia. }
  assert (x / base <= x) by (apply Z.div_le_upper_bound; nia).
  rewrite reverse_cons. erewrite atob_digits_snoc with (v' := x / base); [|..|exact Hd|lia].
  - f_equal. unfold u64. rewrite (Z.mod_small (x / base * base)) by nia. rewrite Z.mod_small by lia. lia.
  - intros y. rewrite elem_of_reverse. destruct (_ =? 0); [by intros ?%not_elem_of_nil|].
    intros Hy%udigits_chars; lia.
  - destruct (Z.eqb_spec (x / base) 0) as [E|E]; [by rewrite E|]. apply IH; [done|lia].
Qed.

Lemma strchr_none l c : c ∉ l -> strchr l c = None.
Proof.
  induction l as [|a l IH]; [done|]. rewrite not_elem_of_cons. intros [Hne Hl]. cbn. destruct (a =? 0); [done|].
  destruct (Z.eqb_spec a c); [congruence|by apply IH].
Qed.

(** Numerals as [printf] prints them are read back by [atob]. *)
Lemma atob_numeral l base v : base <> 0 -> (forall c, c ∈ l -> 48 <= c <= 57 \/ 65 <= c <= 70) ->
  atob_digits l base 0 = Some v -> atob l base = Some (u32 v).
Proof.
  intros Hb Hl Hv. unfold atob. destruct (Z.eqb_spec base 0); [done|].
  assert (atob_rec 1 l base = Some v) as ->; [|done]. cbn [atob_rec].
  assert (chr (tail l) <> 120 /\ chr (tail l) <> 88) as [H1 H2].
  { destruct l as [|a [|b l]]; [done..|]. cbn. specialize (Hl b ltac:(set_solver)). lia. }
  destruct (Z.eqb_spec (chr (tail l)) 120), (Z.eqb_spec (chr (tail l)) 88); try done.
  rewrite andb_false_r. rewrite strchr_none by (intros H%Hl; lia). by destruct (base =? 16).
Qed.

Lemma uint_chars_pos x base : 0 <= x < 2 ^ 32 -> uint_chars x base true = reverse (udigits_of 32 x base).
Proof.
  intros Hx. unfold uint_chars. destruct (Z.ltb_spec x 0); [lia|]. cbn [andb]. rewrite app_nil_r. by rewrite u32_small.
Qed.

Lemma uint_chars_unsigned z base : uint_chars (s32 z) base false = reverse (udigits_of 32 (u32 z) base).
Proof.
  unfold uint_chars. cbn [andb]. rewrite app_nil_r. do 2 f_equal. unfold s32, sgn, u32.
  destruct (_ <? _); [by rewrite Zmod_mod|].
  replace (z `mod` 2 ^ 32 - 2 ^ 32) with (z `mod` 2 ^ 32 + (-1) * 2 ^ 32) by lia. by rewrite Z_mod_plus_full, Zmod_mod.
Qed.

Lemma numeral_value x base : 2 <= base <= 16 -> 0 <= x < 2 ^ 32 ->
  atob (reverse (udigits_of 32 x base)) base = Some x.
Proof.
  intros Hb Hx. rewrite (atob_numeral _ _ x); [by rewrite u32_small|lia| |].
  - intros c. rewrite elem_of_reverse. by apply udigits_chars.
  - apply atob_digits_value; [done| |lia]. split; [lia|]. change (Z.of_nat 32) with 32.
    pose proof (Z.pow_le_mono_l 2 base 32). lia.
Qed.

Lemma print_numeral fd x base : 2 <= base <= 16 ->
  (fun c => SWrite fd [u8 c]) <$> reverse (udigits_of 32 x base) =
  (fun c => SWrite fd [c]) <$> reverse (udigits_of 32 x base).
Proof.
  intros Hb. apply list_fmap_ext. intros i c Hc. do 2 f_equal. apply Z.mod_small.
  apply list_elem_of_lookup_2, elem_of_reverse, udigits_chars in Hc; lia.
Qed.

(** C35. Numbers printed by [printf] are read back by [atob]. For every 32-bit
    word, [printf("%x", z)] and [printf("%d", z)] write a string, one character
    per system call, that [atob] with base 16 and 10 turns into the word taken
    as unsigned. For [%d] this is so for negative arguments as well: the
    conversion prints no sign. *)
Theorem printf_atob_roundtrip z : exists hex dec,
  (forall tr, makes (printf (str "%x") [CInt z]) tr (Done tt) <-> tr.*1 = (fun c => SWrite stdout [c]) <$> hex) /\
  (forall tr, makes (printf (str "%d") [CInt z]) tr (Done tt) <-> tr.*1 = (fun c => SWrite stdout [c]) <$> dec) /\
  atob hex 16 = Some (u32 z) /\ atob dec 10 = Some (u32 z) /\ 45 ∉ dec.
Proof.
  pose proof (u32_range z) as Hr.
  exists (reverse (udigits_of 32 (u32 z) 16)), (reverse (udigits_of 32 (u32 z) 10)). split_and!.
  - intros tr. rewrite <- print_numeral by lia. rewrite <- makes_putcs, <- (makes_ret_unit (putcs _ _)), <- uint_chars_unsigned. reflexivity.
  - intros tr. rewrite <- print_numeral by lia.
    rewrite <- makes_putcs, <- (makes_ret_unit (putcs _ _)), <- uint_chars_pos by done. reflexivity.
  - by apply numeral_value.
  - by apply numeral_value.
  - rewrite elem_of_reverse. intros H%udigits_chars; lia.
Qed.
