(* ===== verification/Grep.v ===== *)
(** * grep (userspace/grep.c)

    The regular expression matcher against the languages its patterns denote,
    and the loop over the lines of a file, with the buffer it leaves unterminated. *)

From stdpp Require Import prelude gmap strings.
From S2P Require Import Prelude StringC Ulib Usys Console Printf.
#[local] Open Scope prog_scope.

(** ** The matcher

    Patterns and texts are the bytes before the NUL. *)

(** The loop of [matchstar]; [here] is [matchhere] on the rest of the pattern. *)
Fixpoint matchstar (here : bytes -> bool) (c : Z) (text : bytes) : bool :=
  if here text then true else
  match text with
  | [] => false
  | t :: text => if (t =? c) || (c =? 46) then matchstar here c text else false
  end.

Fixpoint matchhere (re : bytes) (text : bytes) : bool :=
  match re with
  | [] => true
  | r0 :: re1 =>
    let plain :=
      if (r0 =? 36) && bool_decide (re1 = []) then bool_decide (text = []) else
      match text with
      | [] => false
      | t :: text => if (r0 =? 46) || (r0 =? t) then matchhere re1 text else false
      end in
    match re1 with
    | r1 :: re2 => if r1 =? 42 then matchstar (matchhere re2) r0 text else plain
    | [] => plain
    end
  end.

(** The loop of [match]. *)
Fixpoint match_from (re text : bytes) : bool :=
  if matchhere re text then true else
  match text with
  | [] => false
  | _ :: text => match_from re text
  end.

Definition re_match (re text : bytes) : bool :=
  if chr re =? 94 then matchhere (tail re) text else match_from re text.

(** ** The loop of [grep] *)

Definition BUF : nat := 1024.

(** [strchr(p, c)] in a buffer: found, not found before a NUL, or past the end. *)
Inductive scanned := Found (k : nat) | Absent | Past.

Fixpoint scan (l : bytes) (c : Z) : scanned :=
  match l with
  | [] => Past
  | a :: l =>
    if a =? 0 then Absent else if a =? c then Found O else
    match scan l c with Found k => Found (S k) | o => o end
  end.

(** The loop over the lines of the buffer, from [p] on. *)
Fixpoint grep_lines (fuel : nat) (pattern buf : bytes) (p : nat) : prog (bytes * nat) :=
  match fuel with
  | O => Spin
  | S fuel =>
    match scan (drop p buf) 10 with
    | Past => Wild
    | Absent => Ret (buf, p)
    | Found k =>
      let q := (p + k)%nat in
      let buf := <[q := 0]> buf in
      if re_match pattern (cstr (drop p buf)) then
        let buf := <[q := 10]> buf in
        sys (SWrite 1 (slice buf p (q + 1 - p))) ;;
        grep_lines fuel pattern buf (q + 1)
      else grep_lines fuel pattern buf (q + 1)
    end
  end.

(** [grep] with the buffer [buf] and [m] bytes in it. *)
Fixpoint grep (fuel : nat) (pattern : bytes) (fd : Z) (buf : bytes) (m : nat) : prog bytes :=
  match fuel with
  | O => Spin
  | S fuel =>
    ' (n, d) <- sysd (SRead fd (Z.of_nat (BUF - m))) ;;
    if negb (0 <? n) then Ret buf else
    let buf := splice buf m d in
    let m := (m + Z.to_nat n)%nat in
    ' (buf, p) <- grep_lines (BUF + 1) pattern buf 0 ;;
    let m := if bool_decide (p = O) then O else m in
    if bool_decide (m = O) then grep fuel pattern fd buf m else
    let m := (m - p)%nat in
    grep fuel pattern fd (splice buf 0 (slice buf p m)) m
  end.

(** The files named on the command line, with one buffer for all of them. *)
Fixpoint grep_files (fuel : nat) (pattern buf : bytes) (files : list bytes) : prog Z :=
  match files with
  | [] => Ret 0
  | f :: files =>
    fd <- sys (SOpen f 0) ;;
    if fd <? 0 then fprintf stdout (str "grep: cannot open %s" ++ [10]) [CStr f] ;; Exit 0 else
    buf <- grep fuel pattern fd buf 0 ;;
    sys (SClose fd) ;;
    grep_files fuel pattern buf files
  end.

Definition grep_main (fuel : nat) (argv : list bytes) : prog Z :=
  match argv with
  | _ :: pattern :: [] => grep fuel pattern 0 (replicate BUF 0) 0 ;; Exit 0
  | _ :: pattern :: files => grep_files fuel pattern (replicate BUF 0) files
  | _ => fprintf stderr (str "usage: grep pattern [file ...]" ++ [10]) [] ;; Exit 0
  end.

(** ** What patterns denote *)

Inductive item := One (c : Z) | Star (c : Z).

(** [.] stands for every character. *)
Definition fits (c t : Z) : Prop := c = 46 \/ c = t.

(** The items of a pattern, and whether it ends in the anchor [$]. *)
Fixpoint items (re : bytes) : list item * bool :=
  match re with
  | [] => ([], false)
  | r0 :: re1 =>
    let plain :=
      if (r0 =? 36) && bool_decide (re1 = []) then ([], true)
      else let '(l, d) := items re1 in (One r0 :: l, d) in
    match re1 with
    | r1 :: re2 => if r1 =? 42 then let '(l, d) := items re2 in (Star r0 :: l, d) else plain
    | [] => plain
    end
  end.

Fixpoint lang (l : list item) (w : bytes) : Prop :=
  match l with
  | [] => w = []
  | One c :: l => exists t u, w = t :: u /\ fits c t /\ lang l u
  | Star c :: l => exists v u, w = v ++ u /\ Forall (fits c) v /\ lang l u
  end.

(** A text matches at its beginning. *)
Definition prefix_in (l : list item) (dollar : bool) (text : bytes) : Prop :=
  exists w post, text = w ++ post /\ lang l w /\ (dollar = true -> post = []).

(** The meaning of a pattern: [^] anchors at the start. *)
Definition denotes (re text : bytes) : Prop :=
  if chr re =? 94 then prefix_in (items (tail re)).1 (items (tail re)).2 text
  else exists pre rest, text = pre ++ rest /\ prefix_in (items re).1 (items re).2 rest.

(** ** The matcher decides what patterns denote *)

Lemma matchstar_spec (here : bytes -> bool) (P : bytes -> Prop) c text :
  (forall t, here t = true <-> P t) ->
  matchstar here c text = true <-> exists v u, text = v ++ u /\ Forall (fits c) v /\ P u.
Proof.
  intros HP. induction text as [|t text IH]; cbn [matchstar].
  - destruct (here []) eqn:E.
    + split; [|done]. intros _. exists [], []. split_and!; [done|done|by apply HP].
    + split; [done|]. intros (v & u & Hvu & _ & Hu). symmetry in Hvu. apply app_nil in Hvu as [-> ->].
      apply HP in Hu. congruence.
  - destruct (here (t :: text)) eqn:E.
    + split; [|done]. intros _. exists [], (t :: text). split_and!; [done|done|by apply HP].
    + assert (((t =? c) || (c =? 46)) = true <-> fits c t) as Hf.
      { unfold fits. rewrite orb_true_iff, !Z.eqb_eq. naive_solver. }
      destruct ((t =? c) || (c =? 46)).
      * rewrite IH. split.
        { intros (v & u & -> & Hv & Hu). exists (t :: v), u. split_and!; [done| |done]. constructor; [by apply Hf|done]. }
        intros ([|a v] & u & Hvu & Hv & Hu); cbn in Hvu.
        { subst u. apply HP in Hu. congruence. }
        injection Hvu as -> ->. exists v, u. split_and!; [done|by inversion Hv|done].
      * split; [done|]. intros ([|a v] & u & Hvu & Hv & Hu); cbn in Hvu.
        { subst u. apply HP in Hu. congruence. }
        injection Hvu as -> ->. inversion Hv as [|? ? Ha _]; subst. by apply Hf in Ha.
Qed.

Lemma prefix_star l d c text : prefix_in (Star c :: l) d text <->
  exists v u, text = v ++ u /\ Forall (fits c) v /\ prefix_in l d u.
Proof.
  split.
  - intros (w & post & -> & (v & u & -> & Hv & Hu) & Hd). exists v, (u ++ post). split_and!; [by rewrite app_assoc|done|].
    by exists u, post.
  - intros (v & u & -> & Hv & (w & post & -> & Hw & Hd)). exists (v ++ w), post. split_and!; [by rewrite app_assoc| |done].
    by exists v, w.
Qed.

Lemma prefix_one l d c text : prefix_in (One c :: l) d text <->
  exists t u, text = t :: u /\ fits c t /\ prefix_in l d u.
Proof.
  split.
  - intros (w & post & -> & (t & u & -> & Ht & Hu) & Hd). exists t, (u ++ post). split_and!; [done|done|]. by exists u, post.
  - intros (t & u & -> & Ht & (w & post & -> & Hw & Hd)). exists (t :: w), post. split_and!; [done| |done]. by exists t, w.
Qed.

(** Without a star behind the first character. *)
Lemma plain_spec r0 re1 text :
  (forall t, matchhere re1 t = true <-> prefix_in (items re1).1 (items re1).2 t) ->
  (if (r0 =? 36) && bool_decide (re1 = []) then bool_decide (text = []) else
     match text with
     | [] => false
     | t :: text => if (r0 =? 46) || (r0 =? t) then matchhere re1 text else false
     end) = true <->
  let l := if (r0 =? 36) && bool_decide (re1 = []) then ([], true)
           else let '(l, d) := items re1 in (One r0 :: l, d) in prefix_in l.1 l.2 text.
Proof.
  intros IH. destruct ((r0 =? 36) && bool_decide (re1 = [])); cbn [fst snd].
  - rewrite bool_decide_eq_true. split.
    { intros ->. by exists [], []. }
    intros (w & post & -> & Hw & Hp). cbn in Hw. subst w. by apply Hp.
  - destruct (items re1) as [l d]. cbn [fst snd] in *. rewrite prefix_one.
    destruct text as [|t text]; [split; [done|by intros (? & ? & ? & _)]|].
    assert (((r0 =? 46) || (r0 =? t)) = true <-> fits r0 t) as Hf.
    { unfold fits. by rewrite orb_true_iff, !Z.eqb_eq. }
    destruct ((r0 =? 46) || (r0 =? t)).
    { rewrite IH. split; [intros H; exists t, text; split_and!; [done|by apply Hf|done]|].
      by intros (? & ? & [= <- <-] & _ & ?). }
    split; [done|]. intros (? & ? & [= <- <-] & Ht & _). by apply Hf in Ht.
Qed.

Lemma matchhere_spec re text : matchhere re text = true <-> prefix_in (items re).1 (items re).2 text.
Proof.
  revert text. induction re as [re IH] using (well_founded_induction (well_founded_ltof _ (@length Z))).
  intros text. destruct re as [|r0 re1]; cbn [matchhere items].
  - split; [|done]. intros _. by exists [], text.
  - assert (forall t, matchhere re1 t = true <-> prefix_in (items re1).1 (items re1).2 t) as H1.
    { intros t. apply IH. unfold ltof. cbn. lia. }
    destruct re1 as [|r1 re2]; [by apply plain_spec|]. destruct (r1 =? 42); [|by apply plain_spec].
    destruct (items re2) as [l d] eqn:Ei. cbn [fst snd]. rewrite prefix_star. apply matchstar_spec.
    intros t. rewrite IH, Ei; [done|]. unfold ltof. cbn. lia.
Qed.

Lemma match_from_spec re text : match_from re text = true <->
  exists pre rest, text = pre ++ rest /\ matchhere re rest = true.
Proof.
  induction text as [|t text IH]; cbn [match_from].
  - destruct (matchhere re []) eqn:E.
    + split; [|done]. intros _. by exists [], [].
    + split; [done|]. intros (pre & rest & H & Hm). symmetry in H. apply app_nil in H as [-> ->]. congruence.
  - destruct (matchhere re (t :: text)) eqn:E.
    + split; [|done]. intros _. by exists [], (t :: text).
    + rewrite IH. split.
      * intros (pre & rest & -> & Hm). by exists (t :: pre), rest.
      * intros ([|a pre] & rest & H & Hm); cbn in H; [subst; congruence|]. injection H as -> ->. eauto.
Qed.

(** C25. The matcher of grep is correct: [match] finds a pattern in a text
    exactly when some part of the text is in the language the pattern denotes
    (characters, [.] for any of them, [x*] for any number of them), at the
    start of the text when the pattern begins with [^] and at its end when it
    ends with [$]. It terminates on every pattern and text. *)
Theorem match_denotes re text : re_match re text = true <-> denotes re text.
Proof.
  unfold re_match, denotes. destruct (chr re =? 94); [apply matchhere_spec|].
  rewrite match_from_spec. by setoid_rewrite matchhere_spec.
Qed.

(** ** The lines of a file *)

(** The complete lines of a text, and what follows the last newline. *)
Fixpoint lines (l : bytes) : list bytes * bytes :=
  match l with
  | [] => ([], [])
  | c :: l =>
    let '(ls, r) := lines l in
    if c =? 10 then ([] :: ls, r) else
    match ls with
    | [] => ([], c :: r)
    | x :: ls => ((c :: x) :: ls, r)
    end
  end.

Lemma lines_rest a : 10 ∉ a -> lines a = ([], a).
Proof.
  induction a as [|c a IH]; [done|]. rewrite not_elem_of_cons. intros [Hc Ha]. cbn. rewrite IH by done.
  destruct (Z.eqb_spec c 10); [congruence|done].
Qed.

Lemma lines_line a b : 10 ∉ a -> lines (a ++ 10 :: b) = (a :: (lines b).1, (lines b).2).
Proof.
  induction a as [|c a IH]; cbn [app lines].
  - intros _. by destruct (lines b).
  - rewrite not_elem_of_cons. intros [Hc Ha]. rewrite IH by done. by destruct (Z.eqb_spec c 10).
Qed.

Lemma line_cases (l : bytes) : 10 ∉ l \/ exists a b, l = a ++ 10 :: b /\ 10 ∉ a.
Proof.
  induction l as [|c l IH]; [left; set_solver|]. destruct (decide (c = 10)) as [->|Hc].
  - right. exists [], l. split; [done|set_solver].
  - destruct IH as [H|(a & b & -> & Ha)]; [left; set_solver|]. right. exists (c :: a), b. split; [done|set_solver].
Qed.

Lemma scan_found a b : 0 ∉ a -> 10 ∉ a -> scan (a ++ 10 :: b) 10 = Found (length a).
Proof.
  induction a as [|c a IH]; [done|]. rewrite !not_elem_of_cons. intros [H0 Ha0] [H1 Ha1]. cbn [app scan].
  destruct (Z.eqb_spec c 0), (Z.eqb_spec c 10); try congruence. by rewrite IH.
Qed.

Lemma scan_absent a b : 0 ∉ a -> 10 ∉ a -> scan (a ++ 0 :: b) 10 = Absent.
Proof.
  induction a as [|c a IH]; [done|]. rewrite !not_elem_of_cons. intros [H0 Ha0] [H1 Ha1]. cbn [app scan].
  destruct (Z.eqb_spec c 0), (Z.eqb_spec c 10); try congruence. by rewrite IH.
Qed.

(** What grep writes for the lines of a text. *)
Definition grep_writes (pattern : bytes) (ls : list bytes) : list syscall :=
  (fun l => SWrite 1 (l ++ [10])) <$> filter (fun l => re_match pattern l = true) ls.

Lemma cstr_line a b : 0 ∉ a -> cstr (a ++ 0 :: b) = a.
Proof.
  induction a as [|c a IH]; [done|]. rewrite not_elem_of_cons. intros [Hc Ha]. cbn.
  destruct (Z.eqb_spec c 0); [congruence|]. by rewrite IH.
Qed.

Lemma insert_line {A} (d a b : list A) x y : <[(length d + length a)%nat := y]> (d ++ a ++ x :: b) = d ++ a ++ y :: b.
Proof.
  rewrite insert_app_r_alt by lia. f_equal. rewrite insert_app_r_alt by lia. f_equal.
  by replace (length d + length a - length d - length a)%nat with 0%nat by lia.
Qed.

Lemma grep_lines_spec pattern fuel D T Z tr :
  0 ∉ T -> (length T < fuel)%nat -> tr.*1 = grep_writes pattern (lines T).1 ->
  exists D', length D' = (length D + length T - length (lines T).2)%nat /\
    makes (grep_lines fuel pattern (D ++ T ++ 0 :: Z) (length D)) tr
      (Done (D' ++ (lines T).2 ++ 0 :: Z, length D')).
Proof.
  revert fuel D T tr. induction fuel as [|fuel IH]; intros D T tr H0 Hf Htr; [lia|]. cbn [grep_lines].
  rewrite drop_app_length. destruct (line_cases T) as [Hn|(a & b & -> & Ha)].
  { rewrite scan_absent by done. rewrite lines_rest in Htr |- * by done. destruct tr; [|done].
    exists D. cbn [fst snd]. split; [lia|done]. }
  apply not_elem_of_app in H0 as [H0a [_ H0b]%not_elem_of_cons]. rewrite lines_line in Htr |- * by done.
  cbn [fst snd] in *. rewrite <- app_assoc. cbn [app]. rewrite scan_found by done.
  rewrite length_app in Hf |- *. cbn [length] in Hf |- *. rewrite insert_line, drop_app_length, cstr_line by done.
  unfold grep_writes in Htr. rewrite filter_cons in Htr.
  destruct (re_match pattern a) eqn:Em.
  - rewrite decide_True in Htr by done. rewrite fmap_cons in Htr. destruct tr as [|[c [r d]] tr]; [done|].
    injection Htr as -> Htr. rewrite insert_line.
    destruct (IH (D ++ a ++ [10]) b tr H0b ltac:(lia) Htr) as (D' & HD' & Hm).
    exists D'. split; [rewrite HD'; rewrite !length_app; cbn; lia|]. cbn [makes pbind sys]. split.
    + f_equal. unfold slice. rewrite drop_app_length.
      replace (length D + length a + 1 - length D)%nat with (length (a ++ [10])) by (rewrite length_app; cbn; lia).
      change (a ++ 10 :: b ++ 0 :: Z) with (a ++ [10] ++ b ++ 0 :: Z). rewrite app_assoc. apply take_app_length.
    + rewrite !length_app in Hm. cbn [length] in Hm.
      replace (length D + length a + 1)%nat with (length D + (length a + 1))%nat by lia.
      rewrite <- !app_assoc in Hm. exact Hm.
  - rewrite decide_False in Htr by congruence.
    destruct (IH (D ++ a ++ [0]) b tr H0b ltac:(lia) Htr) as (D' & HD' & Hm).
    exists D'. split; [rewrite HD'; rewrite !length_app; cbn; lia|].
    rewrite !length_app in Hm. cbn [length] in Hm.
    replace (length D + length a + 1)%nat with (length D + (length a + 1))%nat by lia.
    rewrite <- !app_assoc in Hm. exact Hm.
Qed.

Lemma length_lines_rest l : (length (lines l).2 <= length l)%nat.
Proof.
  induction l as [|c l IH]; [done|]. cbn. destruct (lines l) as [[|x ls] r]; destruct (c =? 10); cbn in *; lia.
Qed.

(** C26. On a file that one [read] delivers (less than 1024 bytes, no NUL),
    when the byte of the buffer behind it is NUL (as it is for the first file,
    the buffer being zero, but not in general for a later one), [grep] writes
    exactly the lines that match the pattern, each with its newline, in order,
    and stops when [read] returns 0. Text behind the last newline is never
    tried. *)
Theorem grep_prints_matches pattern fd buf0 T tr :
  0 ∉ T -> (0 < length T)%nat -> length buf0 = BUF -> buf0 !! length T = Some 0 ->
  tr.*1 = grep_writes pattern (lines T).1 ->
  exists buf m, makes (grep 2 pattern fd buf0 0)
    ((SRead fd 1024, (Z.of_nat (length T), T)) :: tr ++ [(SRead fd m, (0, []))]) (Done buf).
Proof.
  intros H0 HT Hb Hz Htr. change BUF with 1024%nat in *. pose proof (lookup_lt_Some _ _ _ Hz) as Hlt. rewrite Hb in Hlt.
  assert (splice buf0 0 T = [] ++ T ++ 0 :: drop (S (length T)) buf0) as Eb.
  { unfold splice. change (0 + length T)%nat with (length T). by rewrite (drop_S _ _ _ Hz). }
  destruct (grep_lines_spec pattern 1025 [] T (drop (S (length T)) buf0) tr H0 ltac:(lia) Htr) as (D' & HD & Hm).
  rewrite <- Eb in Hm. set (buf1 := D' ++ _) in *.
  assert (forall b m', exists m, makes (grep 1 pattern fd b m') [(SRead fd m, (0, []))] (Done b)) as Hend.
  { intros b m'. by eexists. }
  set (m1 := if bool_decide (length D' = 0%nat) then 0%nat else (0 + Z.to_nat (Z.of_nat (length T)))%nat).
  set (fin := if bool_decide (m1 = 0%nat) then (buf1, m1)
    else (splice buf1 0 (slice buf1 (length D') (m1 - length D')), (m1 - length D')%nat)).
  destruct (Hend fin.1 fin.2) as [m Hfin]. exists fin.1, m.
  change (grep 2 pattern fd buf0 0) with (
    ' (n, d) <- sysd (SRead fd 1024) ;;
    if negb (0 <? n) then Ret buf0 else
    ' (buf, p) <- grep_lines 1025 pattern (splice buf0 0 d) 0 ;;
    let m := if bool_decide (p = O) then O else (0 + Z.to_nat n)%nat in
    if bool_decide (m = O) then grep 1 pattern fd buf m else
    grep 1 pattern fd (splice buf 0 (slice buf p (m - p))) (m - p)).
  cbn [makes pbind sysd]. split; [done|]. destruct (Z.ltb_spec 0 (Z.of_nat (length T))); [|lia]. cbn [negb].
  eapply makes_bind; [exact Hm|]. cbv beta iota zeta. fold m1. unfold fin in *.
  by destruct (bool_decide (m1 = 0%nat)).
Qed.

Lemma grep_prints_matches_witness :
  let tr := [(SWrite 1 (str "cat" ++ [10]), (4, []))] in
  exists buf m, makes (grep 2 (str "^c.t$") 3 (replicate BUF 0) 0)
    ((SRead 3 1024, (14, str "cat" ++ [10] ++ str "dog" ++ [10] ++ str "cats" ++ [10; 99])) :: tr ++
     [(SRead 3 m, (0, []))]) (Done buf).
Proof.
  apply (grep_prints_matches (str "^c.t$") 3 (replicate BUF 0) (str "cat" ++ [10] ++ str "dog" ++ [10] ++ str "cats" ++ [10; 99])).
  - vm_compute. intros H. repeat (apply elem_of_cons in H as [H|H]; [discriminate|]). by apply not_elem_of_nil in H.
  - vm_compute. lia.
  - reflexivity.
  - vm_compute. reflexivity.
  - vm_compute. reflexivity.
Defined.

(** The buffer of [grep] is not terminated behind the bytes read: when a
    file arrives in two reads, the lines of the first are still in it. Here the
    file is "aa\nbb\nx", and [grep a] prints the line "xa", which is not in it. *)
Theorem grep_prints_stale :
  let file1 := str "aa" ++ [10] ++ str "bb" ++ [10] in
  let file2 := str "x" in
  (run (grep 3 (str "a") 0 (replicate BUF 0) 0) [(6, file1); (3, []); (1, file2); (3, []); (0, [])]).1 =
    [SRead 0 1024; SWrite 1 (str "aa" ++ [10]); SRead 0 1024; SWrite 1 (str "xa" ++ [10]); SRead 0 1024] /\
  str "xa" ∉ (lines (file1 ++ file2 ++ [10])).1.
Proof.
  split; [vm_compute; reflexivity|]. vm_compute. intros H.
  repeat (apply elem_of_cons in H as [H|H]; [discriminate|]). by apply not_elem_of_nil in H.
Qed.
