(* ===== verification/Stdio.v ===== *)
(** * Streams, scanning and the password file (userspace/libc/foper.c, stdio.c,
    scanf.c, getpwent.c)

    A stream is its descriptor and mode: nothing in the library uses the other
    fields of [FILE]. Memory for a stream is taken as granted; the allocator is
    modelled in [Umalloc]. *)

From stdpp Require Import prelude gmap strings.
From S2P Require Import Prelude StringC Ulib Usys Console Printf.
#[local] Open Scope prog_scope.

Definition O_RDONLY : Z := 0x000.
Definition O_WRONLY : Z := 0x001.
Definition O_RDWR : Z := 0x002.
Definition O_CREAT : Z := 0x100.
Definition O_TRUNC : Z := 0x200.
Definition O_APPEND : Z := 0x400.

Record FILE := File { f_fd : Z; f_mode : Z }.

Definition fclose (f : FILE) : prog Z := sys (SClose (f_fd f)) ;; Ret 0.

(** The mode of [fopen], if its string is valid. *)
Definition fopen_mode (md : bytes) : option Z :=
  let fmod :=
    if chr md =? 114 then Some O_RDONLY
    else if chr md =? 119 then Some (Z.lor (Z.lor O_WRONLY O_CREAT) O_TRUNC)
    else if chr md =? 97 then Some (Z.lor (Z.lor O_WRONLY O_CREAT) O_APPEND)
    else None in
  match fmod with
  | None => None
  | Some m =>
    if chr (tail md) =? 43 then Some (Z.lor m O_RDWR)
    else if chr (tail md) =? 0 then Some m
    else None
  end.

(** [fopen] gives up when [open] returns 0. *)
Definition fopen (file md : bytes) : prog (option FILE) :=
  match fopen_mode md with
  | None => Ret None
  | Some m =>
    fd <- sys (SOpen file m) ;;
    if fd =? 0 then Ret None else Ret (Some (File fd m))
  end.

Definition fwrite (b : bytes) (nmemb : Z) (f : FILE) : prog Z := sys (SWrite (f_fd f) b) ;; Ret nmemb.

(** [fread] returns [nmemb] whatever [read] returns. *)
Definition fread (size nmemb : Z) (f : FILE) : prog (Z * bytes) :=
  ' (_, d) <- sysd (SRead (f_fd f) (size * nmemb)) ;; Ret (nmemb, d).

Definition EOF : Z := -1.

(** [fgetc]; [junk] is what the uninitialised [ch] holds. *)
Definition fgetc (junk : Z) (f : FILE) : prog Z :=
  ' (r, d) <- fread 1 1 f ;;
  Ret (if r =? 1 then match d with c :: _ => c | [] => junk end else EOF).

(** The loop of [fgets]: the characters stored, and whether it ended by [EOF]. *)
Fixpoint fgets_loop (junk : Z) (n : nat) (f : FILE) (l : bytes) : prog (bytes * bool) :=
  match n with
  | O => Ret (l, false)
  | S n =>
    ch <- fgetc junk f ;;
    if ch =? EOF then Ret (l, true) else
    if ch =? 10 then Ret (l ++ [ch], false) else fgets_loop junk n f (l ++ [ch])
  end.

(** [fgets(s, n, f)] for a positive [n]: the string stored, or NULL. *)
Definition fgets (junk n : Z) (f : FILE) : prog (option bytes) :=
  ' (l, eof) <- fgets_loop junk (Z.to_nat (n - 1)) f [] ;;
  Ret (if eof && bool_decide (l = []) then None else Some l).

(** ** Scanning (scanf.c) *)

Definition ISSPACE : bytes := [32; 9; 10; 13; 12; 11; 58].

Fixpoint skip_space (l : bytes) : bytes :=
  match l with
  | c :: l' => if isspace c then skip_space l' else l
  | [] => []
  end.

(** What a conversion stores. *)
Inductive sval := VStr (s : bytes) | VNum (v : option Z).

(** The flags and width between the percent sign and the conversion: the rest
    of the format at the conversion, whether to assign, and the width. *)
Fixpoint scan_flags (s : bytes) (digits : bytes) (noassign : bool) (width : Z) : bytes * bool * Z :=
  let width' := match digits with [] => width | _ => default width (atob digits 10) end in
  match s with
  | [] => ([], noassign, width')
  | c :: s' =>
    match digits with
    | _ :: _ =>
      if isdigit c then scan_flags s' (digits ++ [c]) noassign width
      else if in_set (str "dibouxcsefg%") c then (s, noassign, width')
      else scan_flags s' [] (noassign || (c =? 42)) width'
    | [] =>
      if in_set (str "dibouxcsefg%") c then (s, noassign, width)
      else if (49 <=? c) && (c <=? 57) then scan_flags s' [c] noassign width
      else scan_flags s' [] (noassign || (c =? 42)) width
    end
  end.

Definition scan_base (c : Z) : Z :=
  if (c =? 100) || (c =? 117) then 10 else if c =? 120 then 16 else if c =? 111 then 8 else 2.

(** One conversion at [s] (the conversion character first) on [buf]: what it
    stores, and the rest of [buf]; nothing when memory outside the strings or
    the temporary is used. *)
Definition scan_conv (s buf : bytes) (width : Z) : option (option sval * bytes) :=
  let c := chr s in
  if c =? 115 then
    let buf := skip_space buf in
    let width := if width =? 0 then Z.of_nat (strcspn buf ISSPACE) else width in
    if Z.of_nat (length buf) <? width then None
    else Some (Some (VStr (take (Z.to_nat width) buf)), drop (Z.to_nat width) buf)
  else if c =? 99 then
    let width := if width =? 0 then 1 else width in
    if Z.of_nat (length buf) <? width then None
    else Some (Some (VStr (take (Z.to_nat width) buf)), drop (Z.to_nat width) buf)
  else if in_set (str "dobxu") c then
    let buf := skip_space buf in
    let width :=
      if width =? 0 then
        let c' := chr (tail s) in
        if isspace c' || (c' =? 0) then Some (Z.of_nat (strcspn buf ISSPACE))
        else match strchr buf c' with
             | Some r => Some (Z.of_nat (length buf - length r))
             | None => None
             end
      else Some width in
    match width with
    | None => None
    | Some width =>
      if (255 <? width) || (Z.of_nat (length buf) <? width) then None
      else Some (Some (VNum (atob (take (Z.to_nat width) buf) (scan_base c))), drop (Z.to_nat width) buf)
    end
  else Some (None, buf).

(** The count and the values stored, in order; an access outside of the
    strings or of the local buffer; more turns than the fuel. *)
Inductive scanned := Scanned (count : Z) (vs : list sval) | Overrun | Unfinished.

(** The loop of [vsscanf]. Every turn consumes format, so the length of the
    format is fuel enough ([sscanf_finishes]). *)
Fixpoint vsscanf (fuel : nat) (buf s : bytes) (count : Z) (vs : list sval) : scanned :=
  match fuel with
  | O => Unfinished
  | S fuel =>
    if bool_decide (s = []) || bool_decide (buf = []) then Scanned count vs else
    let s := skip_space s in
    if chr s =? 37 then
      let '(s, noassign, width) := scan_flags (tail s) [] false 0 in
      match scan_conv s buf width, s with
      | Some (v, buf), _ :: s =>
        let vs := match v with Some v => if noassign then vs else vs ++ [v] | None => vs end in
        vsscanf fuel buf s (if noassign then count else count + 1) vs
      | _, _ => Overrun
      end
    else
      let buf := skip_space buf in
      if negb (chr s =? chr buf) then Scanned count vs else
      match s, buf with
      | _ :: s, _ :: buf => vsscanf fuel buf s count vs
      | _, _ => Overrun
      end
  end.

Definition sscanf (buf fmt : bytes) : scanned := vsscanf (S (length fmt)) buf fmt 0 [].

(** ** The password file (getpwent.c) *)

Definition passwd_fmt : bytes := str "%s:%s:%d:%d:%s:%s:%s" ++ [10].

(** The static variables the fields are scanned into, in the order of the
    format: a value that is not assigned keeps its old contents. *)
Record passwd := Passwd {
  pw_name : bytes; pw_passwd : bytes; pw_uid : Z; pw_gid : Z; pw_gecos : bytes; pw_dir : bytes; pw_shell : bytes
}.

Definition vstr (v : option sval) (old : bytes) : bytes := match v with Some (VStr s) => s | _ => old end.
Definition vnum (v : option sval) (old : Z) : Z := match v with Some (VNum (Some n)) => n | _ => old end.

Definition pw_store (pw : passwd) (vs : list sval) : passwd :=
  Passwd (vstr (vs !! 0%nat) (pw_name pw)) (vstr (vs !! 1%nat) (pw_passwd pw))
    (vnum (vs !! 2%nat) (pw_uid pw)) (vnum (vs !! 3%nat) (pw_gid pw))
    (vstr (vs !! 4%nat) (pw_gecos pw)) (vstr (vs !! 5%nat) (pw_dir pw)) (vstr (vs !! 6%nat) (pw_shell pw)).

(** One entry: [fgets] and [sscanf]. *)
Definition pw_next (junk : Z) (f : FILE) (pw : passwd) : prog (option passwd) :=
  o <- fgets junk 1024 f ;;
  match o with
  | None => Ret None
  | Some l => match sscanf (cstr l) passwd_fmt with Scanned _ vs => Ret (Some (pw_store pw vs)) | Overrun => Wild | Unfinished => Spin end
  end.

(** The loops of [getpwnam] and [getpwuid]. *)
Fixpoint getpw_loop (fuel : nat) (junk : Z) (f : FILE) (pw : passwd) (found : passwd -> bool) : prog (option passwd) :=
  match fuel with
  | O => Spin
  | S fuel =>
    o <- pw_next junk f pw ;;
    match o with
    | None => fclose f ;; Ret None
    | Some pw => if found pw then fclose f ;; Ret (Some pw) else getpw_loop fuel junk f pw found
    end
  end.

Definition getpw (fuel : nat) (junk : Z) (pw : passwd) (found : passwd -> bool) : prog (option passwd) :=
  f <- fopen (str "/etc/passwd") (str "r") ;;
  match f with
  | None => Ret None
  | Some f => getpw_loop fuel junk f pw found
  end.

Definition getpwnam (fuel : nat) (junk : Z) (pw : passwd) (name : bytes) : prog (option passwd) :=
  getpw fuel junk pw (fun pw => strcmp (pw_name pw) name =? 0).
Definition getpwuid (fuel : nat) (junk : Z) (pw : passwd) (uid : Z) : prog (option passwd) :=
  getpw fuel junk pw (fun pw => uid =? pw_uid pw).

(** [passwd_fp] is passed and returned. *)
Definition getpwent (junk : Z) (fp : option FILE) (pw : passwd) : prog (option passwd) :=
  match fp with
  | None => Ret None
  | Some f => pw_next junk f pw
  end.
Definition setpwent (fp : option FILE) : prog (option FILE) :=
  match fp with
  | Some f => fclose f ;; fopen (str "/etc/passwd") (str "r")
  | None => fopen (str "/etc/passwd") (str "r")
  end.
Definition endpwent (fp : option FILE) : prog unit :=
  match fp with
  | Some f => fclose f ;; Ret tt
  | None => Ret tt
  end.

(** ** Lemmas *)

(** The scanner consumes its format. *)
Lemma length_skip_space l : (length (skip_space l) <= length l)%nat.
Proof. induction l as [|c l IH]; cbn; [done|]. destruct (isspace c); cbn; lia. Qed.

Lemma length_scan_flags s d b w : (length (scan_flags s d b w).1.1 <= length s)%nat.
Proof.
  revert d b w. induction s as [|c s IH]; intros d b w; [done|]. cbn [scan_flags length].
  assert (forall d b w, length (scan_flags s d b w).1.1 <= S (length s))%nat as H by (intros; specialize (IH d0 b0 w0); lia).
  destruct d; repeat case_match; cbn [fst length]; try apply H; lia.
Qed.

Lemma vsscanf_finishes fuel buf s count vs : (length s < fuel)%nat -> vsscanf fuel buf s count vs <> Unfinished.
Proof.
  revert buf s count vs. induction fuel as [|fuel IH]; intros buf s count vs Hf; [lia|]. cbn [vsscanf].
  destruct (_ || _); [done|]. pose proof (length_skip_space s) as Hs. destruct (chr (skip_space s) =? 37) eqn:Ec.
  - destruct (skip_space s) as [|c s1]; [done|]. cbn [tail length] in *. pose proof (length_scan_flags s1 [] false 0) as Hfl.
    destruct (scan_flags s1 [] false 0) as [[s2 na] w]. cbn [fst] in Hfl.
    destruct (scan_conv s2 buf w) as [[v buf']|]; [|done]. destruct s2 as [|c2 s2]; [done|]. cbn [length] in Hfl. apply IH. lia.
  - destruct (negb _); [done|]. destruct (skip_space s) as [|c s1]; [done|]. cbn [length] in Hs.
    destruct (skip_space buf); [done|]. apply IH. lia.
Qed.

Lemma sscanf_finishes buf fmt : sscanf buf fmt <> Unfinished.
Proof. apply vsscanf_finishes. lia. Qed.

(** A field of an entry: no white space, no colon, no NUL. *)
Definition field (f : bytes) : Prop := f <> [] /\ forall c, c ∈ f -> c ∉ ISSPACE /\ c <> 0.

Lemma isspace_field c : c ∉ ISSPACE -> isspace c = false.
Proof.
  intros Hc. unfold isspace. destruct (Z.leb_spec 9 c), (Z.leb_spec c 13), (Z.eqb_spec c 32); cbn; try done; subst;
    exfalso; apply Hc; unfold ISSPACE; try set_solver.
  assert (c = 9 \/ c = 10 \/ c = 11 \/ c = 12 \/ c = 13) as [->|[->|[->|[->| ->]]]] by lia; set_solver.
Qed.

Lemma skip_field f rest : field f -> skip_space (f ++ rest) = f ++ rest.
Proof.
  intros [Hne Hf]. destruct f as [|c f]; [done|]. cbn. rewrite isspace_field by (apply Hf; set_solver). done.
Qed.

Lemma strcspn_field f rest : field f -> rest = [] \/ chr rest ∈ ISSPACE -> strcspn (f ++ rest) ISSPACE = length f.
Proof.
  intros [_ Hf] Hr. assert (forall c, existsb (Z.eqb c) (cstr ISSPACE ++ [0]) = bool_decide (c ∈ ISSPACE ++ [0])) as E.
  { intros c. change (cstr ISSPACE) with ISSPACE. apply eq_true_iff_eq.
    rewrite existsb_exists, bool_decide_eq_true. setoid_rewrite Z.eqb_eq. setoid_rewrite <- list_elem_of_In. naive_solver. }
  induction f as [|c f IH]; cbn [app strcspn length].
  - destruct rest as [|c rest]; [done|]. cbn [strcspn]. rewrite E, bool_decide_true; [done|].
    destruct Hr as [|Hr]; [done|]. apply elem_of_app. by left.
  - rewrite E, bool_decide_false; [f_equal; apply IH; set_solver|].
    intros [H|H]%elem_of_app; destruct (Hf c ltac:(set_solver)); [done|set_solver].
Qed.

Lemma conv_s f rest s : field f -> rest = [] \/ chr rest ∈ ISSPACE ->
  scan_conv (115 :: s) (f ++ rest) 0 = Some (Some (VStr f), rest).
Proof.
  intros Hf Hr. unfold scan_conv. change (chr (115 :: s) =? 115) with true. cbv iota zeta. cbn [Z.eqb].
  rewrite skip_field, strcspn_field by done. rewrite length_app.
  destruct (Z.ltb_spec (Z.of_nat (length f + length rest)) (Z.of_nat (length f))); [lia|].
  by rewrite Nat2Z.id, take_app_length, drop_app_length.
Qed.

Lemma strchr_field f rest : field f -> strchr (f ++ 58 :: rest) 58 = Some (58 :: rest).
Proof.
  intros [_ Hf]. induction f as [|c f IH]; [done|]. cbn [app strchr]. destruct (Hf c ltac:(set_solver)) as [H1 H2].
  destruct (Z.eqb_spec c 0); [done|]. destruct (Z.eqb_spec c 58) as [->|]; [destruct H1; unfold ISSPACE; set_solver|].
  apply IH. set_solver.
Qed.

Lemma conv_d f rest s : field f -> (length f <= 255)%nat ->
  scan_conv (100 :: 58 :: s) (f ++ 58 :: rest) 0 = Some (Some (VNum (atob f 10)), 58 :: rest).
Proof.
  intros Hf Hl. unfold scan_conv. change (chr (100 :: 58 :: s)) with 100. cbn [Z.eqb Pos.eqb].
  change (in_set (str "dobxu") 100) with true. cbv iota zeta. rewrite skip_field by done.
  cbn [tail chr hd]. change (isspace 58 || (58 =? 0)) with false. cbv iota.
  rewrite strchr_field by done. rewrite length_app. cbn [length].
  replace (length f + S (length rest) - S (length rest))%nat with (length f) by lia.
  destruct (Z.ltb_spec 255 (Z.of_nat (length f))); [lia|].
  destruct (Z.ltb_spec (Z.of_nat (length f + S (length rest))) (Z.of_nat (length f))); [lia|]. cbn [orb].
  by rewrite Nat2Z.id, take_app_length, drop_app_length.
Qed.

Lemma field_cons f rest : field f -> bool_decide (f ++ rest = []) = false.
Proof. intros [Hne _]. apply bool_decide_false. by destruct f. Qed.

(** A string field and the colon behind it; a number and the colon. *)
Lemma scan_step_s fuel f rest s c vs : field f ->
  vsscanf (S (S fuel)) (f ++ 58 :: rest) (37 :: 115 :: 58 :: s) c vs = vsscanf fuel rest s (c + 1) (vs ++ [VStr f]).
Proof.
  intros Hf. cbn [vsscanf]. rewrite field_cons by done. change (skip_space (37 :: ?l)) with (37 :: l).
  change (bool_decide (37 :: 115 :: 58 :: s = [])) with false. cbn [chr hd tail orb]. change (37 =? 37) with true.
  cbv iota. change (scan_flags (115 :: 58 :: s) [] false 0) with (115 :: 58 :: s, false, 0). cbv iota beta.
  rewrite conv_s by (done || (right; vm_compute; set_solver)).
  change (bool_decide (58 :: s = []) || bool_decide (58 :: rest = [])) with false. cbv iota. reflexivity.
Qed.

Lemma scan_step_d fuel f rest s c vs : field f -> (length f <= 255)%nat ->
  vsscanf (S (S fuel)) (f ++ 58 :: rest) (37 :: 100 :: 58 :: s) c vs =
  vsscanf fuel rest s (c + 1) (vs ++ [VNum (atob f 10)]).
Proof.
  intros Hf Hl. cbn [vsscanf]. rewrite field_cons by done. change (skip_space (37 :: ?l)) with (37 :: l).
  change (bool_decide (37 :: 100 :: 58 :: s = [])) with false. cbn [chr hd tail orb]. change (37 =? 37) with true.
  cbv iota. change (scan_flags (100 :: 58 :: s) [] false 0) with (100 :: 58 :: s, false, 0). cbv iota beta.
  rewrite conv_d by done.
  change (bool_decide (58 :: s = []) || bool_decide (58 :: rest = [])) with false. cbv iota. reflexivity.
Qed.

(** The last field, with nothing behind it, and with the newline of a line. *)
Lemma scan_step_last fuel f c vs : field f ->
  vsscanf (S (S fuel)) f [37; 115; 10] c vs = Scanned (c + 1) (vs ++ [VStr f]) /\
  vsscanf (S (S fuel)) (f ++ [10]) [37; 115; 10] c vs = Overrun.
Proof.
  intros Hf. assert (forall rest, rest = [] \/ chr rest ∈ ISSPACE -> vsscanf (S (S fuel)) (f ++ rest) [37; 115; 10] c vs =
    vsscanf (S fuel) rest [10] (c + 1) (vs ++ [VStr f])) as E.
  { intros rest Hr. cbn [vsscanf]. rewrite field_cons by done. change (bool_decide ([37; 115; 10] = [])) with false.
    cbn [orb]. change (skip_space [37; 115; 10]) with [37; 115; 10]. cbn [chr hd tail]. change (37 =? 37) with true.
    cbv iota. change (scan_flags [115; 10] [] false 0) with ([115; 10], false, 0). cbv iota beta.
    rewrite conv_s by done. reflexivity. }
  split.
  - rewrite <- (app_nil_r f) at 1. rewrite E by (by left). cbn. done.
  - rewrite E by (right; vm_compute; set_solver). cbn. done.
Qed.

(** C37. Scanning an entry of the password file. From seven fields separated
    by colons, the format that [getpwnam] and [getpwuid] use takes exactly the
    seven fields, the numbers read in base ten; but with the newline that
    [fgets] leaves at the end of a line, [vsscanf] runs past the end of both
    strings: the newline of the format skips to its NUL, that of the line to
    its NUL, and the two NULs match. *)
Theorem sscanf_passwd f1 f2 f3 f4 f5 f6 f7 : Forall field [f1; f2; f3; f4; f5; f6; f7] ->
  (length f3 <= 255)%nat -> (length f4 <= 255)%nat ->
  let entry := f1 ++ 58 :: f2 ++ 58 :: f3 ++ 58 :: f4 ++ 58 :: f5 ++ 58 :: f6 ++ 58 :: f7 in
  sscanf entry passwd_fmt =
    Scanned 7 [VStr f1; VStr f2; VNum (atob f3 10); VNum (atob f4 10); VStr f5; VStr f6; VStr f7] /\
  sscanf (entry ++ [10]) passwd_fmt = Overrun.
Proof.
  intros Hf H3 H4 entry. decompose_Forall_hyps. unfold sscanf, entry. change (S (length passwd_fmt)) with 22%nat.
  change passwd_fmt with (37 :: 115 :: 58 :: 37 :: 115 :: 58 :: 37 :: 100 :: 58 :: 37 :: 100 :: 58 ::
    37 :: 115 :: 58 :: 37 :: 115 :: 58 :: [37; 115; 10]).
  repeat (rewrite <- app_assoc; cbn [app]).
  rewrite !scan_step_s by done. rewrite !scan_step_d by done. rewrite !scan_step_s by done. cbn [app].
  destruct (scan_step_last 8 f7 6 [VStr f1; VStr f2; VNum (atob f3 10); VNum (atob f4 10); VStr f5; VStr f6]) as [E1 E2];
    [done|]. split; [exact E1|exact E2].
Qed.

Lemma sscanf_passwd_witness :
  sscanf (str "root:x:0:0:root:/root:/bin/sh") passwd_fmt =
    Scanned 7 [VStr (str "root"); VStr (str "x"); VNum (Some 0); VNum (Some 0); VStr (str "root"); VStr (str "/root");
              VStr (str "/bin/sh")] /\
  sscanf (str "root:x:0:0:root:/root:/bin/sh" ++ [10]) passwd_fmt = Overrun.
Proof.
  assert (forall f, forallb (fun c => negb (bool_decide (c ∈ ISSPACE)) && negb (c =? 0)) f = true -> f <> [] -> field f) as Hd.
  { intros f Hf Hne. split; [done|]. intros c Hc. rewrite forallb_forall in Hf. apply list_elem_of_In, Hf in Hc.
    apply andb_true_iff in Hc as [H1%negb_true_iff H2%negb_true_iff].
    by apply bool_decide_eq_false in H1; apply Z.eqb_neq in H2. }
  apply (sscanf_passwd (str "root") (str "x") (str "0") (str "0") (str "root") (str "/root") (str "/bin/sh")).
  - repeat (apply Forall_cons; split; [apply Hd; [vm_compute; reflexivity|discriminate]|]). constructor.
  - vm_compute. lia.
  - vm_compute. lia.
Defined.

(** The end of a file is never noticed: [fgetc] tests the result of
    [fread], which is always the number of items asked for. Whatever the reads
    return, [fgets] with room for a character never returns NULL. *)
Theorem fgets_never_null junk n f tr o :
  0 <= junk < 256 -> 1 < n -> Forall (fun e : event => Forall is_byte e.2.2) tr ->
  makes (fgets junk n f) tr (Done o) -> exists l, o = Some l /\ l <> [].
Proof.
  intros Hj Hn Htr Hm. unfold fgets in Hm.
  assert (forall k l tr o, Forall (fun e : event => Forall is_byte e.2.2) tr ->
    makes (' (l, eof) <- fgets_loop junk k f l ;; Ret (if eof && bool_decide (l = []) then None else Some l)) tr (Done o) ->
    (k <> 0%nat \/ l <> []) -> exists l, o = Some l /\ l <> []) as Hk; [|eapply Hk; [exact Htr|exact Hm|left; lia]].
  clear - Hj. intros k. induction k as [|k IH]; intros l tr o Hb Hm Hne.
  - cbn in Hm. destruct tr; [|done]. injection Hm as ->. exists l. by destruct Hne.
  - cbn in Hm. destruct tr as [|[c [r d]] tr]; [done|]. destruct Hm as [_ Hm].
    apply Forall_cons in Hb as [Hd Hb]. cbn in Hd. set (ch := match d with [] => junk | c :: _ => c end) in *.
    assert (0 <= ch) as Hc by (destruct Hd as [|? ? Hx]; [cbn; lia|apply Hx]).
    destruct (Z.eqb_spec ch EOF) as [E|_]; [unfold EOF in E; lia|].
    assert (l ++ [ch] <> []) as Hl by (by destruct l).
    destruct (ch =? 10); [|by eapply IH; [exact Hb|exact Hm|right]]. cbn in Hm. destruct tr; [|done]. injection Hm as ->. by eexists.
Qed.

(** A file of two bytes without a newline: at its end the uninitialised
    variable is taken as a character. *)
Lemma fgets_never_null_witness : exists l, Some (str "ab" ++ [255; 255]) = Some l /\ l <> [].
Proof.
  apply (fgets_never_null 255 5 (File 3 0)
    [(SRead 3 1, (1, str "a")); (SRead 3 1, (1, str "b")); (SRead 3 1, (0, [])); (SRead 3 1, (0, []))]).
  - lia.
  - lia.
  - repeat (apply Forall_cons; split; [vm_compute; repeat constructor; congruence|]). constructor.
  - vm_compute. repeat split.
Defined.
