(* ===== verification/Cmds.v ===== *)
(** * The small commands (userspace/*.c)

    The programs of userspace/ other than the shell and grep, as trees of
    system calls: [argv] is the argument vector with the program's name first,
    and the result of a program is what [main] returns. Loops over input take
    [fuel], the number of reads they may make. *)

From stdpp Require Import prelude gmap strings.
From S2P Require Import Prelude StringC Ulib Usys Console Printf Stdio Grep.
#[local] Open Scope prog_scope.

Definition nl (s : string) : bytes := str s ++ [10].

(** The bytes of the buffer [buf] after a read at offset [off]. *)
Definition fill_buf (buf : bytes) (off : nat) (d : bytes) : bytes := splice buf off d.

(** ** cat (cat.c) *)

Fixpoint cat_loop (fuel : nat) (fd : Z) (buf : bytes) : prog (Z * bytes) :=
  match fuel with
  | O => Spin
  | S fuel =>
    ' (n, d) <- sysd (SRead fd 512) ;;
    let buf := fill_buf buf 0 d in
    if 0 <? n then sys (SWrite 1 (take (Z.to_nat n) buf)) ;; cat_loop fuel fd buf else Ret (n, buf)
  end.

Definition cat (fuel : nat) (fd : Z) (buf : bytes) : prog bytes :=
  ' (n, buf) <- cat_loop fuel fd buf ;;
  (if n <? 0 then fprintf stdout (nl "cat: read error") [] else Ret tt) ;;
  Ret buf.

(** ** wc (wc.c) *)

Record counts := Counts { wc_l : Z; wc_w : Z; wc_c : Z; wc_inword : bool }.

Definition wc_space (c : Z) : bool := in_set [32; 13; 9; 10; 11] c.

(** One character; the counters are ints. *)
Definition wc_byte (s : counts) (c : Z) : counts :=
  let l := if c =? 10 then s32 (wc_l s + 1) else wc_l s in
  let ch := s32 (wc_c s + 1) in
  if wc_space c then Counts l (wc_w s) ch false
  else if negb (wc_inword s) then Counts l (s32 (wc_w s + 1)) ch true
  else Counts l (wc_w s) ch true.

Fixpoint wc_loop (fuel : nat) (fd : Z) (buf : bytes) (s : counts) : prog (Z * bytes * counts) :=
  match fuel with
  | O => Spin
  | S fuel =>
    ' (n, d) <- sysd (SRead fd 512) ;;
    let buf := fill_buf buf 0 d in
    if 0 <? n then wc_loop fuel fd buf (foldl wc_byte s (take (Z.to_nat n) buf)) else Ret (n, buf, s)
  end.

Definition wc (fuel : nat) (fd : Z) (name buf : bytes) : prog bytes :=
  ' (n, buf, s) <- wc_loop fuel fd buf (Counts 0 0 0 false) ;;
  if n <? 0 then fprintf stdout (nl "wc: read error") [] ;; Exit 0 else
  fprintf stdout (nl "%d %d %d %s") [CInt (wc_l s); CInt (wc_w s); CInt (wc_c s); CStr name] ;;
  Ret buf.

Fixpoint wc_files (fuel : nat) (buf : bytes) (files : list bytes) : prog Z :=
  match files with
  | [] => Ret 0
  | f :: files =>
    fd <- sys (SOpen f 0) ;;
    if fd <? 0 then fprintf stdout (nl "wc: cannot open %s") [CStr f] ;; Exit 0 else
    buf <- wc fuel fd f buf ;;
    sys (SClose fd) ;;
    wc_files fuel buf files
  end.

Definition wc_main (fuel : nat) (argv : list bytes) : prog Z :=
  match argv with
  | _ :: ((_ :: _) as files) => wc_files fuel (replicate 512 0) files
  | _ => wc fuel 0 [] (replicate 512 0) ;; Exit 0
  end.

(** ** echo (echo.c) and cowsay (cowsay.c) *)

Fixpoint echo_args (args : list bytes) : prog unit :=
  match args with
  | [] => Ret tt
  | a :: args =>
    fprintf stdout (str "%s%s") [CStr a; CStr (match args with [] => [10] | _ => [32] end)] ;; echo_args args
  end.

Definition echo_main (argv : list bytes) : prog unit :=
  (if bool_decide (length argv <= 1)%nat then printf [10] [] else Ret tt) ;;
  echo_args (List.tl argv).

(** The balloon: [i] is the index of the first of [args], [argc] their bound. *)
Fixpoint cowsay_args (argc i : nat) (args : list bytes) : prog unit :=
  match args with
  | [] => Ret tt
  | a :: args =>
    fprintf stdout (if bool_decide (i = 1)%nat then str "/ %s \" ++ [10]
                    else if bool_decide (i = argc - 1)%nat then str "\ %s /" ++ [10]
                    else str "| %s |" ++ [10]) [CStr a] ;;
    cowsay_args argc (i + 1) args
  end.

Definition cowsay_main (argv : list bytes) : prog Z :=
  let argc := length argv in
  (if bool_decide (argc = 1)%nat then fprintf stdout (nl "< qwin >") [] else Ret tt) ;;
  cowsay_args argc 1 (List.tl argv) ;;
  fprintf stdout (nl "  \ ^__^") [] ;;
  fprintf stdout (nl "    (oo)\_______") [] ;;
  fprintf stdout (nl "    (__)\       )\/\") [] ;;
  fprintf stdout (nl "        ||----w |") [] ;;
  fprintf stdout (nl "        ||     ||") [] ;;
  Ret 0.

(** ** cat's files: [fopen] never returns a negative pointer, so the test of
    its result never holds; a NULL is dereferenced. *)

Fixpoint cat_files (fuel : nat) (buf : bytes) (files : list bytes) : prog Z :=
  match files with
  | [] => Ret 0
  | name :: files =>
    o <- fopen name (str "r") ;;
    match o with
    | None => Wild
    | Some f => buf <- cat fuel (f_fd f) buf ;; fclose f ;; cat_files fuel buf files
    end
  end.

Definition cat_main (fuel : nat) (argv : list bytes) : prog Z :=
  match argv with
  | _ :: ((_ :: _) as files) => cat_files fuel (replicate 512 0) files
  | _ => cat fuel 0 (replicate 512 0) ;; Exit 0
  end.

(** ** head (head.c) *)

(** The loop over the lines of the buffer: the buffer, the position and the
    count, and whether ten lines have been written. *)
Fixpoint head_lines (fuel : nat) (buf : bytes) (p count : nat) : prog (bytes * nat * nat * bool) :=
  match fuel with
  | O => Spin
  | S fuel =>
    match scan (drop p buf) 10 with
    | Past => Wild
    | Absent => Ret (buf, p, count, false)
    | Found k =>
      let q := (p + k)%nat in
      sys (SWrite 1 (slice buf p (q + 1 - p))) ;;
      let buf := <[q := 0]> buf in
      if bool_decide (count + 1 = 10)%nat then Ret (buf, (q + 1)%nat, 10%nat, true)
      else head_lines fuel buf (q + 1) (count + 1)
    end
  end.

(** What the programs that read lines keep of the buffer: nothing when it has
    no newline, and otherwise what follows the last one. *)
Definition keep_rest (buf : bytes) (p m : nat) : bytes * nat :=
  let m := if bool_decide (p = O) then O else m in
  if bool_decide (m = O) then (buf, m) else (splice buf 0 (slice buf p (m - p)), (m - p)%nat).

Fixpoint head (fuel : nat) (fd : Z) (buf : bytes) (m count : nat) : prog unit :=
  match fuel with
  | O => Spin
  | S fuel =>
    ' (n, d) <- sysd (SRead fd (Z.of_nat (BUF - m))) ;;
    if negb (0 <? n) then Ret tt else
    ' (buf, p, count, stop) <- head_lines (BUF + 1) (fill_buf buf m d) 0 count ;;
    if stop : bool then Ret tt else
    let '(buf, m) := keep_rest buf p (m + Z.to_nat n) in
    head fuel fd buf m count
  end.

Definition head_main (fuel : nat) (argv : list bytes) : prog unit :=
  match argv with
  | _ :: name :: _ =>
    fd <- sys (SOpen name 0) ;;
    if fd <? 0 then printf (nl "head: cannot open %s") [CStr name] ;; Exit 0 else
    head fuel fd (replicate BUF 0) 0 0 ;; sys (SClose fd) ;; Ret tt
  | _ => printf (nl "usage: head filename ...") [] ;; Exit 0
  end.

(** ** tail (tail.c) *)

(** The lines of the buffer, counted. *)
Fixpoint tail_count (fuel : nat) (buf : bytes) (p : nat) (count : Z) : prog (bytes * nat * Z) :=
  match fuel with
  | O => Spin
  | S fuel =>
    match scan (drop p buf) 10 with
    | Past => Wild
    | Absent => Ret (buf, p, count)
    | Found k => let q := (p + k)%nat in tail_count fuel (<[q := 0]> buf) (q + 1) (s32 (count + 1))
    end
  end.

(** The lines of the buffer, the last ten written. *)
Fixpoint tail_print (fuel : nat) (buf : bytes) (p : nat) (count : Z) : prog (bytes * nat * Z) :=
  match fuel with
  | O => Spin
  | S fuel =>
    match scan (drop p buf) 10 with
    | Past => Wild
    | Absent => Ret (buf, p, count)
    | Found k =>
      let q := (p + k)%nat in
      let count := s32 (count - 1) in
      (if count <? 10 then sys (SWrite 1 (slice buf p (q + 1 - p))) ;; Ret tt else Ret tt) ;;
      tail_print fuel (<[q := 0]> buf) (q + 1) count
    end
  end.

(** A pass over the file with one of the two. *)
Fixpoint tail_pass (fuel : nat) (pass : bytes -> nat -> Z -> prog (bytes * nat * Z)) (fd : Z) (buf : bytes) (m : nat)
    (count : Z) : prog (bytes * Z) :=
  match fuel with
  | O => Spin
  | S fuel =>
    ' (n, d) <- sysd (SRead fd (Z.of_nat (BUF - m))) ;;
    if negb (0 <? n) then Ret (buf, count) else
    ' (buf, p, count) <- pass (fill_buf buf m d) O count ;;
    let '(buf, m) := keep_rest buf p (m + Z.to_nat n) in
    tail_pass fuel pass fd buf m count
  end.

Fixpoint tail_copy (fuel : nat) (fd : Z) (buf : bytes) : prog Z :=
  match fuel with
  | O => Spin
  | S fuel =>
    ' (n, d) <- sysd (SRead fd (Z.of_nat BUF)) ;;
    let buf := fill_buf buf 0 d in
    if 0 <? n then sys (SWrite 1 (take (Z.to_nat n) buf)) ;; tail_copy fuel fd buf else Ret n
  end.

Definition tail_open (name : bytes) : prog Z :=
  fd <- sys (SOpen name 0) ;;
  if fd <? 0 then fprintf stdout (nl "tail: cannot open %s") [CStr name] ;; Exit 0 else Ret fd.

Definition tail (fuel : nat) (name : bytes) : prog unit :=
  fd <- tail_open name ;;
  ' (buf, count) <- tail_pass fuel (tail_count (BUF + 1)) fd (replicate BUF 0) 0 0 ;;
  sys (SClose fd) ;;
  fd <- tail_open name ;;
  if count <=? 10 then
    n <- tail_copy fuel fd buf ;;
    if n <? 0 then fprintf stdout (nl "tail: read error") [] else Ret tt
  else tail_pass fuel (tail_print (BUF + 1)) fd buf 0 count ;; Ret tt.

Definition tail_main (fuel : nat) (argv : list bytes) : prog unit :=
  match argv with
  | _ :: name :: _ => tail fuel name
  | _ => fprintf stderr (nl "usage: tail filename ...") [] ;; Exit 0
  end.

(** ** ls (ls.c) *)

Definition DIRSIZ : nat := 14.

(** The characters after the last slash. *)
Fixpoint after_slash (path best : bytes) : bytes :=
  match path with
  | [] => best
  | c :: path => after_slash path (if c =? 47 then path else best)
  end.

(** [fmtname]: the name, padded with blanks. *)
Definition fmtname (path : bytes) : bytes :=
  let p := after_slash path path in
  if bool_decide (DIRSIZ <= length p)%nat then p else p ++ replicate (DIRSIZ - length p) 32.

(** [stat] (libc/ulib.c): the result and the bytes of the structure. *)
Definition stat (path : bytes) : prog (Z * bytes) :=
  fd <- sys (SOpen path 0) ;;
  if fd <? 0 then Ret (-1, []) else
  ' (r, d) <- sysd (SFstat fd) ;;
  sys (SClose fd) ;;
  Ret (r, d).

Fixpoint ls_entries (fuel : nat) (fd : Z) (path : bytes) : prog unit :=
  match fuel with
  | O => Spin
  | S fuel =>
    ' (n, de) <- sysd (SRead fd 16) ;;
    if negb (n =? 16) then Ret tt else
    if get16 de 0 =? 0 then ls_entries fuel fd path else
    let buf := path ++ [47] ++ cstr (slice de 2 DIRSIZ) in
    ' (r, _) <- stat buf ;;
    (if r <? 0 then fprintf stdout (nl "ls: cannot stat %s") [CStr buf]
     else fprintf stdout (nl "%s") [CStr (fmtname buf)]) ;;
    ls_entries fuel fd path
  end.

Definition ls (fuel : nat) (path : bytes) : prog unit :=
  fd <- sys (SOpen path 0) ;;
  if fd <? 0 then fprintf stderr (nl "ls: cannot open %s") [CStr path] else
  ' (r, st) <- sysd (SFstat fd) ;;
  if r <? 0 then fprintf stderr (nl "ls: cannot stat %s") [CStr path] ;; sys (SClose fd) ;; Ret tt else
  let type := s16 (get16 st 0) in
  (if type =? 2 then fprintf stdout (nl "%s") [CStr (fmtname path)]
   else if type =? 1 then
     if bool_decide (512 < length path + 1 + DIRSIZ + 1)%nat then fprintf stdout (nl "ls: path too long") []
     else ls_entries fuel fd path
   else Ret tt) ;;
  sys (SClose fd) ;;
  Ret tt.

Fixpoint ls_all (fuel : nat) (paths : list bytes) : prog Z :=
  match paths with
  | [] => Ret 0
  | p :: paths => ls fuel p ;; ls_all fuel paths
  end.

Definition ls_main (fuel : nat) (argv : list bytes) : prog Z :=
  match argv with
  | _ :: ((_ :: _) as paths) => ls_all fuel paths
  | _ => ls fuel (str ".") ;; Exit 0
  end.

(** ** Commands on names *)

(** mkdir.c and rm.c: one call per argument, until one fails. *)
Fixpoint each_name (call : bytes -> syscall) (msg : bytes) (names : list bytes) : prog unit :=
  match names with
  | [] => Ret tt
  | n :: names =>
    r <- sys (call n) ;;
    if r <? 0 then fprintf stderr msg [CStr n] else each_name call msg names
  end.

Definition mkdir_main (argv : list bytes) : prog Z :=
  match argv with
  | _ :: ((_ :: _) as names) => each_name SMkdir (nl "mkdir: %s failed to create") names ;; Exit 0
  | _ => fprintf stderr (nl "Usage: mkdir files...") [] ;; Exit 0
  end.

Definition rm_main (argv : list bytes) : prog Z :=
  match argv with
  | _ :: ((_ :: _) as names) => each_name SUnlink (nl "rm: %s failed to delete") names ;; Ret 0
  | _ => fprintf stderr (nl "Usage: rm files...") [] ;; Exit 0
  end.

Definition ln_main (argv : list bytes) : prog Z :=
  match argv with
  | [_; old; new] =>
    r <- sys (SLink old new) ;;
    (if r <? 0 then fprintf stderr (nl "link %s %s: failed") [CStr old; CStr new] else Ret tt) ;; Ret 0
  | _ => fprintf stderr (nl "Usage: ln old new") [] ;; Exit 0
  end.

(** mv.c removes the old name also when the new one could not be made. *)
Definition mv_main (argv : list bytes) : prog Z :=
  match argv with
  | [_; old; new] =>
    r <- sys (SLink old new) ;;
    (if r <? 0 then fprintf stderr (nl "mv: can't move %s") [CStr old] else Ret tt) ;;
    sys (SUnlink old) ;; Ret 0
  | _ => fprintf stderr (nl "mv: usage: mv source dest") [] ;; Exit 0
  end.

Definition mknod_main (argv : list bytes) : prog Z :=
  match argv with
  | [_; name; a; b] =>
    r <- sys (SMknod name (s16 (atoi a)) (s16 (atoi b))) ;;
    if r <? 0 then fprintf stderr (nl "mknod: unable to create device file %s") [CStr name] ;; Exit 0 else Ret 0
  | _ => fprintf stderr (nl "mknod: usage: mknod file minor major") [] ;; Exit 0
  end.

Definition touch_main (argv : list bytes) : prog Z :=
  match argv with
  | _ :: name :: _ =>
    r <- sys (STouch name) ;;
    (if r <? 0 then fprintf stderr (nl "touch: %s failed to create") [CStr name] else Ret tt) ;; Ret 0
  | _ => fprintf stderr (nl "Usage: touch filepath...") [] ;; Exit 0
  end.

Definition pwd_main : prog Z :=
  ' (_, d) <- sysd (SGetcwd 512) ;;
  fprintf stdout (nl "%s") [CStr d] ;; Ret 0.

(** ** Processes, users and the machine *)

Fixpoint kill_all (pids : list bytes) : prog Z :=
  match pids with
  | [] => Ret 0
  | p :: pids => sys (SKill (atoi p)) ;; kill_all pids
  end.

(** kill.c: [argc] is never below one. *)
Definition kill_main (argv : list bytes) : prog Z :=
  match argv with
  | [] => fprintf stderr (nl "usage: kill pid...") [] ;; Exit 0
  | _ :: pids => kill_all pids
  end.

Definition sleep_main (argv : list bytes) : prog Z :=
  match argv with
  | [_; n] => sys (SSleep (atoi n)) ;; Ret 0
  | _ :: _ :: _ => Ret 0
  | _ => fprintf stderr (nl "sleep: missing opperand") [] ;; Exit 0
  end.

Definition uptime_main : prog Z :=
  r <- sys SUptime ;;
  fprintf stdout (nl "uptime: %d minutes") [CInt (Z.quot (Z.quot r 100) 60)] ;; Ret 0.

Definition id_main : prog Z := u <- sys SGetuid ;; printf (nl "uid: %d") [CInt u] ;; Ret 0.

(** halt.c and reboot.c: only the superuser's calls are made. *)
Definition halt_main : prog Z :=
  u <- sys SGetuid ;;
  if negb (u =? 0) then fprintf stderr (nl "halt: must be superuser") [] ;; Ret 1 else sys SShutdown.

Definition reboot_main : prog Z :=
  u <- sys SGetuid ;;
  if negb (u =? 0) then fprintf stderr (nl "reboot: must be superuser") [] ;; Ret 1
  else sys (SSleep 1) ;; sys SReboot.

Definition true_main : prog Z := Ret 0.
Definition false_main : prog Z := Ret 1.

(** su.c reads its first argument before it looks whether there is one. *)
Definition su_main (argv : list bytes) : prog Z :=
  match argv with
  | _ :: a :: _ =>
    let uid := u32 (atoi a) in
    (if 32 <? uid then printf (nl "error") [] else sys (SSetuid (s32 uid)) ;; Ret tt) ;; Ret (s32 uid)
  | _ => Wild
  end.

(** whoami.c; [junk] and [pw] are the uninitialised contents of the library. *)
Definition whoami_main (fuel : nat) (junk : Z) (pw : passwd) : prog Z :=
  u <- sys SGetuid ;;
  p <- getpwuid fuel junk pw (u32 u) ;;
  match p with
  | None => Ret 0
  | Some p => fprintf stdout (nl "%s") [CStr (pw_name p)] ;; endpwent None ;; Ret 0
  end.

(** Writing /etc/hostname: [fprintf] on a NULL stream is undefined. *)
Definition hostname_file (name : bytes) (checked : bool) : prog (option FILE) :=
  f <- fopen (str "/etc/hostname") (str "w") ;;
  match f with
  | None => if checked then Ret None else Wild
  | Some f => fprintf (f_fd f) (nl "%s") [CStr name] ;; Ret (Some f)
  end.

Definition hostname_main (argv : list bytes) : prog Z :=
  let show := ' (_, d) <- sysd SGethostname ;; printf (nl "%s") [CStr d] ;; Ret 0 in
  match argv with
  | _ :: name :: _ =>
    if chr name =? 45 then show else
    r <- sys (SSethostname name) ;;
    if r =? 2 then fprintf stderr (nl "hostname: you don't have permission to set the host name") [] ;; Ret 1 else
    f <- hostname_file name true ;;
    match f with
    | None => Ret 1
    | Some f => fclose f ;; Ret 0
    end
  | _ => show
  end.

(** date.c without an option hands an uninitialised pointer to [calcDate]. *)
Definition date_main (argv : list bytes) : prog Z :=
  match argv with
  | _ :: a :: _ =>
    if (strcmp (str "-u") a =? 0) || (strcmp (str "--unix") a =? 0) then
      t <- sys STime ;; printf (nl "timestamp: %d") [CInt t] ;; Exit 0
    else Wild
  | _ => Wild
  end.

(** utsname.c: the strings of [struct utsname]; [built] is the date and time of
    the compilation, [arch] the architecture compiled for. *)
Record utsname := Utsname { u_sysname : bytes; u_nodename : bytes; u_release : bytes; u_version : bytes; u_machine : bytes }.

Definition uname (built arch : bytes) : prog utsname :=
  ' (_, host) <- sysd SGethostname ;;
  Ret (Utsname (str "Qwin") (cstr host) (str "0.99" ++ str "-git") (str "live" ++ [32] ++ built) arch).

Definition FLAG_SYSNAME : Z := 0x01.
Definition FLAG_NODENAME : Z := 0x02.
Definition FLAG_RELEASE : Z := 0x04.
Definition FLAG_VERSION : Z := 0x08.
Definition FLAG_MACHINE : Z := 0x10.
Definition FLAG_ALL : Z := 0x1f.

(** The options of uname.c: only the first argument counts. *)
Definition uname_flag (a : bytes) : option Z :=
  let opt := fun (s l : string) => (strcmp (str s) a =? 0) || (strcmp (str l) a =? 0) in
  if opt "-a"%string "--all"%string then Some FLAG_ALL
  else if opt "-s"%string "--kernel-name"%string then Some FLAG_SYSNAME
  else if opt "-n"%string "--node-name"%string then Some FLAG_NODENAME
  else if opt "-r"%string "--kernel-release"%string then Some FLAG_RELEASE
  else if opt "-v"%string "--kernel-version"%string then Some FLAG_VERSION
  else if opt "-m"%string "--machine"%string then Some FLAG_MACHINE
  else None.

Definition uname_help : prog unit :=
  fprintf stderr (nl "Usage: uname [OPTIONS] [--help]") [] ;; fprintf stderr [10] [] ;;
  fprintf stderr (str "-a, --all ") [] ;; fprintf stderr (nl "print all information, except -p and -i.") [] ;;
  fprintf stderr (str "-s, --kernel-name ") [] ;; fprintf stderr (nl "print the kernel name") [] ;;
  fprintf stderr (str "-n, --node-name ") [] ;; fprintf stderr (nl "print the network node name") [] ;;
  fprintf stderr (str "-r, --kernel-release ") [] ;; fprintf stderr (nl "print the kernel release") [] ;;
  fprintf stderr (str "-v, --kernel-version ") [] ;; fprintf stderr (nl "print the kernel version") [] ;;
  fprintf stderr (str "-m, --machine ") [] ;; fprintf stderr (nl "print the machine hardware name") [] ;;
  fprintf stderr (str " --help ") [] ;; fprintf stderr (nl "display this help and exit") [] ;;
  Exit 1.

(** [args0] is what the uninitialised [args] holds. *)
Definition uname_main (args0 : Z) (built arch : bytes) (argv : list bytes) : prog Z :=
  u <- uname built arch ;;
  args <- match argv with
          | _ :: a :: _ =>
            match uname_flag a with
            | Some f => Ret (Z.lor args0 f)
            | None => if strcmp (str "--help") a =? 0 then uname_help ;; Ret args0 else Exit 0
            end
          | _ => Ret args0
          end ;;
  let args := if args =? 0 then FLAG_SYSNAME else args in
  let field := fun flag s => if has args flag then printf (str "%s ") [CStr s] else Ret tt in
  field FLAG_SYSNAME (u_sysname u) ;; field FLAG_NODENAME (u_nodename u) ;; field FLAG_RELEASE (u_release u) ;;
  field FLAG_VERSION (u_version u) ;; field FLAG_MACHINE (u_machine u) ;;
  fprintf stdout [10] [] ;; Ret 0.

(** ** init (init.c) and login (login.c) *)

Definition setup_devices : prog unit :=
  r <- sys (SOpen (str "/dev/tty") O_RDWR) ;;
  if r <? 0 then
    sys (SMknod (str "/dev/tty") 1 1) ;;
    sys (SLink (str "/dev/tty") (str "/dev/tty0")) ;;
    sys (SMknod (str "/dev/null") 2 1) ;;
    sys (SMknod (str "/dev/zero") 3 1) ;;
    sys (SOpen (str "/dev/tty0") O_RDWR) ;;
    Ret tt
  else Ret tt.

Definition hostnamed (name : bytes) : prog unit :=
  sys (SSethostname name) ;;
  hostname_file name false ;;
  Ret tt.

(** Waiting for the shell: other children are orphans. *)
Fixpoint reap (fuel : nat) (pid : Z) : prog unit :=
  match fuel with
  | O => Spin
  | S fuel =>
    wpid <- sys SWait ;;
    if (0 <=? wpid) && negb (wpid =? pid) then fprintf stdout (nl "zombie!") [] ;; reap fuel pid else Ret tt
  end.

Fixpoint init_loop (fuel : nat) : prog Z :=
  match fuel with
  | O => Spin
  | S fuel =>
    pid <- sys SFork ;;
    r <- sys SGethostname ;;
    (if r <? 1 then hostnamed (str "localhost") else Ret tt) ;;
    if pid <? 0 then fprintf stdout (nl "init: fork failed") [] ;; Exit 1 else
    if pid =? 0 then
      sys (SExecv (str "/bin/sh") [str "/bin/sh"]) ;;
      fprintf stdout (nl "init: exec sh failed") [] ;; Exit 1
    else reap fuel pid ;; init_loop fuel
  end.

Definition init_main (fuel : nat) : prog Z :=
  p <- sys SGetpid ;;
  if negb (p =? 1) then Ret 1 else
  sys (SChdir (str "/")) ;;
  setup_devices ;;
  sys (SDup 0) ;;
  sys (SDup 0) ;;
  init_loop fuel.

(** [readpw]: the bytes stored before the newline, or NULL; [n] is the room
    left in [pw]. *)
Fixpoint readpw (n : nat) (pw : bytes) : prog (option bytes) :=
  match n with
  | O => Ret None
  | S n =>
    ' (r, d) <- sysd (SRead 0 1) ;;
    if negb (r =? 1) then Ret None else
    let c := chr d in
    if c =? 13 then readpw n (pw ++ [0])
    else if c =? 10 then Ret (Some pw)
    else readpw n (pw ++ [c])
  end.

Fixpoint login_main (fuel : nat) : prog Z :=
  match fuel with
  | O => Spin
  | S fuel =>
    printf (str "Password: ") [] ;;
    pw <- readpw 64 [] ;;
    match pw with
    | Some pw =>
      if strcmp pw (str "qwin") =? 0 then printf [10] [] ;; sys (SExecv (str "/bin/sh") [str "/bin/sh"]) ;; Ret 0
      else login_main fuel ;; Ret 0
    | None => login_main fuel ;; Ret 0
    end
  end.

(** ** wc counts *)

(** The words of a text: its maximal runs of characters other than space. *)
Fixpoint words_of (w l : bytes) : list bytes :=
  match l with
  | [] => match w with [] => [] | _ => [w] end
  | c :: l => if wc_space c then match w with [] => words_of [] l | _ => w :: words_of [] l end else words_of (w ++ [c]) l
  end.

Definition count_lines (l : bytes) : Z := Z.of_nat (length (filter (fun c => c = 10) l)).

(** The counters after [l], [w] being the word being read when [l] begins. *)
Lemma wc_bytes_spec l s w :
  0 <= wc_l s -> 0 <= wc_w s -> 0 <= wc_c s -> wc_inword s = bool_decide (w <> []) ->
  wc_l s + Z.of_nat (length l) < 2 ^ 31 -> wc_w s + Z.of_nat (length l) < 2 ^ 31 ->
  wc_c s + Z.of_nat (length l) < 2 ^ 31 ->
  let s' := foldl wc_byte s l in
  wc_l s' = wc_l s + count_lines l /\
  wc_w s' + (if wc_inword s then 1 else 0) = wc_w s + Z.of_nat (length (words_of w l)) /\
  wc_c s' = wc_c s + Z.of_nat (length l).
Proof.
  assert (forall x, 0 <= x -> x + 1 < 2 ^ 31 -> s32 (x + 1) = x + 1) as Hs by (intros; apply sgn_small; lia).
  unfold count_lines. revert s w. induction l as [|c l IH]; intros s w Hl Hw Hc Hin Bl Bw Bc; cbn [foldl words_of].
  { rewrite Hin. destruct w; cbn; lia. }
  rewrite filter_cons. set (s1 := wc_byte s c).
  assert (wc_l s1 = wc_l s + (if decide (c = 10) then 1 else 0)) as E1.
  { unfold s1, wc_byte. destruct (wc_space c), (wc_inword s); cbn; destruct (Z.eqb_spec c 10), (decide (c = 10));
      try done; try (rewrite Hs; cbn [length] in *; lia); lia. }
  assert (wc_c s1 = wc_c s + 1) as E2.
  { unfold s1, wc_byte. destruct (wc_space c), (wc_inword s); cbn; apply Hs; cbn [length] in *; lia. }
  cbn [length] in *.
  assert (wc_w s1 = wc_w s + (if negb (wc_space c) && negb (wc_inword s) then 1 else 0) /\
    wc_inword s1 = negb (wc_space c)) as [E3 E4].
  { unfold s1, wc_byte. destruct (wc_space c), (wc_inword s); cbn; try (split; [lia|done]). split; [apply Hs; lia|done]. }
  assert (0 <= wc_l s1 <= wc_l s + 1) as B1 by (rewrite E1; case_decide; lia).
  assert (0 <= wc_w s1 <= wc_w s + 1) as B2 by (rewrite E3; destruct (_ && _); lia).
  destruct (IH s1 (if wc_space c then [] else w ++ [c])) as (I1 & I2 & I3); try lia.
  { rewrite E4. destruct (wc_space c); cbn; [done|]. symmetry. apply bool_decide_true. by destruct w. }
  split_and!.
  - rewrite I1, E1. case_decide; cbn [length]; lia.
  - rewrite E4 in I2. rewrite E3 in I2. rewrite Hin in *. destruct (wc_space c) eqn:Ec; cbn [negb andb] in *.
    + destruct w as [|x w]; cbn in *; [lia|]. cbn [length]. lia.
    + destruct w as [|x w]; cbn in *; lia.
  - rewrite I3, E2. lia.
Qed.

Lemma wc_loop_spec fd chunks buf s :
  Forall (fun c => (0 < length c <= 512)%nat) chunks -> length buf = 512%nat -> exists buf',
  makes (wc_loop (S (length chunks)) fd buf s) (reads fd 512 chunks ++ [(SRead fd 512, (0, []))])
    (Done (0, buf', foldl wc_byte s (concat chunks))).
Proof.
  intros Hc. revert buf s. induction Hc as [|c chunks [Hc0 Hc1] _ IH]; intros buf s Hb.
  { eexists. cbn. split; [done|]. reflexivity. }
  destruct (IH (fill_buf buf 0 c) (foldl wc_byte s c)) as [buf' Hm].
  { unfold fill_buf. rewrite length_splice by lia. done. }
  exists buf'. cbn [length]. change (wc_loop (S (S ?n)) fd buf s) with (
    ' (n0, d) <- sysd (SRead fd 512) ;;
    if 0 <? n0 then wc_loop (S n) fd (fill_buf buf 0 d) (foldl wc_byte s (take (Z.to_nat n0) (fill_buf buf 0 d)))
    else Ret (n0, fill_buf buf 0 d, s)).
  cbn [reads fmap list_fmap app makes pbind sysd]. split; [done|].
  destruct (Z.ltb_spec 0 (Z.of_nat (length c))); [|lia].
  assert (take (Z.to_nat (Z.of_nat (length c))) (fill_buf buf 0 c) = c) as ->.
  { rewrite Nat2Z.id. unfold fill_buf, splice. rewrite take_0. cbn [app]. apply take_app_length. }
  rewrite concat_cons, foldl_app. exact Hm.
Qed.

(** C33. [wc] counts lines, words and characters: however the reads cut the
    input, it prints the number of newlines, of maximal runs of characters
    other than space, and of bytes, followed by the name. *)
Theorem wc_counts fd name chunks tr :
  Forall (fun c => (0 < length c <= 512)%nat) chunks -> Z.of_nat (length (concat chunks)) < 2 ^ 31 ->
  let text := concat chunks in
  makes (fprintf stdout (nl "%d %d %d %s")
    [CInt (count_lines text); CInt (Z.of_nat (length (words_of [] text))); CInt (Z.of_nat (length text)); CStr name])
    tr (Done tt) ->
  exists buf, makes (wc (S (length chunks)) fd name (replicate 512 0))
    ((reads fd 512 chunks ++ [(SRead fd 512, (0, []))]) ++ tr ++ []) (Done buf).
Proof.
  intros Hc Hl text Htr.
  destruct (wc_loop_spec fd chunks (replicate 512 0) (Counts 0 0 0 false) Hc eq_refl) as [buf Hm].
  destruct (wc_bytes_spec text (Counts 0 0 0 false) []) as (E1 & E2 & E3); cbn [wc_l wc_w wc_c wc_inword]; try (unfold text; lia); [done|].
  cbn [wc_l wc_w wc_c wc_inword] in E1, E2, E3. rewrite Z.add_0_r, !Z.add_0_l in *.
  exists buf. unfold wc. eapply makes_bind; [exact Hm|]. cbv beta iota. change (0 <? 0) with false. cbv iota.
  fold text. rewrite E1, E2, E3. eapply makes_bind; [exact Htr|]. done.
Qed.

Lemma wc_counts_witness : exists buf,
  makes (wc 3 0 (str "f") (replicate 512 0))
    ((reads 0 512 [str "a b"; str "c" ++ [10]] ++ [(SRead 0 512, (0, []))]) ++
     ((fun c => (SWrite 1 [c], (1, []))) <$> (str "1 2 5 f" ++ [10])) ++ []) (Done buf).
Proof.
  apply (wc_counts 0 (str "f") [str "a b"; str "c" ++ [10]]).
  - repeat constructor; vm_compute; lia.
  - vm_compute. reflexivity.
  - vm_compute. repeat split.
Defined.
