(* ===== verification/Base64.v ===== *)
(** * base64 (userspace/base64.c)

    The encoder, its loop over a descriptor, and a decoder as the reference. *)

From stdpp Require Import prelude gmap strings.
From S2P Require Import Prelude StringC Ulib Usys Console Printf.
#[local] Open Scope prog_scope.

Definition charset : bytes := str "ABCDEFGHIJKLMNOPQRSTUVWXYZabcdefghijklmnopqrstuvwxyz0123456789+/".

(** The four sextets of three bytes. *)
Definition sextet0 (u0 : Z) : Z := Z.shiftr u0 2.
Definition sextet1 (u0 u1 : Z) : Z := Z.lor (Z.shiftl (Z.land u0 0x03) 4) (Z.shiftr (Z.land u1 0xf0) 4).
Definition sextet2 (u1 u2 : Z) : Z := Z.lor (Z.shiftl (Z.land u1 0x0f) 2) (Z.shiftr (Z.land u2 0xc0) 6).
Definition sextet3 (u2 : Z) : Z := Z.land u2 0x3f.

(** [encode24] on [data], of which [length data] bytes are left. *)
Definition encode24 (data : bytes) : bytes :=
  let u := fun i : nat => default 0 (take 3 data !! i) in
  [charset.[sextet0 (u 0%nat)]; charset.[sextet1 (u 0%nat) (u 1%nat)];
   if bool_decide (1 < length data)%nat then charset.[sextet2 (u 1%nat) (u 2%nat)] else 61;
   if bool_decide (2 < length data)%nat then charset.[sextet3 (u 2%nat)] else 61].

Fixpoint encode_loop (n : nat) (data : bytes) : bytes :=
  match n with
  | O => []
  | S n => encode24 data ++ encode_loop n (drop 3 data)
  end.

Definition encode (data : bytes) : bytes := encode_loop ((length data + 2) / 3) data.

(** [encodefd]: the length read is unsigned, so an error is a huge length. For
    -1 the number of groups wraps around to none; what does not fit the buffer
    is outside the model. *)
Fixpoint encodefd (fuel : nat) (fdin fdout : Z) : prog unit :=
  match fuel with
  | O => Spin
  | S fuel =>
    ' (r, d) <- sysd (SRead fdin 54) ;;
    let inlen := u32 r in
    if inlen =? 0 then Ret tt else
    if (54 <? inlen) && negb (u32 (inlen + 2) / 3 =? 0) then Wild else
    let out := if 54 <? inlen then [] else encode (take (Z.to_nat inlen) d) in
    sys (SWrite fdout (out ++ [10])) ;;
    encodefd fuel fdin fdout
  end.

Fixpoint base64_files (fuel : nat) (files : list bytes) : prog Z :=
  match files with
  | [] => Ret 0
  | f :: files =>
    fd <- sys (SOpen f 0) ;;
    (if fd <? 0 then fprintf stdout (str "base64: cannot open %s" ++ [10]) [CStr f] else Ret tt) ;;
    encodefd fuel fd 1 ;;
    sys (SClose fd) ;;
    base64_files fuel files
  end.

Definition base64_main (fuel : nat) (argv : list bytes) : prog Z :=
  match argv with
  | _ :: ((_ :: _) as files) => base64_files fuel files
  | _ => encodefd fuel 0 1 ;; Ret 0
  end.

(** ** The reference decoder *)

Definition sextet_of (c : Z) : option Z := Z.of_nat <$> (fst <$> list_find (eq c) charset).

(** The bytes of a group of four characters. *)
Definition decode4 (a b c d : Z) : option bytes :=
  match sextet_of a, sextet_of b, sextet_of c, sextet_of d with
  | Some x, Some y, Some z, Some t =>
    Some [Z.lor (Z.shiftl x 2) (Z.shiftr y 4); Z.lor (Z.shiftl (Z.land y 15) 4) (Z.shiftr z 2);
          Z.lor (Z.shiftl (Z.land z 3) 6) t]
  | Some x, Some y, Some z, None =>
    if d =? 61 then Some [Z.lor (Z.shiftl x 2) (Z.shiftr y 4); Z.lor (Z.shiftl (Z.land y 15) 4) (Z.shiftr z 2)] else None
  | Some x, Some y, None, None =>
    if (c =? 61) && (d =? 61) then Some [Z.lor (Z.shiftl x 2) (Z.shiftr y 4)] else None
  | _, _, _, _ => None
  end.

Fixpoint decode (l : bytes) : option bytes :=
  match l with
  | [] => Some []
  | a :: b :: c :: d :: l =>
    match decode4 a b c d, decode l with
    | Some x, Some y => Some (x ++ y)
    | _, _ => None
    end
  | _ => None
  end.

(** ** Decoding what was encoded *)

Lemma sextet_charset x : 0 <= x < 64 -> sextet_of charset.[x] = Some x.
Proof.
  intros Hx. assert (forallb (fun x => bool_decide (sextet_of charset.[x] = Some x)) (seqZ 0 64) = true) as H
    by (vm_compute; reflexivity).
  rewrite forallb_forall in H. eapply bool_decide_eq_true_1, H. apply list_elem_of_In, elem_of_seqZ. lia.
Qed.

(** The sextets of two bytes: their range, and their halves. *)
Definition pair_ok (a b : Z) : bool :=
  let x0 := sextet0 a in let x1 := sextet1 a b in let x2 := sextet2 a b in let x3 := sextet3 a in
  (0 <=? x0) && (x0 <? 64) && (0 <=? x1) && (x1 <? 64) && (0 <=? x2) && (x2 <? 64) && (0 <=? x3) && (x3 <? 64) &&
  (Z.lor (Z.shiftl x0 2) (Z.shiftr x1 4) =? a) && (Z.shiftl (Z.land x1 15) 4 =? Z.land b 0xf0) &&
  (Z.shiftr x2 2 =? Z.land a 0x0f) && (Z.lor (Z.land a 0xf0) (Z.land a 0x0f) =? a) &&
  (Z.lor (Z.shiftl (Z.land x2 3) 6) (sextet3 b) =? b).

Lemma pair_ok_all a b : is_byte a -> is_byte b -> pair_ok a b = true.
Proof.
  intros Ha Hb. assert (forallb (fun a => forallb (pair_ok a) (seqZ 0 256)) (seqZ 0 256) = true) as H
    by (vm_compute; reflexivity).
  rewrite forallb_forall in H. specialize (H a). rewrite forallb_forall in H. unfold is_byte in *.
  apply H; apply list_elem_of_In, elem_of_seqZ; lia.
Qed.

Record pair_facts (a b : Z) : Prop := {
  pf0 : 0 <= sextet0 a < 64; pf1 : 0 <= sextet1 a b < 64; pf2 : 0 <= sextet2 a b < 64; pf3 : 0 <= sextet3 a < 64;
  pf_first : Z.lor (Z.shiftl (sextet0 a) 2) (Z.shiftr (sextet1 a b) 4) = a;
  pf_high : Z.shiftl (Z.land (sextet1 a b) 15) 4 = Z.land b 0xf0;
  pf_low : Z.shiftr (sextet2 a b) 2 = Z.land a 0x0f;
  pf_join : Z.lor (Z.land a 0xf0) (Z.land a 0x0f) = a;
  pf_third : Z.lor (Z.shiftl (Z.land (sextet2 a b) 3) 6) (sextet3 b) = b
}.

Lemma pair_facts_all a b : is_byte a -> is_byte b -> pair_facts a b.
Proof.
  intros Ha Hb. pose proof (pair_ok_all a b Ha Hb) as H. unfold pair_ok in H.
  rewrite !andb_true_iff, !Z.leb_le, !Z.ltb_lt, !Z.eqb_eq in H. destruct_and!. by split.
Qed.

Lemma decode_group data : Forall is_byte data -> data <> [] -> exists a b c d,
  encode24 data = [a; b; c; d] /\ decode4 a b c d = Some (take 3 data).
Proof.
  intros Hb Hne. assert (is_byte 0) as H0 by done.
  assert (sextet_of 61 = None) as Epad by (vm_compute; reflexivity).
  destruct data as [|x [|y [|z data]]]; [done|..]; unfold encode24; decompose_Forall_hyps; do 4 eexists;
    (split; [reflexivity|]); cbn [take lookup list_lookup length default Nat.ltb]; cbn.
  - destruct (pair_facts_all x 0) as [P0 P1 P2 P3 PF PH PL PJ PT]; [done..|].
    unfold decode4. rewrite !sextet_charset by done. rewrite Epad. cbn. by rewrite PF.
  - destruct (pair_facts_all x y) as [P0 P1 P2 P3 PF PH PL PJ PT]; [done..|].
    destruct (pair_facts_all y 0) as [Q0 Q1 Q2 Q3 QF QH QL QJ QT]; [done..|].
    unfold decode4. rewrite !sextet_charset by done. rewrite Epad. cbn. by rewrite PF, PH, QL, QJ.
  - destruct (pair_facts_all x y) as [P0 P1 P2 P3 PF PH PL PJ PT]; [done..|].
    destruct (pair_facts_all y z) as [Q0 Q1 Q2 Q3 QF QH QL QJ QT]; [done..|].
    destruct (pair_facts_all z 0) as [R0 R1 R2 R3 RF RH RL RJ RT]; [done..|].
    unfold decode4. rewrite !sextet_charset by done. rewrite take_0. by rewrite PF, PH, QL, QJ, QT.
Qed.

(** C32. Base64 round trip: decoding what [encode] produced gives the bytes
    back, for input of every length, with one or two padding characters as
    needed; and a line of the output of [encodefd], at most 54 bytes encoded
    and a newline, fits its buffer of 73 characters. *)
Theorem base64_roundtrip data : Forall is_byte data ->
  decode (encode data) = Some data /\ length (encode data) = (4 * ((length data + 2) / 3))%nat /\
  (length data <= 54 -> length (encode data) + 1 <= 73)%nat.
Proof.
  intros Hb. unfold encode. set (n := ((length data + 2) / 3)%nat).
  assert (decode (encode_loop n data) = Some data /\ length (encode_loop n data) = (4 * n)%nat) as [H1 H2].
  { assert (3 * n - 2 <= length data <= 3 * n)%nat as Hn.
    { unfold n. pose proof (Nat.div_mod (length data + 2) 3). pose proof (Nat.mod_upper_bound (length data + 2) 3). lia. }
    clearbody n. revert data Hb Hn. induction n as [|n IH]; intros data Hb Hn.
    { assert (data = []) as -> by (apply length_zero_iff_nil; lia). done. }
    destruct (decode_group data Hb) as (a & b & c & d & E & Ed); [intros ->; cbn in Hn; lia|].
    cbn [encode_loop]. rewrite E. cbn [app decode length]. rewrite Ed.
    destruct (IH (drop 3 data)) as [I1 I2]; [by apply Forall_drop|rewrite length_drop; lia|].
    rewrite I1, I2. split; [by rewrite take_drop|lia]. }
  split_and!; [done|done|]. intros Hl. rewrite H2. unfold n.
  assert ((length data + 2) / 3 <= 18)%nat; [|lia]. apply Nat.lt_succ_r. apply Nat.Div0.div_lt_upper_bound. lia.
Qed.

Lemma base64_roundtrip_witness :
  encode (str "ab") = str "YWI=" /\ decode (encode (str "ab")) = Some (str "ab") /\
  length (encode (str "ab")) = (4 * ((length (str "ab") + 2) / 3))%nat /\
  (length (str "ab") <= 54 -> length (encode (str "ab")) + 1 <= 73)%nat.
Proof.
  split; [vm_compute; reflexivity|]. apply (base64_roundtrip (str "ab")).
  repeat constructor; vm_compute; congruence.
Defined.

Lemma makes_spin {A B} (p : prog A) (k : A -> prog B) tr : makes p tr OutOfFuel -> makes (pbind p k) tr OutOfFuel.
Proof.
  revert tr. induction p as [a'|c k' IH|s'| |]; intros [|[c' [r d]] tr]; cbn; try done.
  intros [-> Hk]. split; [done|]. by apply IH.
Qed.

(** A read whose result is no length: nothing is encoded. *)
Lemma encodefd_error fuel a b r d w tr e :
  54 < u32 r -> u32 (u32 r + 2) / 3 = 0 -> makes (encodefd fuel a b) tr e ->
  makes (encodefd (S fuel) a b) ((SRead a 54, (r, d)) :: (SWrite b [10], w) :: tr) e.
Proof.
  intros HL HL3 Hm. destruct w as [w wd]. cbn [encodefd pbind sysd makes]. split; [done|].
  generalize dependent (u32 r). intros L HL HL3. destruct (Z.eqb_spec L 0); [lia|]. destruct (Z.ltb_spec 54 L); [|lia].
  rewrite HL3. cbn [andb negb Z.eqb app pbind sys makes]. done.
Qed.

(** A file that cannot be opened makes base64 write newlines for ever:
    the descriptor -1 is read all the same, and the result -1 of [read] is
    taken as a length, for which no group is encoded. However often this has
    happened, the program goes on. *)
Theorem base64_missing_file_spins fuel f tr :
  makes (fprintf stdout (str "base64: cannot open %s" ++ [10]) [CStr f]) tr (Done tt) ->
  makes (base64_main fuel [str "base64"; f])
    ((SOpen f 0, (-1, [])) :: tr ++ concat (replicate fuel [(SRead (-1) 54, (-1, [])); (SWrite 1 [10], (1, []))]))
    OutOfFuel.
Proof.
  intros Htr. assert (54 < u32 (-1) /\ u32 (u32 (-1) + 2) / 3 = 0) as [H1 H2] by (vm_compute; done).
  assert (-1 < 0) as Hneg by done. revert Hneg H1 H2. generalize (-1). intros r Hneg H1 H2.
  change (base64_main fuel [str "base64"; f]) with (base64_files fuel [f]). unfold base64_files at 1.
  apply makes_sys. eapply makes_bind; [destruct (Z.ltb_spec r 0); [exact Htr|lia]|]. apply makes_spin.
  induction fuel as [|fuel IH]; [done|]. cbn [replicate concat app]. by apply encodefd_error.
Qed.

Lemma base64_missing_file_spins_witness :
  makes (base64_main 2 [str "base64"; str "x"])
    ((SOpen (str "x") 0, (-1, [])) :: ((fun c => (SWrite 1 [c], (1, []))) <$> (str "base64: cannot open x" ++ [10])) ++
     concat (replicate 2 [(SRead (-1) 54, (-1, [])); (SWrite 1 [10], (1, []))])) OutOfFuel.
Proof. apply (base64_missing_file_spins 2 (str "x")). vm_compute. repeat split. Defined.
