(* ===== verification/Umalloc.v ===== *)
(** * The allocator of user programs (userspace/libc/umalloc.c)

    [malloc] and [free] on the words of memory, with the circular list of
    free blocks sorted by address. A block is a header of two words (the next
    free block, the size in headers) and the memory after it. The address of
    the static header [base] and the answers of [sbrk] are arguments.

    The specification is a list of tiles: from its start to the break the heap
    is cut into blocks, each free or in use, and no two neighbours are free.
    The theorem: the code keeps such a tiling; [malloc] turns part of a free
    block into a block in use that is large enough, [free] turns a block in
    use into a free one, joined with its free neighbours, and neither touches
    another block that is in use, so that nothing overlaps and nothing leaks. *)

From stdpp Require Import prelude strings.
From S2P Require Import Prelude.

(** The words of memory by address, [freep] and the break. *)
Record um := Um { um_w : Z -> Z; um_freep : Z; um_brk : Z }.

Definition ld (a : Z) : M um Z := gets (fun s => um_w s a).
Definition st (a v : Z) : M um unit := modify (fun s => Um (fupd (um_w s) a v) (um_freep s) (um_brk s)).
Definition set_freep (p : Z) : M um unit := modify (fun s => Um (um_w s) p (um_brk s)).

(** The fields of [Header], and the address [n] headers on. *)
Definition HEADER : Z := 8.
Definition s_ptr (p : Z) : Z := p.
Definition s_size (p : Z) : Z := p + 4.
Definition hplus (p n : Z) : Z := u32 (p + HEADER * n).

Section umalloc.
Context (base : Z) (can_grow : Z -> Z -> bool).

(** [sbrk]: the old break, or -1. *)
Definition sbrk (n : Z) : M um Z :=
  b <- gets um_brk ;;
  if can_grow b n then modify (fun s => Um (um_w s) (um_freep s) (b + n)) ;; ret b else ret (-1).

(** The search for the free block before [bp]. *)
Fixpoint free_loop (fuel : nat) (bp p : Z) : M um Z :=
  nx <- ld (s_ptr p) ;;
  if (p <? bp) && (bp <? nx) then ret p else
  if (nx <=? p) && ((p <? bp) || (bp <? nx)) then ret p else
  match fuel with O => fun _ => NoFuel | S fuel => free_loop fuel bp nx end.

Definition free (fuel : nat) (ap : Z) : M um unit :=
  let bp := hplus ap (-1) in
  freep <- gets um_freep ;;
  p <- free_loop fuel bp freep ;;
  size <- ld (s_size bp) ;;
  nx <- ld (s_ptr p) ;;
  (if hplus bp size =? nx then
     nsize <- ld (s_size nx) ;;
     st (s_size bp) (u32 (size + nsize)) ;;
     nn <- ld (s_ptr nx) ;;
     st (s_ptr bp) nn
   else st (s_ptr bp) nx) ;;
  psize <- ld (s_size p) ;;
  (if hplus p psize =? bp then
     size <- ld (s_size bp) ;;
     st (s_size p) (u32 (psize + size)) ;;
     nx <- ld (s_ptr bp) ;;
     st (s_ptr p) nx
   else st (s_ptr p) bp) ;;
  set_freep p.

Definition morecore (fuel : nat) (nu : Z) : M um Z :=
  let nu := if nu <? 4096 then 4096 else nu in
  p <- sbrk (s32 (nu * HEADER)) ;;
  if p =? -1 then ret 0 else
  st (s_size p) nu ;;
  free fuel (hplus p 1) ;;
  gets um_freep.

Fixpoint malloc_loop (fuel : nat) (nunits prevp p : Z) : M um Z :=
  size <- ld (s_size p) ;;
  if nunits <=? size then
    p <- (if size =? nunits then
            nx <- ld (s_ptr p) ;;
            st (s_ptr prevp) nx ;;
            ret p
          else
            st (s_size p) (size - nunits) ;;
            let p := hplus p (size - nunits) in
            st (s_size p) nunits ;;
            ret p) ;;
    set_freep prevp ;;
    ret (hplus p 1)
  else
    match fuel with
    | O => fun _ => NoFuel
    | S fuel' =>
      freep <- gets um_freep ;;
      if p =? freep then
        p <- morecore fuel nunits ;;
        if p =? 0 then ret 0 else
        nx <- ld (s_ptr p) ;;
        malloc_loop fuel' nunits p nx
      else
        nx <- ld (s_ptr p) ;;
        malloc_loop fuel' nunits p nx
    end.

Definition units (nbytes : Z) : Z := u32 (nbytes + HEADER - 1) / HEADER + 1.

Definition malloc (fuel : nat) (nbytes : Z) : M um Z :=
  let nunits := units nbytes in
  freep <- gets um_freep ;;
  prevp <- (if freep =? 0 then
              set_freep base ;;
              st (s_ptr base) base ;;
              st (s_size base) 0 ;;
              ret base
            else ret freep) ;;
  p <- ld (s_ptr prevp) ;;
  malloc_loop fuel nunits prevp p.
End umalloc.

(** ** Tiles *)

(** Free or in use, and the size in headers. *)
Notation tile := (bool * Z)%type.

Fixpoint total (T : list tile) : Z := match T with [] => 0 | (_, n) :: T => n + total T end.

(** The address and the size of the free tiles, and of those in use. *)
Fixpoint blocks (k : bool) (a : Z) (T : list tile) : list (Z * Z) :=
  match T with
  | [] => []
  | (f, n) :: T => (if Bool.eqb f k then [(a, n)] else []) ++ blocks k (a + HEADER * n) T
  end.
Notation frees := (blocks true).
Notation used := (blocks false).

(** Two free neighbours are one. *)
Definition cons_tile (t : tile) (T : list tile) : list tile :=
  match t, T with
  | (true, x), (true, y) :: T => (true, x + y) :: T
  | _, _ => t :: T
  end.
Definition coalesce (T : list tile) : list tile := foldr cons_tile [] T.

Definition is_free (t : option tile) : bool := match t with Some (f, _) => f | None => false end.

Fixpoint apart (T : list tile) : Prop :=
  match T with
  | [] => True
  | (f, _) :: T => f && is_free (head T) = false /\ apart T
  end.

(** The nodes of the list from [a] to [b]: each points to the next. *)
Fixpoint seg (w : Z -> Z) (a : Z) (l : list (Z * Z)) (b : Z) : Prop :=
  match l with
  | [] => a = b
  | (x, n) :: l => a = x /\ w (s_size x) = n /\ seg w (w (s_ptr x)) l b
  end.

Lemma total_app T1 T2 : total (T1 ++ T2) = total T1 + total T2.
Proof. induction T1 as [|[f n] T1 IH]; cbn; [done|]. lia. Qed.

Lemma blocks_app k a T1 T2 : blocks k a (T1 ++ T2) = blocks k a T1 ++ blocks k (a + HEADER * total T1) T2.
Proof.
  revert a. induction T1 as [|[f n] T1 IH]; intros a; cbn.
  - by rewrite Z.mul_0_r, Z.add_0_r.
  - rewrite IH, <- app_assoc. do 2 f_equal. f_equal. unfold HEADER. lia.
Qed.

Lemma seg_app w a l1 l2 b : seg w a (l1 ++ l2) b <-> exists c, seg w a l1 c /\ seg w c l2 b.
Proof.
  revert a. induction l1 as [|[x n] l1 IH]; intros a; cbn.
  - split; [intros H; by exists a|by intros (? & -> & ?)].
  - rewrite IH. naive_solver.
Qed.

(** ** Lists of tiles *)

Definition pos (T : list tile) : Prop := Forall (fun t => 0 < t.2) T.

Lemma pos_total T : pos T -> 0 <= total T.
Proof. induction 1 as [|[f n] T]; cbn in *; lia. Qed.

Lemma blocks_in k a T x n : pos T -> (x, n) ∈ blocks k a T ->
  a <= x /\ x + HEADER * n <= a + HEADER * total T /\ 0 < n /\ exists j, x = a + HEADER * j.
Proof.
  intros Hp. revert a. induction Hp as [|[f m] T Hm HT IH]; intros a; cbn in *; [by intros ?%elem_of_nil|].
  pose proof (pos_total T HT). intros [Hin|Hin]%elem_of_app.
  - destruct (Bool.eqb f k); [|by apply elem_of_nil in Hin]. apply list_elem_of_singleton in Hin. simplify_eq.
    unfold HEADER. split_and!; try lia. exists 0. lia.
  - destruct (IH _ Hin) as (? & ? & ? & j & ?). unfold HEADER in *. split_and!; try lia. exists (m + j). lia.
Qed.

Lemma blocks_split k a T x n : (x, n) ∈ blocks k a T ->
  exists T1 T2, T = T1 ++ (k, n) :: T2 /\ x = a + HEADER * total T1.
Proof.
  revert a. induction T as [|[f m] T IH]; intros a; cbn; [by intros ?%elem_of_nil|].
  intros [Hin|Hin]%elem_of_app.
  - destruct (Bool.eqb f k) eqn:Ef; [|by apply elem_of_nil in Hin]. apply list_elem_of_singleton in Hin.
    simplify_eq. apply Bool.eqb_prop in Ef as ->. exists [], T. split; [done|]. cbn. unfold HEADER. lia.
  - destruct (IH _ Hin) as (T1 & T2 & -> & ->). exists ((f, m) :: T1), T2. split; [done|].
    cbn. unfold HEADER. lia.
Qed.

Lemma blocks_length k a T : (length (blocks k a T) <= length T)%nat.
Proof.
  revert a. induction T as [|[f n] T IH]; intros a; cbn; [lia|]. specialize (IH (a + HEADER * n)).
  destruct (Bool.eqb f k); cbn; lia.
Qed.

Lemma apart_app T1 T2 :
  apart (T1 ++ T2) <-> apart T1 /\ apart T2 /\ is_free (last T1) && is_free (head T2) = false.
Proof.
  induction T1 as [|[f n] T1 IH]; [cbn; tauto|].
  rewrite last_cons. destruct T1 as [|t T1]; [cbn; rewrite andb_false_r; tauto|].
  change (apart (((f, n) :: t :: T1) ++ T2)) with (f && is_free (head ((t :: T1) ++ T2)) = false /\ apart ((t :: T1) ++ T2)).
  rewrite IH. destruct (last (t :: T1)) eqn:E; [|by apply last_None in E].
  change (apart ((f, n) :: t :: T1)) with (f && is_free (Some t) = false /\ apart (t :: T1)). cbn [head app]. tauto.
Qed.

Lemma cons_tile_apart t T : is_free (Some t) && is_free (head T) = false -> cons_tile t T = t :: T.
Proof. destruct t as [[] n], T as [|[[] m] T]; done. Qed.

Lemma coalesce_app T1 X : apart T1 -> is_free (last T1) && is_free (head X) = false ->
  foldr cons_tile X T1 = T1 ++ X.
Proof.
  induction T1 as [|[f n] T1 IH]; [done|]. intros [Hf Ha]. rewrite last_cons.
  destruct T1 as [|t T1]; intros HX.
  - by apply cons_tile_apart.
  - destruct (last (t :: T1)) eqn:E; [|by apply last_None in E].
    change (cons_tile (f, n) (foldr cons_tile X (t :: T1)) = (f, n) :: (t :: T1) ++ X).
    rewrite (IH Ha HX). by apply cons_tile_apart.
Qed.

Lemma coalesce_apart T : apart T -> coalesce T = T.
Proof. intros. unfold coalesce. rewrite coalesce_app, app_nil_r; [done..|]. cbn. apply andb_false_r. Qed.

(** ** What [free] makes of the list of free blocks *)

(** The block joined with the next one, and the previous one with it. *)
Definition link_right (bp n : Z) (R : list (Z * Z)) : list (Z * Z) :=
  match R with
  | (q, m) :: R' => if bp + HEADER * n =? q then (bp, n + m) :: R' else (bp, n) :: R
  | [] => [(bp, n)]
  end.

Definition link_left (p n : Z) (l : list (Z * Z)) : list (Z * Z) :=
  match l with
  | (q, m) :: R => if p + HEADER * n =? q then (p, n + m) :: R else (p, n) :: l
  | [] => [(p, n)]
  end.

Lemma frees_cons_tile a n T : pos T ->
  frees a (cons_tile (true, n) T) = link_right a n (frees (a + HEADER * n) T).
Proof.
  intros Hp. destruct T as [|[[] m] T]; [done| |].
  - cbn. rewrite Z.eqb_refl. do 2 f_equal. unfold HEADER. lia.
  - cbn. inversion Hp as [|? ? Hm HT]; subst. cbn in Hm.
    destruct (frees (a + HEADER * n + HEADER * m) T) as [|[q k] R] eqn:E; [done|]. cbn.
    assert ((q, k) ∈ frees (a + HEADER * n + HEADER * m) T) as Hin by (rewrite E; left).
    destruct (blocks_in _ _ _ _ _ HT Hin) as (? & _). unfold HEADER in *.
    destruct (Z.eqb_spec (a + 8 * n) q); [lia|done].
Qed.

Lemma link_right_head a n R : exists m R', link_right a n R = (a, m) :: R'.
Proof. destruct R as [|[q k] R]; cbn; [eauto|]. case_match; eauto. Qed.

Lemma link_right_in a n R m R' : link_right a n R = (a, m) :: R' ->
  (m = n \/ exists q k, (q, k) ∈ R /\ m = n + k /\ a + HEADER * n = q) /\ forall t, t ∈ R' -> t ∈ R.
Proof.
  destruct R as [|[q k] R]; cbn.
  - intros [= -> <-]. split; [by left|]. by intros ? ?%elem_of_nil.
  - destruct (Z.eqb_spec (a + HEADER * n) q); intros [= <- <-].
    + split; [right; exists q, k; split_and!; [left|done..]|]. by right.
    + split; [by left|done].
Qed.

Lemma pos_app T1 T2 : pos (T1 ++ T2) <-> pos T1 /\ pos T2.
Proof. apply Forall_app. Qed.
Lemma pos_cons f n T : pos ((f, n) :: T) <-> 0 < n /\ pos T.
Proof. unfold pos. by rewrite Forall_cons. Qed.

(** The list of the tiles with one more free is the list the code builds. *)
Lemma frees_coalesce base h0 T1 n T2 L p ps :
  base + HEADER <= h0 -> pos T1 -> pos T2 -> 0 < n -> apart T1 -> apart T2 ->
  (base, 0) :: frees h0 T1 = L ++ [(p, ps)] ->
  (base, 0) :: frees h0 (coalesce (T1 ++ (true, n) :: T2)) =
    L ++ link_left p ps (link_right (h0 + HEADER * total T1) n (frees (h0 + HEADER * total T1 + HEADER * n) T2)).
Proof.
  intros Hb H1 H2 Hn A1 A2 HL. unfold coalesce. rewrite foldr_app. cbn [foldr].
  fold (coalesce T2). rewrite (coalesce_apart T2) by done.
  set (X := cons_tile (true, n) T2). rewrite <- frees_cons_tile by done. fold X.
  pose proof (pos_total T1 H1).
  destruct (link_right_head (h0 + HEADER * total T1) n (frees (h0 + HEADER * total T1 + HEADER * n) T2)) as (m & R & HX).
  rewrite <- frees_cons_tile in HX by done. fold X in HX.
  destruct (is_free (last T1)) eqn:El.
  - destruct T1 as [|[f x] T1 _] using rev_ind; [done|]. rewrite last_snoc in El. cbn in El. subst f.
    apply apart_app in A1 as (A1 & _ & Hl). cbn in Hl. rewrite andb_true_r in Hl.
    rewrite foldr_app. cbn [foldr]. rewrite pos_app in H1. destruct H1 as [H1 _].
    rewrite blocks_app in HL. cbn in HL. rewrite app_comm_cons in HL. apply app_inj_tail in HL as [<- [= <- <-]].
    rewrite total_app in HX |- *. cbn [total] in HX |- *.
    rewrite HX. unfold link_left. destruct (Z.eqb_spec (h0 + HEADER * total T1 + HEADER * x) (h0 + HEADER * (total T1 + (x + 0)))) as [|Hne]; [|unfold HEADER in *; lia].
    rewrite coalesce_app; [|done|by rewrite Hl]. rewrite blocks_app. cbn [app]. do 2 f_equal.
    revert HX. unfold X. clear. destruct T2 as [|[[] y] T2]; cbn; intros [= <- <-]; do 2 f_equal; unfold HEADER; lia.
  - rewrite coalesce_app by (done || by rewrite El). rewrite blocks_app, HX, app_comm_cons, HL, <- app_assoc. cbn.
    f_equal. destruct (Z.eqb_spec (p + HEADER * ps) (h0 + HEADER * total T1)) as [He|]; [exfalso|done].
    assert ((p, ps) ∈ (base, 0) :: frees h0 T1) as Hin by (rewrite HL; apply elem_of_app; right; left).
    apply elem_of_cons in Hin as [[= -> ->]|Hin]; [unfold HEADER in *; lia|].
    destruct T1 as [|[f x] T1 _] using rev_ind; [by apply elem_of_nil in Hin|]. rewrite last_snoc in El. cbn in El. subst f.
    rewrite blocks_app in Hin. cbn in Hin. rewrite app_nil_r in Hin. rewrite pos_app, pos_cons in H1. destruct H1 as (H1 & Hx & _).
    destruct (blocks_in _ _ _ _ _ H1 Hin) as (_ & ? & _). rewrite total_app in He. cbn in He. unfold HEADER in *. lia.
Qed.

Lemma coalesce_used T a : used a (coalesce T) = used a T.
Proof.
  revert a. induction T as [|[f n] T IH]; intros a; [done|]. cbn. rewrite <- IH. fold (coalesce T).
  destruct f, (coalesce T) as [|[[] m] T']; cbn; try done. f_equal. unfold HEADER. lia.
Qed.

Lemma coalesce_total T : total (coalesce T) = total T.
Proof.
  induction T as [|[f n] T IH]; [done|]. cbn. fold (coalesce T). rewrite <- IH.
  destruct f, (coalesce T) as [|[[] m] T']; cbn; lia.
Qed.

Lemma coalesce_length T : (length (coalesce T) <= length T)%nat.
Proof.
  induction T as [|[f n] T IH]; [done|]. cbn. fold (coalesce T).
  destruct f, (coalesce T) as [|[[] m] T']; cbn in *; lia.
Qed.

(** A free tile is in a free tile after the joins. *)
Lemma coalesce_free T n : pos T -> 0 < n -> exists A m B, coalesce (T ++ [(true, n)]) = A ++ (true, m) :: B /\ n <= m.
Proof.
  intros Hp Hn. induction Hp as [|[f k] T Hk HT (A & m & B & E & Hm)]; [by exists [], n, []|].
  cbn in Hk. change (coalesce (((f, k) :: T) ++ [(true, n)])) with (cons_tile (f, k) (coalesce (T ++ [(true, n)]))).
  rewrite E. destruct f; [|by exists ((false, k) :: A), m, B]. destruct A as [|[[] y] A].
  - exists [], (k + m), B. split; [done|lia].
  - by exists ((true, k + y) :: A), m, B.
  - by exists ((true, k) :: (false, y) :: A), m, B.
Qed.

Lemma coalesce_pos T : pos T -> pos (coalesce T).
Proof.
  induction 1 as [|[f n] T Hn HT IH]; [constructor|]. cbn in *. fold (coalesce T).
  destruct f, (coalesce T) as [|[[] m] T']; cbn; rewrite ?pos_cons in *; try done.
  split; [lia|tauto].
Qed.

Lemma coalesce_is_apart T : apart (coalesce T).
Proof.
  induction T as [|[f n] T IH]; [done|]. cbn. fold (coalesce T).
  destruct f, (coalesce T) as [|[[] m] T']; cbn in *; tauto.
Qed.

(** ** The list in memory *)

Lemma seg_frame w w' a l b :
  (forall x n, (x, n) ∈ l -> w' (s_ptr x) = w (s_ptr x) /\ w' (s_size x) = w (s_size x)) ->
  seg w a l b -> seg w' a l b.
Proof.
  revert a. induction l as [|[x n] l IH]; intros a Hw; cbn; [done|].
  intros (-> & <- & Hs). destruct (Hw x (w (s_size x))) as [E1 E2]; [left|]. rewrite E1, E2.
  split_and!; [done..|]. apply IH; [|done]. intros y m Hy. apply (Hw y m). by right.
Qed.

(** The next node, and the end of the list after the last. *)
Definition node_or (l : list (Z * Z)) (b : Z) : Z := match l with (x, _) :: _ => x | [] => b end.

Lemma seg_start w a l b : seg w a l b -> a = node_or l b.
Proof. destruct l as [|[x n] l]; cbn; [done|]. by intros [-> _]. Qed.

Lemma seg_at w a l1 x n l2 b : seg w a (l1 ++ (x, n) :: l2) b ->
  w (s_size x) = n /\ w (s_ptr x) = node_or l2 b /\ seg w (node_or l2 b) l2 b.
Proof.
  intros (c & _ & -> & ? & Hs)%seg_app. split; [done|]. pose proof (seg_start _ _ _ _ Hs) as E.
  split; [done|]. by rewrite <- E.
Qed.

(** The nodes by rising address. *)
Definition rising (l : list (Z * Z)) : Prop :=
  forall A x n B y m, l = A ++ (x, n) :: B -> (y, m) ∈ B -> x + HEADER <= y.

Section walk.
Context (base bp : Z).

(** The search stops at the last node below [bp]. *)
Section at_node.
Context (w : Z -> Z) (fp brk p ps : Z) (L R : list (Z * Z)).
Context (Hseg : seg w base (L ++ (p, ps) :: R) base).
Context (Hbase : base = node_or L p).
Context (HL : forall x n, (x, n) ∈ L -> x < p) (Hp : p < bp) (HR : forall x n, (x, n) ∈ R -> bp < x).
Context (Hinc : rising (L ++ (p, ps) :: R)).
Notation s := (Um w fp brk).

Lemma base_le : base <= p.
Proof. rewrite Hbase. destruct L as [|[x n] L']; cbn; [lia|]. specialize (HL x n). assert (x < p); [|lia]. apply HL. left. Qed.

Lemma free_loop_stop fuel : free_loop fuel bp p s = Ok p s.
Proof.
  pose proof base_le as Hb. destruct (seg_at _ _ _ _ _ _ _ Hseg) as (_ & Hn & _).
  assert ((p <? bp) && (bp <? w p) = false -> (w p <=? p) && ((p <? bp) || (bp <? w p)) = true) as Hor.
  { unfold s_ptr in Hn. rewrite Hn. destruct R as [|[q m] R']; cbn.
    - intros _. apply andb_true_iff. split; [lia|]. apply orb_true_iff. lia.
    - assert (bp < q) by (apply (HR q m); left). intros Hf%andb_false_iff. lia. }
  destruct fuel; cbn; unfold bind, ld, gets, ret; cbn; unfold s_ptr;
    destruct ((p <? bp) && (bp <? w p)) eqn:E1; [done| |done|]; by rewrite (Hor eq_refl).
Qed.

(** From a node below. *)
Lemma free_loop_low A q m B fuel : L = A ++ (q, m) :: B -> (length B < fuel)%nat -> free_loop fuel bp q s = Ok p s.
Proof.
  revert A q m fuel. induction B as [|[q' m'] B IH]; intros A q m fuel EL Hf.
  - destruct fuel as [|fuel]; [lia|]. cbn. unfold bind, ld, gets; cbn. unfold s_ptr.
    assert (w q = p) as ->.
    { rewrite EL, <- app_assoc in Hseg. by destruct (seg_at _ _ _ _ _ _ _ Hseg) as (_ & ? & _). }
    assert (q < p) by (apply (HL q m); rewrite EL; apply elem_of_app; right; left).
    replace (bp <? p) with false by lia. rewrite andb_false_r. replace (p <=? q) with false by lia. cbn.
    apply free_loop_stop.
  - destruct fuel as [|fuel]; [cbn in Hf; lia|]. cbn. unfold bind, ld, gets; cbn. unfold s_ptr.
    assert (w q = q') as ->.
    { rewrite EL, <- app_assoc in Hseg. by destruct (seg_at _ _ _ _ _ _ _ Hseg) as (_ & ? & _). }
    assert (q < q').
    { assert (q + HEADER <= q'); [|unfold HEADER in *; lia].
      apply (Hinc A q m ((q', m') :: B ++ (p, ps) :: R) q' m'); [by rewrite EL, <- app_assoc|left]. }
    assert (q' < p) by (apply (HL q' m'); rewrite EL; apply elem_of_app; right; right; left).
    replace (bp <? q') with false by lia. rewrite andb_false_r. replace (q' <=? q) with false by lia. cbn.
    apply (IH (A ++ [(q, m)]) q' m'); [|cbn in Hf; lia]. by rewrite EL, <- app_assoc.
Qed.

Lemma free_loop_base fuel : (length L < fuel)%nat -> free_loop fuel bp base s = Ok p s.
Proof.
  intros Hf. assert (L = [] \/ exists x n L', L = (x, n) :: L') as [EL|(x & n & L' & EL)]
    by (destruct L as [|[]]; eauto).
  - rewrite Hbase, EL. apply free_loop_stop.
  - replace base with x by (rewrite Hbase, EL; done). apply (free_loop_low [] x n L'); [done|].
    rewrite EL in Hf. cbn in Hf. lia.
Qed.

(** From a node above. *)
Lemma free_loop_high A q m B fuel : R = A ++ (q, m) :: B ->
  (length B + length L + 1 < fuel)%nat -> free_loop fuel bp q s = Ok p s.
Proof.
  pose proof base_le as Hb.
  revert A q m fuel. induction B as [|[q' m'] B IH]; intros A q m fuel ER Hf.
  - destruct fuel as [|fuel]; [lia|]. cbn. unfold bind, ld, gets; cbn. unfold s_ptr.
    assert (w q = base) as ->.
    { rewrite ER, app_comm_cons, app_assoc in Hseg. by destruct (seg_at _ _ _ _ _ _ _ Hseg) as (_ & ? & _). }
    assert (bp < q) by (apply (HR q m); rewrite ER; apply elem_of_app; right; left).
    replace (q <? bp) with false by lia. replace (bp <? base) with false by lia. cbn. rewrite andb_false_r.
    apply free_loop_base. cbn in Hf. lia.
  - destruct fuel as [|fuel]; [lia|]. cbn. unfold bind, ld, gets; cbn. unfold s_ptr.
    assert (w q = q') as ->.
    { rewrite ER, app_comm_cons, app_assoc in Hseg. by destruct (seg_at _ _ _ _ _ _ _ Hseg) as (_ & ? & _). }
    assert (q < q').
    { assert (q + HEADER <= q'); [|unfold HEADER in *; lia].
      apply (Hinc (L ++ (p, ps) :: A) q m ((q', m') :: B) q' m'); [by rewrite ER, <- app_assoc|left]. }
    assert (bp < q) by (apply (HR q m); rewrite ER; apply elem_of_app; right; left).
    replace (q <? bp) with false by lia. replace (q' <=? q) with false by lia. cbn.
    apply (IH (A ++ [(q, m)]) q' m'); [by rewrite ER, <- app_assoc|]. cbn in Hf. lia.
Qed.

Lemma free_loop_finds q fuel : q ∈ (L ++ (p, ps) :: R).*1 -> (length L + length R + 1 < fuel)%nat ->
  free_loop fuel bp q s = Ok p s.
Proof.
  intros [[x m] [-> Hin]]%list_elem_of_fmap Hf. cbn [fst]. apply elem_of_app in Hin as [Hin|Hin].
  - apply list_elem_of_split in Hin as (A & B & EL). apply (free_loop_low A x m B); [done|].
    rewrite EL, length_app in Hf. cbn in Hf. lia.
  - apply elem_of_cons in Hin as [[= -> ->]|Hin]; [apply free_loop_stop|].
    apply list_elem_of_split in Hin as (A & B & ER). apply (free_loop_high A x m B); [done|].
    rewrite ER, length_app in Hf. cbn in Hf. lia.
Qed.
End at_node.
End walk.

Lemma rising_cons x n l : (forall y m, (y, m) ∈ l -> x + HEADER <= y) -> rising l -> rising ((x, n) :: l).
Proof.
  intros Hx Hl [|t A] y k B z m E Hz; cbn in E.
  - injection E as <- <- <-. by apply (Hx z m).
  - injection E as _ E. by apply (Hl A y k B z m).
Qed.

Lemma frees_rising a T : pos T -> rising (frees a T).
Proof.
  intros Hp. revert a. induction Hp as [|[f n] T Hn HT IH]; intros a.
  - intros A x n B y m E. by destruct A.
  - destruct f; cbn; [|apply IH]. apply rising_cons; [|apply IH]. intros y m Hy.
    destruct (blocks_in _ _ _ _ _ HT Hy) as (? & _). cbn in Hn. unfold HEADER in *. lia.
Qed.

(** Headers that do not overlap. *)
Definition sep (x : Z) (l : list (Z * Z)) : Prop := forall y m, (y, m) ∈ l -> x + HEADER <= y \/ y + HEADER <= x.

Lemma rising_sep A x n B : rising (A ++ (x, n) :: B) -> sep x (A ++ B).
Proof.
  intros H y m [Hy|Hy]%elem_of_app.
  - right. apply list_elem_of_split in Hy as (A1 & A2 & ->). rewrite <- app_assoc in H.
    apply (H A1 y m (A2 ++ (x, n) :: B) x n); [done|]. apply elem_of_app. right. left.
  - left. by apply (H A x n B y m).
Qed.

Lemma sep_app x l1 l2 : sep x (l1 ++ l2) <-> sep x l1 /\ sep x l2.
Proof. unfold sep. setoid_rewrite elem_of_app. naive_solver. Qed.

(** Memory that differs in the header at [x] only. *)
Definition but_at (x : Z) (w w' : Z -> Z) : Prop := forall z, z <> s_ptr x -> z <> s_size x -> w' z = w z.

Lemma seg_sep w w' x a l b : but_at x w w' -> sep x l -> seg w a l b -> seg w' a l b.
Proof.
  intros Hw Hs. apply seg_frame. intros y m Hy.
  destruct (Hs y m Hy); split; apply Hw; unfold s_ptr, s_size, HEADER in *; lia.
Qed.

Lemma u32_lt x : 0 <= x < 2 ^ 32 -> u32 x = x.
Proof. intros. unfold u32. by apply Z.mod_small. Qed.

(** ** The two joins *)

Ltac mem := repeat (first [rewrite fupd_eq | rewrite fupd_ne by (unfold s_ptr, s_size, HEADER in *; lia)]).

Lemma join_right w fp brk base bp n R (Q : unit -> um -> Prop) :
  0 < base < bp -> 0 <= n -> bp + HEADER * n < 2 ^ 32 -> (forall q m, (q, m) ∈ R -> 0 <= m /\ n + m < 2 ^ 32) ->
  w (s_size bp) = n -> seg w (node_or R base) R base -> sep bp R ->
  (forall w1, but_at bp w w1 -> seg w1 bp (link_right bp n R) base -> Q tt (Um w1 fp brk)) ->
  wp (if hplus bp n =? node_or R base then
        nsize <- ld (s_size (node_or R base)) ;;
        st (s_size bp) (u32 (n + nsize)) ;;
        nn <- ld (s_ptr (node_or R base)) ;;
        st (s_ptr bp) nn
      else st (s_ptr bp) (node_or R base)) Q (Um w fp brk).
Proof.
  intros Hb Hn Hlt HR Hw Hs Hsep HQ. unfold hplus. rewrite u32_lt by (unfold HEADER in *; lia).
  destruct R as [|[q m] R]; cbn [node_or].
  - replace (bp + HEADER * n =? base) with false by (unfold HEADER; lia). apply wp_modify. apply HQ.
    + intros z ? ?. cbn. by mem.
    + cbn. mem. done.
  - cbn [seg] in Hs. destruct Hs as (_ & Hm & Hs). destruct (HR q m) as [Hm0 Hnm]; [left|].
    assert (sep bp R) as Hsep' by (intros y k Hy; apply (Hsep y k); by right).
    destruct (Hsep q m) as [Hq|Hq]; [left| |]; destruct (Z.eqb_spec (bp + HEADER * n) q) as [E|E].
    1, 3: unfold ld, st; kstep; cbn; rewrite Hm, u32_lt by lia; mem; apply HQ;
      [intros z ? ?; cbn; by mem|unfold link_right; rewrite (proj2 (Z.eqb_eq _ _) E); cbn; mem;
       split_and!; [done..|]; apply (seg_sep w _ bp); [intros z ? ?; cbn; by mem|done|done]].
    all: apply wp_modify; apply HQ; [intros z ? ?; cbn; by mem|].
    all: unfold link_right; rewrite (proj2 (Z.eqb_neq _ _) E); cbn; mem; split_and!; try done.
    all: apply (seg_sep w _ bp); [intros z ? ?; cbn; by mem|done|done].
Qed.

Lemma join_left w fp brk base p ps L bp m R c (Q : unit -> um -> Prop) :
  0 <= ps -> 0 <= m -> 0 <= p -> p + HEADER * ps < 2 ^ 32 -> ps + m < 2 ^ 32 -> p + HEADER <= bp ->
  seg w base (L ++ [(p, ps)]) c -> seg w bp ((bp, m) :: R) base -> sep p L -> sep p ((bp, m) :: R) ->
  (forall w1, but_at p w w1 -> seg w1 base (L ++ link_left p ps ((bp, m) :: R)) base -> Q tt (Um w1 fp brk)) ->
  wp (psize <- ld (s_size p) ;;
      if hplus p psize =? bp then
        size <- ld (s_size bp) ;;
        st (s_size p) (u32 (psize + size)) ;;
        nx <- ld (s_ptr bp) ;;
        st (s_ptr p) nx
      else st (s_ptr p) bp) Q (Um w fp brk).
Proof.
  intros Hps Hm Hp0 Hlt Hsum Hbp HL HR HsL HsR HQ.
  apply seg_app in HL as (d & HL & -> & Ew & _).
  unfold ld, st; kstep. cbn [um_w]. rewrite Ew. unfold hplus. rewrite u32_lt by (unfold HEADER in *; lia).
  assert (forall w1, but_at p w w1 -> seg w1 base L p) as HL' by (intros; by apply (seg_sep w _ p)).
  destruct (Z.eqb_spec (p + HEADER * ps) bp) as [E|E].
  - destruct HR as (_ & Em & HR). kstep. cbn. rewrite Em, u32_lt by lia. mem.
    apply HQ; [intros z ? ?; cbn; by mem|]. apply seg_app. exists p. split; [apply HL'; intros z ? ?; by mem|].
    unfold link_left. rewrite (proj2 (Z.eqb_eq _ _) E). cbn. mem. split_and!; [done..|].
    apply (seg_sep w _ p); [intros z ? ?; by mem| |done]. intros y k Hy. apply (HsR y k). by right.
  - kstep. apply HQ; [intros z ? ?; cbn; by mem|]. apply seg_app. exists p. split; [apply HL'; intros z ? ?; cbn; by mem|].
    unfold link_left. rewrite (proj2 (Z.eqb_neq _ _) E).
    assert (seg (fupd w (s_ptr p) bp) bp ((bp, m) :: R) base) as HR'
      by (apply (seg_sep w _ p); [intros z ? ?; by mem|done|done]).
    refine (conj eq_refl (conj _ _)); cbn [um_w]; [by mem|]. by rewrite fupd_eq.
Qed.

(** ** The heap *)

Lemma blocks_disj a T x n y m : pos T -> (x, n) ∈ frees a T -> (y, m) ∈ used a T ->
  x + HEADER * n <= y \/ y + HEADER * m <= x.
Proof.
  intros Hp. revert a. induction Hp as [|[f k] T Hk HT IH]; intros a; [by intros ?%elem_of_nil|].
  destruct f; cbn.
  - intros [[= -> ->]|Hx]%elem_of_cons Hy; [|by apply (IH (a + HEADER * k))].
    destruct (blocks_in _ _ _ _ _ HT Hy) as (? & _). lia.
  - intros Hx [[= -> ->]|Hy]%elem_of_cons; [|by apply (IH (a + HEADER * k))].
    destruct (blocks_in _ _ _ _ _ HT Hx) as (? & _). lia.
Qed.

Section heap.
Context (base h0 : Z) (Hbase : 0 < base) (Hh0 : base + HEADER <= h0).

Definition TOP : Z := 2 ^ 31.

Record rep (s : um) (T : list tile) : Prop := {
  rp_pos : pos T;
  rp_apart : apart T;
  rp_brk : um_brk s = h0 + HEADER * total T;
  rp_top : um_brk s <= TOP;
  rp_seg : seg (um_w s) base ((base, 0) :: frees h0 T) base;
  rp_freep : um_freep s ∈ ((base, 0) :: frees h0 T).*1;
  rp_size x n : (x, n) ∈ used h0 T -> um_w s (s_size x) = n }.

(** The blocks in use of [T] have their contents. *)
Definition kept (T : list tile) (s s' : um) : Prop :=
  forall x n z, (x, n) ∈ used h0 T -> s_size x <= z < x + HEADER * n -> um_w s' z = um_w s z.

Lemma kept_trans T s1 s2 s3 : kept T s1 s2 -> kept T s2 s3 -> kept T s1 s3.
Proof. intros H1 H2 x n z Hx Hz. rewrite (H2 x n z), (H1 x n z); done. Qed.

Lemma nodes_rising T : pos T -> rising ((base, 0) :: frees h0 T).
Proof.
  intros Hp. apply rising_cons; [|by apply frees_rising]. intros y m Hy.
  destruct (blocks_in _ _ _ _ _ Hp Hy) as (? & _). lia.
Qed.

Lemma node_used T p n x m : pos T -> (p, n) ∈ (base, 0) :: frees h0 T -> (x, m) ∈ used h0 T ->
  p + HEADER <= x \/ x + HEADER * m <= p.
Proof.
  intros Hp [[= -> ->]|Hin]%elem_of_cons Hx.
  - destruct (blocks_in _ _ _ _ _ Hp Hx) as (? & _). lia.
  - destruct (blocks_in _ _ _ _ _ Hp Hin) as (_ & _ & ? & _).
    destruct (blocks_disj _ _ _ _ _ _ Hp Hin Hx); unfold HEADER in *; lia.
Qed.

(** The nodes around a block in use. *)
Record around (s : um) (T1 : list tile) (n : Z) (T2 : list tile) (bp p ps : Z) (L R : list (Z * Z)) : Prop := {
  ar_low : (base, 0) :: frees h0 T1 = L ++ [(p, ps)];
  ar_high : frees (bp + HEADER * n) T2 = R;
  ar_nodes : (base, 0) :: frees h0 (T1 ++ (false, n) :: T2) = L ++ (p, ps) :: R;
  ar_base : base = node_or L p;
  ar_p : 0 <= ps /\ base <= p /\ p + HEADER * ps <= bp /\ p + HEADER <= bp;
  ar_bp : 0 < n /\ h0 <= bp /\ bp + HEADER * n <= TOP;
  ar_R : forall q m, (q, m) ∈ R -> bp + HEADER * n <= q /\ 0 < m /\ q + HEADER * m <= TOP;
  ar_L : forall q m, (q, m) ∈ L -> q + HEADER <= p }.

Lemma around_block s T1 n T2 bp : rep s (T1 ++ (false, n) :: T2) -> bp = h0 + HEADER * total T1 ->
  exists p ps L R, around s T1 n T2 bp p ps L R.
Proof.
  intros Hrep Hbp. pose proof (rp_pos _ _ Hrep) as HposT. pose proof HposT as [P1 [Pn P2]%pos_cons]%pos_app.
  pose proof (pos_total T1 P1) as Ht1. pose proof (pos_total T2 P2) as Ht2.
  pose proof (rp_brk _ _ Hrep) as Hbrk. pose proof (rp_top _ _ Hrep) as Htop.
  rewrite total_app in Hbrk. cbn in Hbrk.
  destruct (exists_last (l := (base, 0) :: frees h0 T1)) as (L & [p ps] & EL); [done|].
  assert ((p, ps) ∈ (base, 0) :: frees h0 T1) as Hin by (rewrite EL; apply elem_of_app; right; left).
  exists p, ps, L, (frees (bp + HEADER * n) T2).
  assert ((base, 0) :: frees h0 (T1 ++ (false, n) :: T2) = L ++ (p, ps) :: frees (bp + HEADER * n) T2) as EN.
  { rewrite blocks_app, app_comm_cons, EL, <- app_assoc. by rewrite Hbp. }
  split; try done.
  - destruct L as [|[x m] L]; by injection EL.
  - apply elem_of_cons in Hin as [[= -> ->]|Hin]; [unfold HEADER in *; lia|].
    destruct (blocks_in _ _ _ _ _ P1 Hin) as (? & ? & ? & _). unfold HEADER in *. lia.
  - unfold HEADER in *. lia.
  - intros q m Hq. destruct (blocks_in _ _ _ _ _ P2 Hq) as (? & ? & ? & _). unfold HEADER in *. lia.
  - intros q m Hq. pose proof (nodes_rising _ HposT) as Hr. rewrite EN in Hr.
    apply list_elem_of_split in Hq as (A & B & ->). rewrite <- app_assoc in Hr.
    apply (Hr A q m (B ++ (p, ps) :: frees (bp + HEADER * n) T2) p ps); [done|]. apply elem_of_app. right. left.
Qed.

(** What the writes of [free] leave alone. *)
Lemma free_keeps s T1 n T2 bp p ps L R w1 w2 fp :
  rep s (T1 ++ (false, n) :: T2) -> bp = h0 + HEADER * total T1 -> around s T1 n T2 bp p ps L R ->
  but_at bp (um_w s) w1 -> but_at p w1 w2 -> kept (T1 ++ (true, n) :: T2) s (Um w2 fp (um_brk s)).
Proof.
  intros Hrep -> Har H1 H2 x m z Hx Hz. pose proof (rp_pos _ _ Hrep) as HposT.
  assert (pos (T1 ++ (true, n) :: T2)) as HposT'.
  { rewrite pos_app, pos_cons in *. tauto. }
  assert ((x, m) ∈ used h0 (T1 ++ (false, n) :: T2)) as Hx'.
  { rewrite !blocks_app in *. cbn in *. apply elem_of_app in Hx as [?|?]; apply elem_of_app; [by left|right; by right]. }
  assert (h0 + HEADER * total T1 + HEADER <= x \/ x + HEADER * m <= h0 + HEADER * total T1) as Hd.
  { destruct (node_used (T1 ++ (true, n) :: T2) (h0 + HEADER * total T1) n x m); [done| |done|tauto|tauto].
    right. rewrite blocks_app. apply elem_of_app. right. left. }
  assert ((p, ps) ∈ (base, 0) :: frees h0 (T1 ++ (false, n) :: T2)) as Hin.
  { rewrite (ar_nodes _ _ _ _ _ _ _ _ _ Har). apply elem_of_app. right. left. }
  destruct (node_used _ p ps x m HposT Hin Hx'); cbn;
    rewrite H2, H1; try done; unfold s_ptr, s_size, HEADER in *; lia.
Qed.

(** The heap it leaves. *)
Lemma free_rep s T1 n T2 bp p ps L R w1 w2 :
  rep s (T1 ++ (false, n) :: T2) -> bp = h0 + HEADER * total T1 -> around s T1 n T2 bp p ps L R ->
  but_at bp (um_w s) w1 -> but_at p w1 w2 ->
  seg w2 base (L ++ link_left p ps (link_right bp n R)) base ->
  rep (Um w2 p (um_brk s)) (coalesce (T1 ++ (true, n) :: T2)).
Proof.
  intros Hrep Hbp Har H1 H2 Hseg. pose proof (free_keeps _ _ _ _ _ _ _ _ _ _ _ p Hrep Hbp Har H1 H2) as Hk.
  pose proof (rp_pos _ _ Hrep) as [P1 [Pn P2]%pos_cons]%pos_app.
  pose proof (rp_apart _ _ Hrep) as (A1 & [_ A2] & _)%apart_app.
  assert ((base, 0) :: frees h0 (coalesce (T1 ++ (true, n) :: T2)) = L ++ link_left p ps (link_right bp n R)) as EF.
  { rewrite (frees_coalesce base h0 T1 n T2 L p ps), <- Hbp, (ar_high _ _ _ _ _ _ _ _ _ Har); try done.
    apply (ar_low _ _ _ _ _ _ _ _ _ Har). }
  split; cbn [um_w um_brk um_freep].
  - apply coalesce_pos. rewrite pos_app, pos_cons. done.
  - apply coalesce_is_apart.
  - rewrite coalesce_total, (rp_brk _ _ Hrep), !total_app. done.
  - apply (rp_top _ _ Hrep).
  - by rewrite EF.
  - rewrite EF, fmap_app. apply elem_of_app. right.
    destruct (link_right bp n R) as [|[q k] l]; cbn; [|case_match]; left.
  - intros x m Hx. rewrite coalesce_used in Hx. assert (0 < m) as Hm.
    { by destruct (blocks_in false h0 (T1 ++ (true, n) :: T2) x m) as (_ & _ & ? & _); [rewrite pos_app, pos_cons|..]. }
    change w2 with (um_w (Um w2 p (um_brk s))). rewrite (Hk x m) by (done || unfold s_size, HEADER; lia).
    apply (rp_size _ _ Hrep). rewrite blocks_app in *. apply elem_of_app.
    apply elem_of_app in Hx as [?|?]; [by left|right]. by right.
Qed.

Lemma free_spec fuel s T1 n T2 ap : rep s (T1 ++ (false, n) :: T2) -> ap = h0 + HEADER * total T1 + HEADER ->
  (length (frees h0 (T1 ++ (false, n) :: T2)) + 1 < fuel)%nat ->
  wp (free fuel ap) (fun _ s' =>
    rep s' (coalesce (T1 ++ (true, n) :: T2)) /\ kept (T1 ++ (true, n) :: T2) s s' /\ um_brk s' = um_brk s) s.
Proof.
  intros Hrep Hap Hfuel. set (bp := h0 + HEADER * total T1) in *.
  destruct (around_block s T1 n T2 bp Hrep eq_refl) as (p & ps & L & R & Har).
  destruct s as [w fp brk]. pose proof (rp_seg _ _ Hrep) as Hseg. cbn [um_w] in Hseg.
  pose proof (nodes_rising _ (rp_pos _ _ Hrep)) as Hris. pose proof (rp_freep _ _ Hrep) as Hfp. cbn [um_freep] in Hfp.
  assert (S (length (frees h0 (T1 ++ (false, n) :: T2))) = length L + S (length R))%nat as Hlen.
  { change (length ((base, 0%Z) :: frees h0 (T1 ++ (false, n) :: T2)) = length L + S (length R))%nat.
    rewrite (ar_nodes _ _ _ _ _ _ _ _ _ Har), length_app. done. }
  rewrite (ar_nodes _ _ _ _ _ _ _ _ _ Har) in Hseg, Hris, Hfp.
  destruct (ar_p _ _ _ _ _ _ _ _ _ Har) as (Hps & Hbp' & Hpe & Hpb).
  destruct (ar_bp _ _ _ _ _ _ _ _ _ Har) as (Hn & Hbp0 & Hbpe).
  pose proof (ar_R _ _ _ _ _ _ _ _ _ Har) as HR. pose proof (ar_L _ _ _ _ _ _ _ _ _ Har) as HL.
  assert (hplus ap (-1) = bp) as Ebp by (unfold hplus, TOP, HEADER in *; rewrite u32_lt; lia).
  unfold free. rewrite Ebp. kstep. cbn [um_freep].
  assert (free_loop fuel bp fp (Um w fp brk) = Ok p (Um w fp brk)) as Hloop.
  { apply (free_loop_finds base bp w fp brk p ps L R Hseg (ar_base _ _ _ _ _ _ _ _ _ Har)); [..|done|done|lia].
    - intros x m Hx. specialize (HL x m Hx). unfold HEADER in *. lia.
    - unfold HEADER in *. lia.
    - intros x m Hx. specialize (HR x m Hx). unfold HEADER in *. lia. }
  unfold wp at 1. rewrite Hloop. unfold ld at 1. kstep. unfold ld at 1. kstep. cbn [um_w].
  assert (w (s_size bp) = n) as En.
  { apply (rp_size _ _ Hrep). rewrite blocks_app. apply elem_of_app. right. left. }
  pose proof Hseg as (_ & Enx & HsR)%seg_at. rewrite En, Enx.
  assert (sep bp (L ++ [(p, ps)])) as Hsep.
  { apply sep_app. split; [intros y m Hy; specialize (HL y m Hy); unfold HEADER in *; lia|].
    intros y m Hy. apply list_elem_of_singleton in Hy. simplify_eq. lia. }
  assert (sep bp R) as HsepR by (intros y m Hy; specialize (HR y m Hy); unfold HEADER in *; lia).
  apply rising_sep, sep_app in Hris as [HspL HspR].
  apply join_right; [unfold TOP, HEADER in *; (lia || auto)..|]; [|done..|].
  { intros q m Hq. specialize (HR q m Hq). unfold TOP, HEADER in *. lia. }
  intros w1 Hw1 Hseg1. apply wp_bind2'.
  destruct (link_right_head bp n R) as (m & R' & ER). rewrite ER in Hseg1.
  assert (0 <= m /\ ps + m < 2 ^ 32) as [Hm Hpm].
  { destruct (link_right_in _ _ _ _ _ ER) as [[->|(q & k & Hq & -> & _)] _]; [unfold TOP, HEADER in *; lia|].
    specialize (HR q k Hq). unfold TOP, HEADER in *. lia. }
  apply (join_left w1 fp brk base p ps L bp m R' (node_or R base)); [unfold TOP, HEADER in *; lia..| |done|done| |].
  - change (L ++ (p, ps) :: R) with (L ++ [(p, ps)] ++ R) in Hseg. rewrite app_assoc in Hseg.
    apply seg_app in Hseg as (c & Hs1 & Hs2). rewrite <- (seg_start _ _ _ _ Hs2).
    by apply (seg_sep w _ bp).
  - intros y k [[= -> ->]|Hy]%elem_of_cons; [lia|]. apply (HspR y k).
    by apply (link_right_in _ _ _ _ _ ER).
  - intros w2 Hw2 Hseg2. unfold set_freep. kstep. cbn [um_w um_brk]. split_and!; [|by apply (free_keeps (Um w fp brk) T1 n T2 bp p ps L R w1 w2 p)|done].
    apply (free_rep (Um w fp brk) T1 n T2 bp p ps L R w1 w2); [done..|]. by rewrite ER.
Qed.
(** ** Taking a block *)

Definition carve (m n : Z) : list tile := if m =? n then [] else [(true, m - n)].

Lemma rising_unique A1 x m B1 A2 m' B2 :
  rising (A1 ++ (x, m) :: B1) -> A1 ++ (x, m) :: B1 = A2 ++ (x, m') :: B2 -> A1 = A2.
Proof.
  revert A2. induction A1 as [|[y k] A1 IH]; intros [|t A2] Hr E; cbn in *; [done|..].
  - injection E as <- ->. assert (x + HEADER <= x); [|unfold HEADER in *; lia].
    apply (Hr [] x m (A2 ++ (x, m') :: B2) x m'); [done|]. apply elem_of_app. right. left.
  - injection E as <- <- <-. assert (y + HEADER <= y); [|unfold HEADER in *; lia].
    apply (Hr [] y k (A1 ++ (y, m) :: B1) y m); [done|]. apply elem_of_app. right. left.
  - injection E as <- E. f_equal. apply IH; [|done].
    intros C z j D u i ED Hu. apply (Hr ((y, k) :: C) z j D u i); [|done]. cbn. by rewrite ED.
Qed.

(** The node that points to a node is the one before it. *)
Lemma seg_pred w L p ps x m B prev : rising (L ++ (p, ps) :: (x, m) :: B) ->
  seg w base (L ++ (p, ps) :: (x, m) :: B) base -> base = node_or L p ->
  prev ∈ (L ++ (p, ps) :: (x, m) :: B).*1 -> w (s_ptr prev) = x -> prev = p.
Proof.
  intros Hr Hs Hb [[y k] [-> Hin]]%list_elem_of_fmap Hw. cbn [fst] in *.
  apply list_elem_of_split in Hin as (C & D & E). pose proof Hs as Hs'. rewrite E in Hs'.
  apply seg_at in Hs' as (_ & Hn & _). rewrite Hw in Hn.
  assert (base <> x) as Hne.
  { intros ->. destruct L as [|[z j] L]; cbn in Hb.
    - assert (p + HEADER <= x); [|unfold HEADER in *; lia]. apply (Hr [] p ps ((x, m) :: B) x m); [done|left].
    - assert (z + HEADER <= x); [|unfold HEADER in *; lia].
      apply (Hr [] z j (L ++ (p, ps) :: (x, m) :: B) x m); [done|]. apply elem_of_app. right. right. left. }
  destruct D as [|[z j] D]; cbn in Hn; [congruence|]. subst z.
  change (L ++ (p, ps) :: (x, m) :: B) with (L ++ [(p, ps)] ++ (x, m) :: B) in *.
  change (C ++ (y, k) :: (x, j) :: D) with (C ++ [(y, k)] ++ (x, j) :: D) in E. rewrite !app_assoc in *.
  pose proof (rising_unique _ _ _ _ _ _ _ Hr E) as E'. by apply app_inj_tail in E' as [_ [= -> _]].
Qed.
Lemma seg_skip w L p ps x m R : seg w base (L ++ (p, ps) :: (x, m) :: R) base -> sep p (L ++ (x, m) :: R) ->
  seg (fupd w (s_ptr p) (w (s_ptr x))) base (L ++ (p, ps) :: R) base.
Proof.
  intros (c & HL & -> & Hp & _ & Hx & HR)%seg_app [SL SR]%sep_app.
  assert (forall l a b, sep p l -> seg w a l b -> seg (fupd w (s_ptr p) (w (s_ptr x))) a l b) as Hf
    by (intros l a b Hl; apply (seg_sep w _ p); [intros z ? ?; by mem|done]).
  apply seg_app. exists p. split; [by apply Hf|]. cbn. mem. split_and!; [done..|].
  apply Hf; [|done]. intros y k Hy. apply (SR y k). by right.
Qed.

Lemma seg_resize w N x m n y v R : seg w base (N ++ (x, m) :: R) base -> sep x (N ++ R) -> sep y (N ++ R) ->
  x + HEADER <= y ->
  seg (fupd (fupd w (s_size x) n) (s_size y) v) base (N ++ (x, n) :: R) base.
Proof.
  intros (c & HN & -> & Hx & HR)%seg_app [XN XR]%sep_app [YN YR]%sep_app Hy.
  assert (forall l a b, sep x l -> sep y l -> seg w a l b ->
    seg (fupd (fupd w (s_size x) n) (s_size y) v) a l b) as Hf.
  { intros l a b Hx' Hy' Hl. apply (seg_sep (fupd w (s_size x) n) _ y); [intros z ? ?; by mem|done|].
    apply (seg_sep w _ x); [intros z ? ?; by mem|done|done]. }
  apply seg_app. exists x. split; [by apply Hf|]. cbn. mem. split_and!; [done..|]. by apply Hf.
Qed.

(** The nodes and the blocks in use on both sides of a free block. *)
Record sides (T1 : list tile) (m : Z) (T2 : list tile) (x : Z) (N R : list (Z * Z)) : Prop := {
  sd_low : (base, 0) :: frees h0 T1 = N;
  sd_high : frees (x + HEADER * m) T2 = R;
  sd_nodes : (base, 0) :: frees h0 (T1 ++ (true, m) :: T2) = N ++ (x, m) :: R;
  sd_N : forall y k, (y, k) ∈ N -> y + HEADER <= x;
  sd_R : forall y k, (y, k) ∈ R -> x + HEADER * m <= y;
  sd_used : forall y k, (y, k) ∈ used h0 (T1 ++ (true, m) :: T2) ->
    0 < k /\ (y + HEADER * k <= x \/ x + HEADER * m <= y);
  sd_x : 0 < m /\ h0 <= x /\ x + HEADER * m <= TOP }.

Lemma take_sides s T1 m T2 x : rep s (T1 ++ (true, m) :: T2) -> x = h0 + HEADER * total T1 ->
  sides T1 m T2 x ((base, 0) :: frees h0 T1) (frees (x + HEADER * m) T2).
Proof.
  intros Hrep Hx. pose proof (rp_pos _ _ Hrep) as HposT. pose proof HposT as [P1 [Pm P2]%pos_cons]%pos_app.
  pose proof (pos_total T1 P1) as Ht1. pose proof (pos_total T2 P2) as Ht2.
  pose proof (rp_brk _ _ Hrep) as Hbrk. pose proof (rp_top _ _ Hrep) as Htop.
  rewrite total_app in Hbrk. cbn in Hbrk. split; try done.
  - rewrite blocks_app, Hx. done.
  - intros y k [[= -> ->]|Hin]%elem_of_cons; [unfold HEADER in *; lia|].
    destruct (blocks_in _ _ _ _ _ P1 Hin) as (? & ? & ? & _). unfold HEADER in *. lia.
  - intros y k Hin. by destruct (blocks_in _ _ _ _ _ P2 Hin) as (? & _).
  - intros y k Hy. destruct (blocks_in _ _ _ _ _ HposT Hy) as (_ & _ & ? & _). split; [done|].
    assert ((x, m) ∈ frees h0 (T1 ++ (true, m) :: T2)) as Hin
      by (rewrite blocks_app, Hx; apply elem_of_app; right; left).
    destruct (blocks_disj _ _ _ _ _ _ HposT Hin Hy); lia.
  - unfold HEADER in *. lia.
Qed.

Lemma used_take T1 m n T2 a : pos T1 -> 0 < n <= m ->
  used a (T1 ++ carve m n ++ (false, n) :: T2) =
  used a T1 ++ (a + HEADER * (total T1 + (m - n)), n) :: used (a + HEADER * total T1 + HEADER * m) T2.
Proof.
  intros P1 Hn. rewrite blocks_app. f_equal. unfold carve. destruct (Z.eqb_spec m n) as [->|]; cbn.
  - f_equal. f_equal. unfold HEADER. lia.
  - f_equal; [f_equal|f_equal]; unfold HEADER; lia.
Qed.

(** The heap after a block has been taken. *)
Lemma take_rep s w' fp T1 m n T2 x N R :
  rep s (T1 ++ (true, m) :: T2) -> x = h0 + HEADER * total T1 -> 0 < n <= m -> sides T1 m T2 x N R ->
  seg w' base (N ++ frees x (carve m n) ++ R) base -> fp ∈ N.*1 \/ fp ∈ R.*1 \/ m <> n /\ fp = x ->
  w' (s_size (x + HEADER * (m - n))) = n ->
  (forall y k z, (y, k) ∈ used h0 (T1 ++ (true, m) :: T2) -> s_size y <= z < y + HEADER * k -> w' z = um_w s z) ->
  rep (Um w' fp (um_brk s)) (T1 ++ carve m n ++ (false, n) :: T2).
Proof.
  intros Hrep Hx Hn Hsd Hseg Hfp Hsize Hkeep.
  pose proof (rp_pos _ _ Hrep) as HposT. pose proof HposT as [P1 [Pm P2]%pos_cons]%pos_app.
  pose proof (rp_apart _ _ Hrep) as (A1 & [_ A2] & A3)%apart_app.
  assert ((base, 0) :: frees h0 (T1 ++ carve m n ++ (false, n) :: T2) = N ++ frees x (carve m n) ++ R) as EF.
  { rewrite blocks_app, app_comm_cons, (sd_low _ _ _ _ _ _ Hsd), <- (sd_high _ _ _ _ _ _ Hsd), Hx. f_equal.
    rewrite blocks_app. f_equal. cbn. f_equal. unfold carve. destruct (Z.eqb_spec m n) as [->|]; cbn; unfold HEADER; lia. }
  split; cbn [um_w um_brk um_freep].
  - rewrite !pos_app, pos_cons. split_and!; try done; [|lia].
    unfold carve. destruct (Z.eqb_spec m n); [by constructor|]. rewrite pos_cons. split; [lia|constructor].
  - apply apart_app. unfold carve. destruct (Z.eqb_spec m n); cbn in *; rewrite ?andb_false_r, ?andb_true_r in *; done.
  - rewrite (rp_brk _ _ Hrep), !total_app. cbn. f_equal. f_equal.
    unfold carve. destruct (Z.eqb_spec m n); cbn; lia.
  - apply (rp_top _ _ Hrep).
  - by rewrite EF.
  - rewrite EF, !fmap_app, !elem_of_app. destruct Hfp as [?|[?|[? ->]]]; [by left|by right; right|right; left].
    unfold carve. rewrite (proj2 (Z.eqb_neq _ _)) by done. left.
  - intros y k Hy. rewrite used_take in Hy by done. apply elem_of_app in Hy as [Hy|Hy].
    2: apply elem_of_cons in Hy as [[= -> ->]|Hy].
    2: { rewrite <- Hsize at 2. do 2 f_equal. unfold HEADER in *. lia. }
    all: assert ((y, k) ∈ used h0 (T1 ++ (true, m) :: T2)) as Hu
      by (rewrite blocks_app; apply elem_of_app; (by left) || by right).
    all: destruct (sd_used _ _ _ _ _ _ Hsd _ _ Hu) as [? _].
    all: rewrite (Hkeep y k) by (done || unfold s_size, HEADER; lia); by apply (rp_size _ _ Hrep).
Qed.
(** A free block of [T] gives [n] headers, and the program the address after
    the first of them. *)
Inductive takes (T : list tile) (n : Z) : Z -> list tile -> Prop :=
| Takes T1 m T2 : T = T1 ++ (true, m) :: T2 -> n <= m ->
    takes T n (h0 + HEADER * (total T1 + (m - n)) + HEADER) (T1 ++ carve m n ++ (false, n) :: T2).

Lemma malloc_found can_grow fuel nunits prevp p s : nunits <= um_w s (s_size p) ->
  malloc_loop can_grow fuel nunits prevp p s =
  if um_w s (s_size p) =? nunits then Ok (hplus p 1) (Um (fupd (um_w s) (s_ptr prevp) (um_w s (s_ptr p))) prevp (um_brk s))
  else let y := hplus p (um_w s (s_size p) - nunits) in
    Ok (hplus y 1) (Um (fupd (fupd (um_w s) (s_size p) (um_w s (s_size p) - nunits)) (s_size y) nunits) prevp (um_brk s)).
Proof.
  intros Hle. destruct fuel; cbn [malloc_loop]; unfold bind, ld, gets;
    rewrite (proj2 (Z.leb_le _ _) Hle); by destruct (um_w s (s_size p) =? nunits).
Qed.

Lemma take_spec s T nunits prevp x m fuel (can_grow : Z -> Z -> bool) :
  rep s T -> 0 < nunits <= m -> (x, m) ∈ (base, 0) :: frees h0 T ->
  prevp ∈ ((base, 0) :: frees h0 T).*1 -> um_w s (s_ptr prevp) = x ->
  wp (malloc_loop can_grow fuel nunits prevp x) (fun p s' =>
    exists T', takes T nunits p T' /\ rep s' T' /\ kept T s s') s.
Proof.
  intros Hrep Hn Hin Hprev Hpx. apply elem_of_cons in Hin as [[= -> ->]|Hin]; [lia|].
  apply blocks_split in Hin as (T1 & T2 & -> & Hx). pose proof (take_sides _ _ _ _ _ Hrep Hx) as Hsd.
  destruct (exists_last (l := (base, 0) :: frees h0 T1)) as (L & [p ps] & EL); [done|].
  set (R := frees (x + HEADER * m) T2) in *.
  pose proof (rp_seg _ _ Hrep) as Hseg. pose proof (nodes_rising _ (rp_pos _ _ Hrep)) as Hris.
  rewrite (sd_nodes _ _ _ _ _ _ Hsd) in Hseg, Hris, Hprev.
  pose proof Hris as Hsx%rising_sep. pose proof (sd_x _ _ _ _ _ _ Hsd) as (Hm & Hx0 & Hxe).
  pose proof Hseg as (Esz & _)%seg_at.
  assert (forall y, x <= y -> y + HEADER <= x + HEADER * m -> sep y (((base, 0) :: frees h0 T1) ++ R)) as Hsy.
  { intros y Hy1 Hy2 z k [Hz|Hz]%elem_of_app; [apply (sd_N _ _ _ _ _ _ Hsd) in Hz|apply (sd_R _ _ _ _ _ _ Hsd) in Hz]; lia. }
  unfold wp. rewrite malloc_found by (rewrite Esz; lia). rewrite Esz.
  assert (hplus x (m - nunits) = x + HEADER * (m - nunits)) as Eh
    by (unfold hplus; rewrite u32_lt; unfold TOP, HEADER in *; lia).
  rewrite Eh.
  assert (forall y, h0 <= y -> y + HEADER <= TOP -> hplus y 1 = y + HEADER) as E1
    by (intros; unfold hplus; rewrite u32_lt; unfold TOP, HEADER in *; lia).
  assert (h0 + HEADER * (total T1 + (m - nunits)) + HEADER = hplus (x + HEADER * (m - nunits)) 1) as Ep
    by (rewrite E1; unfold HEADER in *; lia).
  destruct (Z.eqb_spec m nunits) as [->|Hne].
  - eexists. split.
    { replace (hplus x 1) with (hplus (x + HEADER * (nunits - nunits)) 1) by (f_equal; lia).
      rewrite <- Ep. by constructor. }
    rewrite EL, <- app_assoc in Hseg, Hris, Hprev. cbn [app] in Hseg, Hris, Hprev.
    assert (base = node_or L p) as Eb by (destruct L as [|[z j] L]; by injection EL).
    pose proof (seg_pred _ _ _ _ _ _ _ _ Hris Hseg Eb Hprev Hpx) as ->.
    assert (sep p (L ++ (x, nunits) :: R)) as Hsp by (by apply rising_sep in Hris).
    assert ((p, ps) ∈ (base, 0) :: frees h0 (T1 ++ (true, nunits) :: T2)) as Hp.
    { rewrite (sd_nodes _ _ _ _ _ _ Hsd), EL, <- app_assoc. apply elem_of_app. right. left. }
    assert (forall y k z, (y, k) ∈ used h0 (T1 ++ (true, nunits) :: T2) -> s_size y <= z < y + HEADER * k ->
      fupd (um_w s) (s_ptr p) (um_w s (s_ptr x)) z = um_w s z) as Hk.
    { intros y k z Hy Hz. destruct (node_used _ _ _ _ _ (rp_pos _ _ Hrep) Hp Hy); by mem. }
    split; [|exact Hk]. apply (take_rep _ _ _ _ _ _ _ _ _ _ Hrep Hx Hn Hsd); [..|exact Hk].
    + unfold carve. rewrite Z.eqb_refl, EL, <- app_assoc. cbn. by apply (seg_skip _ _ _ _ _ nunits).
    + left. rewrite EL, fmap_app. apply elem_of_app. right. left.
    + rewrite Z.sub_diag, Z.mul_0_r, Z.add_0_r. assert (p + HEADER <= x).
      { apply (sd_N _ _ _ _ _ _ Hsd p ps). rewrite EL. apply elem_of_app. right. left. }
      by mem.
  - eexists. split; [rewrite <- Ep; constructor; [done|lia]|].
    assert (x + HEADER <= x + HEADER * (m - nunits)) as Hxy by (unfold HEADER in *; lia).
    assert (forall y k z, (y, k) ∈ used h0 (T1 ++ (true, m) :: T2) -> s_size y <= z < y + HEADER * k ->
      fupd (fupd (um_w s) (s_size x) (m - nunits)) (s_size (x + HEADER * (m - nunits))) nunits z = um_w s z) as Hk.
    { intros y k z Hy Hz. destruct (sd_used _ _ _ _ _ _ Hsd _ _ Hy) as [? [?|?]]; by mem. }
    split; [|exact Hk]. apply (take_rep _ _ _ _ _ _ _ _ _ _ Hrep Hx Hn Hsd); [..|exact Hk].
    + unfold carve. rewrite (proj2 (Z.eqb_neq _ _) Hne). cbn.
      apply (seg_resize _ ((base, 0) :: frees h0 T1) x m); [done|done| |done].
      apply Hsy; unfold HEADER in *; lia.
    + rewrite fmap_app in Hprev. apply elem_of_app in Hprev as [?|[->|?]%elem_of_cons]; auto.
    + by mem.
Qed.
(** ** The search of [malloc] *)

Section search.
Context (can_grow : Z -> Z -> bool) (nunits : Z).

Lemma malloc_next fuel prevp p s : um_w s (s_size p) < nunits -> p <> um_freep s ->
  malloc_loop can_grow (S fuel) nunits prevp p s = malloc_loop can_grow fuel nunits p (um_w s (s_ptr p)) s.
Proof.
  intros Hlt Hne. cbn [malloc_loop]. unfold bind, ld, gets.
  rewrite (proj2 (Z.leb_gt _ _) Hlt), (proj2 (Z.eqb_neq _ _) Hne). done.
Qed.

(** From [prevp] to [freep]: the first block that is large enough, or the
    end of the round. *)
Definition found (s : um) (l : list (Z * Z)) (r : outcome um Z) : Prop :=
  exists prev x m fuel, (x, m) ∈ l /\ nunits <= m /\ um_w s (s_ptr prev) = x /\ prev ∈ um_freep s :: l.*1 /\
    r = malloc_loop can_grow fuel nunits prev x s.

Lemma malloc_walk s f fs l prevp p c fuel : um_freep s = f ->
  seg (um_w s) p (l ++ [(f, fs)]) c -> um_w s (s_ptr prevp) = p ->
  (forall x m, (x, m) ∈ l -> x <> f) -> (length l < fuel)%nat ->
  (forall l', prevp ∈ f :: l'.*1 -> found s (l' ++ l ++ [(f, fs)]) (malloc_loop can_grow fuel nunits prevp p s)) \/
  (forall x m, (x, m) ∈ l ++ [(f, fs)] -> m < nunits) /\
  exists prev, malloc_loop can_grow fuel nunits prevp p s = malloc_loop can_grow (fuel - length l) nunits prev f s.
Proof.
  intros Hf. revert prevp p fuel. induction l as [|[x m] l IH]; intros prevp p fuel Hs Hp Hne Hfuel.
  - cbn in Hs. destruct Hs as (-> & Hfs & _). destruct (Z.le_gt_cases nunits fs).
    + left. intros l' Hl'. exists prevp, f, fs, fuel. split_and!; try done.
      * apply elem_of_app. right. left.
      * rewrite Hf. rewrite fmap_app. apply elem_of_cons in Hl' as [->|?]; [left|right; apply elem_of_app; by left].
    + right. split; [|exists prevp; cbn [length]; by rewrite Nat.sub_0_r].
      intros x m Hx. apply list_elem_of_singleton in Hx. by simplify_eq.
  - cbn in Hs. destruct Hs as (-> & Hm & Hs). destruct (Z.le_gt_cases nunits m).
    + left. intros l' Hl'. exists prevp, x, m, fuel. split_and!; try done.
      * apply elem_of_app. right. left.
      * rewrite Hf. rewrite fmap_app. apply elem_of_cons in Hl' as [->|?]; [left|right; apply elem_of_app; by left].
    + destruct fuel as [|fuel]; [cbn in Hfuel; lia|].
      rewrite malloc_next; [|lia|rewrite Hf; apply (Hne x m); left].
      destruct (IH x (um_w s (s_ptr x)) fuel) as [Hl|[Hall [prev Hr]]]; try done.
      * intros y k Hy. apply (Hne y k). by right.
      * cbn in Hfuel. lia.
      * left. intros l' Hl'. replace (l' ++ ((x, m) :: l) ++ [(f, fs)]) with ((l' ++ [(x, m)]) ++ l ++ [(f, fs)])
          by (by rewrite <- app_assoc).
        apply Hl. right. rewrite fmap_app. apply elem_of_app. right. left.
      * right. split; [|by exists prev]. intros y k [[= -> ->]|Hy]%elem_of_cons; [done|by apply (Hall y k)].
Qed.

(** One round from [freep]. *)
Lemma malloc_round s T fuel : rep s T -> 0 < nunits -> (length T < fuel)%nat ->
  (exists prev x m fuel', (x, m) ∈ (base, 0) :: frees h0 T /\ nunits <= m /\ um_w s (s_ptr prev) = x /\
     prev ∈ ((base, 0) :: frees h0 T).*1 /\
     malloc_loop can_grow fuel nunits (um_freep s) (um_w s (s_ptr (um_freep s))) s =
     malloc_loop can_grow fuel' nunits prev x s) \/
  (forall x m, (x, m) ∈ frees h0 T -> m < nunits) /\ um_w s (s_size (um_freep s)) < nunits /\
  exists prev fuel', (fuel <= fuel' + length T)%nat /\
    malloc_loop can_grow fuel nunits (um_freep s) (um_w s (s_ptr (um_freep s))) s =
    malloc_loop can_grow fuel' nunits prev (um_freep s) s.
Proof.
  intros Hrep Hn Hfuel. pose proof (rp_freep _ _ Hrep) as Hfp.
  apply list_elem_of_fmap in Hfp as ([f fs] & Ef & Hin). cbn in Ef.
  apply list_elem_of_split in Hin as (A & B & EN). pose proof (rp_seg _ _ Hrep) as Hseg. rewrite EN in Hseg.
  pose proof (nodes_rising _ (rp_pos _ _ Hrep)) as Hris. rewrite EN in Hris. apply rising_sep in Hris.
  pose proof Hseg as (Hfs & Hnx & HB)%seg_at. pose proof Hseg as (c & HA & -> & _)%seg_app.
  assert (length (B ++ A) <= length T)%nat as Hlen.
  { pose proof (blocks_length true h0 T) as Hl. apply (f_equal length) in EN. rewrite length_app in EN |- *. cbn in EN. lia. }
  assert (forall t, t ∈ B ++ A ++ [(f, fs)] <-> t ∈ (base, 0) :: frees h0 T) as Hperm.
  { intros t. rewrite EN, !elem_of_app, !elem_of_cons, elem_of_nil. tauto. }
  destruct (malloc_walk s f fs (B ++ A) (um_freep s) (um_w s (s_ptr (um_freep s))) (node_or B base) fuel)
    as [Hl|[Hall [prev Hr]]]; [done| |done| |lia|left|right].
  - rewrite <- app_assoc. rewrite Ef, Hnx. apply seg_app. exists base. split; [done|].
    apply seg_app. exists f. by split.
  - intros x m Hx ->. destruct (Hris f m); [apply elem_of_app in Hx; apply elem_of_app; tauto|unfold HEADER in *; lia..].
  - destruct (Hl []) as (prev & x & m & fuel' & Hx & Hm & Hw & Hp & Hr); [rewrite Ef; left|].
    exists prev, x, m, fuel'. cbn [app] in Hx. rewrite <- app_assoc in Hx, Hp. split_and!; [by apply Hperm|done..| |done].
    apply elem_of_cons in Hp as [->|Hp]; [apply (rp_freep _ _ Hrep)|].
    apply list_elem_of_fmap in Hp as (t & -> & Ht). apply list_elem_of_fmap. exists t. split; [done|]. by apply Hperm.
  - rewrite <- app_assoc in Hall. split_and!.
    + intros x m Hx. apply (Hall x m), Hperm. by right.
    + rewrite Ef, Hfs. apply (Hall f fs). rewrite !elem_of_app. right. right. left.
    + exists prev, (fuel - length (B ++ A))%nat. split; [lia|]. by rewrite Hr, Ef.
Qed.

(** ** Growth *)

Context (Hgrow : forall b n, can_grow b n = true -> b + n <= TOP).

Lemma grow_rep s T nu : rep s T -> 0 < nu -> um_brk s + HEADER * nu <= TOP ->
  rep (Um (fupd (um_w s) (s_size (um_brk s)) nu) (um_freep s) (um_brk s + HEADER * nu)) (T ++ [(false, nu)]).
Proof.
  intros Hrep Hnu Htop. pose proof (rp_pos _ _ Hrep) as Hpos. pose proof (rp_brk _ _ Hrep) as Hbrk.
  assert (frees h0 (T ++ [(false, nu)]) = frees h0 T) as EF by (rewrite blocks_app; cbn; apply app_nil_r).
  split; cbn [um_w um_brk um_freep]; rewrite ?EF.
  - rewrite pos_app, pos_cons. split_and!; [done..|constructor].
  - rewrite apart_app. cbn. rewrite andb_false_r. split_and!; [apply (rp_apart _ _ Hrep)|done..].
  - rewrite total_app, Hbrk. cbn. unfold HEADER. lia.
  - done.
  - apply (seg_sep (um_w s) _ (um_brk s)); [intros z ? ?; by mem| |apply (rp_seg _ _ Hrep)].
    intros y m [[= -> ->]|Hy]%elem_of_cons.
    + pose proof (pos_total T Hpos). unfold HEADER in *. lia.
    + destruct (blocks_in _ _ _ _ _ Hpos Hy) as (? & ? & ? & _). unfold HEADER in *. lia.
  - apply (rp_freep _ _ Hrep).
  - intros x n Hx. rewrite blocks_app in Hx. apply elem_of_app in Hx as [Hx|Hx].
    + destruct (blocks_in _ _ _ _ _ Hpos Hx) as (? & ? & ? & _). rewrite fupd_ne; [by apply (rp_size _ _ Hrep)|].
      unfold s_size, HEADER in *. lia.
    + cbn in Hx. apply list_elem_of_singleton in Hx. simplify_eq. rewrite <- Hbrk. by rewrite fupd_eq.
Qed.

Definition grown (T : list tile) : list tile := coalesce (T ++ [(true, Z.max 4096 nunits)]).

Lemma morecore_spec fuel s T : rep s T -> 0 < nunits < 2 ^ 28 -> (length T + 2 < fuel)%nat ->
  wp (morecore can_grow fuel nunits) (fun p s' =>
    (p = 0 /\ s' = s /\ can_grow (um_brk s) (HEADER * Z.max 4096 nunits) = false) \/
    (p = um_freep s' /\ can_grow (um_brk s) (HEADER * Z.max 4096 nunits) = true /\ rep s' (grown T) /\ kept T s s')) s.
Proof.
  intros Hrep Hn Hfuel. unfold morecore.
  replace (if nunits <? 4096 then 4096 else nunits) with (Z.max 4096 nunits) by (destruct (Z.ltb_spec nunits 4096); lia).
  unfold grown. set (nu := Z.max 4096 nunits). cbv zeta.
  assert (s32 (nu * HEADER) = HEADER * nu) as -> by (unfold s32; rewrite sgn_small; unfold HEADER; lia).
  pose proof (rp_brk _ _ Hrep) as Hbrk. pose proof (rp_pos _ _ Hrep) as Hpos. pose proof (pos_total T Hpos) as Ht.
  unfold sbrk. kstep. destruct (can_grow (um_brk s) (HEADER * nu)) eqn:Eg; kstep.
  2: { cbn. kstep. by left. }
  pose proof (Hgrow _ _ Eg) as Hg. rewrite (proj2 (Z.eqb_neq _ _)) by (unfold HEADER in *; lia). unfold st. kstep. cbn [um_w um_freep um_brk].
  pose proof (grow_rep s T nu Hrep ltac:(lia) Hg) as Hrep'.
  eapply wp_mono; [apply (free_spec fuel _ T nu [] _ Hrep')|].
  - unfold hplus. rewrite u32_lt, Hbrk; unfold TOP, HEADER in *; lia.
  - pose proof (blocks_length true h0 (T ++ [(false, nu)])) as Hl. rewrite length_app in Hl. cbn in Hl. lia.
  - intros _ s' (Hr & Hk & _). kstep. right. split_and!; [done..|]. intros x m z Hx Hz.
    rewrite (Hk x m) by (done || (rewrite blocks_app; apply elem_of_app; by left)). cbn.
    destruct (blocks_in _ _ _ _ _ Hpos Hx) as (? & ? & ? & _). rewrite fupd_ne; [done|].
    unfold s_size, HEADER in *. lia.
Qed.

(** The answers of [malloc]: none, when there is no block and no growth, or a
    block of the heap, grown when no free block was large enough. *)
Definition grows (T : list tile) (s : um) (b : bool) : Prop :=
  can_grow (um_brk s) (HEADER * Z.max 4096 nunits) = b /\ forall x m, (x, m) ∈ frees h0 T -> m < nunits.

Definition served (T : list tile) (s : um) (p : Z) (s' : um) : Prop :=
  (p = 0 /\ s' = s /\ grows T s false) \/
  (exists Tg T', (Tg = T \/ Tg = grown T /\ grows T s true) /\ takes Tg nunits p T' /\ rep s' T' /\ kept T s s').

Lemma malloc_loop_spec fuel s T : rep s T -> 0 < nunits < 2 ^ 28 -> (2 * length T + 6 < fuel)%nat ->
  wp (malloc_loop can_grow fuel nunits (um_freep s) (um_w s (s_ptr (um_freep s)))) (served T s) s.
Proof.
  intros Hrep Hn Hfuel.
  destruct (malloc_round s T fuel Hrep ltac:(lia) ltac:(lia))
    as [(prev & x & m & fuel' & Hx & Hm & Hw & Hp & E)|(Hall & Hfp & prev & fuel' & Hf & E)]; unfold wp at 1; rewrite E.
  - change (wp (malloc_loop can_grow fuel' nunits prev x) (served T s) s).
    eapply wp_mono; [apply (take_spec s T nunits prev x m); (done || lia)|].
    intros p s' (T' & ? & ? & ?). right. exists T, T'. auto.
  - change (wp (malloc_loop can_grow fuel' nunits prev (um_freep s)) (served T s) s).
    destruct fuel' as [|fuel']; [lia|]. cbn [malloc_loop]. unfold ld at 1. kstep.
    rewrite (proj2 (Z.leb_gt _ _) Hfp). kstep. rewrite Z.eqb_refl. kstep.
    eapply wp_mono; [apply (morecore_spec (S fuel') s T Hrep Hn); lia|].
    intros p s1 [(-> & -> & Hg)|(-> & Hg & Hrep1 & Hk1)]; [kstep; by left|].
    assert (0 < um_freep s1) as Hpos1.
    { pose proof (rp_freep _ _ Hrep1) as ([x m] & -> & [[= -> ->]|Hin]%elem_of_cons)%list_elem_of_fmap; cbn; [done|].
      destruct (blocks_in _ _ _ _ _ (rp_pos _ _ Hrep1) Hin) as (? & _). unfold HEADER in *. lia. }
    rewrite (proj2 (Z.eqb_neq _ _)) by lia. unfold ld at 1. kstep.
    pose proof (coalesce_length (T ++ [(true, Z.max 4096 nunits)])) as Hlen. rewrite length_app in Hlen. cbn in Hlen.
    destruct (malloc_round s1 (grown T) fuel' Hrep1 ltac:(lia)) as [(prev' & x & m & fuel'' & Hx & Hm & Hw & Hp & E')|(Hall' & _)].
    { unfold grown. lia. }
    + unfold wp at 1. rewrite E'. change (wp (malloc_loop can_grow fuel'' nunits prev' x) (served T s) s1).
      eapply wp_mono; [apply (take_spec s1 (grown T) nunits prev' x m); (done || lia)|].
      intros p s' (T' & ? & ? & Hk). right. exists (grown T), T'. split_and!; [right; by split|done..|].
      apply (kept_trans _ _ s1); [done|]. intros y k z Hy Hz. apply (Hk y k); [|done].
      unfold grown. rewrite coalesce_used, blocks_app. apply elem_of_app. by left.
    + exfalso. destruct (coalesce_free T (Z.max 4096 nunits) (rp_pos _ _ Hrep) ltac:(lia)) as (A & m & B & EA & Hm).
      assert (m < nunits); [|lia]. apply (Hall' (h0 + HEADER * total A) m). unfold grown. rewrite EA, blocks_app.
      apply elem_of_app. right. left.
Qed.

End search.

(** ** The heap of a program *)

(** Before the first call, when [freep] is null, or the list. *)
Definition heap (s : um) (T : list tile) : Prop :=
  rep s T \/ T = [] /\ um_freep s = 0 /\ um_brk s = h0 /\ h0 <= TOP.

(** What a program does with it: the stores are to the blocks it was given. *)
Inductive request := Malloc (nbytes : Z) | Free (ap : Z) | Store (a v : Z).

Definition serve (can_grow : Z -> Z -> bool) (fuel : nat) (r : request) : M um Z :=
  match r with
  | Malloc n => malloc base can_grow fuel n
  | Free ap => free fuel ap ;; ret 0
  | Store a v => st a v ;; ret 0
  end.

Definition legal (T : list tile) (r : request) : Prop :=
  match r with
  | Malloc n => 0 <= n < 2 ^ 31 - 64
  | Free ap => exists x n, (x, n) ∈ used h0 T /\ ap = x + HEADER
  | Store a _ => exists x n, (x, n) ∈ used h0 T /\ x + HEADER <= a < x + HEADER * n
  end.

(** The specification, on tiles. *)
Inductive tile_step (can_grow : Z -> Z -> bool) (T : list tile) : request -> Z -> list tile -> Prop :=
| TS_full nbytes :
    can_grow (h0 + HEADER * total T) (HEADER * Z.max 4096 (units nbytes)) = false ->
    (forall x m, (x, m) ∈ frees h0 T -> HEADER * (m - 1) < nbytes) ->
    tile_step can_grow T (Malloc nbytes) 0 T
| TS_malloc nbytes p T' :
    takes T (units nbytes) p T' -> nbytes <= HEADER * (units nbytes - 1) -> 0 < p ->
    tile_step can_grow T (Malloc nbytes) p T'
| TS_grow nbytes p T' :
    can_grow (h0 + HEADER * total T) (HEADER * Z.max 4096 (units nbytes)) = true ->
    (forall x m, (x, m) ∈ frees h0 T -> HEADER * (m - 1) < nbytes) ->
    takes (coalesce (T ++ [(true, Z.max 4096 (units nbytes))])) (units nbytes) p T' ->
    nbytes <= HEADER * (units nbytes - 1) -> 0 < p ->
    tile_step can_grow T (Malloc nbytes) p T'
| TS_free T1 n T2 : T = T1 ++ (false, n) :: T2 ->
    tile_step can_grow T (Free (h0 + HEADER * total T1 + HEADER)) 0 (coalesce (T1 ++ (true, n) :: T2))
| TS_store a v : tile_step can_grow T (Store a v) 0 T.

Lemma used_disj a T x n y m : pos T -> (x, n) ∈ used a T -> (y, m) ∈ used a T ->
  x = y \/ x + HEADER * n <= y \/ y + HEADER * m <= x.
Proof.
  intros Hp. revert a. induction Hp as [|[f k] T Hk HT IH]; intros a; [by intros ?%elem_of_nil|].
  destruct f; cbn; [apply IH|].
  intros [[= -> ->]|Hx]%elem_of_cons [[= -> ->]|Hy]%elem_of_cons; [by left| | |by apply (IH (a + HEADER * k))].
  - destruct (blocks_in _ _ _ _ _ HT Hy) as (? & _). lia.
  - destruct (blocks_in _ _ _ _ _ HT Hx) as (? & _). lia.
Qed.

(** A store of the program to a block it holds. *)
Lemma store_rep s T x n a v : rep s T -> (x, n) ∈ used h0 T -> x + HEADER <= a < x + HEADER * n ->
  rep (Um (fupd (um_w s) a v) (um_freep s) (um_brk s)) T.
Proof.
  intros Hrep Hx Ha. pose proof (rp_pos _ _ Hrep) as Hpos. split; try apply Hrep.
  - apply (seg_frame (um_w s)); [|apply Hrep]. cbn [um_w]. intros y m Hy.
    destruct (node_used _ _ _ _ _ Hpos Hy Hx); split; by mem.
  - cbn [um_w]. intros y m Hy. destruct (blocks_in _ _ _ _ _ Hpos Hy) as (_ & _ & ? & _).
    destruct (used_disj _ _ _ _ _ _ Hpos Hx Hy) as [->|[?|?]]; mem; by apply Hrep.
Qed.

(** The first call makes the list of [base] alone. *)
Lemma malloc_heap can_grow fuel nbytes s T : heap s T ->
  exists s0, rep s0 T /\ kept T s s0 /\ um_brk s0 = um_brk s /\
    malloc base can_grow fuel nbytes s =
    malloc_loop can_grow fuel (units nbytes) (um_freep s0) (um_w s0 (s_ptr (um_freep s0))) s0.
Proof.
  intros [Hrep|(-> & Hf & Hb & Htop)].
  - exists s. split_and!; [done..|]. unfold malloc, bind, ld, gets. rewrite (proj2 (Z.eqb_neq _ _)); [done|].
    pose proof (rp_freep _ _ Hrep) as ([x m] & -> & [[= -> ->]|Hin]%elem_of_cons)%list_elem_of_fmap; cbn; [lia|].
    destruct (blocks_in _ _ _ _ _ (rp_pos _ _ Hrep) Hin) as (? & _). unfold HEADER in *. lia.
  - eexists (Um _ base (um_brk s)). split_and!; cycle 3.
    + unfold malloc, bind, ld, gets. rewrite Hf. cbn [Z.eqb]. unfold set_freep, st, modify, ret. reflexivity.
    + split; cbn [um_w um_brk um_freep]; try done.
      * constructor.
      * rewrite Hb. cbn. unfold HEADER. lia.
      * by rewrite Hb.
      * cbn. mem. done.
      * left.
      * by intros x n ?%elem_of_nil.
    + by intros x n z ?%elem_of_nil.
    + done.
Qed.
End heap.

Lemma units_bounds n : 0 <= n < 2 ^ 31 - 64 -> 0 < units n < 2 ^ 28 /\ n <= HEADER * (units n - 1) < n + HEADER.
Proof.
  intros Hn. unfold units. rewrite u32_lt by (unfold HEADER; lia).
  pose proof (Z.div_mod (n + HEADER - 1) HEADER ltac:(done)).
  pose proof (Z.mod_pos_bound (n + HEADER - 1) HEADER ltac:(done)). unfold HEADER in *. lia.
Qed.

(** The blocks of the program keep what it stored in them. *)
Definition contents_kept (h0 : Z) (r : request) (T T' : list tile) (s s' : um) : Prop :=
  forall x n z, (x, n) ∈ used h0 T -> (x, n) ∈ used h0 T' -> x + HEADER <= z < x + HEADER * n ->
    um_w s' z = match r with Store a v => if decide (z = a) then v else um_w s z | _ => um_w s z end.

Lemma heap_used base h0 s T x n : heap base h0 s T -> (x, n) ∈ used h0 T -> rep base h0 s T.
Proof. intros [?|(-> & _)] Hx; [done|by apply elem_of_nil in Hx]. Qed.

Lemma malloc_refines (base h0 : Z) (can_grow : Z -> Z -> bool) (fuel : nat) (s : um) (T : list tile) (nbytes : Z) :
  0 < base -> base + HEADER <= h0 -> (forall b n, can_grow b n = true -> b + n <= TOP) ->
  heap base h0 s T -> 0 <= nbytes < 2 ^ 31 - 64 -> (2 * length T + 6 < fuel)%nat ->
  wp (malloc base can_grow fuel nbytes) (fun a s' => exists T',
    tile_step h0 can_grow T (Malloc nbytes) a T' /\ heap base h0 s' T' /\ contents_kept h0 (Malloc nbytes) T T' s s') s.
Proof.
  intros Hbase Hh0 Hgrow Hheap Hn Hfuel. destruct (units_bounds nbytes Hn) as [Hu Hcap].
  destruct (malloc_heap base h0 Hbase Hh0 can_grow fuel nbytes s T Hheap) as (s0 & Hrep & Hk0 & Hb0 & E).
  unfold wp. rewrite E. eapply (wp_mono _ (served base h0 can_grow (units nbytes) T s0));
    [by apply malloc_loop_spec|].
  assert (forall b, grows h0 can_grow (units nbytes) T s0 b ->
    can_grow (h0 + HEADER * total T) (HEADER * Z.max 4096 (units nbytes)) = b /\
    forall x m, (x, m) ∈ frees h0 T -> HEADER * (m - 1) < nbytes) as Hgr.
  { intros b [Hg Hall]. rewrite (rp_brk _ _ _ _ Hrep) in Hg. split; [done|].
    intros x m Hx. specialize (Hall x m Hx). unfold HEADER in *. lia. }
  intros p s' [(-> & -> & Hg)|(Tg & T' & HTg & Htk & Hrep' & Hk)].
  - exists T. split_and!; [apply TS_full; apply (Hgr _ Hg)|by left|].
    + intros x n z Hx _ Hz. apply (Hk0 x n); [done|]. unfold s_size, HEADER in *. lia.
  - exists T'. split_and!; [|by left|].
    + assert (0 < p) as Hp.
      { destruct Htk as [T1 m T2 -> Hm]. pose proof (rp_pos _ _ _ _ Hrep') as [P1 _]%pos_app.
        pose proof (pos_total _ P1). unfold HEADER in *. lia. }
      destruct HTg as [->|[-> Hg]]; [by apply TS_malloc; [|lia|]|apply TS_grow; [apply (Hgr _ Hg)..|done|lia|done]].
    + intros x n z Hx _ Hz. rewrite (Hk x n), (Hk0 x n); [done..| |done|]; unfold s_size, HEADER in *; lia.
Qed.

(** C11. The allocator of the user programs implements the tiling of the
    heap. Whatever the requests of the program, as long as it asks for less
    than 2^31 - 64 bytes at a time, frees blocks it holds and stores only to
    them, [malloc] and [free] return; the free list in
    memory is the list of the free tiles, in order of address and with no two
    neighbours free; [malloc] answers with a block in use that was cut from a
    free tile and holds the bytes asked for, the heap grown first exactly when
    no free tile is large enough, or with null only when then it cannot grow;
    [free] gives back exactly that block; no block in use is changed. *)
Theorem umalloc_refines (base h0 : Z) (can_grow : Z -> Z -> bool) (fuel : nat) (s : um) (T : list tile) (r : request)
    (Hbase : 0 < base) (Hh0 : base + HEADER <= h0) (Hgrow : forall b n, can_grow b n = true -> b + n <= TOP)
    (Hheap : heap base h0 s T) (Hlegal : legal h0 T r) (Hfuel : (2 * length T + 6 < fuel)%nat) :
  wp (serve base can_grow fuel r) (fun a s' => exists T',
    tile_step h0 can_grow T r a T' /\ heap base h0 s' T' /\ contents_kept h0 r T T' s s') s.
Proof.
  destruct r as [nbytes|ap|a v]; cbn [serve].
  - apply malloc_refines; done.
  - destruct Hlegal as (x & n & Hx & ->). pose proof (heap_used _ _ _ _ _ _ Hheap Hx) as Hrep.
    apply blocks_split in Hx as (T1 & T2 & -> & ->). apply wp_bind.
    eapply wp_mono; [by apply (free_spec base h0 Hbase Hh0 fuel s T1 n T2); [..|pose proof (blocks_length true h0 (T1 ++ (false, n) :: T2)); lia]|].
    intros _ s' (Hr & Hk & _). apply wp_ret. eexists. split_and!; [by constructor|by left|].
    intros x m z _ Hx Hz. rewrite coalesce_used in Hx. apply (Hk x m); [done|]. unfold s_size, HEADER in *. lia.
  - destruct Hlegal as (x & n & Hx & Ha). pose proof (heap_used _ _ _ _ _ _ Hheap Hx) as Hrep.
    unfold st. kstep. exists T. split_and!; [by constructor|left; by apply (store_rep base h0 Hh0 s T x n)|].
    by intros y m z _ _ _.
Qed.

Lemma umalloc_refines_witness : exists base h0 can_grow,
  wp (serve base can_grow 20 (Malloc 10)) (fun a s' => exists T',
    tile_step h0 can_grow [] (Malloc 10) a T' /\ heap base h0 s' T' /\
    contents_kept h0 (Malloc 10) [] T' (Um (fun _ => 0) 0 h0) s') (Um (fun _ => 0) 0 h0).
Proof.
  exists 4096, 8192, (fun b n => b + n <=? TOP).
  apply umalloc_refines; [lia|unfold HEADER; lia|intros; by apply Z.leb_le|right; done|cbn; lia|cbn; lia].
Defined.
