(* ===== verification/ShRun.v ===== *)
(** * Running commands (userspace/sh.c)

    The shell's environment, [runcmd] and the main loop, as trees of system
    calls; and what [runcmd] does to descriptors: every program it starts has
    exactly the standard input, output and error that the command line gives
    it. The system calls are answered by [launch], a specification of the
    calls and not a model of the kernel's code: [fork] always succeeds, and
    [pipe], [open] and [dup] fail only for want of a descriptor or, for [open],
    as the argument [opens] says. *)

From stdpp Require Import prelude gmap strings.
From S2P Require Import Prelude StringC Ulib Usys Console Printf Sh.
#[local] Open Scope prog_scope.

(** ** Strings *)

Fixpoint strip (s : bytes) : bytes :=
  match s with
  | [] => []
  | c :: s => if c =? 0 then [] else if (c =? 9) || (c =? 10) then strip s else c :: strip s
  end.

(** Reading a line character by character; [n] is the room, without the NUL. *)
Fixpoint readln_loop (n : nat) (fd : Z) (l : bytes) : prog bytes :=
  match n with
  | O => Ret l
  | S n =>
    ' (cc, d) <- sysd (SRead fd 1) ;;
    if cc <? 1 then Ret l else
    let c := chr d in
    if (c =? 10) || (c =? 13) then Ret (l ++ [c]) else readln_loop n fd (l ++ [c])
  end.
Definition readln (max : Z) (fd : Z) : prog bytes := readln_loop (Z.to_nat (max - 1)) fd [].

(** The string without leading and trailing space; a string of space alone
    makes the loop from its end run past its beginning. *)
Fixpoint drop_space (l : bytes) : bytes :=
  match l with
  | c :: l' => if isspace c then drop_space l' else l
  | [] => []
  end.
Definition trim (orig : bytes) : option bytes :=
  let s := cstr orig in
  if forallb isspace s then None else Some (reverse (drop_space (reverse (drop_space s)))).

(** The decimal digits of [itoa], least significant first. *)
Fixpoint itoa_digits (fuel : nat) (v : Z) : bytes :=
  match fuel with
  | O => []
  | S fuel => (48 + v mod 10) :: (if v / 10 =? 0 then [] else itoa_digits fuel (v / 10))
  end.
Definition itoa (value : Z) : bytes :=
  (if value <? 0 then [45] else []) ++ reverse (itoa_digits 10 (Z.abs value)).

(** ** The environment

    A variable and the list of its values. [addToEnvironment] leaves the list
    uninitialised, so what follows the values added later is not known. *)

Record variable := Var { v_name : bytes; v_values : list bytes }.

Definition comp (s1 s2 : bytes) : bool := strcmp s1 s2 =? 0.

Fixpoint environLookup (name : bytes) (env : list variable) : option variable :=
  match env with
  | [] => None
  | v :: env => if comp name (v_name v) then Some v else environLookup name env
  end.

Fixpoint removeFromEnvironment (name : bytes) (env : list variable) : list variable :=
  match env with
  | [] => []
  | v :: env' =>
    if chr name =? 0 then env else if comp (v_name v) name then env' else v :: removeFromEnvironment name env'
  end.

Definition addToEnvironment (name : bytes) (env : list variable) : list variable := env ++ [Var (cstr name) []].

Fixpoint addValueToVariable (name : bytes) (env : list variable) (value : bytes) : list variable :=
  match env with
  | [] => []
  | v :: env =>
    if comp name (v_name v) then Var (v_name v) (cstr value :: v_values v) :: env
    else v :: addValueToVariable name env value
  end.

Definition MAX_VAR_LINE : Z := 1024.

(** The lines of the file up to the first without an equals sign. The pieces of
    a line are copied without a terminating NUL, which they have only when the
    allocator returned cleared memory ([zeroed]). *)
Fixpoint parseEnv_loop (fuel : nat) (zeroed : bool) (fp : Z) (env : list variable) : prog (list variable) :=
  match fuel with
  | O => Spin
  | S fuel =>
    line <- readln MAX_VAR_LINE fp ;;
    match strchr line 61 with
    | None => Ret env
    | Some eq =>
      let eqPos := (length line - length eq)%nat in
      if negb zeroed then Wild else
      match trim (take eqPos line), trim (drop (eqPos + 1) (cstr line)) with
      | Some name, Some value => parseEnv_loop fuel zeroed fp (addValueToVariable name (addToEnvironment name env) value)
      | _, _ => Wild
      end
    end
  end.

Definition parseEnvFile (fuel : nat) (zeroed : bool) (filename : bytes) (env : list variable) : prog (list variable) :=
  fp <- sys (SOpen filename O_RDONLY) ;;
  env <- parseEnv_loop fuel zeroed fp env ;;
  sys (SClose fp) ;;
  Ret env.

(** The parts of a path list. The field [next] of a new element is used before
    it is set; [zeroed] says that the allocator returned cleared memory. *)
Fixpoint getPaths_rec (fuel : nat) (zeroed : bool) (paths : bytes) : option (list bytes) :=
  match fuel with
  | O => None
  | S fuel =>
    match strchr paths 58 with
    | None => if bool_decide (1024 <= length paths)%nat then None else Some [paths]
    | Some r =>
      let n := (length paths - length r)%nat in
      if bool_decide (1024 <= n)%nat || negb zeroed then None else
      match getPaths_rec fuel zeroed (tail r) with
      | Some l => Some (take n paths :: l)
      | None => None
      end
    end
  end.
Definition getPaths (zeroed : bool) (paths : bytes) : option (list bytes) :=
  getPaths_rec (S (length paths)) zeroed paths.

(** ** Running a command *)

Definition sh_panic {A} (s : bytes) : prog A := fprintf stderr (str "%s" ++ [10]) [CStr s] ;; Exit 0.

Definition fork1 : prog Z :=
  pid <- sys SFork ;;
  if pid =? -1 then sh_panic (str "fork") else Ret pid.

Definition MAX_CMD_PATH_LEN : nat := 256.

(** [execv] along the path; it returns only when it fails. *)
Fixpoint exec_paths (paths : list bytes) (argv : list bytes) (a0 : bytes) : prog unit :=
  match paths with
  | [] => Ret tt
  | p :: paths =>
    if bool_decide (MAX_CMD_PATH_LEN <= length (p ++ a0))%nat then Wild else
    sys (SExecv (p ++ a0) argv) ;; exec_paths paths argv a0
  end.

Fixpoint runcmd (paths : list bytes) (c : cmd bytes) : prog unit :=
  match c with
  | EXEC argv =>
    match argv with
    | [] => Exit 0
    | a0 :: _ =>
      exec_paths paths argv a0 ;;
      fprintf stderr (str "sh: %s: command not found" ++ [10]) [CStr a0] ;;
      Exit 0
    end
  | REDIR c file mode fd =>
    sys (SClose fd) ;;
    r <- sys (SOpen file mode) ;;
    if r <? 0 then fprintf stderr (str "sh: %s: no such file or directory" ++ [10]) [CStr file] ;; Exit 0 else
    runcmd paths c
  | LIST l r =>
    pid <- fork1 ;;
    if pid =? 0 then runcmd paths l else
    sys SWait ;; runcmd paths r
  | PIPE l r =>
    ' (rc, p) <- sysd SPipe ;;
    if rc <? 0 then sh_panic (str "pipe") else
    let p0 := s32 (get32 p 0) in
    let p1 := s32 (get32 p 4) in
    pid <- fork1 ;;
    if pid =? 0 then
      sys (SClose 1) ;; sys (SDup p1) ;; sys (SClose p0) ;; sys (SClose p1) ;; runcmd paths l
    else
    pid <- fork1 ;;
    if pid =? 0 then
      sys (SClose 0) ;; sys (SDup p0) ;; sys (SClose p0) ;; sys (SClose p1) ;; runcmd paths r
    else
    sys (SClose p0) ;; sys (SClose p1) ;; sys SWait ;; sys SWait ;; Exit 0
  | BACK c =>
    pid <- fork1 ;;
    if pid =? 0 then runcmd paths c else Exit 0
  end.

(** ** The main loop *)

(** [gets]; [max] is its uninitialised bound, and the line must fit [nbuf]. *)
Definition gets_buf (max : Z) (nbuf : nat) : prog bytes :=
  l <- readln max 0 ;;
  if bool_decide (nbuf <= length l)%nat then Wild else Ret l.

(** [getcmd]: the buffer, cleared before the line is read into it. *)
Definition getcmd (max : Z) (nbuf : nat) : prog (option bytes) :=
  fprintf stderr (str "%s ") [CStr (str "$")] ;;
  l <- gets_buf max nbuf ;;
  if chr l =? 0 then Ret None else Ret (Some (l ++ replicate (nbuf - length l) 0)).

Definition starts (s : string) (buf : bytes) : bool := bool_decide (take (String.length s) buf = str s).

(** One line, after [cd], [exit] and comments have been dealt with. *)
Definition run_line (paths : list bytes) (buf : bytes) : prog unit :=
  pid <- fork1 ;;
  if pid =? 0 then
    match parsecmd buf with
    | Ok c buf => runcmd paths (Sh.strings buf c)
    | Panic msg => sh_panic (str msg)
    | _ => Wild
    end
  else sys SWait ;; Ret tt.

Fixpoint sh_loop (fuel : nat) (max : Z) (paths : list bytes) : prog unit :=
  match fuel with
  | O => Spin
  | S fuel =>
    o <- getcmd max 100 ;;
    match o with
    | None => Ret tt
    | Some buf =>
      if starts "cd " buf then
        let dir := drop 3 (strip buf) in
        r <- sys (SChdir dir) ;;
        (if r <? 0 then fprintf stderr (str "sh: cd: %s: no such file or directory" ++ [10]) [CStr dir] else Ret tt) ;;
        sh_loop fuel max paths
      else if starts "cd" buf then sys (SChdir (str "/root")) ;; sh_loop fuel max paths
      else if starts "exit" buf then Exit 0
      else if starts "#" buf then sh_loop fuel max paths
      else run_line paths buf ;; sh_loop fuel max paths
    end
  end.

(** [main]; freeing the environment at the end follows the uninitialised tail
    of the values. *)
Definition sh_main (fuel : nat) (zeroed : bool) (max : Z) : prog Z :=
  env <- parseEnvFile fuel zeroed (str "/etc/environment") [] ;;
  match environLookup (str "PATH") env with
  | Some (Var _ (v :: _)) =>
    match getPaths zeroed v with
    | None => Wild
    | Some paths =>
      printf [10] [] ;;
      sys (SChdir (str "/root")) ;;
      sh_loop fuel max paths ;;
      if zeroed then Ret 0 else Wild
    end
  | _ => Wild
  end.

(** ** Processes and descriptors

    What the system calls of [runcmd] do: descriptors name open files, a new
    one is the lowest that is free (of [NOFILE]), [fork] copies the table, and
    [execv] starts a program with it. Opening a file and finding a program
    depend on the file system, given as predicates. *)

Inductive ofile := Given (k : Z) | Opened (name : bytes) (mode : Z) | PipeR (id : nat) | PipeW (id : nat).

Record started := Started { st_path : bytes; st_argv : list bytes; st_fds : gmap Z ofile }.

Definition NOFILE : Z := 16.
Definition lowest (t : gmap Z ofile) : option Z := List.find (fun k => bool_decide (t !! k = None)) (seqZ 0 NOFILE).

Section processes.
Context (opens : bytes -> Z -> bool) (exists_prog : bytes -> bool).

(** The programs that [p] and the processes it forks start, in the order of the
    calls with a child before its parent; [n] numbers pipes. *)
Fixpoint launch {A} (p : prog A) (t : gmap Z ofile) (n : nat) : list started * nat :=
  match p with
  | Sys c k =>
    match c with
    | SFork =>
      let '(l1, n1) := launch (k 0 []) t n in
      let '(l2, n2) := launch (k 1 []) t n1 in
      (l1 ++ l2, n2)
    | SClose fd => launch (k (match t !! fd with Some _ => 0 | None => -1 end) []) (delete fd t) n
    | SDup fd =>
      match t !! fd, lowest t with
      | Some o, Some fd' => launch (k fd' []) (<[fd' := o]> t) n
      | _, _ => launch (k (-1) []) t n
      end
    | SPipe =>
      match lowest t with
      | Some r =>
        let t1 := <[r := PipeR n]> t in
        match lowest t1 with
        | Some w => launch (k 0 (le_bytes 4 r ++ le_bytes 4 w)) (<[w := PipeW n]> t1) (S n)
        | None => launch (k (-1) []) t n
        end
      | None => launch (k (-1) []) t n
      end
    | SOpen name mode =>
      match lowest t with
      | Some fd => if opens name mode then launch (k fd []) (<[fd := Opened name mode]> t) n else launch (k (-1) []) t n
      | None => launch (k (-1) []) t n
      end
    | SExecv path argv => if exists_prog path then ([Started path argv t], n) else launch (k (-1) []) t n
    | _ => launch (k 1 []) t n
    end
  | _ => ([], n)
  end.

(** The table with the three standard descriptors and nothing else. *)
Definition std (i o e : ofile) : gmap Z ofile := {[0 := i; 1 := o; 2 := e]}.

(** What a command line means: the programs it starts, each with its standard
    input, output and error. The program of a simple command is the first the
    path finds. *)
Definition first_prog (paths : list bytes) (a0 : bytes) : option bytes :=
  List.find (fun f => exists_prog f) ((fun p => p ++ a0) <$> paths).

Fixpoint wires (paths : list bytes) (c : cmd bytes) (i o e : ofile) (n : nat) : list started * nat :=
  match c with
  | EXEC argv =>
    match argv with
    | [] => ([], n)
    | a0 :: _ =>
      match first_prog paths a0 with
      | Some f => ([Started f argv (std i o e)], n)
      | None => ([], n)
      end
    end
  | REDIR c file mode fd =>
    if opens file mode then
      if fd =? 0 then wires paths c (Opened file mode) o e n else wires paths c i (Opened file mode) e n
    else ([], n)
  | PIPE l r =>
    let '(l1, n1) := wires paths l i (PipeW n) e (S n) in
    let '(l2, n2) := wires paths r (PipeR n) o e n1 in
    (l1 ++ l2, n2)
  | LIST l r =>
    let '(l1, n1) := wires paths l i o e n in
    let '(l2, n2) := wires paths r i o e n1 in
    (l1 ++ l2, n2)
  | BACK c => wires paths c i o e n
  end.

(** Redirections are those of the parser; the names fit the buffer of [runcmd]. *)
Fixpoint runnable (paths : list bytes) (c : cmd bytes) : Prop :=
  match c with
  | EXEC argv =>
    match argv with
    | [] => True
    | a0 :: _ => Forall (fun p => length (p ++ a0) < MAX_CMD_PATH_LEN)%nat paths
    end
  | REDIR c _ _ fd => (fd = 0 \/ fd = 1) /\ runnable paths c
  | PIPE l r | LIST l r => runnable paths l /\ runnable paths r
  | BACK c => runnable paths c
  end.

(** ** The calls of [runcmd] *)

Lemma launch_assoc {A B C} (p : prog A) (f : A -> prog B) (g : B -> prog C) t n :
  launch (pbind (pbind p f) g) t n = launch (pbind p (fun x => pbind (f x) g)) t n.
Proof.
  revert t n. induction p as [a|c k IH|s| |]; intros t n; [done| |done..]. cbn [pbind launch].
  destruct c; rewrite ?IH; try done; repeat case_match; rewrite ?IH in *; congruence.
Qed.

(** Messages do not start programs. *)
Lemma launch_putcs {A} fd l (q : prog A) t n : launch (putcs fd l ;; q) t n = launch q t n.
Proof. induction l as [|c l IH]; [done|]. cbn. exact IH. Qed.

Lemma launch_message {A} fd fmt pct args t n : launch (printf_loop fd pct fmt args ;; (Exit 0 : prog A)) t n = ([], n).
Proof.
  revert pct args. induction fmt as [|c fmt IH]; intros pct args; [done|]. cbn [printf_loop].
  destruct (c =? 0); [done|]. destruct pct; cbn [negb].
  - unfold printint64, printint. repeat case_match; try done; try (rewrite launch_assoc, launch_putcs; apply IH);
      cbn; apply IH.
  - destruct (c =? 37); [apply IH|]. cbn. apply IH.
Qed.

Lemma launch_fprintf {A} fd fmt args t n : launch (fprintf fd fmt args ;; (Exit 0 : prog A)) t n = ([], n).
Proof. unfold fprintf. apply launch_message. Qed.

Lemma launch_fork {A} (f : Z -> prog A) t n : launch (pbind fork1 f) t n =
  let '(l1, n1) := launch (f 0) t n in let '(l2, n2) := launch (f 1) t n1 in (l1 ++ l2, n2).
Proof. done. Qed.

(** [execv] along the path starts the first program there is. *)
Lemma launch_exec paths argv a0 (q : prog unit) t n :
  Forall (fun p => length (p ++ a0) < MAX_CMD_PATH_LEN)%nat paths -> launch q t n = ([], n) ->
  launch (exec_paths paths argv a0 ;; q) t n =
    match first_prog paths a0 with Some f => ([Started f argv t], n) | None => ([], n) end.
Proof.
  intros Hp Hq. induction Hp as [|p paths Hl _ IH]; [done|]. cbn [exec_paths].
  rewrite bool_decide_false by lia. rewrite launch_assoc. cbn [sys pbind launch].
  unfold first_prog. cbn [fmap list_fmap List.find]. destruct (exists_prog (p ++ a0)); [done|exact IH].
Qed.

(** The descriptors of the two ends of a pipe in a table of three. *)
Lemma pipe_tables i o e (r w : ofile) :
  let t := <[4 := w]> (<[3 := r]> (std i o e)) in
  lowest (std i o e) = Some 3 /\ lowest (<[3 := r]> (std i o e)) = Some 4 /\
  lowest (delete 1 t) = Some 1 /\ delete 1 t !! 4 = Some w /\ delete 4 (delete 3 (<[1 := w]> (delete 1 t))) = std i w e /\
  lowest (delete 0 t) = Some 0 /\ delete 0 t !! 3 = Some r /\ delete 4 (delete 3 (<[0 := r]> (delete 0 t))) = std r o e /\
  delete 4 (delete 3 t) = std i o e.
Proof. split_and!; vm_compute; reflexivity. Qed.

Lemma redir_tables i o e x :
  lowest (delete 0 (std i o e)) = Some 0 /\ <[0 := x]> (delete 0 (std i o e)) = std x o e /\
  lowest (delete 1 (std i o e)) = Some 1 /\ <[1 := x]> (delete 1 (std i o e)) = std i x e.
Proof. split_and!; vm_compute; reflexivity. Qed.

Lemma launch_close {A} fd (f : Z -> prog A) (q : prog A) t n : (forall r, f r = q) ->
  launch (pbind (sys (SClose fd)) f) t n = launch q (delete fd t) n.
Proof. intros Hf. cbn. by rewrite Hf. Qed.

Lemma launch_dup {A} fd fd' o (q : prog A) t n : t !! fd = Some o -> lowest t = Some fd' ->
  launch (sys (SDup fd) ;; q) t n = launch q (<[fd' := o]> t) n.
Proof. intros Ho Hl. cbn. by rewrite Ho, Hl. Qed.

Lemma launch_open {A} name mode fd (f : Z -> prog A) t n : lowest t = Some fd ->
  launch (pbind (sys (SOpen name mode)) f) t n =
  if opens name mode then launch (f fd) (<[fd := Opened name mode]> t) n else launch (f (-1)) t n.
Proof. intros Hl. cbn [sys pbind launch]. by rewrite Hl. Qed.

Lemma launch_pipe {A} (f : Z * bytes -> prog A) i o e n :
  launch (pbind (sysd SPipe) f) (std i o e) n =
  launch (f (0, le_bytes 4 3 ++ le_bytes 4 4)) (<[4 := PipeW n]> (<[3 := PipeR n]> (std i o e))) (S n).
Proof.
  destruct (pipe_tables i o e (PipeR n) (PipeW n)) as (E1 & E2 & _). cbn [sysd pbind launch]. by rewrite E1, E2.
Qed.

(** Both ends of a pipe, on the programs of the two sides. *)
Lemma launch_ends (ql qr : prog unit) p0 p1 i o e n : p0 = 3 -> p1 = 4 ->
  launch (
    pid <- fork1 ;;
    if pid =? 0 then sys (SClose 1) ;; sys (SDup p1) ;; sys (SClose p0) ;; sys (SClose p1) ;; ql
    else
    pid <- fork1 ;;
    if pid =? 0 then sys (SClose 0) ;; sys (SDup p0) ;; sys (SClose p0) ;; sys (SClose p1) ;; qr
    else sys (SClose p0) ;; sys (SClose p1) ;; sys SWait ;; sys SWait ;; Exit 0)
    (<[4 := PipeW n]> (<[3 := PipeR n]> (std i o e))) (S n) =
  let '(l1, n1) := launch ql (std i (PipeW n) e) (S n) in
  let '(l2, n2) := launch qr (std (PipeR n) o e) n1 in (l1 ++ l2, n2).
Proof.
  intros -> ->. pose proof (pipe_tables i o e (PipeR n) (PipeW n)) as E. cbv zeta in E.
  destruct E as (_ & _ & E3 & E4 & E5 & E6 & E7 & E8 & E9).
  generalize dependent (<[4 := PipeW n]> (<[3 := PipeR n]> (std i o e))). intros t E3 E4 E5 E6 E7 E8 E9.
  rewrite launch_fork. cbn [Z.eqb].
  rewrite (launch_close 1 _ _ _ _ (fun r => eq_refl)), (launch_dup 4 1 _ _ _ _ E4 E3).
  rewrite (launch_close 3 _ _ _ _ (fun r => eq_refl)), (launch_close 4 _ _ _ _ (fun r => eq_refl)), E5.
  destruct (launch ql (std i (PipeW n) e) (S n)) as [l1 n1]. rewrite launch_fork. cbn [Z.eqb].
  rewrite (launch_close 0 _ _ _ _ (fun r => eq_refl)), (launch_dup 3 0 _ _ _ _ E7 E6).
  rewrite (launch_close 3 _ _ _ _ (fun r => eq_refl)), (launch_close 4 _ _ _ _ (fun r => eq_refl)), E8.
  destruct (launch qr (std (PipeR n) o e) n1) as [l2 n2].
  rewrite (launch_close 3 _ _ _ _ (fun r => eq_refl)), (launch_close 4 _ _ _ _ (fun r => eq_refl)), E9.
  generalize (std i o e). intros t'. cbn. by rewrite app_nil_r.
Qed.

(** A redirection, on the program it applies to. *)
Lemma launch_redir (q : prog unit) file mode fd i o e n : fd = 0 \/ fd = 1 ->
  launch (
    sys (SClose fd) ;;
    r <- sys (SOpen file mode) ;;
    if r <? 0 then fprintf stderr (str "sh: %s: no such file or directory" ++ [10]) [CStr file] ;; Exit 0 else q)
    (std i o e) n =
  if opens file mode then
    if fd =? 0 then launch q (std (Opened file mode) o e) n else launch q (std i (Opened file mode) e) n
  else ([], n).
Proof.
  intros Hfd. destruct (redir_tables i o e (Opened file mode)) as (E1 & E2 & E3 & E4). revert E1 E2 E3 E4.
  generalize (std i o e), (std (Opened file mode) o e), (std i (Opened file mode) e). intros t t0 t1 E1 E2 E3 E4.
  rewrite (launch_close fd _ _ _ _ (fun r => eq_refl)).
  destruct Hfd as [-> | ->]; [rewrite (launch_open _ _ 0) by done|rewrite (launch_open _ _ 1) by done];
    (destruct (opens file mode); [by rewrite ?E2, ?E4|]); destruct (Z.ltb_spec (-1) 0); (lia || apply launch_fprintf).
Qed.

Lemma runcmd_launches paths c i o e n : runnable paths c ->
  launch (runcmd paths c) (std i o e) n = wires paths c i o e n.
Proof.
  revert i o e n. induction c as [argv|c IH file mode fd|l IHl r IHr|l IHl r IHr|c IH]; intros i o e n; cbn [runnable].
  - destruct argv as [|a0 argv]; [done|]. intros Hp. cbn [runcmd wires].
    rewrite launch_exec; [done|done|]. apply launch_fprintf.
  - intros [Hfd Hc]. cbn [runcmd wires]. rewrite launch_redir by done.
    destruct (opens file mode); [|done]. destruct (fd =? 0); by apply IH.
  - intros [Hl Hr]. cbn [runcmd wires]. rewrite launch_pipe. cbv beta iota zeta.
    destruct (Z.ltb_spec 0 0); [lia|]. rewrite launch_ends by (vm_compute; reflexivity).
    rewrite IHl by done. destruct (wires paths l i (PipeW n) e (S n)) as [l1 n1]. by rewrite IHr.
  - intros [Hl Hr]. cbn [runcmd wires]. rewrite launch_fork. cbn [Z.eqb]. rewrite IHl by done.
    destruct (wires paths l i o e n) as [l1 n1]. cbn [sys pbind launch]. by rewrite IHr.
  - intros Hc. cbn [runcmd wires]. rewrite launch_fork. cbn [Z.eqb]. rewrite IH by done.
    destruct (wires paths c i o e n) as [l1 n1]. cbn [launch]. by rewrite app_nil_r.
Qed.
End processes.

(** ** From the text to the programs *)

Lemma lex_words l w v : TWord v ∈ lex w l -> (length v <= length w + length l)%nat.
Proof.
  revert w. induction l as [l IH] using (well_founded_induction (well_founded_ltof _ (@length Z))). intros w.
  assert (forall w ts, TWord v ∈ flush w ts -> v = w \/ TWord v ∈ ts) as Hfl.
  { intros w' ts. destruct w' as [|x w']; [by right|]. intros [[= ->]|H]%elem_of_cons; auto. }
  assert (forall l', (length l' < length l)%nat -> forall w', TWord v ∈ lex w' l' -> (length v <= length w' + length l')%nat)
    as IH' by (intros l' Hl' w'; apply IH; exact Hl').
  clear IH. destruct l as [|c l]; cbn [lex length] in *.
  { intros [->|H]%Hfl; [lia|by apply not_elem_of_nil in H]. }
  destruct (is_ws c).
  { intros [->|H]%Hfl; [lia|]. apply IH' in H; cbn in *; lia. }
  destruct (negb (is_sym c)).
  { intros H. apply IH' in H; [|lia]. rewrite length_app in H. cbn in H. lia. }
  intros [->|H]%Hfl; [lia|]. destruct l as [|d l]; cbn [length] in *.
  - apply list_elem_of_singleton in H. done.
  - destruct ((c =? 62) && (d =? 62)); apply elem_of_cons in H as [H|H]; try done; apply IH' in H; cbn in *; lia.
Qed.

Lemma runnable_redirs paths c rs : runnable paths c -> runnable paths (foldl redirect c rs).
Proof.
  revert c. induction rs as [|[[] f] rs IH]; intros c Hc; [done|..]; cbn; apply IH; cbn; auto.
Qed.

Lemma runnable_backs paths c n : runnable paths c -> runnable paths (Nat.iter n BACK c).
Proof. intros Hc. induction n as [|n IH]; [done|exact IH]. Qed.

(** A command whose words are short enough for the buffer of [runcmd]. *)
Lemma runnable_mean paths N : Forall (fun p => length p + N < MAX_CMD_PATH_LEN)%nat paths ->
  (forall l, (forall w, TWord w ∈ toks_line l -> (length w <= N)%nat) -> runnable paths (mean_line l)) /\
  (forall p, (forall w, TWord w ∈ toks_pipe p -> (length w <= N)%nat) -> runnable paths (mean_pipe p)) /\
  (forall e, (forall w, TWord w ∈ toks_exec e -> (length w <= N)%nat) -> runnable paths (mean_exec e)).
Proof.
  intros Hp. apply grammar_ind; cbn [toks_line toks_pipe toks_exec mean_line mean_pipe mean_exec].
  - intros p IH n Hw. apply runnable_backs, IH. set_solver.
  - intros p IHp n l IHl Hw. split; [apply runnable_backs, IHp|apply IHl]; set_solver.
  - intros e IH Hw. apply IH. set_solver.
  - intros e IHe p IHp Hw. split; [apply IHe|apply IHp]; set_solver.
  - intros l IH rs Hw. apply runnable_redirs, IH. set_solver.
  - intros rs args Hw. apply runnable_redirs. destruct args as [|[a0 r] args]; [done|]. cbn.
    eapply Forall_impl; [exact Hp|]. cbn. intros p Hl. rewrite length_app.
    assert (length a0 <= N)%nat; [|lia]. apply Hw. cbn. set_solver.
Qed.

(** C6. The shell runs what the line means. For a line that is a sentence of
    the grammar, the child that the main loop forks, and the processes it forks
    in turn, start exactly the programs of the line, each with the standard
    input, output and error that its pipes and redirections give it and with no
    other descriptor open; for any other line nothing is started. Which files
    can be opened and which programs exist is arbitrary. *)
Theorem shell_runs_line opens exists_prog paths buf i o e n :
  (length (cstr buf) < length buf)%nat ->
  Forall (fun p => length p + length (cstr buf) < MAX_CMD_PATH_LEN)%nat paths ->
  let result := launch opens exists_prog (run_line paths buf) (std i o e) n in
  (forall l, small_line l -> lex [] (cstr buf) = toks_line l ->
     result = wires opens exists_prog paths (mean_line l) i o e n) /\
  ((forall l, small_line l -> lex [] (cstr buf) <> toks_line l) -> result = ([], n)).
Proof.
  intros Hb Hp result. unfold result, run_line. split.
  - intros l Hl E. destruct (parsecmd_accepts buf l Hb Hl E) as (c & buf' & Ec & Es).
    rewrite launch_fork, Ec. cbn [Z.eqb]. rewrite Es, runcmd_launches.
    + destruct (wires _ _ _ _ _ _ _ _) as [l1 n1]. cbn. by rewrite app_nil_r.
    + apply (proj1 (runnable_mean paths (length (cstr buf)) Hp)). intros w. rewrite <- E. apply (lex_words _ []).
  - intros Hno. pose proof (parsecmd_spec buf Hb) as H. rewrite launch_fork.
    destruct (parsecmd buf) as [c buf'|msg| | | |]; [|cbn [Z.eqb]|done..].
    + destruct H as (l & Hl & E & _). by apply Hno in E.
    + unfold sh_panic. rewrite launch_fprintf. done.
Qed.

(** [ls<in|wc>out] with one directory in the path. *)
Definition demo_run : bytes := str "ls<in|wc>out" ++ [10; 0].

Lemma shell_runs_line_witness :
  let result := launch (fun _ _ => true) (fun _ => true) (run_line [str "/bin/"] demo_run) (std (Given 0) (Given 1) (Given 2)) 0 in
  result = ([Started (str "/bin/ls") [str "ls"] (std (Opened (str "in") 0) (PipeW 0) (Given 2));
             Started (str "/bin/wc") [str "wc"] (std (PipeR 0) (Opened (str "out") 257) (Given 2))], 1%nat) /\
  (forall l, small_line l -> lex [] (cstr demo_run) = toks_line l ->
     result = wires (fun _ _ => true) (fun _ => true) [str "/bin/"] (mean_line l) (Given 0) (Given 1) (Given 2) 0) /\
  ((forall l, small_line l -> lex [] (cstr demo_run) <> toks_line l) -> result = ([], 0%nat)).
Proof.
  split; [vm_compute; reflexivity|].
  apply (shell_runs_line (fun _ _ => true) (fun _ => true) [str "/bin/"] demo_run (Given 0) (Given 1) (Given 2) 0).
  - vm_compute. lia.
  - apply Forall_singleton. vm_compute. lia.
Defined.
